(** * A shallow embedding of the W3E terrain codec

    The development follows the two source files of the repository:

    - [BitStream]: the bit-addressable stream over a [Uint8Array]
      (the stream class, [readUBits], [writeUBits] and the typed accessors
      built from them);
    - [TerrainUtil]: [decodeW3e] and [encodeW3e], the fixed linear pass
      over the header and the 7-byte corner records.

    Conventions of the embedding.

    - A JavaScript [number] that the code uses as an integer (counts,
      bit fields, character codes, byte values, the bit cursor) is a [Z];
      every bit operator writes out its [ToInt32] / [ToUint32] wrap-around.
      Integer-valued numbers are exact in JavaScript below [2^53].
    - A [number] that the code uses as a real quantity ([groundHeight],
      [waterHeight], [x], [y]) is a primitive binary64 [float], the very
      format of a JavaScript number.
    - A [Uint8Array] is a [list byte]; a string is the list of its UTF-16
      code units.
    - The stream methods mutate [this]; here they are functions in a state
      and exception monad over the record [BitStream.t]. *)

From Stdlib Require Import ZArith QArith Qabs List Lia Bool.
From Stdlib.Strings Require Import Byte Ascii String.
From Stdlib Require Import PrimFloat FloatOps SpecFloat Uint63 FloatAxioms.
From stdpp Require Import base list.
Import ListNotations.

Local Open Scope Z_scope.

(** ** JavaScript integers, strings and numbers *)

Module JS.

(** [ToUint32] and [ToInt32] of an integer-valued number. *)
Definition ToUint32 (z : Z) : Z := Z.land z 4294967295.

Definition ToInt32 (z : Z) : Z :=
  let u := ToUint32 z in
  if 2147483648 <=? u then u - 4294967296 else u.

(** [a << k], [a >> k], [a >>> k], [a & b], [a | b], [~a]. *)
Definition shl (a k : Z) : Z := ToInt32 (Z.shiftl (ToInt32 a) (Z.land k 31)).
Definition sar (a k : Z) : Z := Z.shiftr (ToInt32 a) (Z.land k 31).
Definition shr (a k : Z) : Z := Z.shiftr (ToUint32 a) (Z.land k 31).
Definition and (a b : Z) : Z := Z.land (ToInt32 a) (ToInt32 b).
Definition or (a b : Z) : Z := Z.lor (ToInt32 a) (ToInt32 b).
Definition not (a : Z) : Z := Z.lnot (ToInt32 a).

(** [Math.floor(a / b)] and [Math.ceil(a / b)] for integers [a] and a
    positive integer [b]; [a % b] is the truncating remainder. *)
Definition floor_div (a b : Z) : Z := a / b.
Definition ceil_div (a b : Z) : Z := - ((- a) / b).
Definition rem (a b : Z) : Z := Z.rem a b.

(** Strings are sequences of UTF-16 code units. *)
Abbreviation JSString := (list Z) (only parsing).

Definition str (s : string) : JSString :=
  List.map (fun a => Z.of_N (N_of_ascii a)) (list_ascii_of_string s).

(** [String.fromCharCode(c)] *)
Definition fromCharCode (c : Z) : JSString := [Z.land c 65535].

(** [s.charCodeAt(0) || 0]: the first code unit, [0] when [s] is empty
    ([NaN || 0]) *)
Definition charCodeAt0_or_0 (s : JSString) : Z :=
  match s with
  | [] => 0
  | c :: _ => c
  end.

(** [s[i] || '\0']: a one-character string is truthy, [undefined] is not. *)
Definition char_or_nul (s : JSString) (i : nat) : JSString :=
  match s !! i with
  | Some c => [c]
  | None => [0]
  end.

(** The number whose value is the integer [z] (exact for [|z| < 2^53],
    correctly rounded beyond). *)
Definition of_int (z : Z) : float :=
  if (0 <=? z) && (z <? 9007199254740992)
  then PrimFloat.of_uint63 (Uint63.of_Z z)
  else SF2Prim (binary_normalize prec emax z 0 false).

(** [Math.round(x)], read as an integer: the integer nearest to [x], ties
    towards +infinity, computed exactly from the binary expansion of [x].
    [Math.round] returns [NaN] and the infinities unchanged; both callers
    feed the result to a bit operator, whose integer conversion sends
    those three values to [0], which is what this function returns for
    them. *)
Definition Math_round (x : float) : Z :=
  match Prim2SF x with
  | S754_finite s m e =>
      let sm := if s then Z.neg m else Z.pos m in
      if 0 <=? e then Z.shiftl sm e
      else Z.shiftr (2 * sm + Z.shiftl 1 (- e)) (1 - e)
  | _ => 0
  end.

End JS.

Declare Scope js_scope.
Delimit Scope js_scope with js.
Infix "<<" := JS.shl (at level 30, no associativity) : js_scope.
Infix ">>" := JS.sar (at level 30, no associativity) : js_scope.
Infix ">>>" := JS.shr (at level 30, no associativity) : js_scope.
Infix ".&" := JS.and (at level 40, left associativity) : js_scope.
Infix ".|" := JS.or (at level 50, left associativity) : js_scope.
Notation ".~ a" := (JS.not a) (at level 25) : js_scope.
Local Open Scope js_scope.

(** ** Typed arrays *)

Abbreviation Uint8Array := (list byte) (only parsing).

Definition byte_to_Z (b : byte) : Z := Z.of_N (Byte.to_N b).

(** Storing a number in a [Uint8Array] keeps its low 8 bits. *)
Definition ToUint8 (z : Z) : byte :=
  match Byte.of_N (Z.to_N (Z.land z 255)) with
  | Some b => b
  | None => x00
  end.

(** [new Uint8Array(n)] *)
Definition new_Uint8Array (n : Z) : Uint8Array := replicate (Z.to_nat n) x00.

(** [a[i]] used as an operand of a bit operator: [undefined] converts
    to [0]. *)
Definition get_byte (a : Uint8Array) (i : Z) : Z :=
  if i <? 0 then 0
  else match a !! Z.to_nat i with
       | Some b => byte_to_Z b
       | None => 0
       end.

(** [a[i] = v]: an index outside the array is ignored. *)
Definition set_byte (a : Uint8Array) (i : Z) (v : Z) : Uint8Array :=
  if i <? 0 then a else <[Z.to_nat i := ToUint8 v]> a.

(** ** [DataView.getFloat32] / [setFloat32], little endian

    The platform functions the stream calls to reinterpret four bytes as an
    IEEE-754 binary32 value.  [setFloat32] rounds the binary64 number to
    binary32 (nearest, ties to even) and stores its bit pattern;
    [getFloat32] widens the stored binary32 value, which is exact. *)

Module DataView.

Definition bits_of_SF (f : spec_float) : Z :=
  let sign (s : bool) := if s then 2147483648 else 0 in
  match f with
  | S754_zero s => sign s
  | S754_infinity s => sign s + 2139095040
  | S754_nan => 2143289344
  | S754_finite s m e =>
      if 8388608 <=? Z.pos m
      then sign s + (e + 150) * 8388608 + (Z.pos m - 8388608)
      else sign s + Z.pos m
  end.

Definition SF_of_bits (w : Z) : spec_float :=
  let s := Z.testbit w 31 in
  let ex := Z.land (Z.shiftr w 23) 255 in
  let mant := Z.land w 8388607 in
  if ex =? 0 then
    match mant with
    | Z.pos m => S754_finite s m (-149)
    | _ => S754_zero s
    end
  else if ex =? 255 then
    (if mant =? 0 then S754_infinity s else S754_nan)
  else
    match mant + 8388608 with
    | Z.pos m => S754_finite s m (ex - 150)
    | _ => S754_zero s
    end.

(** The binary32 bit pattern of the number [x]. *)
Definition float32_bits (x : float) : Z :=
  match Prim2SF x with
  | S754_finite s m e => bits_of_SF (binary_round 24 128 s m e)
  | f => bits_of_SF f
  end.

(** [new DataView(temp.buffer).setFloat32(0, x, true)]: the four bytes
    left in [temp]. *)
Definition setFloat32 (x : float) : Uint8Array :=
  let w := float32_bits x in
  [ToUint8 w; ToUint8 (Z.shiftr w 8); ToUint8 (Z.shiftr w 16); ToUint8 (Z.shiftr w 24)].

(** [new DataView(temp.buffer).getFloat32(0, true)] *)
Definition getFloat32 (temp : Uint8Array) : float :=
  let w := get_byte temp 0 + Z.shiftl (get_byte temp 1) 8
           + Z.shiftl (get_byte temp 2) 16 + Z.shiftl (get_byte temp 3) 24 in
  SF2Prim (SF_of_bits w).

(** [Math.fround(x)]: what a number becomes when it goes through a
    binary32 slot. *)
Definition fround (x : float) : float := getFloat32 (setFloat32 x).

End DataView.

(** A number is a binary32 value when storing it in a binary32 slot and
    reading it back leaves it unchanged. *)
Definition is_float32 (x : float) : Prop := DataView.fround x = x.


(** ** Outcomes of a method call *)

(** The three [throw new Error(...)] statements of the stream class. *)
Inductive Error : Type :=
  | CannotWriteInReadMode
  | CannotReadInWriteMode
  | CannotGetBufferInReadMode.

Definition message (e : Error) : string :=
  match e with
  | CannotWriteInReadMode => "Cannot write in read mode."
  | CannotReadInWriteMode => "Cannot read in write mode."
  | CannotGetBufferInReadMode => "Cannot get buffer in read mode."
  end.

(** The error taxonomy of the specification. *)
Inductive ErrorKind : Type :=
  | ModeViolation
  | UnexpectedEndOfInput.

(** Every error the code can raise reports a call made in the wrong mode. *)
Definition kind_of (e : Error) : ErrorKind :=
  match e with
  | CannotWriteInReadMode => ModeViolation
  | CannotReadInWriteMode => ModeViolation
  | CannotGetBufferInReadMode => ModeViolation
  end.

(** A call returns a value, throws, or runs forever (the doubling loop of
    [_ensureCapacity] is the only unbounded loop of the program). *)
Inductive Outcome (A : Type) : Type :=
  | Return (a : A)
  | Throw (e : Error)
  | Diverge.

Arguments Return {A} a.
Arguments Throw {A} e.
Arguments Diverge {A}.

Definition fails_with {A : Type} (o : Outcome A) (k : ErrorKind) : Prop :=
  exists e, o = Throw e /\ kind_of e = k.

(** ** The bit stream *)

Module BitStream.

Record t : Type := mk {
  buffer : Uint8Array;
  bitPosition : Z;
  isWriting : bool
}.

(** [constructor(buffer?)]: a typed array is always truthy. *)
Definition new (buffer : option Uint8Array) : t :=
  match buffer with
  | Some b => mk b 0 false
  | None => mk (new_Uint8Array 1024) 0 true
  end.

(** Methods are state transformers that may throw. *)
Definition M (A : Type) : Type := t -> Outcome (A * t).

Definition ret {A : Type} (a : A) : M A := fun s => Return (a, s).

Definition bind {A B : Type} (m : M A) (k : A -> M B) : M B :=
  fun s =>
    match m s with
    | Return (a, s') => k a s'
    | Throw e => Throw e
    | Diverge => Diverge
    end.

(** [this.bitPosition -= n] *)
Definition rewind (n : Z) : M unit :=
  fun s => Return (tt, mk (buffer s) (bitPosition s - n) (isWriting s)).

Definition when (b : bool) (m : M unit) : M unit := if b then m else ret tt.

End BitStream.

Declare Scope stream_scope.
Delimit Scope stream_scope with stream.
Notation "x <- m ;; k" := (BitStream.bind m (fun x => k))
  (at level 100, m at next level, right associativity) : stream_scope.
Notation "m ;; k" := (BitStream.bind m (fun _ => k))
  (at level 100, right associativity) : stream_scope.
Local Open Scope stream_scope.

Module BitStreamOps.
Import BitStream.

(** [for (let i = from; i < from + n; i++) acc = body(i, acc)] *)
Fixpoint for_ {A : Type} (n : nat) (i : Z) (body : Z -> A -> M A) (acc : A) : M A :=
  match n with
  | O => ret acc
  | S n' => acc' <- body i acc ;; for_ n' (i + 1) body acc'
  end.

(** [for (const x of l) body(x)] *)
Fixpoint for_of {A : Type} (l : list A) (body : A -> M unit) : M unit :=
  match l with
  | [] => ret tt
  | a :: l' => body a ;; for_of l' body
  end.

(** [while (newLength < requiredBytes) newLength *= 2], with the number
    of iterations still allowed; [None] when they do not suffice.  Called
    with [requiredBytes] iterations allowed, it runs out only when
    [newLength] is not positive, which is when the loop never ends. *)
Fixpoint double_until (fuel : nat) (newLength requiredBytes : Z) : option Z :=
  if newLength <? requiredBytes then
    match fuel with
    | O => None
    | S fuel' => double_until fuel' (newLength * 2) requiredBytes
    end
  else Some newLength.

(** Memory is taken to be unbounded here: [new Uint8Array(newLength)] is
    granted whatever the length.  [LimitedOps._ensureCapacity] below is the
    method on an engine that refuses a typed array longer than a limit. *)
Definition _ensureCapacity (bitsToWrite : Z) : M unit :=
  fun s =>
    if negb (isWriting s) then Throw CannotWriteInReadMode
    else
      let requiredBytes := JS.ceil_div (bitPosition s + bitsToWrite) 8 in
      let len := Z.of_nat (length (buffer s)) in
      if len <? requiredBytes then
        match double_until (Z.to_nat requiredBytes) (len * 2) requiredBytes with
        | Some newLength =>
            let newBuffer := buffer s ++ new_Uint8Array (newLength - len) in
            Return (tt, mk newBuffer (bitPosition s) (isWriting s))
        | None => Diverge
        end
      else Return (tt, s).

(** The loop of [readUBits]: [n] iterations left, stopping early at the
    end of the buffer. *)
Fixpoint readUBits_loop (n : nat) (buf : Uint8Array) (pos value : Z) : Z * Z :=
  match n with
  | O => (value, pos)
  | S n' =>
      let byteIndex := JS.floor_div pos 8 in
      let bitInByteIndex := JS.rem pos 8 in
      if Z.of_nat (length buf) <=? byteIndex then (value, pos)
      else
        let currentByte := get_byte buf byteIndex in
        let bit := (currentByte >> (7 - bitInByteIndex)) .& 1 in
        readUBits_loop n' buf (pos + 1) ((value << 1) .| bit)
  end.

Definition readUBits (bits : nat) (changeOffset : bool) : M Z :=
  fun s =>
    if isWriting s then Throw CannotReadInWriteMode
    else
      let '(value, pos) := readUBits_loop bits (buffer s) (bitPosition s) 0 in
      let pos' := if changeOffset then pos else pos - Z.of_nat bits in
      Return (value >>> 0, mk (buffer s) pos' (isWriting s)).

(** The loop of [writeUBits]: [i] runs from [n - 1] down to [0]. *)
Fixpoint writeUBits_loop (n : nat) (value : Z) (buf : Uint8Array) (pos : Z)
  : Uint8Array * Z :=
  match n with
  | O => (buf, pos)
  | S i =>
      let byteIndex := JS.floor_div pos 8 in
      let bitInByteIndex := JS.rem pos 8 in
      let bit := (value >> Z.of_nat i) .& 1 in
      let currentByte := get_byte buf byteIndex in
      let buf' := set_byte buf byteIndex
                    ((currentByte .& .~ (1 << (7 - bitInByteIndex)))
                     .| (bit << (7 - bitInByteIndex))) in
      writeUBits_loop i value buf' (pos + 1)
  end.

Definition writeUBits (value : Z) (bits : nat) : M unit :=
  _ensureCapacity (Z.of_nat bits) ;;
  fun s =>
    let '(buf, pos) := writeUBits_loop bits value (buffer s) (bitPosition s) in
    Return (tt, mk buf pos (isWriting s)).

Definition readUInt8 (changeOffset : bool) : M Z := readUBits 8 changeOffset.
Definition writeUInt8 (value : Z) : M unit := writeUBits value 8.

Definition readInt8 (changeOffset : bool) : M Z :=
  unsigned <- readUBits 8 changeOffset ;;
  ret ((unsigned << 24) >> 24).
Definition writeInt8 (value : Z) : M unit := writeUBits value 8.

Definition readUInt16 (changeOffset : bool) : M Z :=
  byte0 <- readUBits 8 true ;;
  byte1 <- readUBits 8 true ;;
  when (negb changeOffset) (rewind 16) ;;
  ret (byte0 .| (byte1 << 8)).
Definition writeUInt16 (value : Z) : M unit :=
  writeUBits (value .& 255) 8 ;;
  writeUBits ((value >> 8) .& 255) 8.

Definition readInt16 (changeOffset : bool) : M Z :=
  unsigned <- readUInt16 changeOffset ;;
  ret ((unsigned << 16) >> 16).
Definition writeInt16 (value : Z) : M unit := writeUInt16 value.

Definition readUInt32 (changeOffset : bool) : M Z :=
  b0 <- readUBits 8 true ;;
  b1 <- readUBits 8 true ;;
  b2 <- readUBits 8 true ;;
  b3 <- readUBits 8 true ;;
  when (negb changeOffset) (rewind 32) ;;
  ret ((b0 .| (b1 << 8) .| (b2 << 16) .| (b3 << 24)) >>> 0).
Definition writeUInt32 (value : Z) : M unit :=
  writeUBits (value .& 255) 8 ;;
  writeUBits ((value >> 8) .& 255) 8 ;;
  writeUBits ((value >> 16) .& 255) 8 ;;
  writeUBits ((value >> 24) .& 255) 8.

Definition readFloat32 (changeOffset : bool) : M float :=
  temp <- for_ 4 0 (fun i temp => b <- readUBits 8 true ;; ret (set_byte temp i b))
            (new_Uint8Array 4) ;;
  when (negb changeOffset) (rewind 32) ;;
  ret (DataView.getFloat32 temp).
Definition writeFloat32 (value : float) : M unit :=
  let temp := DataView.setFloat32 value in
  for_ 4 0 (fun i _ => writeUBits (get_byte temp i) 8) tt.

Definition readString8 (changeOffset : bool) : M JS.JSString :=
  charCode <- readUBits 8 true ;;
  when (negb changeOffset) (rewind 8) ;;
  ret (JS.fromCharCode charCode).
Definition writeString8 (str : JS.JSString) : M unit :=
  writeUBits (JS.charCodeAt0_or_0 str) 8.

Definition readString32 (changeOffset : bool) : M JS.JSString :=
  result <- for_ 4 0 (fun _ result => c <- readString8 true ;; ret (result ++ c)) [] ;;
  when (negb changeOffset) (rewind 32) ;;
  ret result.
Definition writeString32 (str : JS.JSString) : M unit :=
  for_ 4 0 (fun i _ => writeString8 (JS.char_or_nul str (Z.to_nat i))) tt.

(** The array grows without bound here: the [RangeError] of [push] on an
    array the engine cannot extend any further has no counterpart. *)
Definition readString32Array (length : Z) : M (list JS.JSString) :=
  for_ (Z.to_nat length) 0 (fun _ arr => s <- readString32 true ;; ret (arr ++ [s])) [].
Definition writeString32Array (arr : list JS.JSString) : M unit :=
  for_of arr writeString32.

Definition getBuffer : M Uint8Array :=
  fun s =>
    if negb (isWriting s) then Throw CannotGetBufferInReadMode
    else Return (take (Z.to_nat (JS.ceil_div (bitPosition s) 8)) (buffer s), s).

End BitStreamOps.

(** ** The write side when memory is bounded

    [new Uint8Array(n)] throws a [RangeError] when the engine cannot
    provide the [n] bytes.  [BitStream] and [BitStreamOps] take every such
    request to be granted; [Limited] and [LimitedOps] are the constructor
    and the write methods of the same class on an engine that grants a
    typed array of up to [limit] bytes and refuses a longer one. *)

Module Limited.

(** A call returns, throws one of the errors of the class, is refused an
    allocation (the [RangeError]), or runs forever. *)
Inductive Result (A : Type) : Type :=
  | Returns (a : A)
  | Throws (e : Error)
  | Refused
  | Diverges.

Arguments Returns {A} a.
Arguments Throws {A} e.
Arguments Refused {A}.
Arguments Diverges {A}.

Definition M (A : Type) : Type := BitStream.t -> Result (A * BitStream.t).

Definition ret {A : Type} (a : A) : M A := fun s => Returns (a, s).

Definition bind {A B : Type} (m : M A) (k : A -> M B) : M B :=
  fun s =>
    match m s with
    | Returns (a, s') => k a s'
    | Throws e => Throws e
    | Refused => Refused
    | Diverges => Diverges
    end.

End Limited.

Declare Scope limited_scope.
Delimit Scope limited_scope with limited.
Notation "x <- m ;; k" := (Limited.bind m (fun x => k))
  (at level 100, m at next level, right associativity) : limited_scope.
Notation "m ;; k" := (Limited.bind m (fun _ => k))
  (at level 100, right associativity) : limited_scope.

Module LimitedOps.
Import BitStream Limited.
Local Open Scope limited_scope.

(** [for (let i = from; i < from + n; i++) acc = body(i, acc)] *)
Fixpoint for_ {A : Type} (n : nat) (i : Z) (body : Z -> A -> M A) (acc : A) : M A :=
  match n with
  | O => ret acc
  | S n' => acc' <- body i acc ;; for_ n' (i + 1) body acc'
  end.

(** [for (const x of l) body(x)] *)
Fixpoint for_of {A : Type} (l : list A) (body : A -> M unit) : M unit :=
  match l with
  | [] => ret tt
  | a :: l' => body a ;; for_of l' body
  end.

Section Engine.

(** The length of the longest typed array the engine provides. *)
Variable limit : Z.

(** [new Uint8Array(n)] succeeds. *)
Definition granted (n : Z) : bool := (0 <=? n) && (n <=? limit).

(** [constructor(buffer?)]: a typed array is always truthy. *)
Definition new (buffer : option Uint8Array) : Result BitStream.t :=
  match buffer with
  | Some b => Returns (mk b 0 false)
  | None =>
      if granted 1024 then Returns (mk (new_Uint8Array 1024) 0 true) else Refused
  end.

Definition _ensureCapacity (bitsToWrite : Z) : M unit :=
  fun s =>
    if negb (isWriting s) then Throws CannotWriteInReadMode
    else
      let requiredBytes := JS.ceil_div (bitPosition s + bitsToWrite) 8 in
      let len := Z.of_nat (length (buffer s)) in
      if len <? requiredBytes then
        match BitStreamOps.double_until (Z.to_nat requiredBytes) (len * 2) requiredBytes with
        | Some newLength =>
            if granted newLength then
              let newBuffer := buffer s ++ new_Uint8Array (newLength - len) in
              Returns (tt, mk newBuffer (bitPosition s) (isWriting s))
            else Refused
        | None => Diverges
        end
      else Returns (tt, s).

Definition writeUBits (value : Z) (bits : nat) : M unit :=
  _ensureCapacity (Z.of_nat bits) ;;
  fun s =>
    let '(buf, pos) :=
      BitStreamOps.writeUBits_loop bits value (buffer s) (bitPosition s) in
    Returns (tt, mk buf pos (isWriting s)).

Definition writeUInt8 (value : Z) : M unit := writeUBits value 8.

Definition writeInt8 (value : Z) : M unit := writeUBits value 8.

Definition writeUInt16 (value : Z) : M unit :=
  writeUBits (value .& 255) 8 ;;
  writeUBits ((value >> 8) .& 255) 8.

Definition writeInt16 (value : Z) : M unit := writeUInt16 value.

Definition writeUInt32 (value : Z) : M unit :=
  writeUBits (value .& 255) 8 ;;
  writeUBits ((value >> 8) .& 255) 8 ;;
  writeUBits ((value >> 16) .& 255) 8 ;;
  writeUBits ((value >> 24) .& 255) 8.

(** [const temp = new Uint8Array(4)] is an allocation too. *)
Definition writeFloat32 (value : float) : M unit :=
  fun s =>
    if granted 4 then
      let temp := DataView.setFloat32 value in
      for_ 4 0 (fun i _ => writeUBits (get_byte temp i) 8) tt s
    else Refused.

Definition writeString8 (str : JS.JSString) : M unit :=
  writeUBits (JS.charCodeAt0_or_0 str) 8.

Definition writeString32 (str : JS.JSString) : M unit :=
  for_ 4 0 (fun i _ => writeString8 (JS.char_or_nul str (Z.to_nat i))) tt.

Definition writeString32Array (arr : list JS.JSString) : M unit :=
  for_of arr writeString32.

(** [slice] allocates the array it returns. *)
Definition getBuffer : M Uint8Array :=
  fun s =>
    if negb (isWriting s) then Throws CannotGetBufferInReadMode
    else
      let out := take (Z.to_nat (JS.ceil_div (bitPosition s) 8)) (buffer s) in
      if granted (Z.of_nat (length out)) then Returns (out, s) else Refused.

End Engine.

End LimitedOps.

(** ** The terrain document and its codec *)

Module TerrainUtil.
Import BitStream BitStreamOps.

Record Header : Type := mkHeader {
  fileId : JS.JSString;
  version : Z;
  baseTileset : JS.JSString;
  hasCustomTileset : Z;
  tilePaletteCount : Z;
  tilePalette : list JS.JSString;
  cliffTilePaletteCount : Z;
  cliffTilePalette : list JS.JSString;
  width : Z;
  height : Z;
  x : float;
  y : float
}.

Record Corner : Type := mkCorner {
  index : Z;
  rowid : Z;
  colid : Z;
  groundHeight : float;
  waterHeight : float;
  mapEdge : Z;
  ramp : Z;
  blight : Z;
  water : Z;
  boundary : Z;
  groundTexture : Z;
  groundVariation : Z;
  cliffVariation : Z;
  cliffTexture : Z;
  layerHeight : Z
}.

Record W3E : Type := mkW3E {
  header : Header;
  corners : list Corner
}.

(** The body of the corner loop of [decodeW3e]. *)
Definition decodeCorner (width i : Z) : M Corner :=
  let row := JS.floor_div i width in
  let col := JS.rem i width in
  gHeight <- readUInt16 true ;;
  wHeightRaw <- readUInt16 true ;;
  byte4 <- readUInt8 true ;;
  byte5 <- readUInt8 true ;;
  byte6 <- readUInt8 true ;;
  ret {|
    index := i;
    rowid := row;
    colid := col;
    groundHeight := (JS.of_int gHeight - 8192) / 4;
    waterHeight := (JS.of_int (wHeightRaw .& 16383) - 8192) / 4;
    mapEdge := (wHeightRaw .& 49152) >>> 14;
    groundTexture := byte4 .& 15;
    ramp := (byte4 .& 16) >> 4;
    water := (byte4 .& 32) >> 5;
    blight := (byte4 .& 64) >> 6;
    boundary := (byte4 .& 128) >> 7;
    groundVariation := byte5 .& 31;
    cliffVariation := (byte5 .& 224) >> 5;
    cliffTexture := byte6 .& 15;
    layerHeight := (byte6 .& 240) >> 4
  |}.

(** [decodeW3e] from its first read on.  The arrays it fills grow without
    bound here: a count too large for the arrays of the engine (a
    [RangeError] at [push]) has no counterpart. *)
Definition decodeW3e_body : M W3E :=
  fileId <- readString32 true ;;
  version <- readUInt32 true ;;
  baseTileset <- readString8 true ;;
  hasCustomTileset <- readUInt32 true ;;
  tilePaletteCount <- readUInt32 true ;;
  tilePalette <- readString32Array tilePaletteCount ;;
  cliffTilePaletteCount <- readUInt32 true ;;
  cliffTilePalette <- readString32Array cliffTilePaletteCount ;;
  width <- readUInt32 true ;;
  height <- readUInt32 true ;;
  x <- readFloat32 true ;;
  y <- readFloat32 true ;;
  let totalCorners := width * height in
  corners <- for_ (Z.to_nat totalCorners) 0
               (fun i corners => c <- decodeCorner width i ;; ret (corners ++ [c])) [] ;;
  ret {|
    header := {|
      fileId := fileId; version := version; baseTileset := baseTileset;
      hasCustomTileset := hasCustomTileset;
      tilePaletteCount := tilePaletteCount; tilePalette := tilePalette;
      cliffTilePaletteCount := cliffTilePaletteCount;
      cliffTilePalette := cliffTilePalette;
      width := width; height := height; x := x; y := y
    |};
    corners := corners
  |}.

Definition run {A : Type} (m : M A) (s : BitStream.t) : Outcome A :=
  match m s with
  | Return (a, _) => Return a
  | Throw e => Throw e
  | Diverge => Diverge
  end.

Definition decodeW3e (buffer : Uint8Array) : Outcome W3E :=
  run decodeW3e_body (BitStream.new (Some buffer)).

(** The body of the corner loop of [encodeW3e]. *)
Definition encodeCorner (corner : Corner) : M unit :=
  writeUInt16 (JS.Math_round (groundHeight corner * 4 + 8192)) ;;
  let wHeightRaw :=
    (JS.Math_round (waterHeight corner * 4 + 8192) .& 16383)
    .| (mapEdge corner << 14) in
  writeUInt16 wHeightRaw ;;
  let byte4 := (groundTexture corner .& 15)
               .| (ramp corner << 4)
               .| (water corner << 5)
               .| (blight corner << 6)
               .| (boundary corner << 7) in
  writeUInt8 byte4 ;;
  let byte5 := (groundVariation corner .& 31) .| (cliffVariation corner << 5) in
  writeUInt8 byte5 ;;
  let byte6 := (cliffTexture corner .& 15) .| (layerHeight corner << 4) in
  writeUInt8 byte6.

Definition encodeW3e_body (w3e : W3E) : M Uint8Array :=
  let h := header w3e in
  writeString32 (fileId h) ;;
  writeUInt32 (version h) ;;
  writeString8 (baseTileset h) ;;
  writeUInt32 (hasCustomTileset h) ;;
  writeUInt32 (tilePaletteCount h) ;;
  writeString32Array (tilePalette h) ;;
  writeUInt32 (cliffTilePaletteCount h) ;;
  writeString32Array (cliffTilePalette h) ;;
  writeUInt32 (width h) ;;
  writeUInt32 (height h) ;;
  writeFloat32 (x h) ;;
  writeFloat32 (y h) ;;
  for_of (corners w3e) encodeCorner ;;
  getBuffer.

Definition encodeW3e (w3e : W3E) : Outcome Uint8Array :=
  run (encodeW3e_body w3e) (BitStream.new None).

(** The loop of [generateEmptyW3e]: [n] iterations left, [i] the counter. *)
Fixpoint generateEmptyW3e_loop (n : nat) (i width : Z) (corners : list Corner)
  : list Corner :=
  match n with
  | O => corners
  | S n' =>
      let row := JS.floor_div i width in
      let col := JS.rem i width in
      generateEmptyW3e_loop n' (i + 1) width
        (corners ++ [{|
           index := i;
           rowid := row;
           colid := col;
           groundHeight := 0;
           waterHeight := 0;
           mapEdge := 0;
           groundTexture := 0;
           ramp := 0;
           water := 0;
           blight := 0;
           boundary := 0;
           groundVariation := 0;
           cliffVariation := 0;
           cliffTexture := 0;
           layerHeight := 2
         |}])
  end.

(** [generateEmptyW3e(width, height, tileset = 'O')], for integer [width]
    and [height]; [tileset = None] is the omitted argument. *)
Definition generateEmptyW3e (width height : Z) (tileset : option JS.JSString) : W3E :=
  {| header := {|
       fileId := JS.str "W3ER";
       version := 11;
       baseTileset := match tileset with Some t => t | None => JS.str "O" end;
       hasCustomTileset := 0;
       tilePaletteCount := 1;
       tilePalette := [JS.str "Oaby"];
       cliffTilePaletteCount := 1;
       cliffTilePalette := [JS.str "Oclm"];
       width := width;
       height := height;
       x := (- JS.of_int (JS.floor_div width 2) * 128)%float;
       y := (- JS.of_int (JS.floor_div height 2) * 128)%float
     |};
     corners := generateEmptyW3e_loop (Z.to_nat (width * height)) 0 width [] |}.

End TerrainUtil.


(** ** The editor ([App.tsx]): colours, classification and painting

    The handlers of the component are closures over its state and over the
    canvas.  What follows is their computation on the values they obtain
    from there: the colour string built from a picked pixel, its parsing,
    the nearest-colour loop of [applyImageToTerrain] over the pixel array
    [getImageData] returned, and the brush loop of [handleTerrainPaint]
    from the cell under the pointer. *)

Module App.
Import TerrainUtil.

Record ColorMapping : Type := mkColorMapping {
  slotIndex : Z;
  color : JS.JSString;
  active : bool;
  textureId : option JS.JSString
}.

Record RGB : Type := mkRGB {
  r : Z;
  g : Z;
  b : Z
}.

(** The digit of [d] in [0..15], as [toString(16)] prints it. *)
Definition hex_digit (d : Z) : Z := if d <? 10 then 48 + d else 87 + d.

Fixpoint toString16_loop (fuel : nat) (n : Z) (acc : JS.JSString) : JS.JSString :=
  match fuel with
  | O => acc
  | S fuel' =>
      let acc' := hex_digit (n mod 16) :: acc in
      if n <? 16 then acc' else toString16_loop fuel' (n / 16) acc'
  end.

(** [n.toString(16)] for the result of a bit operator, an integer of at
    most eight hexadecimal digits. *)
Definition toString16 (n : Z) : JS.JSString :=
  if n <? 0 then 45 :: toString16_loop 8 (- n) [] else toString16_loop 8 n [].

(** [s.slice(-k)] *)
Definition slice_last (k : nat) (s : JS.JSString) : JS.JSString :=
  drop (length s - k) s.

(** [handleImageCanvasClick]: the colour string of the picked pixel,
    ["#" + ("000000" + ((pixel[0] << 16) | (pixel[1] << 8) | pixel[2]).toString(16)).slice(-6)]. *)
Definition pixelHex (pixel0 pixel1 pixel2 : Z) : JS.JSString :=
  JS.str "#"
  ++ slice_last 6 (JS.str "000000"
                   ++ toString16 ((pixel0 << 16) .| (pixel1 << 8) .| pixel2)).

(** The class [[a-f\d]] under the flag [i]. *)
Definition is_hex_digit (c : Z) : bool :=
  ((48 <=? c) && (c <=? 57)) || ((97 <=? c) && (c <=? 102))
  || ((65 <=? c) && (c <=? 70)).

Definition hex_value (c : Z) : Z :=
  if c <=? 57 then c - 48 else if c <=? 70 then c - 55 else c - 87.

(** [parseInt(s, 16)] of a group of two hexadecimal digits. *)
Definition parseInt16 (c1 c2 : Z) : Z := 16 * hex_value c1 + hex_value c2.

(** [hexToRgb]: the pattern [/^#?([a-f\d]{2})([a-f\d]{2})([a-f\d]{2})$/i]
    matches an optional [#] followed by exactly six hexadecimal digits;
    anything else gives black. *)
Definition hexToRgb (hex : JS.JSString) : RGB :=
  let digits := match hex with
                | 35 :: rest => rest
                | _ => hex
                end in
  match digits with
  | [c1; c2; c3; c4; c5; c6] =>
      if forallb is_hex_digit digits
      then {| r := parseInt16 c1 c2; g := parseInt16 c3 c4; b := parseInt16 c5 c6 |}
      else {| r := 0; g := 0; b := 0 |}
  | _ => {| r := 0; g := 0; b := 0 |}
  end.

(** [mappings.filter(m => m.active).map(m => ({...m, rgb: hexToRgb(m.color)}))] *)
Definition activeMappings (mappings : list ColorMapping) : list (ColorMapping * RGB) :=
  List.map (fun m => (m, hexToRgb (color m))) (List.filter active mappings).

(** [dist < minDistance], where [minDistance = None] is [Infinity]. *)
Definition below (dist : Z) (minDistance : option Z) : bool :=
  match minDistance with
  | None => true
  | Some d => dist <? d
  end.

(** [for (const m of activeMappings) ...]: the slot left in [bestSlot]. *)
Fixpoint nearest_loop (ms : list (ColorMapping * RGB)) (r g b : Z)
    (minDistance : option Z) (bestSlot : Z) : Z :=
  match ms with
  | [] => bestSlot
  | (m, rgb) :: ms' =>
      let dr := r - App.r rgb in
      let dg := g - App.g rgb in
      let db := b - App.b rgb in
      let dist := dr * dr + dg * dg + db * db in
      if below dist minDistance
      then nearest_loop ms' r g b (Some dist) (slotIndex m)
      else nearest_loop ms' r g b minDistance bestSlot
  end.

(** [{ ...corner, groundTexture: t }] *)
Definition with_groundTexture (corner : Corner) (t : Z) : Corner :=
  {| index := index corner; rowid := rowid corner; colid := colid corner;
     groundHeight := groundHeight corner; waterHeight := waterHeight corner;
     mapEdge := mapEdge corner; ramp := ramp corner; blight := blight corner;
     water := water corner; boundary := boundary corner;
     groundTexture := t;
     groundVariation := groundVariation corner;
     cliffVariation := cliffVariation corner;
     cliffTexture := cliffTexture corner; layerHeight := layerHeight corner |}.

(** [a[i]] for an integer [i]: [None] is [undefined]. *)
Definition at_index {A : Type} (a : list A) (i : Z) : option A :=
  if i <? 0 then None else a !! Z.to_nat i.

(** The body of the double loop of [applyImageToTerrain] for one cell.
    Reading [groundTexture] of a missing corner is a [TypeError]: [None].
    A pixel component that is missing makes [dist] a [NaN], below which
    nothing compares, and leaves [bestSlot] as it was. *)
Definition applyCell (activeMappings : list (ColorMapping * RGB)) (imgData : list Z)
    (width height row col : Z) (corners : list Corner) : option (list Corner) :=
  let imgRow := (height - 1) - row in
  let pixelIndex := (imgRow * width + col) * 4 in
  match at_index corners (row * width + col) with
  | None => None
  | Some corner =>
      let bestSlot :=
        match at_index imgData pixelIndex, at_index imgData (pixelIndex + 1),
              at_index imgData (pixelIndex + 2) with
        | Some r, Some g, Some b =>
            nearest_loop activeMappings r g b None (groundTexture corner)
        | _, _, _ => groundTexture corner
        end in
      Some (<[Z.to_nat (row * width + col) := with_groundTexture corner bestSlot]> corners)
  end.

(** [for (let col = ...; col < width; col++)], [n] iterations left. *)
Fixpoint applyRow (n : nat) (col : Z) (activeMappings : list (ColorMapping * RGB))
    (imgData : list Z) (width height row : Z) (corners : list Corner)
  : option (list Corner) :=
  match n with
  | O => Some corners
  | S n' =>
      match applyCell activeMappings imgData width height row col corners with
      | None => None
      | Some corners' =>
          applyRow n' (col + 1) activeMappings imgData width height row corners'
      end
  end.

(** [for (let row = ...; row < height; row++)], [n] iterations left. *)
Fixpoint applyRows (n : nat) (row : Z) (activeMappings : list (ColorMapping * RGB))
    (imgData : list Z) (width height : Z) (corners : list Corner)
  : option (list Corner) :=
  match n with
  | O => Some corners
  | S n' =>
      match applyRow (Z.to_nat width) 0 activeMappings imgData width height row corners with
      | None => None
      | Some corners' =>
          applyRows n' (row + 1) activeMappings imgData width height corners'
      end
  end.

(** [applyImageToTerrain] on a loaded terrain and the pixels of the image
    scaled to the grid: the terrain the component holds afterwards, [None]
    when the loop throws. *)
Definition applyImageToTerrain (terrain : W3E) (mappings : list ColorMapping)
    (imgData : list Z) : option W3E :=
  let activeMappings := activeMappings mappings in
  if (length activeMappings =? 0)%nat then Some terrain
  else
    let width := width (header terrain) in
    let height := height (header terrain) in
    match applyRows (Z.to_nat height) 0 activeMappings imgData width height
            (corners terrain) with
    | None => None
    | Some corners => Some {| header := header terrain; corners := corners |}
    end.

(** The body of the brush loops of [handleTerrainPaint] for the offset
    [(dx, dy)]; the state is the array and the flag [modified]. *)
Definition paintCell (terrain : W3E) (selectedTexture col row dx dy : Z)
    (st : list Corner * bool) : option (list Corner * bool) :=
  let '(corners, modified) := st in
  let tc := col + dx in
  let tr := row + dy in
  if (0 <=? tc) && (tc <? width (header terrain))
     && (0 <=? tr) && (tr <? height (header terrain))
  then
    let idx := tr * width (header terrain) + tc in
    match at_index corners idx with
    | None => None
    | Some corner =>
        if negb (groundTexture corner =? selectedTexture)
        then Some (<[Z.to_nat idx := with_groundTexture corner selectedTexture]> corners,
                   true)
        else Some (corners, modified)
    end
  else Some (corners, modified).

(** [for (let dx = ...; dx <= halfBrush; dx++)], [n] iterations left. *)
Fixpoint paintRow (n : nat) (dx : Z) (terrain : W3E) (selectedTexture col row dy : Z)
    (st : list Corner * bool) : option (list Corner * bool) :=
  match n with
  | O => Some st
  | S n' =>
      match paintCell terrain selectedTexture col row dx dy st with
      | None => None
      | Some st' => paintRow n' (dx + 1) terrain selectedTexture col row dy st'
      end
  end.

(** [for (let dy = ...; dy <= halfBrush; dy++)], [n] iterations left. *)
Fixpoint paintRows (n : nat) (dy : Z) (terrain : W3E)
    (selectedTexture col row halfBrush : Z) (st : list Corner * bool)
  : option (list Corner * bool) :=
  match n with
  | O => Some st
  | S n' =>
      match paintRow (Z.to_nat (2 * halfBrush + 1)) (- halfBrush) terrain
              selectedTexture col row dy st with
      | None => None
      | Some st' => paintRows n' (dy + 1) terrain selectedTexture col row halfBrush st'
      end
  end.

(** [handleTerrainPaint] with the left button down over the cell
    [(col, row)]: the terrain the component holds afterwards, [None] when
    the loop throws. *)
Definition handleTerrainPaint (terrain : W3E) (selectedTexture brushSize col row : Z)
  : option W3E :=
  if (0 <=? col) && (col <? width (header terrain))
     && (0 <=? row) && (row <? height (header terrain))
  then
    let halfBrush := JS.floor_div brushSize 2 in
    match paintRows (Z.to_nat (2 * halfBrush + 1)) (- halfBrush) terrain
            selectedTexture col row halfBrush (corners terrain, false) with
    | None => None
    | Some (corners, modified) =>
        if modified then Some {| header := header terrain; corners := corners |}
        else Some terrain
    end
  else Some terrain.

End App.


(** * Auxiliary definitions for the proofs *)

(** [forall_range k lo P] checks [P] on the [2^k] integers from [lo]. *)
Fixpoint forall_range (k : nat) (lo : Z) (P : Z -> bool) : bool :=
  match k with
  | O => P lo
  | S k' => forall_range k' lo P && forall_range k' (lo + 2 ^ Z.of_nat k') P
  end.

(** What [n] iterations of the loop of [readUBits] compute while the cursor
    stays inside one byte [cur], starting at bit [j] of that byte. *)
Fixpoint read_in_byte (n : nat) (cur j value : Z) : Z :=
  match n with
  | O => value
  | S n' => read_in_byte n' cur (j + 1) ((value << 1) .| ((cur >> (7 - j)) .& 1))
  end.

(** What [n] iterations of the loop of [writeUBits] leave in the byte [cur]
    while the cursor stays inside it, starting at bit [j]. *)
Fixpoint write_in_byte (n : nat) (value cur j : Z) : Z :=
  match n with
  | O => cur
  | S i =>
      let bit := (value >> Z.of_nat i) .& 1 in
      write_in_byte i value
        (Z.land ((cur .& .~ (1 << (7 - j))) .| (bit << (7 - j))) 255) (j + 1)
  end.

(** A write-bound stream that has produced the bytes [out] so far: the
    cursor sits on the byte boundary after them, and the rest of the buffer
    is still zero-filled. *)
Definition wstate (s : BitStream.t) (out : list byte) : Prop :=
  BitStream.isWriting s = true /\
  BitStream.bitPosition s = 8 * Z.of_nat (length out) /\
  (exists n, BitStream.buffer s = out ++ replicate n x00) /\
  (0 < length (BitStream.buffer s))%nat.

(** The method [m] returns normally and appends exactly the bytes [bs]. *)
Definition appends (m : BitStream.M unit) (bs : list byte) : Prop :=
  forall s out, wstate s out ->
    exists s', m s = Return (tt, s') /\ wstate s' (out ++ bs).

(** The method [m], run on a read-bound stream whose cursor sits in front of
    the bytes [bs], consumes exactly them and returns [a]. *)
Definition reads {A : Type} (m : BitStream.M A) (bs : list byte) (a : A) : Prop :=
  forall pre post,
    m (BitStream.mk (pre ++ bs ++ post) (8 * Z.of_nat (length pre)) false)
    = Return (a, BitStream.mk (pre ++ bs ++ post)
                   (8 * Z.of_nat (length pre + length bs)) false).

(** ** The byte layout, as a function of the document

    The bytes each write method appends, written with the expressions of
    the source. *)

Definition u16_bytes (value : Z) : list byte :=
  [ToUint8 (value .& 255); ToUint8 ((value >> 8) .& 255)].

Definition u32_bytes (value : Z) : list byte :=
  [ToUint8 (value .& 255); ToUint8 ((value >> 8) .& 255);
   ToUint8 ((value >> 16) .& 255); ToUint8 ((value >> 24) .& 255)].

Definition str8_bytes (s : JS.JSString) : list byte :=
  [ToUint8 (JS.charCodeAt0_or_0 s)].

Definition str32_bytes (s : JS.JSString) : list byte :=
  [ToUint8 (JS.charCodeAt0_or_0 (JS.char_or_nul s 0));
   ToUint8 (JS.charCodeAt0_or_0 (JS.char_or_nul s 1));
   ToUint8 (JS.charCodeAt0_or_0 (JS.char_or_nul s 2));
   ToUint8 (JS.charCodeAt0_or_0 (JS.char_or_nul s 3))].

Definition f32_bytes (value : float) : list byte :=
  let temp := DataView.setFloat32 value in
  [ToUint8 (get_byte temp 0); ToUint8 (get_byte temp 1);
   ToUint8 (get_byte temp 2); ToUint8 (get_byte temp 3)].

Definition wHeightRaw_of (c : TerrainUtil.Corner) : Z :=
  (JS.Math_round (TerrainUtil.waterHeight c * 4 + 8192) .& 16383)
  .| (TerrainUtil.mapEdge c << 14).

Definition byte4_of (c : TerrainUtil.Corner) : Z :=
  (TerrainUtil.groundTexture c .& 15)
  .| (TerrainUtil.ramp c << 4)
  .| (TerrainUtil.water c << 5)
  .| (TerrainUtil.blight c << 6)
  .| (TerrainUtil.boundary c << 7).

Definition byte5_of (c : TerrainUtil.Corner) : Z :=
  (TerrainUtil.groundVariation c .& 31) .| (TerrainUtil.cliffVariation c << 5).

Definition byte6_of (c : TerrainUtil.Corner) : Z :=
  (TerrainUtil.cliffTexture c .& 15) .| (TerrainUtil.layerHeight c << 4).

(** The corner record: seven bytes. *)
Definition corner_bytes (c : TerrainUtil.Corner) : list byte :=
  u16_bytes (JS.Math_round (TerrainUtil.groundHeight c * 4 + 8192))
  ++ u16_bytes (wHeightRaw_of c)
  ++ [ToUint8 (byte4_of c)] ++ [ToUint8 (byte5_of c)] ++ [ToUint8 (byte6_of c)].

Definition header_bytes (h : TerrainUtil.Header) : list byte :=
  str32_bytes (TerrainUtil.fileId h)
  ++ u32_bytes (TerrainUtil.version h)
  ++ str8_bytes (TerrainUtil.baseTileset h)
  ++ u32_bytes (TerrainUtil.hasCustomTileset h)
  ++ u32_bytes (TerrainUtil.tilePaletteCount h)
  ++ List.concat (List.map str32_bytes (TerrainUtil.tilePalette h))
  ++ u32_bytes (TerrainUtil.cliffTilePaletteCount h)
  ++ List.concat (List.map str32_bytes (TerrainUtil.cliffTilePalette h))
  ++ u32_bytes (TerrainUtil.width h)
  ++ u32_bytes (TerrainUtil.height h)
  ++ f32_bytes (TerrainUtil.x h)
  ++ f32_bytes (TerrainUtil.y h).

Definition serialize (d : TerrainUtil.W3E) : list byte :=
  header_bytes (TerrainUtil.header d)
  ++ List.concat (List.map corner_bytes (TerrainUtil.corners d)).

(** ** What the decoder makes of those bytes *)

Definition u16_of_bytes (b0 b1 : byte) : Z :=
  byte_to_Z b0 .| (byte_to_Z b1 << 8).

Definition u32_of_bytes (b0 b1 b2 b3 : byte) : Z :=
  (byte_to_Z b0 .| (byte_to_Z b1 << 8) .| (byte_to_Z b2 << 16)
   .| (byte_to_Z b3 << 24)) >>> 0.

Definition str32_of_bytes (b0 b1 b2 b3 : byte) : list Z :=
  (((([] ++ JS.fromCharCode (byte_to_Z b0)) ++ JS.fromCharCode (byte_to_Z b1))
    ++ JS.fromCharCode (byte_to_Z b2)) ++ JS.fromCharCode (byte_to_Z b3)).

(** The record the corner loop of [decodeW3e] builds from the five numbers
    it has read. *)
Definition unpack_corner (width i gHeight wHeightRaw byte4 byte5 byte6 : Z)
  : TerrainUtil.Corner :=
  {| TerrainUtil.index := i;
     TerrainUtil.rowid := JS.floor_div i width;
     TerrainUtil.colid := JS.rem i width;
     TerrainUtil.groundHeight := (JS.of_int gHeight - 8192) / 4;
     TerrainUtil.waterHeight := (JS.of_int (wHeightRaw .& 16383) - 8192) / 4;
     TerrainUtil.mapEdge := (wHeightRaw .& 49152) >>> 14;
     TerrainUtil.groundTexture := byte4 .& 15;
     TerrainUtil.ramp := (byte4 .& 16) >> 4;
     TerrainUtil.water := (byte4 .& 32) >> 5;
     TerrainUtil.blight := (byte4 .& 64) >> 6;
     TerrainUtil.boundary := (byte4 .& 128) >> 7;
     TerrainUtil.groundVariation := byte5 .& 31;
     TerrainUtil.cliffVariation := (byte5 .& 224) >> 5;
     TerrainUtil.cliffTexture := byte6 .& 15;
     TerrainUtil.layerHeight := (byte6 .& 240) >> 4 |}.

(** Writing a value and reading it back. *)
Definition u8_rt (v : Z) : Z := byte_to_Z (ToUint8 v).

Definition u16_rt (v : Z) : Z :=
  u16_of_bytes (ToUint8 (v .& 255)) (ToUint8 ((v >> 8) .& 255)).

Definition u32_rt (v : Z) : Z :=
  u32_of_bytes (ToUint8 (v .& 255)) (ToUint8 ((v >> 8) .& 255))
               (ToUint8 ((v >> 16) .& 255)) (ToUint8 ((v >> 24) .& 255)).

Definition str8_rt (s : list Z) : list Z :=
  JS.fromCharCode (byte_to_Z (ToUint8 (JS.charCodeAt0_or_0 s))).

Definition str32_rt (s : list Z) : list Z :=
  str32_of_bytes (ToUint8 (JS.charCodeAt0_or_0 (JS.char_or_nul s 0)))
                 (ToUint8 (JS.charCodeAt0_or_0 (JS.char_or_nul s 1)))
                 (ToUint8 (JS.charCodeAt0_or_0 (JS.char_or_nul s 2)))
                 (ToUint8 (JS.charCodeAt0_or_0 (JS.char_or_nul s 3))).

Definition recode_corner (width i : Z) (c : TerrainUtil.Corner) : TerrainUtil.Corner :=
  unpack_corner width i
    (u16_rt (JS.Math_round (TerrainUtil.groundHeight c * 4 + 8192)))
    (u16_rt (wHeightRaw_of c))
    (u8_rt (byte4_of c)) (u8_rt (byte5_of c)) (u8_rt (byte6_of c)).

Fixpoint recode_corners (width i : Z) (cs : list TerrainUtil.Corner)
  : list TerrainUtil.Corner :=
  match cs with
  | [] => []
  | c :: cs' => recode_corner width i c :: recode_corners width (i + 1) cs'
  end.

Definition recode_header (h : TerrainUtil.Header) : TerrainUtil.Header :=
  {| TerrainUtil.fileId := str32_rt (TerrainUtil.fileId h);
     TerrainUtil.version := u32_rt (TerrainUtil.version h);
     TerrainUtil.baseTileset := str8_rt (TerrainUtil.baseTileset h);
     TerrainUtil.hasCustomTileset := u32_rt (TerrainUtil.hasCustomTileset h);
     TerrainUtil.tilePaletteCount := u32_rt (TerrainUtil.tilePaletteCount h);
     TerrainUtil.tilePalette := List.map str32_rt (TerrainUtil.tilePalette h);
     TerrainUtil.cliffTilePaletteCount := u32_rt (TerrainUtil.cliffTilePaletteCount h);
     TerrainUtil.cliffTilePalette := List.map str32_rt (TerrainUtil.cliffTilePalette h);
     TerrainUtil.width := u32_rt (TerrainUtil.width h);
     TerrainUtil.height := u32_rt (TerrainUtil.height h);
     TerrainUtil.x := DataView.fround (TerrainUtil.x h);
     TerrainUtil.y := DataView.fround (TerrainUtil.y h) |}.

Definition recode (d : TerrainUtil.W3E) : TerrainUtil.W3E :=
  {| TerrainUtil.header := recode_header (TerrainUtil.header d);
     TerrainUtil.corners :=
       recode_corners (u32_rt (TerrainUtil.width (TerrainUtil.header d))) 0
         (TerrainUtil.corners d) |}.

(** The counts of the header describe the sequences that follow them. *)
Definition layout_ok (d : TerrainUtil.W3E) : Prop :=
  let h := TerrainUtil.header d in
  TerrainUtil.tilePaletteCount h = Z.of_nat (length (TerrainUtil.tilePalette h)) /\
  TerrainUtil.tilePaletteCount h < 4294967296 /\
  TerrainUtil.cliffTilePaletteCount h = Z.of_nat (length (TerrainUtil.cliffTilePalette h)) /\
  TerrainUtil.cliffTilePaletteCount h < 4294967296 /\
  0 <= TerrainUtil.width h < 4294967296 /\
  0 <= TerrainUtil.height h < 4294967296 /\
  TerrainUtil.width h * TerrainUtil.height h = Z.of_nat (length (TerrainUtil.corners d)).

(** ** Documents whose fields lie in their declared ranges *)

(** A tag of [n] characters, each a single byte. *)
Definition tag (n : nat) (s : list Z) : Prop :=
  length s = n /\ Forall (fun c => 0 <= c < 256) s.

(** The heights the format can store: [(raw - 8192) / 4] for a raw value
    below [n], that is, the multiples of 0.25 of the raw range. *)
Definition quarter_height (n : Z) (h : float) : Prop :=
  exists raw, 0 <= raw < n /\ h = ((JS.of_int raw - 8192) / 4)%float.

Definition in_ranges (c : TerrainUtil.Corner) : Prop :=
  0 <= TerrainUtil.mapEdge c <= 3 /\
  0 <= TerrainUtil.ramp c <= 1 /\
  0 <= TerrainUtil.water c <= 1 /\
  0 <= TerrainUtil.blight c <= 1 /\
  0 <= TerrainUtil.boundary c <= 1 /\
  0 <= TerrainUtil.groundTexture c <= 15 /\
  0 <= TerrainUtil.groundVariation c <= 31 /\
  0 <= TerrainUtil.cliffVariation c <= 7 /\
  0 <= TerrainUtil.cliffTexture c <= 15 /\
  0 <= TerrainUtil.layerHeight c <= 15.

(** The corner at position [i] of a grid [width] cells wide. *)
Definition positioned (width i : Z) (c : TerrainUtil.Corner) : Prop :=
  TerrainUtil.index c = i /\
  TerrainUtil.rowid c = i / width /\
  TerrainUtil.colid c = i mod width.

Definition wf_corner (width i : Z) (c : TerrainUtil.Corner) : Prop :=
  positioned width i c /\
  quarter_height 65536 (TerrainUtil.groundHeight c) /\
  quarter_height 16384 (TerrainUtil.waterHeight c) /\
  in_ranges c.

Definition wf_header (h : TerrainUtil.Header) : Prop :=
  tag 4 (TerrainUtil.fileId h) /\
  0 <= TerrainUtil.version h < 4294967296 /\
  tag 1 (TerrainUtil.baseTileset h) /\
  0 <= TerrainUtil.hasCustomTileset h < 4294967296 /\
  Forall (tag 4) (TerrainUtil.tilePalette h) /\
  Forall (tag 4) (TerrainUtil.cliffTilePalette h) /\
  is_float32 (TerrainUtil.x h) /\
  is_float32 (TerrainUtil.y h).

Definition wf_doc (d : TerrainUtil.W3E) : Prop :=
  layout_ok d /\
  wf_header (TerrainUtil.header d) /\
  forall (i : nat) (c : TerrainUtil.Corner),
    TerrainUtil.corners d !! i = Some c ->
    wf_corner (TerrainUtil.width (TerrainUtil.header d)) (Z.of_nat i) c.

(** The packing expressions of [encodeW3e] as functions of the fields. *)
Definition water_word (rounded mapEdge : Z) : Z :=
  (rounded .& 16383) .| (mapEdge << 14).

Definition byte4_pack (groundTexture ramp water blight boundary : Z) : Z :=
  (groundTexture .& 15) .| (ramp << 4) .| (water << 5) .| (blight << 6)
  .| (boundary << 7).

Definition byte5_pack (groundVariation cliffVariation : Z) : Z :=
  (groundVariation .& 31) .| (cliffVariation << 5).

Definition byte6_pack (cliffTexture layerHeight : Z) : Z :=
  (cliffTexture .& 15) .| (layerHeight << 4).

(** The scenario of the specification: a 2 x 1 grid. *)
Definition scenario_corner (i : Z) : TerrainUtil.Corner :=
  {| TerrainUtil.index := i; TerrainUtil.rowid := 0; TerrainUtil.colid := i;
     TerrainUtil.groundHeight := 0; TerrainUtil.waterHeight := 0;
     TerrainUtil.mapEdge := 0; TerrainUtil.ramp := 0; TerrainUtil.blight := 0;
     TerrainUtil.water := 0; TerrainUtil.boundary := 0;
     TerrainUtil.groundTexture := 3; TerrainUtil.groundVariation := 0;
     TerrainUtil.cliffVariation := 0; TerrainUtil.cliffTexture := 0;
     TerrainUtil.layerHeight := 2 |}.

Definition scenario_header : TerrainUtil.Header :=
  {| TerrainUtil.fileId := JS.str "W3ER"; TerrainUtil.version := 11;
     TerrainUtil.baseTileset := JS.str "O"; TerrainUtil.hasCustomTileset := 0;
     TerrainUtil.tilePaletteCount := 1; TerrainUtil.tilePalette := [JS.str "Oaby"];
     TerrainUtil.cliffTilePaletteCount := 1;
     TerrainUtil.cliffTilePalette := [JS.str "Oclm"];
     TerrainUtil.width := 2; TerrainUtil.height := 1;
     TerrainUtil.x := (-128)%float; TerrainUtil.y := 0%float |}.

Definition scenario : TerrainUtil.W3E :=
  {| TerrainUtil.header := scenario_header;
     TerrainUtil.corners := [scenario_corner 0; scenario_corner 1] |}.

(** A 1 x 1 document around one corner. *)
Definition single_header : TerrainUtil.Header :=
  {| TerrainUtil.fileId := JS.str "W3ER"; TerrainUtil.version := 11;
     TerrainUtil.baseTileset := JS.str "O"; TerrainUtil.hasCustomTileset := 0;
     TerrainUtil.tilePaletteCount := 1; TerrainUtil.tilePalette := [JS.str "Oaby"];
     TerrainUtil.cliffTilePaletteCount := 1;
     TerrainUtil.cliffTilePalette := [JS.str "Oclm"];
     TerrainUtil.width := 1; TerrainUtil.height := 1;
     TerrainUtil.x := 0%float; TerrainUtil.y := 0%float |}.

Definition single (c : TerrainUtil.Corner) : TerrainUtil.W3E :=
  {| TerrainUtil.header := single_header; TerrainUtil.corners := [c] |}.

Definition zero_corner : TerrainUtil.Corner :=
  {| TerrainUtil.index := 0; TerrainUtil.rowid := 0; TerrainUtil.colid := 0;
     TerrainUtil.groundHeight := 0; TerrainUtil.waterHeight := 0;
     TerrainUtil.mapEdge := 0; TerrainUtil.ramp := 0; TerrainUtil.blight := 0;
     TerrainUtil.water := 0; TerrainUtil.boundary := 0;
     TerrainUtil.groundTexture := 0; TerrainUtil.groundVariation := 0;
     TerrainUtil.cliffVariation := 0; TerrainUtil.cliffTexture := 0;
     TerrainUtil.layerHeight := 0 |}.

(** The twelve fields stored in a corner record. *)
Inductive CornerField : Type :=
  | GroundHeight | WaterHeight | MapEdge | Ramp | Water | Blight | Boundary
  | GroundTexture | GroundVariation | CliffVariation | CliffTexture | LayerHeight.

(** The corner with field [f] at its maximum representable value and every
    other field at [0].  The largest heights are those of the raw values
    [65535] and [16383]. *)
Definition isolated (f : CornerField) : TerrainUtil.Corner :=
  let z := zero_corner in
  let set gh wh me ra wa bl bd gt gv cv ct lh :=
    {| TerrainUtil.index := 0; TerrainUtil.rowid := 0; TerrainUtil.colid := 0;
       TerrainUtil.groundHeight := gh; TerrainUtil.waterHeight := wh;
       TerrainUtil.mapEdge := me; TerrainUtil.ramp := ra; TerrainUtil.blight := bl;
       TerrainUtil.water := wa; TerrainUtil.boundary := bd;
       TerrainUtil.groundTexture := gt; TerrainUtil.groundVariation := gv;
       TerrainUtil.cliffVariation := cv; TerrainUtil.cliffTexture := ct;
       TerrainUtil.layerHeight := lh |} in
  match f with
  | GroundHeight => set 14335.75%float 0%float 0 0 0 0 0 0 0 0 0 0
  | WaterHeight => set 0%float 2047.75%float 0 0 0 0 0 0 0 0 0 0
  | MapEdge => set 0%float 0%float 3 0 0 0 0 0 0 0 0 0
  | Ramp => set 0%float 0%float 0 1 0 0 0 0 0 0 0 0
  | Water => set 0%float 0%float 0 0 1 0 0 0 0 0 0 0
  | Blight => set 0%float 0%float 0 0 0 1 0 0 0 0 0 0
  | Boundary => set 0%float 0%float 0 0 0 0 1 0 0 0 0 0
  | GroundTexture => set 0%float 0%float 0 0 0 0 0 15 0 0 0 0
  | GroundVariation => set 0%float 0%float 0 0 0 0 0 0 31 0 0 0
  | CliffVariation => set 0%float 0%float 0 0 0 0 0 0 0 7 0 0
  | CliffTexture => set 0%float 0%float 0 0 0 0 0 0 0 0 15 0
  | LayerHeight => set 0%float 0%float 0 0 0 0 0 0 0 0 0 15
  end.

(** Two corners agree on the twelve stored fields. *)
Definition same_fields (c c' : TerrainUtil.Corner) : Prop :=
  TerrainUtil.groundHeight c = TerrainUtil.groundHeight c' /\
  TerrainUtil.waterHeight c = TerrainUtil.waterHeight c' /\
  TerrainUtil.mapEdge c = TerrainUtil.mapEdge c' /\
  TerrainUtil.ramp c = TerrainUtil.ramp c' /\
  TerrainUtil.water c = TerrainUtil.water c' /\
  TerrainUtil.blight c = TerrainUtil.blight c' /\
  TerrainUtil.boundary c = TerrainUtil.boundary c' /\
  TerrainUtil.groundTexture c = TerrainUtil.groundTexture c' /\
  TerrainUtil.groundVariation c = TerrainUtil.groundVariation c' /\
  TerrainUtil.cliffVariation c = TerrainUtil.cliffVariation c' /\
  TerrainUtil.cliffTexture c = TerrainUtil.cliffTexture c' /\
  TerrainUtil.layerHeight c = TerrainUtil.layerHeight c'.

(** The exact rational value of a finite number ([0] for the others). *)
Definition Qval (x : float) : Q :=
  match Prim2SF x with
  | S754_finite s m e =>
      let sm := if s then Z.neg m else Z.pos m in
      if 0 <=? e then inject_Z (sm * 2 ^ e)
      else Qmake sm (Z.to_pos (2 ^ (- e)))
  | _ => 0%Q
  end.

(** A corner whose [ramp] does not fit its single bit. *)
Definition wide_ramp_corner : TerrainUtil.Corner :=
  {| TerrainUtil.index := 0; TerrainUtil.rowid := 0; TerrainUtil.colid := 0;
     TerrainUtil.groundHeight := 0; TerrainUtil.waterHeight := 0;
     TerrainUtil.mapEdge := 0; TerrainUtil.ramp := 2; TerrainUtil.blight := 0;
     TerrainUtil.water := 0; TerrainUtil.boundary := 0;
     TerrainUtil.groundTexture := 0; TerrainUtil.groundVariation := 0;
     TerrainUtil.cliffVariation := 0; TerrainUtil.cliffTexture := 0;
     TerrainUtil.layerHeight := 0 |}.

(** A height just below the midpoint between [0] and [0.25]:
    [0.125 - 2^-56]. *)
Definition near_tie : float := 0x1.fffffffffffffp-4%float.

Definition near_tie_corner : TerrainUtil.Corner :=
  {| TerrainUtil.index := 0; TerrainUtil.rowid := 0; TerrainUtil.colid := 0;
     TerrainUtil.groundHeight := near_tie; TerrainUtil.waterHeight := 0;
     TerrainUtil.mapEdge := 0; TerrainUtil.ramp := 0; TerrainUtil.blight := 0;
     TerrainUtil.water := 0; TerrainUtil.boundary := 0;
     TerrainUtil.groundTexture := 0; TerrainUtil.groundVariation := 0;
     TerrainUtil.cliffVariation := 0; TerrainUtil.cliffTexture := 0;
     TerrainUtil.layerHeight := 0 |}.

(** A corner that uses the whole 16-bit word of [waterHeight] and
    [mapEdge]: raw water height [16383] and edge flag [3]. *)
Definition full_word_corner : TerrainUtil.Corner :=
  {| TerrainUtil.index := 0; TerrainUtil.rowid := 0; TerrainUtil.colid := 0;
     TerrainUtil.groundHeight := 0; TerrainUtil.waterHeight := 2047.75;
     TerrainUtil.mapEdge := 3; TerrainUtil.ramp := 0; TerrainUtil.blight := 0;
     TerrainUtil.water := 0; TerrainUtil.boundary := 0;
     TerrainUtil.groundTexture := 0; TerrainUtil.groundVariation := 0;
     TerrainUtil.cliffVariation := 0; TerrainUtil.cliffTexture := 0;
     TerrainUtil.layerHeight := 0 |}.

(** ** The operations of the stream, by direction *)

Inductive ReadOp : Type :=
  | ReadUBits (bits : nat) (changeOffset : bool)
  | ReadUInt8 (changeOffset : bool)
  | ReadInt8 (changeOffset : bool)
  | ReadUInt16 (changeOffset : bool)
  | ReadInt16 (changeOffset : bool)
  | ReadUInt32 (changeOffset : bool)
  | ReadFloat32 (changeOffset : bool)
  | ReadString8 (changeOffset : bool)
  | ReadString32 (changeOffset : bool)
  | ReadString32Array (length : Z).

Inductive WriteOp : Type :=
  | EnsureCapacity (bitsToWrite : Z)
  | WriteUBits (value : Z) (bits : nat)
  | WriteUInt8 (value : Z)
  | WriteInt8 (value : Z)
  | WriteUInt16 (value : Z)
  | WriteInt16 (value : Z)
  | WriteUInt32 (value : Z)
  | WriteFloat32 (value : float)
  | WriteString8 (str : list Z)
  | WriteString32 (str : list Z)
  | WriteString32Array (arr : list (list Z))
  | GetBuffer.

Inductive Op : Type :=
  | Read (op : ReadOp)
  | Write (op : WriteOp).

(** The outcome of a call, its return value dropped. *)
Definition ignore {A : Type} (m : BitStream.M A) : BitStream.M unit :=
  BitStream.bind m (fun _ => BitStream.ret tt).

Definition exec (op : Op) : BitStream.M unit :=
  match op with
  | Read (ReadUBits bits co) => ignore (BitStreamOps.readUBits bits co)
  | Read (ReadUInt8 co) => ignore (BitStreamOps.readUInt8 co)
  | Read (ReadInt8 co) => ignore (BitStreamOps.readInt8 co)
  | Read (ReadUInt16 co) => ignore (BitStreamOps.readUInt16 co)
  | Read (ReadInt16 co) => ignore (BitStreamOps.readInt16 co)
  | Read (ReadUInt32 co) => ignore (BitStreamOps.readUInt32 co)
  | Read (ReadFloat32 co) => ignore (BitStreamOps.readFloat32 co)
  | Read (ReadString8 co) => ignore (BitStreamOps.readString8 co)
  | Read (ReadString32 co) => ignore (BitStreamOps.readString32 co)
  | Read (ReadString32Array n) => ignore (BitStreamOps.readString32Array n)
  | Write (EnsureCapacity n) => BitStreamOps._ensureCapacity n
  | Write (WriteUBits v bits) => BitStreamOps.writeUBits v bits
  | Write (WriteUInt8 v) => BitStreamOps.writeUInt8 v
  | Write (WriteInt8 v) => BitStreamOps.writeInt8 v
  | Write (WriteUInt16 v) => BitStreamOps.writeUInt16 v
  | Write (WriteInt16 v) => BitStreamOps.writeInt16 v
  | Write (WriteUInt32 v) => BitStreamOps.writeUInt32 v
  | Write (WriteFloat32 v) => BitStreamOps.writeFloat32 v
  | Write (WriteString8 s) => BitStreamOps.writeString8 s
  | Write (WriteString32 s) => BitStreamOps.writeString32 s
  | Write (WriteString32Array arr) => BitStreamOps.writeString32Array arr
  | Write GetBuffer => ignore BitStreamOps.getBuffer
  end.

(** The mode an operation belongs to. *)
Definition for_writing (op : Op) : bool :=
  match op with
  | Read _ => false
  | Write _ => true
  end.

(** The two array operations loop over their elements and touch the stream
    only when there is at least one. *)
Definition touches_stream (op : Op) : Prop :=
  match op with
  | Read (ReadString32Array n) => 1 <= n
  | Write (WriteString32Array arr) => arr <> []
  | _ => True
  end.

(** A call that returns leaves the mode flag as it found it. *)
Definition preserves_mode {A : Type} (m : BitStream.M A) : Prop :=
  forall s a s', m s = Return (a, s') ->
    BitStream.isWriting s' = BitStream.isWriting s.

(** ** Reading from an arbitrary buffer *)

(** On every read-bound stream the method [m] returns, leaves the stream
    read-bound, and its result satisfies [Q]. *)
Definition read_ok {A : Type} (m : BitStream.M A) (Q : A -> Prop) : Prop :=
  forall s, BitStream.isWriting s = false ->
    exists a s', m s = Return (a, s') /\ BitStream.isWriting s' = false /\ Q a.

(** The structural invariant of a decoded document. *)
Definition structural_invariant (d : TerrainUtil.W3E) : Prop :=
  let w := TerrainUtil.width (TerrainUtil.header d) in
  let h := TerrainUtil.height (TerrainUtil.header d) in
  Z.of_nat (length (TerrainUtil.corners d)) = w * h /\
  forall (i : nat) (c : TerrainUtil.Corner),
    TerrainUtil.corners d !! i = Some c ->
    positioned w (Z.of_nat i) c /\ in_ranges c.

(** The corner loop: after [k] iterations the accumulator holds [k]
    corners, each at its position and in range. *)
Definition corners_so_far (width : Z) (k : nat) (cs : list TerrainUtil.Corner) : Prop :=
  length cs = k /\
  forall (j : nat) c, cs !! j = Some c ->
    TerrainUtil.index c = Z.of_nat j /\
    TerrainUtil.rowid c = JS.floor_div (Z.of_nat j) width /\
    TerrainUtil.colid c = JS.rem (Z.of_nat j) width /\
    in_ranges c.

(** ** Two read-bound streams that differ only in their first [n] bytes *)

Definition agree (n : nat) (s1 s2 : BitStream.t) : Prop :=
  BitStream.isWriting s1 = false /\
  BitStream.isWriting s2 = false /\
  BitStream.bitPosition s1 = BitStream.bitPosition s2 /\
  8 * Z.of_nat n <= BitStream.bitPosition s1 /\
  length (BitStream.buffer s1) = length (BitStream.buffer s2) /\
  forall k : nat, (n <= k)%nat ->
    BitStream.buffer s1 !! k = BitStream.buffer s2 !! k.

(** The same buffer, once as it is and once followed by zero bytes, both
    cursors on a byte boundary: at the same byte, or the first at its end
    and the second in or past the padding. *)
Definition padded (s1 s2 : BitStream.t) : Prop :=
  BitStream.isWriting s1 = false /\
  BitStream.isWriting s2 = false /\
  exists k1 k2 pad : nat,
    BitStream.buffer s2 = BitStream.buffer s1 ++ replicate pad x00 /\
    BitStream.bitPosition s1 = 8 * Z.of_nat k1 /\
    BitStream.bitPosition s2 = 8 * Z.of_nat k2 /\
    ((k1 = k2 /\ (k1 <= length (BitStream.buffer s1))%nat) \/
     (k1 = length (BitStream.buffer s1) /\ (k1 <= k2)%nat)).

(** Run on two streams related by [Rs], [m1] and [m2] both return, with
    results related by [R] and streams still related by [Rs]. *)
Definition sim {A : Type} (Rs : BitStream.t -> BitStream.t -> Prop)
    (m1 m2 : BitStream.M A) (R : A -> A -> Prop) : Prop :=
  forall s1 s2, Rs s1 s2 ->
    exists a1 a2 s1' s2',
      m1 s1 = Return (a1, s1') /\ m2 s2 = Return (a2, s2') /\
      R a1 a2 /\ Rs s1' s2'.

(** The document [d] with another [fileId]. *)
Definition with_fileId (id : list Z) (d : TerrainUtil.W3E) : TerrainUtil.W3E :=
  let h := TerrainUtil.header d in
  {| TerrainUtil.header :=
       {| TerrainUtil.fileId := id;
          TerrainUtil.version := TerrainUtil.version h;
          TerrainUtil.baseTileset := TerrainUtil.baseTileset h;
          TerrainUtil.hasCustomTileset := TerrainUtil.hasCustomTileset h;
          TerrainUtil.tilePaletteCount := TerrainUtil.tilePaletteCount h;
          TerrainUtil.tilePalette := TerrainUtil.tilePalette h;
          TerrainUtil.cliffTilePaletteCount := TerrainUtil.cliffTilePaletteCount h;
          TerrainUtil.cliffTilePalette := TerrainUtil.cliffTilePalette h;
          TerrainUtil.width := TerrainUtil.width h;
          TerrainUtil.height := TerrainUtil.height h;
          TerrainUtil.x := TerrainUtil.x h;
          TerrainUtil.y := TerrainUtil.y h |};
     TerrainUtil.corners := TerrainUtil.corners d |}.

(** The scenario buffer cut off inside its first corner record. *)
Definition truncated_scenario : list byte := take 50 (serialize scenario).

(** The body of [decodeW3e] after its first read, as a function of the tag
    that read returned. *)
Definition decode_after_tag (fileId : list Z) : BitStream.M TerrainUtil.W3E :=
  version <- BitStreamOps.readUInt32 true ;;
  baseTileset <- BitStreamOps.readString8 true ;;
  hasCustomTileset <- BitStreamOps.readUInt32 true ;;
  tilePaletteCount <- BitStreamOps.readUInt32 true ;;
  tilePalette <- BitStreamOps.readString32Array tilePaletteCount ;;
  cliffTilePaletteCount <- BitStreamOps.readUInt32 true ;;
  cliffTilePalette <- BitStreamOps.readString32Array cliffTilePaletteCount ;;
  width <- BitStreamOps.readUInt32 true ;;
  height <- BitStreamOps.readUInt32 true ;;
  x <- BitStreamOps.readFloat32 true ;;
  y <- BitStreamOps.readFloat32 true ;;
  let totalCorners := width * height in
  corners <- BitStreamOps.for_ (Z.to_nat totalCorners) 0
               (fun i corners => c <- TerrainUtil.decodeCorner width i ;;
                                 BitStream.ret (corners ++ [c])) [] ;;
  BitStream.ret {|
    TerrainUtil.header := {|
      TerrainUtil.fileId := fileId; TerrainUtil.version := version;
      TerrainUtil.baseTileset := baseTileset;
      TerrainUtil.hasCustomTileset := hasCustomTileset;
      TerrainUtil.tilePaletteCount := tilePaletteCount;
      TerrainUtil.tilePalette := tilePalette;
      TerrainUtil.cliffTilePaletteCount := cliffTilePaletteCount;
      TerrainUtil.cliffTilePalette := cliffTilePalette;
      TerrainUtil.width := width; TerrainUtil.height := height;
      TerrainUtil.x := x; TerrainUtil.y := y
    |};
    TerrainUtil.corners := corners
  |}.

(** ** The buffer as a sequence of bits *)

(** Bit [p] of the buffer, counted from the most significant bit of its
    first byte; [false] outside the buffer. *)
Definition bit_at (buf : list byte) (p : Z) : bool :=
  Z.testbit (get_byte buf (p / 8)) (7 - p mod 8).

(** A write-bound stream whose cursor lies inside its non-empty buffer. *)
Definition writable (s : BitStream.t) : Prop :=
  BitStream.isWriting s = true /\
  (0 < length (BitStream.buffer s))%nat /\
  0 <= BitStream.bitPosition s <= 8 * Z.of_nat (length (BitStream.buffer s)).

(** The buffer a fresh write-bound stream exports after the method [m]. *)
Definition written (m : BitStream.M unit) : Outcome (list byte) :=
  TerrainUtil.run (BitStream.bind m (fun _ => BitStreamOps.getBuffer)) (BitStream.new None).

(** What the method [m] returns on a fresh read-bound stream over [buf]. *)
Definition read_back {A : Type} (m : BitStream.M A) (buf : list byte) : Outcome A :=
  TerrainUtil.run m (BitStream.new (Some buf)).

(** The number of bits a write operation puts into the stream. *)
Definition bits_written (op : WriteOp) : Z :=
  match op with
  | EnsureCapacity _ => 0
  | WriteUBits _ bits => Z.of_nat bits
  | WriteUInt8 _ => 8
  | WriteInt8 _ => 8
  | WriteUInt16 _ => 16
  | WriteInt16 _ => 16
  | WriteUInt32 _ => 32
  | WriteFloat32 _ => 32
  | WriteString8 _ => 8
  | WriteString32 _ => 32
  | WriteString32Array arr => 32 * Z.of_nat (length arr)
  | GetBuffer => 0
  end.

(** A read with [changeOffset = false] of an accessor [w] bits wide, when
    that many bits remain: the value the consuming read returns, and the
    stream untouched. *)
Definition peeks {A : Type} (m : bool -> BitStream.M A) (w : Z) : Prop :=
  forall s,
    BitStream.isWriting s = false ->
    0 <= BitStream.bitPosition s ->
    BitStream.bitPosition s + w <= 8 * Z.of_nat (length (BitStream.buffer s)) ->
    exists a,
      m true s = Return (a, BitStream.mk (BitStream.buffer s)
                              (BitStream.bitPosition s + w) false) /\
      m false s = Return (a, s).

Definition total_bits (ops : list WriteOp) : Z :=
  fold_right (fun op acc => bits_written op + acc) 0 ops.

(** ** Documents as the decoder builds them *)

(** Everything [wf_doc] asks for, except that [x] and [y] be binary32
    values. *)
Definition wf_but_xy (d : TerrainUtil.W3E) : Prop :=
  let h := TerrainUtil.header d in
  layout_ok d /\
  (tag 4 (TerrainUtil.fileId h) /\
   0 <= TerrainUtil.version h < 4294967296 /\
   tag 1 (TerrainUtil.baseTileset h) /\
   0 <= TerrainUtil.hasCustomTileset h < 4294967296 /\
   Forall (tag 4) (TerrainUtil.tilePalette h) /\
   Forall (tag 4) (TerrainUtil.cliffTilePalette h)) /\
  forall (i : nat) (c : TerrainUtil.Corner),
    TerrainUtil.corners d !! i = Some c ->
    wf_corner (TerrainUtil.width h) (Z.of_nat i) c.

(** The document [d] with other values for [x] and [y]. *)
Definition with_xy (x y : float) (d : TerrainUtil.W3E) : TerrainUtil.W3E :=
  let h := TerrainUtil.header d in
  {| TerrainUtil.header :=
       {| TerrainUtil.fileId := TerrainUtil.fileId h;
          TerrainUtil.version := TerrainUtil.version h;
          TerrainUtil.baseTileset := TerrainUtil.baseTileset h;
          TerrainUtil.hasCustomTileset := TerrainUtil.hasCustomTileset h;
          TerrainUtil.tilePaletteCount := TerrainUtil.tilePaletteCount h;
          TerrainUtil.tilePalette := TerrainUtil.tilePalette h;
          TerrainUtil.cliffTilePaletteCount := TerrainUtil.cliffTilePaletteCount h;
          TerrainUtil.cliffTilePalette := TerrainUtil.cliffTilePalette h;
          TerrainUtil.width := TerrainUtil.width h;
          TerrainUtil.height := TerrainUtil.height h;
          TerrainUtil.x := x;
          TerrainUtil.y := y |};
     TerrainUtil.corners := TerrainUtil.corners d |}.

(** The corner loop of [decodeW3e]: after [k] iterations the accumulator
    holds [k] corners, each well formed at its position. *)
Definition wf_corners_so_far (width : Z) (k : nat) (cs : list TerrainUtil.Corner) : Prop :=
  length cs = k /\
  forall (j : nat) c, cs !! j = Some c ->
    TerrainUtil.index c = Z.of_nat j /\
    TerrainUtil.rowid c = JS.floor_div (Z.of_nat j) width /\
    TerrainUtil.colid c = JS.rem (Z.of_nat j) width /\
    quarter_height 65536 (TerrainUtil.groundHeight c) /\
    quarter_height 16384 (TerrainUtil.waterHeight c) /\
    in_ranges c.

(** The corner [generateEmptyW3e] creates at index [i]: flat ground at
    height 0, texture slot 0, cliff layer 2. *)
Definition empty_corner (width i : Z) : TerrainUtil.Corner :=
  {| TerrainUtil.index := i;
     TerrainUtil.rowid := JS.floor_div i width;
     TerrainUtil.colid := JS.rem i width;
     TerrainUtil.groundHeight := 0; TerrainUtil.waterHeight := 0;
     TerrainUtil.mapEdge := 0; TerrainUtil.ramp := 0; TerrainUtil.blight := 0;
     TerrainUtil.water := 0; TerrainUtil.boundary := 0;
     TerrainUtil.groundTexture := 0; TerrainUtil.groundVariation := 0;
     TerrainUtil.cliffVariation := 0; TerrainUtil.cliffTexture := 0;
     TerrainUtil.layerHeight := 2 |}.

(** ** A file given by its parts *)

(** The parts of a file laid out as the format prescribes: the raw bytes
    of the tag, of the palette entries, of the two coordinates and of the
    corner records, and the numbers of the 32-bit fields. *)
Record FileParts : Type := mkFileParts {
  part_fileId : list byte;
  part_version : Z;
  part_baseTileset : byte;
  part_hasCustomTileset : Z;
  part_tilePalette : list (list byte);
  part_cliffTilePalette : list (list byte);
  part_width : Z;
  part_height : Z;
  part_x : list byte;
  part_y : list byte;
  part_corners : list (list byte)
}.

Definition file_bytes (p : FileParts) : list byte :=
  part_fileId p
  ++ u32_bytes (part_version p)
  ++ [part_baseTileset p]
  ++ u32_bytes (part_hasCustomTileset p)
  ++ u32_bytes (Z.of_nat (length (part_tilePalette p)))
  ++ List.concat (part_tilePalette p)
  ++ u32_bytes (Z.of_nat (length (part_cliffTilePalette p)))
  ++ List.concat (part_cliffTilePalette p)
  ++ u32_bytes (part_width p)
  ++ u32_bytes (part_height p)
  ++ part_x p
  ++ part_y p
  ++ List.concat (part_corners p).

(** Every part has the size of its slot, and the counts describe the
    sequences. *)
Definition laid_out (p : FileParts) : Prop :=
  length (part_fileId p) = 4%nat /\
  0 <= part_version p < 4294967296 /\
  0 <= part_hasCustomTileset p < 4294967296 /\
  Forall (fun t => length t = 4%nat) (part_tilePalette p) /\
  Z.of_nat (length (part_tilePalette p)) < 4294967296 /\
  Forall (fun t => length t = 4%nat) (part_cliffTilePalette p) /\
  Z.of_nat (length (part_cliffTilePalette p)) < 4294967296 /\
  0 <= part_width p < 4294967296 /\
  0 <= part_height p < 4294967296 /\
  part_width p * part_height p = Z.of_nat (length (part_corners p)) /\
  Forall (fun c => length c = 7%nat) (part_corners p).

(** Four bytes that [setFloat32] would write for the number they encode:
    every bit pattern but the NaNs other than the canonical one. *)
Definition canonical_float32 (bs : list byte) : Prop :=
  DataView.setFloat32 (DataView.getFloat32 bs) = bs.

(** The corner [decodeW3e] builds from a record of seven bytes. *)
Definition corner_of_bytes (width i : Z) (bs : list byte) : TerrainUtil.Corner :=
  match bs with
  | [b0; b1; b2; b3; b4; b5; b6] =>
      unpack_corner width i (u16_of_bytes b0 b1) (u16_of_bytes b2 b3)
        (byte_to_Z b4) (byte_to_Z b5) (byte_to_Z b6)
  | _ => unpack_corner width i 0 0 0 0 0
  end.

Fixpoint corners_of_bytes (width i : Z) (cs : list (list byte))
  : list TerrainUtil.Corner :=
  match cs with
  | [] => []
  | c :: cs' => corner_of_bytes width i c :: corners_of_bytes width (i + 1) cs'
  end.

(** The document those parts stand for. *)
Definition parts_doc (p : FileParts) : TerrainUtil.W3E :=
  {| TerrainUtil.header :=
       {| TerrainUtil.fileId := List.map byte_to_Z (part_fileId p);
          TerrainUtil.version := part_version p;
          TerrainUtil.baseTileset := [byte_to_Z (part_baseTileset p)];
          TerrainUtil.hasCustomTileset := part_hasCustomTileset p;
          TerrainUtil.tilePaletteCount := Z.of_nat (length (part_tilePalette p));
          TerrainUtil.tilePalette := List.map (List.map byte_to_Z) (part_tilePalette p);
          TerrainUtil.cliffTilePaletteCount :=
            Z.of_nat (length (part_cliffTilePalette p));
          TerrainUtil.cliffTilePalette :=
            List.map (List.map byte_to_Z) (part_cliffTilePalette p);
          TerrainUtil.width := part_width p;
          TerrainUtil.height := part_height p;
          TerrainUtil.x := DataView.getFloat32 (part_x p);
          TerrainUtil.y := DataView.getFloat32 (part_y p) |};
     TerrainUtil.corners := corners_of_bytes (part_width p) 0 (part_corners p) |}.

(** The scenario file, part by part. *)
Definition scenario_parts : FileParts :=
  {| part_fileId := [x57; x33; x45; x52];
     part_version := 11;
     part_baseTileset := x4f;
     part_hasCustomTileset := 0;
     part_tilePalette := [[x4f; x61; x62; x79]];
     part_cliffTilePalette := [[x4f; x63; x6c; x6d]];
     part_width := 2;
     part_height := 1;
     part_x := [x00; x00; x00; xc3];
     part_y := [x00; x00; x00; x00];
     part_corners := [[x00; x20; x00; x20; x03; x00; x20];
                      [x00; x20; x00; x20; x03; x00; x20]] |}.

(** ** The editor *)

(** The squared distance the loop of [applyImageToTerrain] computes
    between a pixel and the colour of a mapping. *)
Definition sq_dist (r g b : Z) (c : App.RGB) : Z :=
  (r - App.r c) * (r - App.r c) + (g - App.g c) * (g - App.g c)
  + (b - App.b c) * (b - App.b c).

(** The slot the nearest-colour loop assigns to the cell [(row, col)]:
    the image is read upside down, row [row] of the terrain taking the
    pixel row [height - 1 - row]. *)
Definition cell_slot (activeMappings : list (App.ColorMapping * App.RGB))
    (imgData : list Z) (width height row col : Z) (corner : TerrainUtil.Corner) : Z :=
  let pixelIndex := ((height - 1 - row) * width + col) * 4 in
  match App.at_index imgData pixelIndex, App.at_index imgData (pixelIndex + 1),
        App.at_index imgData (pixelIndex + 2) with
  | Some r, Some g, Some b =>
      App.nearest_loop activeMappings r g b None (TerrainUtil.groundTexture corner)
  | _, _, _ => TerrainUtil.groundTexture corner
  end.

(** The corner at index [k] of the grid after classification. *)
Definition classify_cell (activeMappings : list (App.ColorMapping * App.RGB))
    (imgData : list Z) (width height : Z) (k : nat) (corner : TerrainUtil.Corner)
  : TerrainUtil.Corner :=
  App.with_groundTexture corner
    (cell_slot activeMappings imgData width height
       (Z.of_nat k / width) (Z.of_nat k mod width) corner).

(** The first [n] corners of [cur] are those of [orig] after
    classification, the others are those of [orig]. *)
Definition classified_up_to (F : nat -> TerrainUtil.Corner -> TerrainUtil.Corner)
    (orig : list TerrainUtil.Corner) (n : nat) (cur : list TerrainUtil.Corner) : Prop :=
  length cur = length orig /\
  forall j : nat,
    cur !! j = if (j <? n)%nat then F j <$> orig !! j else orig !! j.

(** The cell [(tc, tr)] lies under a square brush of half-width
    [halfBrush] centred on [(col, row)]. *)
Definition in_brush (halfBrush col row tc tr : Z) : bool :=
  (col - halfBrush <=? tc) && (tc <=? col + halfBrush)
  && (row - halfBrush <=? tr) && (tr <=? row + halfBrush).

(** The cells the brush loops have visited after [a] complete rows and
    [bx] cells of the next row. *)
Definition brushed (halfBrush col row a bx tc tr : Z) : bool :=
  (col - halfBrush <=? tc) && (tc <=? col + halfBrush)
  && (((row - halfBrush <=? tr) && (tr <? row - halfBrush + a))
      || ((tr =? row - halfBrush + a) && (tc <? col - halfBrush + bx))).

(** The state of the brush loops: the visited cells of the grid carry the
    selected texture, the others are untouched, and [modified] is raised
    as soon as the array differs from the original. *)
Definition painted_so_far (terrain : TerrainUtil.W3E) (selectedTexture : Z)
    (visited : Z -> Z -> bool) (st : list TerrainUtil.Corner * bool) : Prop :=
  let width := TerrainUtil.width (TerrainUtil.header terrain) in
  let height := TerrainUtil.height (TerrainUtil.header terrain) in
  length (fst st) = length (TerrainUtil.corners terrain) /\
  (snd st = false -> fst st = TerrainUtil.corners terrain) /\
  forall tr tc, 0 <= tr < height -> 0 <= tc < width ->
    fst st !! Z.to_nat (tr * width + tc)
    = (fun c => if visited tc tr then App.with_groundTexture c selectedTexture else c)
      <$> TerrainUtil.corners terrain !! Z.to_nat (tr * width + tc).

(** A grid of [width * height] corners. *)
Definition grid_ok (terrain : TerrainUtil.W3E) : Prop :=
  0 <= TerrainUtil.width (TerrainUtil.header terrain) /\
  0 <= TerrainUtil.height (TerrainUtil.header terrain) /\
  TerrainUtil.width (TerrainUtil.header terrain)
  * TerrainUtil.height (TerrainUtil.header terrain)
  = Z.of_nat (length (TerrainUtil.corners terrain)).

(** ** Sequences of bit fields *)

(** A writer that puts the fields [(value, bits)] into the stream one
    after the other, and the reader that takes fields of those widths out
    again. *)
Definition write_fields (fields : list (Z * nat)) : BitStream.M unit :=
  BitStreamOps.for_of fields (fun f => BitStreamOps.writeUBits (fst f) (snd f)).

Fixpoint read_fields (widths : list nat) : BitStream.M (list Z) :=
  match widths with
  | [] => BitStream.ret []
  | bits :: widths' =>
      BitStream.bind (BitStreamOps.readUBits bits true) (fun v =>
      BitStream.bind (read_fields widths') (fun vs =>
      BitStream.ret (v :: vs)))
  end.

Definition fields_width (fields : list (Z * nat)) : Z :=
  fold_right (fun f acc => Z.of_nat (snd f) + acc) 0 fields.

(** ** Sample values *)

Definition sample_reader : BitStream.t := BitStream.mk [xa5; x3c] 3 false.
Definition sample_reader_at_8 : BitStream.t := BitStream.mk [xa5; x3c] 8 false.
Definition sample_writer : BitStream.t := BitStream.mk [xa5; x3c] 3 true.
Definition sample_full_writer : BitStream.t := BitStream.mk [xa5; x3c] 16 true.

Definition sample_fields : list (Z * nat) :=
  [(5, 3%nat); (1234, 11%nat); (-1, 32%nat)].

(** Three mappings, the second one switched off. *)
Definition sample_mappings : list App.ColorMapping :=
  [ {| App.slotIndex := 0; App.color := JS.str "#8b4513"; App.active := true;
       App.textureId := None |};
    {| App.slotIndex := 5; App.color := JS.str "#00ff00"; App.active := false;
       App.textureId := None |};
    {| App.slotIndex := 7; App.color := JS.str "#0000FF"; App.active := true;
       App.textureId := None |} ].

(** The RGBA bytes of an image of 2 x 1 pixels. *)
Definition sample_image : list Z := [130; 70; 20; 255; 0; 0; 250; 255].


(** ** Writing when memory is bounded *)

(** The write operations on an engine that grants typed arrays of up to
    [limit] bytes. *)
Definition exec_limited (limit : Z) (op : WriteOp) : Limited.M unit :=
  match op with
  | EnsureCapacity n => LimitedOps._ensureCapacity limit n
  | WriteUBits v bits => LimitedOps.writeUBits limit v bits
  | WriteUInt8 v => LimitedOps.writeUInt8 limit v
  | WriteInt8 v => LimitedOps.writeInt8 limit v
  | WriteUInt16 v => LimitedOps.writeUInt16 limit v
  | WriteInt16 v => LimitedOps.writeInt16 limit v
  | WriteUInt32 v => LimitedOps.writeUInt32 limit v
  | WriteFloat32 v => LimitedOps.writeFloat32 limit v
  | WriteString8 s => LimitedOps.writeString8 limit s
  | WriteString32 s => LimitedOps.writeString32 limit s
  | WriteString32Array arr => LimitedOps.writeString32Array limit arr
  | GetBuffer => Limited.bind (LimitedOps.getBuffer limit) (fun _ => Limited.ret tt)
  end.

(** [const s = new BitStream(); ops(s); return s.getBuffer()]: the buffer
    exported and the stream left behind. *)
Definition write_all (limit : Z) (ops : list WriteOp)
  : Limited.Result (list byte * BitStream.t) :=
  match LimitedOps.new limit None with
  | Limited.Returns s =>
      Limited.bind (LimitedOps.for_of ops (exec_limited limit))
        (fun _ => LimitedOps.getBuffer limit) s
  | Limited.Throws e => Limited.Throws e
  | Limited.Refused => Limited.Refused
  | Limited.Diverges => Limited.Diverges
  end.

(** The room, in bits from the cursor, an operation asks
    [_ensureCapacity] for. *)
Definition request (op : WriteOp) : Z :=
  match op with
  | EnsureCapacity n => n
  | _ => bits_written op
  end.

(** The largest bit position any operation of the sequence, started with
    the cursor at [pos], asks room for. *)
Fixpoint peak_demand (ops : list WriteOp) (pos : Z) : Z :=
  match ops with
  | [] => pos
  | op :: ops' => Z.max (pos + request op) (peak_demand ops' (pos + bits_written op))
  end.

(** The buffer length that demands up to bit position [D] can lead to,
    starting from the 1024 bytes of the constructor. *)
Definition capacity_bound (D : Z) : Z := Z.max 1024 (2 * JS.ceil_div D 8 - 1).

(** On a writable stream with a buffer of at least 1024 bytes, [m] asked
    for room up to [r] bits from the cursor would, given the memory, leave
    a writable stream [s'] with the cursor [k] bits further; on an engine
    with a limit it returns that stream when the buffer of [s'] fits the
    limit and is refused otherwise. *)
Definition tracks (D : Z) (m : Z -> Limited.M unit) (k r : Z) : Prop :=
  forall s,
    writable s ->
    1024 <= Z.of_nat (length (BitStream.buffer s)) <= capacity_bound D ->
    BitStream.bitPosition s + r <= D ->
    exists s',
      writable s' /\
      BitStream.bitPosition s' = BitStream.bitPosition s + k /\
      Z.of_nat (length (BitStream.buffer s))
      <= Z.of_nat (length (BitStream.buffer s')) <= capacity_bound D /\
      forall limit,
        Z.of_nat (length (BitStream.buffer s)) <= limit ->
        m limit s
        = if Z.of_nat (length (BitStream.buffer s')) <=? limit
          then Limited.Returns (tt, s')
          else Limited.Refused.

(** An engine that grants typed arrays of up to 4096 bytes. *)
Definition sample_limit : Z := 4096.


(** * Lemmas *)

(** ** The model on concrete inputs *)

Example shl_into_sign_bit : 1 << 31 = -2147483648.
Proof. reflexivity. Qed.

Example ushr_makes_unsigned : (255 << 24) >>> 0 = 4278190080.
Proof. reflexivity. Qed.

Example not_is_twos_complement : .~ 1 = -2.
Proof. reflexivity. Qed.

Example Math_round_tie_up : JS.Math_round 8192.5 = 8193.
Proof. vm_compute. reflexivity. Qed.

Example Math_round_negative_tie : JS.Math_round (-2.5) = -2.
Proof. vm_compute. reflexivity. Qed.

Example Math_round_below_half : JS.Math_round 0x1.fffffffffffffp-2 = 0.
Proof. vm_compute. reflexivity. Qed.

Example setFloat32_minus_128 : DataView.setFloat32 (-128) = [x00; x00; x00; xc3].
Proof. vm_compute. reflexivity. Qed.

(** [0.1] is not a binary32 value: it comes back as [0.100000001490116...]. *)
Example fround_tenth : DataView.fround 0x1.999999999999ap-4 = 0x1.99999ap-4%float.
Proof. vm_compute. reflexivity. Qed.

Example fround_overflow : DataView.fround 0x1p+128 = infinity.
Proof. vm_compute. reflexivity. Qed.

(** A 16-bit read with 8 bits left returns those 8 bits, unshifted. *)
Example readUBits_partial :
  BitStreamOps.readUBits 16 true (BitStream.new (Some [x2a]))
  = Return (42, BitStream.mk [x2a] 8 false).
Proof. vm_compute. reflexivity. Qed.

Example writeUInt16_little_endian :
  TerrainUtil.run (BitStream.bind (BitStreamOps.writeUInt16 8192)
                     (fun _ => BitStreamOps.getBuffer)) (BitStream.new None)
  = Return [x00; x20].
Proof. vm_compute. reflexivity. Qed.

Example encodeW3e_scenario :
  TerrainUtil.encodeW3e scenario
  = Return [x57; x33; x45; x52; x0b; x00; x00; x00; x4f; x00; x00; x00; x00;
            x01; x00; x00; x00; x4f; x61; x62; x79; x01; x00; x00; x00;
            x4f; x63; x6c; x6d; x02; x00; x00; x00; x01; x00; x00; x00;
            x00; x00; x00; xc3; x00; x00; x00; x00;
            x00; x20; x00; x20; x03; x00; x20;
            x00; x20; x00; x20; x03; x00; x20].
Proof. vm_compute. reflexivity. Qed.

(** ** Exhaustive checks over a range *)

Lemma forall_range_spec (k : nat) (P : Z -> bool) :
  forall lo, forall_range k lo P = true ->
  forall z, lo <= z < lo + 2 ^ Z.of_nat k -> P z = true.
Proof.
  induction k as [|k IH]; intros lo H z Hz.
  - simpl in *. replace z with lo by lia. exact H.
  - cbn [forall_range] in H. apply andb_prop in H as [H1 H2].
    assert (E : 2 ^ Z.of_nat (S k) = 2 * 2 ^ Z.of_nat k).
    { rewrite Nat2Z.inj_succ, Z.pow_succ_r by lia. reflexivity. }
    destruct (Z_lt_le_dec z (lo + 2 ^ Z.of_nat k)).
    + apply (IH lo H1). lia.
    + apply (IH _ H2). lia.
Qed.

(** ** Bytes *)

Lemma byte_to_Z_range (b : byte) : 0 <= byte_to_Z b < 256.
Proof.
  unfold byte_to_Z. pose proof (Byte.to_N_bounded b). lia.
Qed.

Lemma byte_to_Z_ToUint8 (z : Z) : byte_to_Z (ToUint8 z) = Z.land z 255.
Proof.
  unfold ToUint8, byte_to_Z.
  assert (Hr : 0 <= Z.land z 255 < 256).
  { change 255 with (Z.ones 8). rewrite Z.land_ones by lia.
    apply Z.mod_pos_bound. lia. }
  destruct (Byte.of_N (Z.to_N (Z.land z 255))) as [b|] eqn:E.
  - apply Byte.to_of_N in E. rewrite E. lia.
  - apply Byte.of_N_None_iff in E. lia.
Qed.

Lemma ToUint8_byte_to_Z (b : byte) : ToUint8 (byte_to_Z b) = b.
Proof.
  unfold ToUint8, byte_to_Z.
  pose proof (Byte.to_N_bounded b) as Hb.
  replace (Z.land (Z.of_N (Byte.to_N b)) 255) with (Z.of_N (Byte.to_N b)).
  - rewrite N2Z.id, Byte.of_to_N. reflexivity.
  - change 255 with (Z.ones 8). rewrite Z.land_ones by lia.
    symmetry. apply Z.mod_small. lia.
Qed.

Lemma ToUint8_land (z : Z) : ToUint8 (Z.land z 255) = ToUint8 z.
Proof.
  unfold ToUint8. rewrite <- Z.land_assoc. reflexivity.
Qed.

(** ** Integer conversions and bit operators *)

Lemma ToUint32_mod (z : Z) : JS.ToUint32 z = z mod 4294967296.
Proof.
  unfold JS.ToUint32. change 4294967295 with (Z.ones 32).
  rewrite Z.land_ones by lia. reflexivity.
Qed.

Lemma ToInt32_cases (z : Z) :
  -2147483648 <= JS.ToInt32 z < 2147483648 /\
  exists c, JS.ToInt32 z = z + c * 4294967296.
Proof.
  unfold JS.ToInt32. cbv zeta. rewrite ToUint32_mod.
  pose proof (Z.mod_pos_bound z 4294967296 ltac:(lia)) as Hm.
  pose proof (Z.div_mod z 4294967296 ltac:(lia)) as Hd.
  destruct (Z.leb_spec 2147483648 (z mod 4294967296)); split; try lia.
  - exists (- (z / 4294967296) - 1). lia.
  - exists (- (z / 4294967296)). lia.
Qed.

Lemma ToInt32_small (z : Z) :
  -2147483648 <= z < 2147483648 -> JS.ToInt32 z = z.
Proof.
  intros Hz. destruct (ToInt32_cases z) as [Hr [c Hc]]. lia.
Qed.

Lemma ToInt32_testbit (z i : Z) :
  0 <= i < 32 -> Z.testbit (JS.ToInt32 z) i = Z.testbit z i.
Proof.
  intros Hi. destruct (ToInt32_cases z) as [_ [c Hc]]. rewrite Hc.
  rewrite <- (Z.mod_pow2_bits_low (z + c * 4294967296) 32 i) by lia.
  rewrite <- (Z.mod_pow2_bits_low z 32 i) by lia.
  change (2 ^ 32) with 4294967296. rewrite Z.mod_add by lia. reflexivity.
Qed.

Lemma land_255_mod (z : Z) : Z.land z 255 = z mod 256.
Proof. change 255 with (Z.ones 8). rewrite Z.land_ones by lia. reflexivity. Qed.

(** [(v >> i) & 1] is bit [i] of [v]. *)
Lemma bit_extract (v i : Z) :
  0 <= i < 32 -> (v >> i) .& 1 = Z.b2z (Z.testbit v i).
Proof.
  intros Hi. unfold JS.and, JS.sar.
  assert (Ei : Z.land i 31 = i).
  { change 31 with (Z.ones 5). rewrite Z.land_ones by lia.
    apply Z.mod_small. change (2 ^ 5) with 32. lia. }
  rewrite Ei. change (JS.ToInt32 1) with 1.
  destruct (ToInt32_cases v) as [Hr _].
  assert (Hs : -2147483648 <= Z.shiftr (JS.ToInt32 v) i < 2147483648).
  { rewrite Z.shiftr_div_pow2 by lia.
    pose proof (Z.pow_pos_nonneg 2 i ltac:(lia) ltac:(lia)) as Hp.
    split.
    - apply Z.div_le_lower_bound; nia.
    - apply Z.div_lt_upper_bound; nia. }
  rewrite (ToInt32_small _ Hs).
  change 1 with (Z.ones 1) at 1. rewrite Z.land_ones by lia.
  change (2 ^ 1) with 2. rewrite <- Z.bit0_mod.
  rewrite Z.shiftr_spec by lia. rewrite Z.add_0_l.
  rewrite ToInt32_testbit by lia. reflexivity.
Qed.

(** ** One byte at a time: the loops of [readUBits] and [writeUBits] *)

Lemma byte_cursor (k : nat) (j : Z) :
  0 <= j < 8 ->
  JS.floor_div (8 * Z.of_nat k + j) 8 = Z.of_nat k /\
  JS.rem (8 * Z.of_nat k + j) 8 = j.
Proof.
  intros Hj. unfold JS.floor_div, JS.rem. split.
  - symmetry. apply (Z.div_unique _ 8 _ j); lia.
  - rewrite Z.rem_mod_nonneg by lia.
    symmetry. apply (Z.mod_unique _ 8 (Z.of_nat k) j); lia.
Qed.

Lemma get_byte_lookup (buf : Uint8Array) (k : nat) (b : byte) :
  buf !! k = Some b -> get_byte buf (Z.of_nat k) = byte_to_Z b.
Proof.
  intros H. unfold get_byte.
  destruct (Z.ltb_spec (Z.of_nat k) 0); [lia|].
  rewrite Nat2Z.id, H. reflexivity.
Qed.

Lemma readUBits_loop_in_byte (n : nat) :
  forall (buf : Uint8Array) (k : nat) (cur : byte) (j value : Z),
    buf !! k = Some cur -> 0 <= j -> j + Z.of_nat n <= 8 ->
    BitStreamOps.readUBits_loop n buf (8 * Z.of_nat k + j) value
    = (read_in_byte n (byte_to_Z cur) j value, 8 * Z.of_nat k + j + Z.of_nat n).
Proof.
  induction n as [|n IH]; intros buf k cur j value Hk Hj Hn.
  - simpl. f_equal. lia.
  - cbn [BitStreamOps.readUBits_loop read_in_byte].
    destruct (byte_cursor k j ltac:(lia)) as [-> ->].
    pose proof (lookup_lt_Some _ _ _ Hk) as Hlen.
    destruct (Z.leb_spec (Z.of_nat (length buf)) (Z.of_nat k)); [lia|].
    rewrite (get_byte_lookup _ _ _ Hk).
    replace (8 * Z.of_nat k + j + 1) with (8 * Z.of_nat k + (j + 1)) by lia.
    rewrite (IH buf k cur (j + 1)) by (auto; lia).
    f_equal. lia.
Qed.

Lemma writeUBits_loop_in_byte (n : nat) :
  forall (out rest : Uint8Array) (cur : byte) (j v : Z),
    0 <= j -> j + Z.of_nat n <= 8 ->
    BitStreamOps.writeUBits_loop n v (out ++ cur :: rest)
      (8 * Z.of_nat (length out) + j)
    = (out ++ ToUint8 (write_in_byte n v (byte_to_Z cur) j) :: rest,
       8 * Z.of_nat (length out) + j + Z.of_nat n).
Proof.
  induction n as [|n IH]; intros out rest cur j v Hj Hn.
  - simpl. rewrite ToUint8_byte_to_Z. f_equal. lia.
  - cbn [BitStreamOps.writeUBits_loop write_in_byte].
    destruct (byte_cursor (length out) j ltac:(lia)) as [-> ->].
    rewrite (get_byte_lookup _ _ cur) by (apply list_lookup_middle; reflexivity).
    unfold set_byte.
    destruct (Z.ltb_spec (Z.of_nat (length out)) 0); [lia|].
    rewrite Nat2Z.id.
    rewrite insert_app_r_alt by lia. rewrite Nat.sub_diag.
    cbn [insert list_insert].
    replace (8 * Z.of_nat (length out) + j + 1)
      with (8 * Z.of_nat (length out) + (j + 1)) by lia.
    rewrite IH by lia.
    rewrite byte_to_Z_ToUint8. f_equal. lia.
Qed.

(** Only the low eight bits of the value matter to an 8-bit write. *)
Lemma write_in_byte_low8 (n : nat) :
  forall (v cur j : Z), (n <= 8)%nat ->
    write_in_byte n v cur j = write_in_byte n (Z.land v 255) cur j.
Proof.
  induction n as [|n IH]; intros v cur j Hn; [reflexivity|].
  cbn [write_in_byte].
  rewrite !bit_extract by lia.
  rewrite Z.land_spec.
  change 255 with (Z.ones 8). rewrite (Z.ones_spec_low 8) by lia.
  rewrite andb_true_r. apply IH. lia.
Qed.

Lemma write_in_byte_check :
  forall_range 8 0 (fun w => write_in_byte 8 w 0 0 =? w) = true.
Proof. vm_compute. reflexivity. Qed.

(** Eight bits written into a zero byte leave the low byte of the value. *)
Lemma write_in_byte_8 (v : Z) : write_in_byte 8 v 0 0 = Z.land v 255.
Proof.
  rewrite write_in_byte_low8 by lia.
  assert (Hw : 0 <= Z.land v 255 < 256).
  { rewrite land_255_mod. apply Z.mod_pos_bound. lia. }
  apply Z.eqb_eq.
  apply (forall_range_spec 8 _ 0 write_in_byte_check).
  change (2 ^ Z.of_nat 8) with 256. lia.
Qed.

Lemma read_in_byte_check :
  forall_range 8 0 (fun c => (read_in_byte 8 c 0 0 >>> 0) =? c) = true.
Proof. vm_compute. reflexivity. Qed.

Lemma read_in_byte_8 (b : byte) :
  read_in_byte 8 (byte_to_Z b) 0 0 >>> 0 = byte_to_Z b.
Proof.
  pose proof (byte_to_Z_range b) as Hb.
  apply Z.eqb_eq.
  apply (forall_range_spec 8 _ 0 read_in_byte_check).
  change (2 ^ Z.of_nat 8) with 256. lia.
Qed.

(** ** Writing whole bytes *)

Lemma double_until_some (fuel : nat) :
  forall newLength requiredBytes,
    0 < newLength -> requiredBytes - newLength < Z.of_nat fuel ->
    exists r, BitStreamOps.double_until fuel newLength requiredBytes = Some r
              /\ requiredBytes <= r /\ newLength <= r.
Proof.
  induction fuel as [|fuel IH]; intros nl req Hnl Hf.
  - simpl. destruct (Z.ltb_spec nl req); [lia|]. exists nl. repeat split; lia.
  - cbn [BitStreamOps.double_until]. destruct (Z.ltb_spec nl req).
    + destruct (IH (nl * 2) req ltac:(lia) ltac:(lia)) as (r & -> & ? & ?).
      exists r. repeat split; lia.
    + exists nl. repeat split; lia.
Qed.

Lemma ceil_div_8 (n : Z) : JS.ceil_div (8 * n) 8 = n.
Proof.
  unfold JS.ceil_div. replace (- (8 * n)) with ((- n) * 8) by lia.
  rewrite Z.div_mul by lia. lia.
Qed.

Lemma ensureCapacity_wstate (s : BitStream.t) (out : list byte) :
  wstate s out ->
  exists n,
    BitStreamOps._ensureCapacity (Z.of_nat 8) s
    = Return (tt, BitStream.mk (out ++ x00 :: replicate n x00)
                    (BitStream.bitPosition s) true).
Proof.
  intros (Hw & Hp & [n Hb] & Hlen).
  unfold BitStreamOps._ensureCapacity. rewrite Hw. cbn [negb].
  rewrite Hp.
  replace (8 * Z.of_nat (length out) + Z.of_nat 8)
    with (8 * (Z.of_nat (length out) + 1)) by lia.
  rewrite ceil_div_8.
  destruct (Z.ltb_spec (Z.of_nat (length (BitStream.buffer s)))
              (Z.of_nat (length out) + 1)) as [Hlt|Hge].
  - assert (Hn : n = 0%nat).
    { rewrite Hb, length_app, length_replicate in Hlt. lia. }
    subst n. cbn [replicate] in Hb. rewrite app_nil_r in Hb.
    destruct (double_until_some (Z.to_nat (Z.of_nat (length out) + 1))
                (Z.of_nat (length (BitStream.buffer s)) * 2)
                (Z.of_nat (length out) + 1) ltac:(lia) ltac:(lia))
      as (r & -> & Hr1 & Hr2).
    unfold new_Uint8Array.
    destruct (Z.to_nat (r - Z.of_nat (length (BitStream.buffer s)))) as [|m] eqn:Em.
    + rewrite Hb in Em. lia.
    + exists m. rewrite Hb. reflexivity.
  - rewrite Hb, length_app, length_replicate in Hge.
    destruct n as [|n]; [lia|].
    exists n. destruct s as [buf pos w]. simpl in *. subst. reflexivity.
Qed.

Lemma appends_writeUBits_8 (v : Z) :
  appends (BitStreamOps.writeUBits v 8) [ToUint8 v].
Proof.
  intros s out Hs.
  destruct (ensureCapacity_wstate s out Hs) as (n & He).
  destruct Hs as (Hw & Hp & _ & _).
  unfold BitStreamOps.writeUBits, BitStream.bind. rewrite He.
  cbn [BitStream.buffer BitStream.bitPosition BitStream.isWriting].
  rewrite Hp.
  replace (8 * Z.of_nat (length out)) with (8 * Z.of_nat (length out) + 0) by lia.
  rewrite writeUBits_loop_in_byte by lia.
  change (byte_to_Z x00) with 0.
  rewrite write_in_byte_8, ToUint8_land.
  eexists. split; [reflexivity|].
  repeat split; cbn [BitStream.buffer BitStream.bitPosition BitStream.isWriting].
  - rewrite length_app. simpl. lia.
  - exists n. rewrite <- app_assoc. reflexivity.
  - rewrite length_app. simpl. lia.
Qed.

Lemma appends_ret : appends (BitStream.ret tt) [].
Proof.
  intros s out Hs. exists s. split; [reflexivity|]. rewrite app_nil_r. exact Hs.
Qed.

Lemma appends_bind (m1 : BitStream.M unit) (m2 : unit -> BitStream.M unit)
    (b1 b2 : list byte) :
  appends m1 b1 -> appends (m2 tt) b2 ->
  appends (BitStream.bind m1 m2) (b1 ++ b2).
Proof.
  intros H1 H2 s out Hs.
  destruct (H1 s out Hs) as (s1 & E1 & Hs1).
  destruct (H2 s1 _ Hs1) as (s2 & E2 & Hs2).
  exists s2. unfold BitStream.bind. rewrite E1. split; [exact E2|].
  rewrite app_assoc. exact Hs2.
Qed.

Lemma appends_for_of {A : Type} (body : A -> BitStream.M unit)
    (f : A -> list byte) (l : list A) :
  (forall a, appends (body a) (f a)) ->
  appends (BitStreamOps.for_of l body) (List.concat (List.map f l)).
Proof.
  intros Hbody. induction l as [|a l IH].
  - apply appends_ret.
  - cbn [BitStreamOps.for_of List.map List.concat].
    apply appends_bind; [apply Hbody | exact IH].
Qed.

Lemma getBuffer_wstate (s : BitStream.t) (out : list byte) :
  wstate s out -> BitStreamOps.getBuffer s = Return (out, s).
Proof.
  intros (Hw & Hp & [n Hb] & _).
  unfold BitStreamOps.getBuffer. rewrite Hw, Hp, ceil_div_8, Nat2Z.id, Hb.
  cbn [negb]. rewrite take_app_length. reflexivity.
Qed.

Lemma wstate_new : wstate (BitStream.new None) [].
Proof.
  repeat split; try reflexivity.
  - exists 1024%nat. reflexivity.
  - vm_compute. lia.
Qed.

Lemma appends_bind1 (m1 : BitStream.M unit) (m2 : unit -> BitStream.M unit)
    (b : byte) (bs : list byte) :
  appends m1 [b] -> appends (m2 tt) bs ->
  appends (BitStream.bind m1 m2) (b :: bs).
Proof. apply (appends_bind m1 m2 [b] bs). Qed.

Lemma appends_writeUInt8 (v : Z) : appends (BitStreamOps.writeUInt8 v) [ToUint8 v].
Proof. apply appends_writeUBits_8. Qed.

Lemma appends_writeUInt16 (v : Z) : appends (BitStreamOps.writeUInt16 v) (u16_bytes v).
Proof.
  unfold BitStreamOps.writeUInt16, u16_bytes.
  apply appends_bind1; apply appends_writeUBits_8.
Qed.

Lemma appends_writeUInt32 (v : Z) : appends (BitStreamOps.writeUInt32 v) (u32_bytes v).
Proof.
  unfold BitStreamOps.writeUInt32, u32_bytes.
  repeat (apply appends_bind1; [apply appends_writeUBits_8|]).
  apply appends_writeUBits_8.
Qed.

Lemma appends_writeString8 (s : list Z) :
  appends (BitStreamOps.writeString8 s) (str8_bytes s).
Proof. apply appends_writeUBits_8. Qed.

Lemma appends_writeString32 (s : list Z) :
  appends (BitStreamOps.writeString32 s) (str32_bytes s).
Proof.
  unfold BitStreamOps.writeString32, str32_bytes. cbn [BitStreamOps.for_].
  repeat (apply appends_bind1; [apply appends_writeString8|]).
  apply appends_ret.
Qed.

Lemma appends_writeString32Array (arr : list (list Z)) :
  appends (BitStreamOps.writeString32Array arr) (List.concat (List.map str32_bytes arr)).
Proof. apply appends_for_of. apply appends_writeString32. Qed.

Lemma appends_writeFloat32 (value : float) :
  appends (BitStreamOps.writeFloat32 value) (f32_bytes value).
Proof.
  unfold BitStreamOps.writeFloat32, f32_bytes. cbv zeta. cbn [BitStreamOps.for_].
  repeat (apply appends_bind1; [apply appends_writeUBits_8|]).
  apply appends_ret.
Qed.

Lemma appends_encodeCorner (c : TerrainUtil.Corner) :
  appends (TerrainUtil.encodeCorner c) (corner_bytes c).
Proof.
  unfold TerrainUtil.encodeCorner, corner_bytes. cbv zeta.
  apply appends_bind; [apply appends_writeUInt16|].
  apply appends_bind; [apply appends_writeUInt16|].
  apply appends_bind; [apply appends_writeUInt8|].
  apply appends_bind; [apply appends_writeUInt8|].
  apply appends_writeUInt8.
Qed.

(** A method that returns everything written so far, [bs] included. *)
Lemma produces_bind (m1 : BitStream.M unit) (m2 : unit -> BitStream.M (list byte))
    (b1 b2 : list byte) :
  appends m1 b1 ->
  (forall s out, wstate s out -> exists s', m2 tt s = Return (out ++ b2, s')) ->
  forall s out, wstate s out ->
    exists s', BitStream.bind m1 m2 s = Return (out ++ b1 ++ b2, s').
Proof.
  intros H1 H2 s out Hs.
  destruct (H1 s out Hs) as (s1 & E1 & Hs1).
  destruct (H2 s1 _ Hs1) as (s2 & E2).
  exists s2. unfold BitStream.bind. rewrite E1, E2, app_assoc. reflexivity.
Qed.

Lemma produces_getBuffer (s : BitStream.t) (out : list byte) :
  wstate s out -> exists s', BitStreamOps.getBuffer s = Return (out ++ [], s').
Proof.
  intros Hs. exists s. rewrite app_nil_r. apply getBuffer_wstate, Hs.
Qed.

(** [encodeW3e] returns, for every document, the byte layout [serialize]. *)
Lemma encodeW3e_serialize (d : TerrainUtil.W3E) :
  TerrainUtil.encodeW3e d = Return (serialize d).
Proof.
  unfold TerrainUtil.encodeW3e, TerrainUtil.run.
  assert (H : forall s out, wstate s out ->
            exists s', TerrainUtil.encodeW3e_body d s = Return (out ++ serialize d, s')).
  { unfold TerrainUtil.encodeW3e_body, serialize, header_bytes. cbv zeta.
    rewrite <- (app_nil_r (List.concat (List.map corner_bytes _))).
    rewrite <- !app_assoc.
    apply produces_bind; [apply appends_writeString32|].
    apply produces_bind; [apply appends_writeUInt32|].
    apply produces_bind; [apply appends_writeString8|].
    apply produces_bind; [apply appends_writeUInt32|].
    apply produces_bind; [apply appends_writeUInt32|].
    apply produces_bind; [apply appends_writeString32Array|].
    apply produces_bind; [apply appends_writeUInt32|].
    apply produces_bind; [apply appends_writeString32Array|].
    apply produces_bind; [apply appends_writeUInt32|].
    apply produces_bind; [apply appends_writeUInt32|].
    apply produces_bind; [apply appends_writeFloat32|].
    apply produces_bind; [apply appends_writeFloat32|].
    apply produces_bind; [apply appends_for_of, appends_encodeCorner|].
    apply produces_getBuffer. }
  destruct (H _ _ wstate_new) as [s' ->]. reflexivity.
Qed.

(** ** Reading whole bytes *)

Lemma reads_ret {A : Type} (a : A) : reads (BitStream.ret a) [] a.
Proof.
  intros pre post. unfold BitStream.ret. simpl. rewrite Nat.add_0_r. reflexivity.
Qed.

Lemma reads_bind {A B : Type} (m : BitStream.M A) (k : A -> BitStream.M B)
    (b1 b2 : list byte) (a : A) (c : B) :
  reads m b1 a -> reads (k a) b2 c -> reads (BitStream.bind m k) (b1 ++ b2) c.
Proof.
  intros H1 H2 pre post. unfold BitStream.bind.
  rewrite <- (app_assoc b1 b2 post). rewrite (H1 pre (b2 ++ post)).
  specialize (H2 (pre ++ b1) post).
  rewrite <- !app_assoc in H2. rewrite length_app in H2. rewrite H2.
  rewrite length_app, Nat.add_assoc. reflexivity.
Qed.

Lemma reads_bind1 {A B : Type} (m : BitStream.M A) (k : A -> BitStream.M B)
    (b : byte) (bs : list byte) (a : A) (c : B) :
  reads m [b] a -> reads (k a) bs c -> reads (BitStream.bind m k) (b :: bs) c.
Proof. apply (reads_bind m k [b] bs). Qed.

Lemma reads_readUBits_8 (b : byte) :
  reads (BitStreamOps.readUBits 8 true) [b] (byte_to_Z b).
Proof.
  intros pre post. unfold BitStreamOps.readUBits.
  cbn [BitStream.isWriting BitStream.buffer BitStream.bitPosition].
  replace (8 * Z.of_nat (length pre)) with (8 * Z.of_nat (length pre) + 0) by lia.
  rewrite (readUBits_loop_in_byte 8 _ (length pre) b 0 0)
    by (try lia; apply list_lookup_middle; reflexivity).
  rewrite read_in_byte_8. do 2 f_equal. f_equal. simpl length. lia.
Qed.

Lemma reads_readUInt8 (b : byte) :
  reads (BitStreamOps.readUInt8 true) [b] (byte_to_Z b).
Proof. apply reads_readUBits_8. Qed.

Lemma reads_readUInt16 (b0 b1 : byte) :
  reads (BitStreamOps.readUInt16 true) [b0; b1] (u16_of_bytes b0 b1).
Proof.
  unfold BitStreamOps.readUInt16.
  apply reads_bind1 with (a := byte_to_Z b0); [apply reads_readUBits_8|].
  apply reads_bind1 with (a := byte_to_Z b1); [apply reads_readUBits_8|].
  apply (reads_bind _ _ [] [] tt); apply reads_ret.
Qed.

Lemma reads_readUInt32 (b0 b1 b2 b3 : byte) :
  reads (BitStreamOps.readUInt32 true) [b0; b1; b2; b3] (u32_of_bytes b0 b1 b2 b3).
Proof.
  unfold BitStreamOps.readUInt32.
  apply reads_bind1 with (a := byte_to_Z b0); [apply reads_readUBits_8|].
  apply reads_bind1 with (a := byte_to_Z b1); [apply reads_readUBits_8|].
  apply reads_bind1 with (a := byte_to_Z b2); [apply reads_readUBits_8|].
  apply reads_bind1 with (a := byte_to_Z b3); [apply reads_readUBits_8|].
  apply (reads_bind _ _ [] [] tt); apply reads_ret.
Qed.

Lemma reads_readString8 (b : byte) :
  reads (BitStreamOps.readString8 true) [b] (JS.fromCharCode (byte_to_Z b)).
Proof.
  unfold BitStreamOps.readString8.
  apply reads_bind1 with (a := byte_to_Z b); [apply reads_readUBits_8|].
  apply (reads_bind _ _ [] [] tt); apply reads_ret.
Qed.

Lemma reads_then_ret {A B : Type} (m : BitStream.M A) (f : A -> B)
    (bs : list byte) (a : A) :
  reads m bs a -> reads (BitStream.bind m (fun v => BitStream.ret (f v))) bs (f a).
Proof.
  intros H. rewrite <- (app_nil_r bs).
  apply reads_bind with (a := a); [exact H | apply reads_ret].
Qed.

Lemma reads_readString32 (b0 b1 b2 b3 : byte) :
  reads (BitStreamOps.readString32 true) [b0; b1; b2; b3] (str32_of_bytes b0 b1 b2 b3).
Proof.
  unfold BitStreamOps.readString32, str32_of_bytes. cbn [BitStreamOps.for_].
  eapply (reads_bind _ _ [b0; b1; b2; b3] []).
  - eapply (reads_bind _ _ [b0] [b1; b2; b3]);
      [apply reads_then_ret, reads_readString8|].
    eapply (reads_bind _ _ [b1] [b2; b3]);
      [apply reads_then_ret, reads_readString8|].
    eapply (reads_bind _ _ [b2] [b3]);
      [apply reads_then_ret, reads_readString8|].
    eapply (reads_bind _ _ [b3] []);
      [apply reads_then_ret, reads_readString8|].
    apply reads_ret.
  - apply (reads_bind _ _ [] [] tt); apply reads_ret.
Qed.

Lemma set_byte_temp (temp : list byte) (i : nat) (b : byte) :
  set_byte temp (Z.of_nat i) (byte_to_Z b) = <[i := b]> temp.
Proof.
  unfold set_byte. destruct (Z.ltb_spec (Z.of_nat i) 0); [lia|].
  rewrite Nat2Z.id, ToUint8_byte_to_Z. reflexivity.
Qed.

Lemma reads_readFloat32 (b0 b1 b2 b3 : byte) :
  reads (BitStreamOps.readFloat32 true) [b0; b1; b2; b3]
        (DataView.getFloat32 [b0; b1; b2; b3]).
Proof.
  unfold BitStreamOps.readFloat32. cbn [BitStreamOps.for_].
  eapply (reads_bind _ _ [b0; b1; b2; b3] []).
  - eapply (reads_bind _ _ [b0] [b1; b2; b3]);
      [apply reads_then_ret, reads_readUBits_8|].
    eapply (reads_bind _ _ [b1] [b2; b3]);
      [apply reads_then_ret, reads_readUBits_8|].
    eapply (reads_bind _ _ [b2] [b3]);
      [apply reads_then_ret, reads_readUBits_8|].
    eapply (reads_bind _ _ [b3] []);
      [apply reads_then_ret, reads_readUBits_8|].
    apply reads_ret.
  - change 0 with (Z.of_nat 0). change (Z.of_nat 0 + 1) with (Z.of_nat 1).
    change (Z.of_nat 1 + 1) with (Z.of_nat 2). change (Z.of_nat 2 + 1) with (Z.of_nat 3).
    rewrite !set_byte_temp. cbn.
    apply (reads_bind _ _ [] [] tt); apply reads_ret.
Qed.

(** ** Little-endian words: what is written is what is read *)

Lemma land_31_small (k : Z) : 0 <= k < 32 -> Z.land k 31 = k.
Proof.
  intros Hk. change 31 with (Z.ones 5). rewrite Z.land_ones by lia.
  apply Z.mod_small. change (2 ^ 5) with 32. lia.
Qed.

Lemma and_255 (v : Z) : v .& 255 = v mod 256.
Proof.
  unfold JS.and. change (JS.ToInt32 255) with 255. rewrite land_255_mod.
  destruct (ToInt32_cases v) as [_ [c ->]].
  replace (c * 4294967296) with ((c * 16777216) * 256) by lia.
  apply Z.mod_add. lia.
Qed.

Lemma sar_div (v k : Z) : 0 <= k < 32 -> v >> k = JS.ToInt32 v / 2 ^ k.
Proof.
  intros Hk. unfold JS.sar. rewrite land_31_small by lia.
  apply Z.shiftr_div_pow2. lia.
Qed.

Lemma shl_mul (a k : Z) :
  0 <= k < 32 -> -2147483648 <= a < 2147483648 ->
  a << k = JS.ToInt32 (a * 2 ^ k).
Proof.
  intros Hk Ha. unfold JS.shl. rewrite land_31_small by lia.
  rewrite (ToInt32_small a Ha). rewrite Z.shiftl_mul_pow2 by lia. reflexivity.
Qed.

Lemma ushr_0 (z : Z) : z >>> 0 = z mod 4294967296.
Proof.
  unfold JS.shr. change (Z.land 0 31) with 0. rewrite Z.shiftr_0_r.
  apply ToUint32_mod.
Qed.

Lemma lor_disjoint (a b k : Z) :
  0 <= k -> 0 <= a < 2 ^ k -> Z.lor a (b * 2 ^ k) = a + b * 2 ^ k.
Proof.
  intros Hk Ha.
  assert (Hl : Z.land a (b * 2 ^ k) = 0).
  { apply Z.bits_inj'. intros n Hn. rewrite Z.land_spec, Z.bits_0.
    destruct (Z_lt_le_dec n k).
    - rewrite Z.mul_pow2_bits_low by lia. apply andb_false_r.
    - rewrite <- (Z.mod_small a (2 ^ k)) by lia.
      rewrite Z.mod_pow2_bits_high by lia. reflexivity. }
  rewrite <- Z.lxor_lor by exact Hl.
  symmetry. apply Z.add_nocarry_lxor. exact Hl.
Qed.

Lemma or_disjoint (x y k : Z) :
  0 <= k < 32 -> 0 <= x < 2 ^ k -> (2 ^ k | y) ->
  -2147483648 <= y < 2147483648 ->
  x .| y = x + y.
Proof.
  intros Hk Hx [q ->] Hy. unfold JS.or.
  assert (2 ^ k <= 2 ^ 31) by (apply Z.pow_le_mono_r; lia).
  change (2 ^ 31) with 2147483648 in *.
  rewrite (ToInt32_small x) by lia. rewrite (ToInt32_small _ Hy).
  apply lor_disjoint; lia.
Qed.

Lemma u16_combine (b0 b1 : Z) :
  0 <= b0 < 256 -> 0 <= b1 < 256 ->
  b0 .| (b1 << 8) = b0 + 256 * b1.
Proof.
  intros H0 H1.
  rewrite (shl_mul b1 8) by lia. change (2 ^ 8) with 256.
  rewrite (ToInt32_small (b1 * 256)) by lia.
  rewrite (or_disjoint b0 (b1 * 256) 8); try lia.
  exists b1. reflexivity.
Qed.

Lemma u32_combine (b0 b1 b2 b3 : Z) :
  0 <= b0 < 256 -> 0 <= b1 < 256 -> 0 <= b2 < 256 -> 0 <= b3 < 256 ->
  (b0 .| (b1 << 8) .| (b2 << 16) .| (b3 << 24)) >>> 0
  = b0 + 256 * b1 + 65536 * b2 + 16777216 * b3.
Proof.
  intros H0 H1 H2 H3.
  rewrite (u16_combine b0 b1 H0 H1).
  rewrite (shl_mul b2 16) by lia. change (2 ^ 16) with 65536.
  rewrite (ToInt32_small (b2 * 65536)) by lia.
  rewrite (or_disjoint (b0 + 256 * b1) (b2 * 65536) 16);
    [ | lia | lia | exists b2; reflexivity | lia ].
  rewrite (shl_mul b3 24) by lia. change (2 ^ 24) with 16777216.
  destruct (ToInt32_cases (b3 * 16777216)) as [Hr [c Hc]].
  rewrite (or_disjoint _ (JS.ToInt32 (b3 * 16777216)) 24);
    [ | lia | lia | | lia ].
  2:{ rewrite Hc. exists (b3 + c * 256). change (2 ^ 24) with 16777216. lia. }
  rewrite ushr_0, Hc.
  replace (b0 + 256 * b1 + b2 * 65536 + (b3 * 16777216 + c * 4294967296))
    with (b0 + 256 * b1 + 65536 * b2 + 16777216 * b3 + c * 4294967296) by lia.
  rewrite Z.mod_add by lia. apply Z.mod_small. lia.
Qed.

Lemma byte_of_and_255 (v : Z) : byte_to_Z (ToUint8 (v .& 255)) = v mod 256.
Proof.
  rewrite byte_to_Z_ToUint8, and_255, land_255_mod. apply Z.mod_mod. lia.
Qed.

Lemma u8_rt_mod (v : Z) : u8_rt v = v mod 256.
Proof. unfold u8_rt. rewrite byte_to_Z_ToUint8. apply land_255_mod. Qed.

Lemma u16_rt_mod (v : Z) : u16_rt v = v mod 65536.
Proof.
  unfold u16_rt, u16_of_bytes. rewrite !byte_of_and_255.
  rewrite (sar_div v 8) by lia. change (2 ^ 8) with 256.
  rewrite u16_combine by (apply Z.mod_pos_bound; lia).
  destruct (ToInt32_cases v) as [_ [c Hc]]. rewrite Hc.
  Z.div_mod_to_equations. lia.
Qed.

Lemma u32_rt_mod (v : Z) : u32_rt v = v mod 4294967296.
Proof.
  unfold u32_rt, u32_of_bytes. rewrite !byte_of_and_255.
  rewrite (sar_div v 8), (sar_div v 16), (sar_div v 24) by lia.
  change (2 ^ 8) with 256. change (2 ^ 16) with 65536. change (2 ^ 24) with 16777216.
  rewrite u32_combine by (apply Z.mod_pos_bound; lia).
  destruct (ToInt32_cases v) as [_ [c Hc]]. rewrite Hc.
  Z.div_mod_to_equations. lia.
Qed.

Lemma u32_rt_id (v : Z) : 0 <= v < 4294967296 -> u32_rt v = v.
Proof. intros Hv. rewrite u32_rt_mod. apply Z.mod_small. exact Hv. Qed.

Lemma u16_rt_id (v : Z) : 0 <= v < 65536 -> u16_rt v = v.
Proof. intros Hv. rewrite u16_rt_mod. apply Z.mod_small. exact Hv. Qed.


(** ** Decoding the byte layout of a document *)

Lemma reads_u16 (v : Z) :
  reads (BitStreamOps.readUInt16 true) (u16_bytes v) (u16_rt v).
Proof. apply reads_readUInt16. Qed.

Lemma reads_u32 (v : Z) :
  reads (BitStreamOps.readUInt32 true) (u32_bytes v) (u32_rt v).
Proof. apply reads_readUInt32. Qed.

Lemma reads_str8 (s : list Z) :
  reads (BitStreamOps.readString8 true) (str8_bytes s) (str8_rt s).
Proof. apply reads_readString8. Qed.

Lemma reads_str32 (s : list Z) :
  reads (BitStreamOps.readString32 true) (str32_bytes s) (str32_rt s).
Proof. apply reads_readString32. Qed.

Lemma f32_bytes_setFloat32 (value : float) :
  f32_bytes value = DataView.setFloat32 value.
Proof.
  unfold f32_bytes, DataView.setFloat32. cbv zeta.
  set (w := DataView.float32_bits value).
  change (get_byte [ToUint8 w; ToUint8 (Z.shiftr w 8); ToUint8 (Z.shiftr w 16);
                    ToUint8 (Z.shiftr w 24)] 0) with (byte_to_Z (ToUint8 w)).
  change (get_byte [ToUint8 w; ToUint8 (Z.shiftr w 8); ToUint8 (Z.shiftr w 16);
                    ToUint8 (Z.shiftr w 24)] 1) with (byte_to_Z (ToUint8 (Z.shiftr w 8))).
  change (get_byte [ToUint8 w; ToUint8 (Z.shiftr w 8); ToUint8 (Z.shiftr w 16);
                    ToUint8 (Z.shiftr w 24)] 2) with (byte_to_Z (ToUint8 (Z.shiftr w 16))).
  change (get_byte [ToUint8 w; ToUint8 (Z.shiftr w 8); ToUint8 (Z.shiftr w 16);
                    ToUint8 (Z.shiftr w 24)] 3) with (byte_to_Z (ToUint8 (Z.shiftr w 24))).
  rewrite !ToUint8_byte_to_Z. reflexivity.
Qed.

Lemma reads_f32 (value : float) :
  reads (BitStreamOps.readFloat32 true) (f32_bytes value) (DataView.fround value).
Proof.
  rewrite f32_bytes_setFloat32. unfold DataView.fround, DataView.setFloat32.
  cbv zeta. apply reads_readFloat32.
Qed.

Lemma reads_str32_array (l : list (list Z)) :
  forall (i : Z) (acc : list (list Z)),
    reads (BitStreamOps.for_ (length l) i
             (fun _ arr => BitStream.bind (BitStreamOps.readString32 true)
                             (fun s => BitStream.ret (arr ++ [s]))) acc)
          (List.concat (List.map str32_bytes l))
          (acc ++ List.map str32_rt l).
Proof.
  induction l as [|s l IH]; intros i acc.
  - simpl. rewrite app_nil_r. apply reads_ret.
  - cbn [length BitStreamOps.for_ List.map List.concat].
    eapply reads_bind.
    + apply reads_then_ret, reads_str32.
    + cbv beta. replace (acc ++ str32_rt s :: List.map str32_rt l)
        with ((acc ++ [str32_rt s]) ++ List.map str32_rt l)
        by (rewrite <- app_assoc; reflexivity).
      apply IH.
Qed.

Lemma reads_decodeCorner (width i : Z) (c : TerrainUtil.Corner) :
  reads (TerrainUtil.decodeCorner width i) (corner_bytes c) (recode_corner width i c).
Proof.
  unfold TerrainUtil.decodeCorner, corner_bytes, recode_corner. cbv zeta.
  eapply reads_bind; [apply reads_u16|].
  eapply reads_bind; [apply reads_u16|].
  eapply reads_bind; [apply reads_readUInt8|].
  eapply reads_bind; [apply reads_readUInt8|].
  rewrite <- (app_nil_r [ToUint8 (byte6_of c)]).
  eapply reads_bind; [apply reads_readUInt8|].
  apply reads_ret.
Qed.

Lemma reads_corners (width : Z) (cs : list TerrainUtil.Corner) :
  forall (i : Z) (acc : list TerrainUtil.Corner),
    reads (BitStreamOps.for_ (length cs) i
             (fun i corners => BitStream.bind (TerrainUtil.decodeCorner width i)
                                 (fun c => BitStream.ret (corners ++ [c]))) acc)
          (List.concat (List.map corner_bytes cs))
          (acc ++ recode_corners width i cs).
Proof.
  induction cs as [|c cs IH]; intros i acc.
  - simpl. rewrite app_nil_r. apply reads_ret.
  - cbn [length BitStreamOps.for_ List.map List.concat recode_corners].
    eapply reads_bind.
    + apply reads_then_ret, reads_decodeCorner.
    + cbv beta.
      replace (acc ++ recode_corner width i c :: recode_corners width (i + 1) cs)
        with ((acc ++ [recode_corner width i c]) ++ recode_corners width (i + 1) cs)
        by (rewrite <- app_assoc; reflexivity).
      apply IH.
Qed.

Lemma run_reads {A : Type} (m : BitStream.M A) (bs : list byte) (a : A) :
  reads m bs a -> TerrainUtil.run m (BitStream.new (Some bs)) = Return a.
Proof.
  intros H. specialize (H [] []). rewrite app_nil_r in H.
  change ([] ++ bs) with bs in H.
  change (8 * Z.of_nat (@length byte [])) with 0 in H.
  unfold TerrainUtil.run, BitStream.new. rewrite H. reflexivity.
Qed.

(** Decoding the layout of a document whose counts describe it gives the
    document with every field passed through its slot of the layout. *)
Lemma decodeW3e_serialize (d : TerrainUtil.W3E) :
  layout_ok d -> TerrainUtil.decodeW3e (serialize d) = Return (recode d).
Proof.
  intros (Ht & Ht' & Hc & Hc' & Hw & Hh & Hn).
  apply run_reads.
  unfold TerrainUtil.decodeW3e_body, serialize, header_bytes.
  rewrite <- !app_assoc.
  eapply reads_bind; [apply reads_str32|].
  eapply reads_bind; [apply reads_u32|].
  eapply reads_bind; [apply reads_str8|].
  eapply reads_bind; [apply reads_u32|].
  eapply reads_bind; [apply reads_u32|].
  eapply reads_bind.
  { unfold BitStreamOps.readString32Array.
    rewrite u32_rt_id, Ht, Nat2Z.id by lia. apply reads_str32_array. }
  eapply reads_bind; [apply reads_u32|].
  eapply reads_bind.
  { unfold BitStreamOps.readString32Array.
    rewrite u32_rt_id, Hc, Nat2Z.id by lia. apply reads_str32_array. }
  eapply reads_bind; [apply reads_u32|].
  eapply reads_bind; [apply reads_u32|].
  eapply reads_bind; [apply reads_f32|].
  eapply reads_bind; [apply reads_f32|].
  cbv zeta.
  rewrite <- (app_nil_r (List.concat (List.map corner_bytes _))).
  eapply reads_bind.
  { rewrite (u32_rt_id (TerrainUtil.height _)) by lia.
    rewrite (u32_rt_id (TerrainUtil.width _)) at 1 by lia.
    rewrite Hn, Nat2Z.id. apply reads_corners. }
  apply reads_ret.
Qed.

(** Encoding then decoding, for every document whose counts describe it. *)
Lemma decode_encode (d : TerrainUtil.W3E) :
  layout_ok d ->
  exists buf, TerrainUtil.encodeW3e d = Return buf /\
              TerrainUtil.decodeW3e buf = Return (recode d).
Proof.
  intros H. exists (serialize d). split.
  - apply encodeW3e_serialize.
  - apply decodeW3e_serialize, H.
Qed.

(** ** Fields in range survive their slot *)

Lemma height_raw_check :
  forall_range 16 0 (fun raw =>
    JS.Math_round ((JS.of_int raw - 8192) / 4 * 4 + 8192) =? raw) = true.
Proof. vm_compute. reflexivity. Qed.

(** Every storable height is rounded back to its raw value. *)
Lemma Math_round_height (raw : Z) :
  0 <= raw < 65536 ->
  JS.Math_round ((JS.of_int raw - 8192) / 4 * 4 + 8192) = raw.
Proof.
  intros H. apply Z.eqb_eq.
  apply (forall_range_spec 16 _ 0 height_raw_check).
  change (2 ^ Z.of_nat 16) with 65536. lia.
Qed.

Lemma water_word_check :
  forall_range 14 0 (fun r => forall_range 2 0 (fun m =>
    let w := water_word r m in
    (0 <=? w) && (w <? 65536) && (w .& 16383 =? r)
    && ((w .& 49152) >>> 14 =? m))) = true.
Proof. vm_compute. reflexivity. Qed.

Lemma water_word_spec (r m : Z) :
  0 <= r < 16384 -> 0 <= m <= 3 ->
  let w := water_word r m in
  0 <= w < 65536 /\ w .& 16383 = r /\ (w .& 49152) >>> 14 = m.
Proof.
  intros Hr Hm.
  pose proof (forall_range_spec 14 _ 0 water_word_check r) as H.
  cbv beta in H. specialize (H ltac:(change (2 ^ Z.of_nat 14) with 16384; lia)).
  apply (forall_range_spec 2 _ 0) with (z := m) in H;
    [|change (2 ^ Z.of_nat 2) with 4; lia].
  cbv zeta in *.
  repeat (apply andb_prop in H as [H ?]).
  repeat split; try (apply Z.eqb_eq; assumption); lia.
Qed.

Lemma byte4_check :
  forall_range 4 0 (fun gt => forall_range 1 0 (fun r => forall_range 1 0 (fun wa =>
  forall_range 1 0 (fun bl => forall_range 1 0 (fun bd =>
    let b := u8_rt (byte4_pack gt r wa bl bd) in
    (b .& 15 =? gt) && ((b .& 16) >> 4 =? r) && ((b .& 32) >> 5 =? wa)
    && ((b .& 64) >> 6 =? bl) && ((b .& 128) >> 7 =? bd)))))) = true.
Proof. vm_compute. reflexivity. Qed.

Lemma byte4_spec (gt r wa bl bd : Z) :
  0 <= gt <= 15 -> 0 <= r <= 1 -> 0 <= wa <= 1 -> 0 <= bl <= 1 -> 0 <= bd <= 1 ->
  let b := u8_rt (byte4_pack gt r wa bl bd) in
  b .& 15 = gt /\ (b .& 16) >> 4 = r /\ (b .& 32) >> 5 = wa /\
  (b .& 64) >> 6 = bl /\ (b .& 128) >> 7 = bd.
Proof.
  intros Hgt Hr Hwa Hbl Hbd.
  pose proof (forall_range_spec 4 _ 0 byte4_check gt) as H.
  cbv beta in H. specialize (H ltac:(change (2 ^ Z.of_nat 4) with 16; lia)).
  apply (forall_range_spec 1 _ 0) with (z := r) in H;
    [|change (2 ^ Z.of_nat 1) with 2; lia].
  apply (forall_range_spec 1 _ 0) with (z := wa) in H;
    [|change (2 ^ Z.of_nat 1) with 2; lia].
  apply (forall_range_spec 1 _ 0) with (z := bl) in H;
    [|change (2 ^ Z.of_nat 1) with 2; lia].
  apply (forall_range_spec 1 _ 0) with (z := bd) in H;
    [|change (2 ^ Z.of_nat 1) with 2; lia].
  cbv zeta in *.
  repeat (apply andb_prop in H as [H ?]).
  repeat split; apply Z.eqb_eq; assumption.
Qed.

Lemma byte5_check :
  forall_range 5 0 (fun gv => forall_range 3 0 (fun cv =>
    let b := u8_rt (byte5_pack gv cv) in
    (b .& 31 =? gv) && ((b .& 224) >> 5 =? cv))) = true.
Proof. vm_compute. reflexivity. Qed.

Lemma byte5_spec (gv cv : Z) :
  0 <= gv <= 31 -> 0 <= cv <= 7 ->
  let b := u8_rt (byte5_pack gv cv) in
  b .& 31 = gv /\ (b .& 224) >> 5 = cv.
Proof.
  intros Hgv Hcv.
  pose proof (forall_range_spec 5 _ 0 byte5_check gv) as H.
  cbv beta in H. specialize (H ltac:(change (2 ^ Z.of_nat 5) with 32; lia)).
  apply (forall_range_spec 3 _ 0) with (z := cv) in H;
    [|change (2 ^ Z.of_nat 3) with 8; lia].
  cbv zeta in *.
  repeat (apply andb_prop in H as [H ?]).
  repeat split; apply Z.eqb_eq; assumption.
Qed.

Lemma byte6_check :
  forall_range 4 0 (fun ct => forall_range 4 0 (fun lh =>
    let b := u8_rt (byte6_pack ct lh) in
    (b .& 15 =? ct) && ((b .& 240) >> 4 =? lh))) = true.
Proof. vm_compute. reflexivity. Qed.

Lemma byte6_spec (ct lh : Z) :
  0 <= ct <= 15 -> 0 <= lh <= 15 ->
  let b := u8_rt (byte6_pack ct lh) in
  b .& 15 = ct /\ (b .& 240) >> 4 = lh.
Proof.
  intros Hct Hlh.
  pose proof (forall_range_spec 4 _ 0 byte6_check ct) as H.
  cbv beta in H. specialize (H ltac:(change (2 ^ Z.of_nat 4) with 16; lia)).
  apply (forall_range_spec 4 _ 0) with (z := lh) in H;
    [|change (2 ^ Z.of_nat 4) with 16; lia].
  cbv zeta in *.
  repeat (apply andb_prop in H as [H ?]).
  repeat split; apply Z.eqb_eq; assumption.
Qed.

Lemma fromCharCode_byte (c : Z) : 0 <= c < 256 -> JS.fromCharCode c = [c].
Proof.
  intros Hc. unfold JS.fromCharCode. change 65535 with (Z.ones 16).
  rewrite Z.land_ones by lia. rewrite Z.mod_small; [reflexivity|].
  change (2 ^ 16) with 65536. lia.
Qed.

Lemma char_slot (c : Z) :
  0 <= c < 256 -> JS.fromCharCode (byte_to_Z (ToUint8 c)) = [c].
Proof.
  intros Hc. rewrite byte_to_Z_ToUint8, land_255_mod, Z.mod_small by lia.
  apply fromCharCode_byte, Hc.
Qed.

Lemma str8_rt_id (s : list Z) : tag 1 s -> str8_rt s = s.
Proof.
  intros [Hl Hs]. destruct s as [|c [|? ?]]; try discriminate Hl.
  apply Forall_cons in Hs as [Hc _].
  unfold str8_rt. cbn [JS.charCodeAt0_or_0]. apply char_slot, Hc.
Qed.

Lemma str32_rt_id (s : list Z) : tag 4 s -> str32_rt s = s.
Proof.
  intros [Hl Hs].
  destruct s as [|c0 [|c1 [|c2 [|c3 [|? ?]]]]]; try discriminate Hl.
  apply Forall_cons in Hs as [H0 Hs]. apply Forall_cons in Hs as [H1 Hs].
  apply Forall_cons in Hs as [H2 Hs]. apply Forall_cons in Hs as [H3 _].
  unfold str32_rt, str32_of_bytes, JS.char_or_nul.
  cbn [lookup list_lookup JS.charCodeAt0_or_0].
  rewrite !char_slot by assumption. reflexivity.
Qed.

Lemma map_str32_rt_id (l : list (list Z)) :
  Forall (tag 4) l -> List.map str32_rt l = l.
Proof.
  induction 1 as [|s l Hs _ IH]; [reflexivity|].
  cbn [List.map]. rewrite IH, str32_rt_id by assumption. reflexivity.
Qed.

Lemma recode_header_id (d : TerrainUtil.W3E) :
  layout_ok d -> wf_header (TerrainUtil.header d) ->
  recode_header (TerrainUtil.header d) = TerrainUtil.header d.
Proof.
  intros (Ht & Ht' & Hc & Hc' & Hw & Hh & _)
         (Hid & Hv & Hb & Hcu & Htp & Hcp & Hx & Hy).
  destruct (TerrainUtil.header d) as [fid ver bt hc tpc tp cpc cp w h x y].
  cbn [TerrainUtil.fileId TerrainUtil.version TerrainUtil.baseTileset
       TerrainUtil.hasCustomTileset TerrainUtil.tilePaletteCount
       TerrainUtil.tilePalette TerrainUtil.cliffTilePaletteCount
       TerrainUtil.cliffTilePalette TerrainUtil.width TerrainUtil.height
       TerrainUtil.x TerrainUtil.y] in *.
  unfold recode_header.
  cbn [TerrainUtil.fileId TerrainUtil.version TerrainUtil.baseTileset
       TerrainUtil.hasCustomTileset TerrainUtil.tilePaletteCount
       TerrainUtil.tilePalette TerrainUtil.cliffTilePaletteCount
       TerrainUtil.cliffTilePalette TerrainUtil.width TerrainUtil.height
       TerrainUtil.x TerrainUtil.y].
  rewrite str32_rt_id, str8_rt_id, !map_str32_rt_id by assumption.
  rewrite !u32_rt_id by lia.
  unfold is_float32 in Hx, Hy. rewrite Hx, Hy. reflexivity.
Qed.

Ltac corner_fields :=
  cbn [TerrainUtil.index TerrainUtil.rowid TerrainUtil.colid
       TerrainUtil.groundHeight TerrainUtil.waterHeight TerrainUtil.mapEdge
       TerrainUtil.ramp TerrainUtil.blight TerrainUtil.water
       TerrainUtil.boundary TerrainUtil.groundTexture
       TerrainUtil.groundVariation TerrainUtil.cliffVariation
       TerrainUtil.cliffTexture TerrainUtil.layerHeight] in *.

Lemma recode_corner_id (width i : Z) (c : TerrainUtil.Corner) :
  0 <= i -> 0 < width -> wf_corner width i c -> recode_corner width i c = c.
Proof.
  intros Hi Hw ((Hidx & Hrow & Hcol) & [rg [Hrg Hg]] & [rw [Hrw Hwt]] & Hr).
  destruct Hr as (Hme & Hra & Hwa & Hbl & Hbd & Hgt & Hgv & Hcv & Hct & Hlh).
  destruct c as [idx row col gh wh me ra bl wa bd gt gv cv ct lh].
  corner_fields. subst idx row col gh wh.
  unfold recode_corner, wHeightRaw_of, byte4_of, byte5_of, byte6_of.
  corner_fields.
  rewrite !Math_round_height by lia.
  change ((rw .& 16383) .| (me << 14)) with (water_word rw me).
  change ((gt .& 15) .| (ra << 4) .| (wa << 5) .| (bl << 6) .| (bd << 7))
    with (byte4_pack gt ra wa bl bd).
  change ((gv .& 31) .| (cv << 5)) with (byte5_pack gv cv).
  change ((ct .& 15) .| (lh << 4)) with (byte6_pack ct lh).
  destruct (water_word_spec rw me Hrw Hme) as (W1 & W2 & W3).
  destruct (byte4_spec gt ra wa bl bd Hgt Hra Hwa Hbl Hbd) as (A1 & A2 & A3 & A4 & A5).
  destruct (byte5_spec gv cv Hgv Hcv) as (B1 & B2).
  destruct (byte6_spec ct lh Hct Hlh) as (C1 & C2).
  cbv zeta in *.
  rewrite (u16_rt_id rg) by lia. rewrite (u16_rt_id _ W1).
  unfold unpack_corner.
  rewrite W2, W3, A1, A2, A3, A4, A5, B1, B2, C1, C2.
  unfold JS.floor_div, JS.rem. rewrite Z.rem_mod_nonneg by lia.
  reflexivity.
Qed.

Lemma recode_corners_id (width : Z) (cs : list TerrainUtil.Corner) :
  forall i : Z,
    0 <= i -> (cs <> [] -> 0 < width) ->
    (forall (j : nat) c, cs !! j = Some c -> wf_corner width (i + Z.of_nat j) c) ->
    recode_corners width i cs = cs.
Proof.
  induction cs as [|c cs IH]; intros i Hi Hw H; [reflexivity|].
  cbn [recode_corners]. f_equal.
  - apply recode_corner_id; [lia | apply Hw; discriminate |].
    specialize (H 0%nat c eq_refl). rewrite Z.add_0_r in H. exact H.
  - apply IH; [lia | intros _; apply Hw; discriminate |].
    intros j c' Hj. specialize (H (S j) c' Hj).
    replace (i + 1 + Z.of_nat j) with (i + Z.of_nat (S j)) by lia. exact H.
Qed.

Lemma recode_id (d : TerrainUtil.W3E) : wf_doc d -> recode d = d.
Proof.
  intros (Hl & Hh & Hc). unfold recode.
  rewrite (recode_header_id d Hl Hh).
  destruct Hl as (_ & _ & _ & _ & Hw & Hhh & Hn).
  rewrite u32_rt_id by lia.
  rewrite recode_corners_id; [destruct d; reflexivity | lia | | ].
  - intros Hne. destruct (TerrainUtil.corners d); [congruence|].
    simpl length in Hn. nia.
  - intros j c Hj. rewrite Z.add_0_l. apply Hc, Hj.
Qed.

(** ** One corner through the codec *)

Lemma recode_corners_lookup (width : Z) (cs : list TerrainUtil.Corner) :
  forall (i : Z) (j : nat) (c : TerrainUtil.Corner),
    cs !! j = Some c ->
    recode_corners width i cs !! j = Some (recode_corner width (i + Z.of_nat j) c).
Proof.
  induction cs as [|c0 cs IH]; intros i j c Hj; [discriminate Hj|].
  destruct j as [|j].
  - injection Hj as ->. cbn. rewrite Z.add_0_r. reflexivity.
  - cbn [recode_corners]. change ((?x :: ?l) !! S j) with (l !! j).
    rewrite (IH (i + 1) j c Hj). do 2 f_equal. lia.
Qed.

Lemma decode_encode_corner (d : TerrainUtil.W3E) (i : nat) (c : TerrainUtil.Corner) :
  layout_ok d -> TerrainUtil.corners d !! i = Some c ->
  exists buf d',
    TerrainUtil.encodeW3e d = Return buf /\
    TerrainUtil.decodeW3e buf = Return d' /\
    TerrainUtil.corners d' !! i
    = Some (recode_corner (TerrainUtil.width (TerrainUtil.header d)) (Z.of_nat i) c).
Proof.
  intros Hl Hc. destruct (decode_encode d Hl) as (buf & He & Hd).
  exists buf, (recode d). repeat split; try assumption.
  unfold recode. cbn [TerrainUtil.corners].
  destruct Hl as (_ & _ & _ & _ & Hw & _).
  rewrite u32_rt_id by lia.
  rewrite (recode_corners_lookup _ _ 0 i c Hc). reflexivity.
Qed.

Lemma and_mask (v k : Z) : 0 <= k < 32 -> v .& Z.ones k = v mod 2 ^ k.
Proof.
  intros Hk. unfold JS.and.
  assert (Hp : 0 < 2 ^ k <= 2 ^ 31).
  { split; [apply Z.pow_pos_nonneg; lia | apply Z.pow_le_mono_r; lia]. }
  change (2 ^ 31) with 2147483648 in Hp.
  rewrite (ToInt32_small (Z.ones k)) by (rewrite Z.ones_equiv; lia).
  rewrite Z.land_ones by lia.
  destruct (ToInt32_cases v) as [_ [c ->]].
  replace 4294967296 with (2 ^ (32 - k) * 2 ^ k).
  - rewrite Z.mul_assoc. apply Z.mod_add. lia.
  - rewrite <- Z.pow_add_r by lia. replace (32 - k + k) with 32 by lia. reflexivity.
Qed.

Lemma shl_14_shape (m : Z) :
  -2147483648 <= m << 14 < 2147483648 /\ (2 ^ 14 | m << 14).
Proof.
  unfold JS.shl. change (Z.land 14 31) with 14.
  split; [apply ToInt32_cases|].
  destruct (ToInt32_cases (Z.shiftl (JS.ToInt32 m) 14)) as [_ [c ->]].
  rewrite Z.shiftl_mul_pow2 by lia.
  exists (JS.ToInt32 m + c * 262144). change (2 ^ 14) with 16384. lia.
Qed.

(** The 16-bit word shared by [waterHeight] and [mapEdge]: the low 14 bits
    read back are the rounded height modulo [2^14], whatever [mapEdge] is. *)
Lemma water_word_low (rounded mapEdge : Z) :
  u16_rt (water_word rounded mapEdge) .& 16383 = rounded mod 16384.
Proof.
  unfold water_word.
  change 16383 with (Z.ones 14). rewrite !and_mask by lia.
  change (2 ^ 14) with 16384.
  destruct (shl_14_shape mapEdge) as [Hr [q Hq]]. change (2 ^ 14) with 16384 in Hq.
  pose proof (Z.mod_pos_bound rounded 16384 ltac:(lia)) as Hm.
  rewrite (or_disjoint _ (mapEdge << 14) 14);
    [ | lia | change (2 ^ 14) with 16384; lia
      | exists q; change (2 ^ 14) with 16384; exact Hq | lia ].
  rewrite u16_rt_mod, Hq.
  Z.div_mod_to_equations. lia.
Qed.

(** ... and the high 2 bits are [mapEdge], whatever the height is. *)
Lemma water_word_high (rounded mapEdge : Z) :
  0 <= mapEdge <= 3 ->
  (u16_rt (water_word rounded mapEdge) .& 49152) >>> 14 = mapEdge.
Proof.
  intros Hm.
  assert (E : water_word rounded mapEdge = water_word (rounded mod 16384) mapEdge).
  { unfold water_word. change 16383 with (Z.ones 14). rewrite !and_mask by lia.
    rewrite Z.mod_mod by (change (2 ^ 14) with 16384; lia). reflexivity. }
  rewrite E.
  pose proof (Z.mod_pos_bound rounded 16384 ltac:(lia)) as Hr.
  destruct (water_word_spec (rounded mod 16384) mapEdge Hr Hm) as (W1 & _ & W3).
  cbv zeta in *. rewrite (u16_rt_id _ W1). exact W3.
Qed.

Lemma recode_groundHeight (width i : Z) (c : TerrainUtil.Corner) :
  TerrainUtil.groundHeight (recode_corner width i c)
  = ((JS.of_int (JS.Math_round (TerrainUtil.groundHeight c * 4 + 8192) mod 65536)
      - 8192) / 4)%float.
Proof.
  unfold recode_corner, unpack_corner. cbn [TerrainUtil.groundHeight].
  rewrite u16_rt_mod. reflexivity.
Qed.

Lemma recode_waterHeight (width i : Z) (c : TerrainUtil.Corner) :
  TerrainUtil.waterHeight (recode_corner width i c)
  = ((JS.of_int (JS.Math_round (TerrainUtil.waterHeight c * 4 + 8192) mod 16384)
      - 8192) / 4)%float.
Proof.
  unfold recode_corner, unpack_corner. cbn [TerrainUtil.waterHeight].
  unfold wHeightRaw_of.
  change ((?r .& 16383) .| (?m << 14)) with (water_word r m).
  rewrite water_word_low. reflexivity.
Qed.

Lemma recode_mapEdge (width i : Z) (c : TerrainUtil.Corner) :
  0 <= TerrainUtil.mapEdge c <= 3 ->
  TerrainUtil.mapEdge (recode_corner width i c) = TerrainUtil.mapEdge c.
Proof.
  intros Hm. unfold recode_corner, unpack_corner. cbn [TerrainUtil.mapEdge].
  unfold wHeightRaw_of.
  change ((?r .& 16383) .| (?m << 14)) with (water_word r m).
  apply water_word_high, Hm.
Qed.

Lemma quarter_height_rounds (n : Z) (h : float) :
  n <= 65536 -> quarter_height n h ->
  exists raw, 0 <= raw < n /\ h = ((JS.of_int raw - 8192) / 4)%float /\
              JS.Math_round (h * 4 + 8192) = raw.
Proof.
  intros Hn (raw & Hr & ->). exists raw. repeat split; try lia.
  apply Math_round_height. lia.
Qed.

Lemma scenario_wf : wf_doc scenario.
Proof.
  split; [|split].
  - repeat split; cbn; lia.
  - repeat split; cbn; try lia;
      repeat (apply Forall_cons; split); try apply Forall_nil;
      try (split; [reflexivity|]);
      repeat (apply Forall_cons; split); try apply Forall_nil; cbn; try lia;
      vm_compute; reflexivity.
  - intros i c Hc.
    destruct i as [|[|i]]; cbn in Hc; try discriminate Hc; injection Hc as <-.
    + split; [|split; [|split]].
      * repeat split.
      * exists 8192. split; [lia|]. vm_compute. reflexivity.
      * exists 8192. split; [lia|]. vm_compute. reflexivity.
      * repeat split; cbn; lia.
    + split; [|split; [|split]].
      * repeat split.
      * exists 8192. split; [lia|]. vm_compute. reflexivity.
      * exists 8192. split; [lia|]. vm_compute. reflexivity.
      * repeat split; cbn; lia.
Qed.

Lemma single_layout (c : TerrainUtil.Corner) : layout_ok (single c).
Proof. repeat split; cbn; lia. Qed.

(** ** The mode flag *)

Lemma preserves_ret {A : Type} (a : A) : preserves_mode (BitStream.ret a).
Proof. intros s a' s' H. injection H as _ <-. reflexivity. Qed.

Lemma preserves_bind {A B : Type} (m : BitStream.M A) (k : A -> BitStream.M B) :
  preserves_mode m -> (forall a, preserves_mode (k a)) ->
  preserves_mode (BitStream.bind m k).
Proof.
  intros Hm Hk s b s' H. unfold BitStream.bind in H.
  destruct (m s) as [[a s1]| |] eqn:E; try discriminate H.
  rewrite (Hk a s1 b s' H). apply (Hm s a s1 E).
Qed.

Lemma preserves_when (b : bool) (n : Z) :
  preserves_mode (BitStream.when b (BitStream.rewind n)).
Proof.
  destruct b; [|apply preserves_ret].
  intros s a s' H. injection H as _ <-. reflexivity.
Qed.

Lemma preserves_for_ {A : Type} (body : Z -> A -> BitStream.M A) (n : nat) :
  (forall i acc, preserves_mode (body i acc)) ->
  forall i acc, preserves_mode (BitStreamOps.for_ n i body acc).
Proof.
  intros Hb. induction n as [|n IH]; intros i acc.
  - apply preserves_ret.
  - cbn [BitStreamOps.for_]. apply preserves_bind; [apply Hb | intros a; apply IH].
Qed.

Lemma preserves_for_of {A : Type} (body : A -> BitStream.M unit) (l : list A) :
  (forall a, preserves_mode (body a)) ->
  preserves_mode (BitStreamOps.for_of l body).
Proof.
  intros Hb. induction l as [|a l IH].
  - apply preserves_ret.
  - cbn [BitStreamOps.for_of]. apply preserves_bind; [apply Hb | intros _; exact IH].
Qed.

Lemma preserves_readUBits (bits : nat) (co : bool) :
  preserves_mode (BitStreamOps.readUBits bits co).
Proof.
  intros s a s' H. unfold BitStreamOps.readUBits in H.
  destruct (BitStream.isWriting s) eqn:E; [discriminate H|].
  destruct (BitStreamOps.readUBits_loop bits (BitStream.buffer s)
              (BitStream.bitPosition s) 0) as [v p].
  injection H as _ <-. reflexivity.
Qed.

Lemma preserves_ensureCapacity (n : Z) :
  preserves_mode (BitStreamOps._ensureCapacity n).
Proof.
  intros s a s' H. unfold BitStreamOps._ensureCapacity in H.
  destruct (negb (BitStream.isWriting s)); [discriminate H|].
  destruct (_ <? _).
  - destruct (BitStreamOps.double_until _ _ _); [|discriminate H].
    injection H as _ <-. reflexivity.
  - injection H as _ <-. reflexivity.
Qed.

Lemma preserves_writeUBits (v : Z) (bits : nat) :
  preserves_mode (BitStreamOps.writeUBits v bits).
Proof.
  unfold BitStreamOps.writeUBits.
  apply preserves_bind; [apply preserves_ensureCapacity|].
  intros _ s a s' H.
  destruct (BitStreamOps.writeUBits_loop bits v (BitStream.buffer s)
              (BitStream.bitPosition s)) as [b p].
  injection H as _ <-. reflexivity.
Qed.

Lemma preserves_getBuffer : preserves_mode BitStreamOps.getBuffer.
Proof.
  intros s a s' H. unfold BitStreamOps.getBuffer in H.
  destruct (negb (BitStream.isWriting s)); [discriminate H|].
  injection H as _ <-. reflexivity.
Qed.

Create HintDb mode discriminated.
#[local] Hint Resolve preserves_ret preserves_when preserves_readUBits
  preserves_ensureCapacity preserves_writeUBits preserves_getBuffer : mode.
#[local] Hint Extern 2 (preserves_mode (BitStream.bind _ _)) =>
  apply preserves_bind; [|intro] : mode.
#[local] Hint Extern 2 (preserves_mode (BitStreamOps.for_ _ _ _ _)) =>
  apply preserves_for_; intros : mode.
#[local] Hint Extern 2 (preserves_mode (BitStreamOps.for_of _ _)) =>
  apply preserves_for_of; intros : mode.

Lemma preserves_exec (op : Op) : preserves_mode (exec op).
Proof.
  destruct op as [[]|[]]; cbn [exec]; unfold ignore,
    BitStreamOps.readUInt8, BitStreamOps.readInt8, BitStreamOps.readUInt16,
    BitStreamOps.readInt16, BitStreamOps.readUInt16, BitStreamOps.readUInt32,
    BitStreamOps.readFloat32, BitStreamOps.readString32Array,
    BitStreamOps.readString32, BitStreamOps.readString8,
    BitStreamOps.writeUInt8, BitStreamOps.writeInt8, BitStreamOps.writeInt16,
    BitStreamOps.writeUInt16, BitStreamOps.writeUInt32, BitStreamOps.writeFloat32,
    BitStreamOps.writeString32Array, BitStreamOps.writeString32,
    BitStreamOps.writeString8;
    auto 20 with mode.
Qed.

Lemma readUBits_wrong_mode (bits : nat) (co : bool) (s : BitStream.t) :
  BitStream.isWriting s = true ->
  BitStreamOps.readUBits bits co s = Throw CannotReadInWriteMode.
Proof. intros H. unfold BitStreamOps.readUBits. rewrite H. reflexivity. Qed.

Lemma ensureCapacity_wrong_mode (n : Z) (s : BitStream.t) :
  BitStream.isWriting s = false ->
  BitStreamOps._ensureCapacity n s = Throw CannotWriteInReadMode.
Proof. intros H. unfold BitStreamOps._ensureCapacity. rewrite H. reflexivity. Qed.

Lemma writeUBits_wrong_mode (v : Z) (bits : nat) (s : BitStream.t) :
  BitStream.isWriting s = false ->
  BitStreamOps.writeUBits v bits s = Throw CannotWriteInReadMode.
Proof.
  intros H. unfold BitStreamOps.writeUBits, BitStream.bind.
  rewrite (ensureCapacity_wrong_mode _ _ H). reflexivity.
Qed.

Lemma getBuffer_wrong_mode (s : BitStream.t) :
  BitStream.isWriting s = false ->
  BitStreamOps.getBuffer s = Throw CannotGetBufferInReadMode.
Proof. intros H. unfold BitStreamOps.getBuffer. rewrite H. reflexivity. Qed.

(** ** Reads never fail on a read-bound stream *)

Lemma read_ok_ret {A : Type} (a : A) (Q : A -> Prop) :
  Q a -> read_ok (BitStream.ret a) Q.
Proof. intros H s Hs. exists a, s. repeat split; assumption. Qed.

Lemma read_ok_bind {A B : Type} (m : BitStream.M A) (k : A -> BitStream.M B)
    (P : A -> Prop) (Q : B -> Prop) :
  read_ok m P -> (forall a, P a -> read_ok (k a) Q) ->
  read_ok (BitStream.bind m k) Q.
Proof.
  intros Hm Hk s Hs. destruct (Hm s Hs) as (a & s1 & E1 & Hs1 & Ha).
  destruct (Hk a Ha s1 Hs1) as (b & s2 & E2 & Hs2 & Hb).
  exists b, s2. unfold BitStream.bind. rewrite E1. repeat split; assumption.
Qed.

Lemma read_ok_weaken {A : Type} (m : BitStream.M A) (P Q : A -> Prop) :
  read_ok m P -> (forall a, P a -> Q a) -> read_ok m Q.
Proof.
  intros Hm HPQ s Hs. destruct (Hm s Hs) as (a & s' & E & Hs' & Ha).
  exists a, s'. repeat split; auto.
Qed.

Lemma read_ok_when (b : bool) (n : Z) :
  read_ok (BitStream.when b (BitStream.rewind n)) (fun _ => True).
Proof.
  intros s Hs. destruct b; cbn.
  - eexists tt, _. repeat split. exact Hs.
  - exists tt, s. repeat split. exact Hs.
Qed.

Lemma ushr_0_range (z : Z) : 0 <= z >>> 0 < 4294967296.
Proof. rewrite ushr_0. apply Z.mod_pos_bound. lia. Qed.

Lemma read_ok_readUBits (bits : nat) (co : bool) :
  read_ok (BitStreamOps.readUBits bits co) (fun v => 0 <= v < 4294967296).
Proof.
  intros s Hs. unfold BitStreamOps.readUBits. rewrite Hs.
  destruct (BitStreamOps.readUBits_loop bits (BitStream.buffer s)
              (BitStream.bitPosition s) 0) as [v p].
  eexists _, _. split; [reflexivity|]. split; [reflexivity | apply ushr_0_range].
Qed.

Lemma read_ok_for_ {A : Type} (body : Z -> A -> BitStream.M A)
    (I : nat -> A -> Prop) (i0 : Z) :
  (forall (k : nat) acc, I k acc ->
     read_ok (body (i0 + Z.of_nat k) acc) (I (S k))) ->
  forall (n k : nat) acc, I k acc ->
    read_ok (BitStreamOps.for_ n (i0 + Z.of_nat k) body acc) (I (n + k)%nat).
Proof.
  intros Hb. induction n as [|n IH]; intros k acc Hacc.
  - apply read_ok_ret. exact Hacc.
  - cbn [BitStreamOps.for_].
    apply read_ok_bind with (P := I (S k)); [apply Hb, Hacc|].
    intros acc' Hacc'.
    replace (i0 + Z.of_nat k + 1) with (i0 + Z.of_nat (S k)) by lia.
    replace (S n + k)%nat with (n + S k)%nat by lia.
    apply IH, Hacc'.
Qed.

Ltac read_step P :=
  eapply (read_ok_bind _ _ P); [|cbv beta; intros ? ?].

Lemma read_ok_any {A : Type} (m : BitStream.M A) (P : A -> Prop) :
  read_ok m P -> read_ok m (fun _ => True).
Proof. intros H. apply (read_ok_weaken _ _ _ H). auto. Qed.

Lemma read_ok_readUInt8 :
  read_ok (BitStreamOps.readUInt8 true) (fun _ => True).
Proof. apply (read_ok_any _ _ (read_ok_readUBits 8 true)). Qed.

Lemma read_ok_readUInt16 :
  read_ok (BitStreamOps.readUInt16 true) (fun _ => True).
Proof.
  unfold BitStreamOps.readUInt16.
  read_step (fun _ : Z => True); [apply (read_ok_any _ _ (read_ok_readUBits 8 true))|].
  read_step (fun _ : Z => True); [apply (read_ok_any _ _ (read_ok_readUBits 8 true))|].
  read_step (fun _ : unit => True); [apply read_ok_when|].
  apply read_ok_ret. exact I.
Qed.

Lemma read_ok_readUInt32 :
  read_ok (BitStreamOps.readUInt32 true) (fun v => 0 <= v < 4294967296).
Proof.
  unfold BitStreamOps.readUInt32.
  read_step (fun _ : Z => True); [apply (read_ok_any _ _ (read_ok_readUBits 8 true))|].
  read_step (fun _ : Z => True); [apply (read_ok_any _ _ (read_ok_readUBits 8 true))|].
  read_step (fun _ : Z => True); [apply (read_ok_any _ _ (read_ok_readUBits 8 true))|].
  read_step (fun _ : Z => True); [apply (read_ok_any _ _ (read_ok_readUBits 8 true))|].
  read_step (fun _ : unit => True); [apply read_ok_when|].
  apply read_ok_ret. apply ushr_0_range.
Qed.

Lemma read_ok_readString8 :
  read_ok (BitStreamOps.readString8 true) (fun _ => True).
Proof.
  unfold BitStreamOps.readString8.
  read_step (fun _ : Z => True); [apply (read_ok_any _ _ (read_ok_readUBits 8 true))|].
  read_step (fun _ : unit => True); [apply read_ok_when|].
  apply read_ok_ret. exact I.
Qed.

Lemma read_ok_for_any {A : Type} (body : Z -> A -> BitStream.M A) (n : nat)
    (i : Z) (acc : A) :
  (forall j a, read_ok (body j a) (fun _ => True)) ->
  read_ok (BitStreamOps.for_ n i body acc) (fun _ => True).
Proof.
  intros Hb.
  pose proof (read_ok_for_ body (fun _ _ => True) i (fun k a _ => Hb _ a) n 0 acc I) as H.
  rewrite Z.add_0_r in H. exact H.
Qed.

Lemma read_ok_readString32 :
  read_ok (BitStreamOps.readString32 true) (fun _ => True).
Proof.
  unfold BitStreamOps.readString32.
  read_step (fun _ : list Z => True).
  - apply read_ok_for_any. intros j a.
    read_step (fun _ : list Z => True); [apply read_ok_readString8|].
    apply read_ok_ret. exact I.
  - read_step (fun _ : unit => True); [apply read_ok_when|].
    apply read_ok_ret. exact I.
Qed.

Lemma read_ok_readString32Array (n : Z) :
  read_ok (BitStreamOps.readString32Array n) (fun _ => True).
Proof.
  unfold BitStreamOps.readString32Array.
  apply read_ok_for_any. intros j a.
  read_step (fun _ : list Z => True); [apply read_ok_readString32|].
  apply read_ok_ret. exact I.
Qed.

Lemma read_ok_readFloat32 :
  read_ok (BitStreamOps.readFloat32 true) (fun _ => True).
Proof.
  unfold BitStreamOps.readFloat32.
  read_step (fun _ : list byte => True).
  - apply read_ok_for_any. intros j a.
    read_step (fun _ : Z => True); [apply (read_ok_any _ _ (read_ok_readUBits 8 true))|].
    apply read_ok_ret. exact I.
  - read_step (fun _ : unit => True); [apply read_ok_when|].
    apply read_ok_ret. exact I.
Qed.

(** ** Every unpacked field is in range *)

Lemma land_bounds (a m : Z) : 0 <= m -> 0 <= Z.land a m <= m.
Proof.
  intros Hm.
  assert (Hd : Z.land (Z.land a m) (Z.ldiff m a) = 0).
  { apply Z.bits_inj'. intros n Hn.
    rewrite Z.land_spec, Z.land_spec, Z.ldiff_spec, Z.bits_0.
    destruct (Z.testbit a n), (Z.testbit m n); reflexivity. }
  assert (Hs : Z.lor (Z.land a m) (Z.ldiff m a) = m).
  { apply Z.bits_inj'. intros n Hn.
    rewrite Z.lor_spec, Z.land_spec, Z.ldiff_spec.
    destruct (Z.testbit a n), (Z.testbit m n); reflexivity. }
  assert (H1 : 0 <= Z.land a m) by (apply Z.land_nonneg; right; exact Hm).
  assert (H2 : 0 <= Z.ldiff m a) by (apply Z.ldiff_nonneg; left; exact Hm).
  rewrite <- Z.lxor_lor in Hs by exact Hd.
  rewrite <- Z.add_nocarry_lxor in Hs by exact Hd. lia.
Qed.

Lemma and_bounds (v m : Z) : 0 <= m < 2147483648 -> 0 <= v .& m <= m.
Proof.
  intros Hm. unfold JS.and. rewrite (ToInt32_small m) by lia.
  apply land_bounds. lia.
Qed.

Lemma sar_bounds (y k m : Z) :
  0 <= y <= m -> m < 2147483648 -> 0 <= k < 32 ->
  0 <= y >> k <= m / 2 ^ k.
Proof.
  intros Hy Hm Hk. rewrite sar_div by lia. rewrite ToInt32_small by lia.
  pose proof (Z.pow_pos_nonneg 2 k ltac:(lia) ltac:(lia)) as Hp.
  split; [apply Z.div_pos; lia | apply Z.div_le_mono; lia].
Qed.

Lemma ushr_bounds (y k m : Z) :
  0 <= y <= m -> m < 4294967296 -> 0 <= k < 32 ->
  0 <= y >>> k <= m / 2 ^ k.
Proof.
  intros Hy Hm Hk. unfold JS.shr. rewrite land_31_small by lia.
  rewrite ToUint32_mod, Z.mod_small by lia.
  rewrite Z.shiftr_div_pow2 by lia.
  pose proof (Z.pow_pos_nonneg 2 k ltac:(lia) ltac:(lia)) as Hp.
  split; [apply Z.div_pos; lia | apply Z.div_le_mono; lia].
Qed.

Lemma unpack_corner_in_ranges (width i g w b4 b5 b6 : Z) :
  in_ranges (unpack_corner width i g w b4 b5 b6).
Proof.
  unfold in_ranges, unpack_corner.
  cbn [TerrainUtil.mapEdge TerrainUtil.ramp TerrainUtil.blight TerrainUtil.water
       TerrainUtil.boundary TerrainUtil.groundTexture TerrainUtil.groundVariation
       TerrainUtil.cliffVariation TerrainUtil.cliffTexture TerrainUtil.layerHeight].
  pose proof (ushr_bounds _ 14 49152 (and_bounds w 49152 ltac:(lia)) ltac:(lia) ltac:(lia)).
  pose proof (sar_bounds _ 4 16 (and_bounds b4 16 ltac:(lia)) ltac:(lia) ltac:(lia)).
  pose proof (sar_bounds _ 5 32 (and_bounds b4 32 ltac:(lia)) ltac:(lia) ltac:(lia)).
  pose proof (sar_bounds _ 6 64 (and_bounds b4 64 ltac:(lia)) ltac:(lia) ltac:(lia)).
  pose proof (sar_bounds _ 7 128 (and_bounds b4 128 ltac:(lia)) ltac:(lia) ltac:(lia)).
  pose proof (and_bounds b4 15 ltac:(lia)).
  pose proof (and_bounds b5 31 ltac:(lia)).
  pose proof (sar_bounds _ 5 224 (and_bounds b5 224 ltac:(lia)) ltac:(lia) ltac:(lia)).
  pose proof (and_bounds b6 15 ltac:(lia)).
  pose proof (sar_bounds _ 4 240 (and_bounds b6 240 ltac:(lia)) ltac:(lia) ltac:(lia)).
  change (49152 / 2 ^ 14) with 3 in *. change (16 / 2 ^ 4) with 1 in *.
  change (32 / 2 ^ 5) with 1 in *. change (64 / 2 ^ 6) with 1 in *.
  change (128 / 2 ^ 7) with 1 in *. change (224 / 2 ^ 5) with 7 in *.
  change (240 / 2 ^ 4) with 15 in *.
  repeat split; lia.
Qed.

Lemma read_ok_decodeCorner (width i : Z) :
  read_ok (TerrainUtil.decodeCorner width i)
    (fun c => TerrainUtil.index c = i /\
              TerrainUtil.rowid c = JS.floor_div i width /\
              TerrainUtil.colid c = JS.rem i width /\
              in_ranges c).
Proof.
  unfold TerrainUtil.decodeCorner. cbv zeta.
  read_step (fun _ : Z => True); [apply read_ok_readUInt16|].
  read_step (fun _ : Z => True); [apply read_ok_readUInt16|].
  read_step (fun _ : Z => True); [apply read_ok_readUInt8|].
  read_step (fun _ : Z => True); [apply read_ok_readUInt8|].
  read_step (fun _ : Z => True); [apply read_ok_readUInt8|].
  apply read_ok_ret.
  split; [reflexivity|]. split; [reflexivity|]. split; [reflexivity|].
  apply (unpack_corner_in_ranges width i).
Qed.

Lemma read_ok_corner_loop (width : Z) (n : nat) :
  read_ok (BitStreamOps.for_ n 0
             (fun i corners => BitStream.bind (TerrainUtil.decodeCorner width i)
                                 (fun c => BitStream.ret (corners ++ [c]))) [])
          (corners_so_far width n).
Proof.
  assert (Hstep : forall (k : nat) acc, corners_so_far width k acc ->
    read_ok ((fun i corners => BitStream.bind (TerrainUtil.decodeCorner width i)
                                 (fun c => BitStream.ret (corners ++ [c])))
               (0 + Z.of_nat k) acc)
            (corners_so_far width (S k))).
  { intros k acc [Hlen Hacc]. rewrite Z.add_0_l. cbv beta.
    eapply read_ok_bind; [apply read_ok_decodeCorner|].
    cbv beta. intros c (Hi & Hr & Hc & Hrg). apply read_ok_ret. split.
    - rewrite length_app. simpl. lia.
    - intros j c' Hj. apply lookup_app_Some in Hj as [Hj|[Hge Hj]].
      + apply Hacc, Hj.
      + rewrite Hlen in *. destruct (j - k)%nat as [|?] eqn:E; [|discriminate Hj].
        injection Hj as <-. replace j with k by lia. auto. }
  assert (Hinit : corners_so_far width 0 []).
  { split; [reflexivity|]. intros j c Hj. discriminate Hj. }
  pose proof (read_ok_for_ _ _ 0 Hstep n 0%nat [] Hinit) as H.
  rewrite Nat.add_0_r in H. exact H.
Qed.

(** [decodeW3e] returns, on every buffer, a document that satisfies the
    structural invariant. *)
Lemma decodeW3e_total (buffer : list byte) :
  exists d, TerrainUtil.decodeW3e buffer = Return d /\ structural_invariant d.
Proof.
  assert (H : read_ok TerrainUtil.decodeW3e_body structural_invariant).
  { unfold TerrainUtil.decodeW3e_body.
    read_step (fun _ : list Z => True); [apply read_ok_readString32|].
    read_step (fun v : Z => 0 <= v < 4294967296); [apply read_ok_readUInt32|].
    read_step (fun _ : list Z => True); [apply read_ok_readString8|].
    read_step (fun v : Z => 0 <= v < 4294967296); [apply read_ok_readUInt32|].
    read_step (fun v : Z => 0 <= v < 4294967296); [apply read_ok_readUInt32|].
    read_step (fun _ : list (list Z) => True); [apply read_ok_readString32Array|].
    read_step (fun v : Z => 0 <= v < 4294967296); [apply read_ok_readUInt32|].
    read_step (fun _ : list (list Z) => True); [apply read_ok_readString32Array|].
    read_step (fun v : Z => 0 <= v < 4294967296); [apply read_ok_readUInt32|].
    read_step (fun v : Z => 0 <= v < 4294967296); [apply read_ok_readUInt32|].
    read_step (fun _ : float => True); [apply read_ok_readFloat32|].
    read_step (fun _ : float => True); [apply read_ok_readFloat32|].
    cbv zeta.
    eapply read_ok_bind; [apply read_ok_corner_loop|].
    cbv beta. intros cs [Hlen Hcs]. apply read_ok_ret.
    unfold structural_invariant. cbn [TerrainUtil.header TerrainUtil.corners
      TerrainUtil.width TerrainUtil.height].
    match goal with
    | Hw : 0 <= ?w < 4294967296, Hh : 0 <= ?h < 4294967296
      |- Z.of_nat (length cs) = ?w * ?h /\ _ =>
        assert (Hn : Z.of_nat (length cs) = w * h) by (rewrite Hlen; nia);
        split; [exact Hn|];
        intros j c Hj; destruct (Hcs j c Hj) as (Hi & Hr & Hc & Hrg);
        pose proof (lookup_lt_Some _ _ _ Hj) as Hlt;
        assert (0 < w) by nia;
        split; [|exact Hrg];
        repeat split; [exact Hi | exact Hr |];
        rewrite Hc; unfold JS.rem; apply Z.rem_mod_nonneg; lia
    end. }
  destruct (H (BitStream.new (Some buffer)) eq_refl) as (d & s' & E & _ & Hd).
  exists d. split; [|exact Hd].
  unfold TerrainUtil.decodeW3e, TerrainUtil.run. rewrite E. reflexivity.
Qed.

(** ** Reading at the end of the buffer *)

Lemma readUBits_loop_short (buf : list byte) (n : nat) :
  forall (m : nat) (pos v : Z),
    0 <= pos ->
    8 * Z.of_nat (length buf) - pos <= Z.of_nat n ->
    8 * Z.of_nat (length buf) - pos <= Z.of_nat m ->
    BitStreamOps.readUBits_loop n buf pos v = BitStreamOps.readUBits_loop m buf pos v.
Proof.
  induction n as [|n IH]; intros m pos v Hp Hn Hm.
  - destruct m as [|m]; [reflexivity|]. cbn [BitStreamOps.readUBits_loop].
    unfold JS.floor_div.
    destruct (Z.leb_spec (Z.of_nat (length buf)) (pos / 8)); [reflexivity|].
    Z.div_mod_to_equations. lia.
  - cbn [BitStreamOps.readUBits_loop]. unfold JS.floor_div.
    destruct (Z.leb_spec (Z.of_nat (length buf)) (pos / 8)) as [Hge|Hlt].
    + destruct m as [|m]; [reflexivity|]. cbn [BitStreamOps.readUBits_loop].
      unfold JS.floor_div.
      destruct (Z.leb_spec (Z.of_nat (length buf)) (pos / 8)); [reflexivity|lia].
    + assert (pos < 8 * Z.of_nat (length buf)) by (Z.div_mod_to_equations; lia).
      destruct m as [|m]; [lia|]. cbn [BitStreamOps.readUBits_loop].
      unfold JS.floor_div.
      destruct (Z.leb_spec (Z.of_nat (length buf)) (pos / 8)); [lia|].
      apply IH; lia.
Qed.

(** ** Bytes the decoder has passed do not matter *)

Lemma readUBits_loop_agree (n : nat) (buf1 buf2 : list byte) (bits : nat) :
  length buf1 = length buf2 ->
  (forall k : nat, (n <= k)%nat -> buf1 !! k = buf2 !! k) ->
  forall pos v, 8 * Z.of_nat n <= pos ->
    BitStreamOps.readUBits_loop bits buf1 pos v
    = BitStreamOps.readUBits_loop bits buf2 pos v /\
    pos <= snd (BitStreamOps.readUBits_loop bits buf1 pos v).
Proof.
  intros Hlen Hk. induction bits as [|bits IH]; intros pos v Hp.
  - split; [reflexivity | simpl; lia].
  - cbn [BitStreamOps.readUBits_loop]. rewrite Hlen. unfold JS.floor_div.
    destruct (Z.leb_spec (Z.of_nat (length buf2)) (pos / 8)); [split; [reflexivity|simpl; lia]|].
    assert (Hi : Z.of_nat n <= pos / 8) by (Z.div_mod_to_equations; lia).
    assert (Hg : get_byte buf1 (pos / 8) = get_byte buf2 (pos / 8)).
    { unfold get_byte. destruct (Z.ltb_spec (pos / 8) 0); [reflexivity|].
      rewrite Hk by lia. reflexivity. }
    rewrite Hg. destruct (IH (pos + 1) ((v << 1) .| ((get_byte buf2 (pos / 8)
      >> (7 - JS.rem pos 8)) .& 1)) ltac:(lia)) as [E Hm].
    split; [exact E | lia].
Qed.

Section Simulation.

Variable Rs : BitStream.t -> BitStream.t -> Prop.

Lemma sim_ret {A : Type} (a1 a2 : A) (R : A -> A -> Prop) :
  R a1 a2 -> sim Rs (BitStream.ret a1) (BitStream.ret a2) R.
Proof. intros H s1 s2 Hs. exists a1, a2, s1, s2. repeat split; assumption. Qed.

Lemma sim_bind {A B : Type} (m1 m2 : BitStream.M A)
    (k1 k2 : A -> BitStream.M B) (P : A -> A -> Prop) (R : B -> B -> Prop) :
  sim Rs m1 m2 P -> (forall a1 a2, P a1 a2 -> sim Rs (k1 a1) (k2 a2) R) ->
  sim Rs (BitStream.bind m1 k1) (BitStream.bind m2 k2) R.
Proof.
  intros Hm Hk s1 s2 Hs.
  destruct (Hm s1 s2 Hs) as (a1 & a2 & t1 & t2 & E1 & E2 & Ha & Ht).
  destruct (Hk a1 a2 Ha t1 t2 Ht) as (b1 & b2 & u1 & u2 & F1 & F2 & Hb & Hu).
  exists b1, b2, u1, u2. unfold BitStream.bind. rewrite E1, E2. auto.
Qed.

Lemma sim_same_then {A B : Type} (m : BitStream.M A)
    (k1 k2 : A -> BitStream.M B) (R : B -> B -> Prop) :
  sim Rs m m eq -> (forall a, sim Rs (k1 a) (k2 a) R) ->
  sim Rs (BitStream.bind m k1) (BitStream.bind m k2) R.
Proof.
  intros Hm Hk. apply (sim_bind m m k1 k2 eq R Hm).
  intros a1 a2 <-. apply Hk.
Qed.

Lemma sim_for_ {A : Type} (body : Z -> A -> BitStream.M A) (k : nat) :
  (forall i acc, sim Rs (body i acc) (body i acc) eq) ->
  forall i acc,
    sim Rs (BitStreamOps.for_ k i body acc) (BitStreamOps.for_ k i body acc) eq.
Proof.
  intros Hb. induction k as [|k IH]; intros i acc.
  - apply sim_ret. reflexivity.
  - cbn [BitStreamOps.for_]. apply sim_same_then; [apply Hb|]. intros a. apply IH.
Qed.

(** Everything the decoder reads, it reads one whole byte at a time. *)
Hypothesis sim_byte :
  sim Rs (BitStreamOps.readUBits 8 true) (BitStreamOps.readUBits 8 true) eq.

Ltac sim_same :=
  repeat first
    [ apply sim_byte
    | apply sim_ret; reflexivity
    | apply sim_for_; intros
    | apply sim_same_then; [|intros] ].

Lemma sim_readUInt16 :
  sim Rs (BitStreamOps.readUInt16 true) (BitStreamOps.readUInt16 true) eq.
Proof. unfold BitStreamOps.readUInt16. cbn [negb BitStream.when]. sim_same. Qed.

Lemma sim_readUInt32 :
  sim Rs (BitStreamOps.readUInt32 true) (BitStreamOps.readUInt32 true) eq.
Proof. unfold BitStreamOps.readUInt32. cbn [negb BitStream.when]. sim_same. Qed.

Lemma sim_readString8 :
  sim Rs (BitStreamOps.readString8 true) (BitStreamOps.readString8 true) eq.
Proof. unfold BitStreamOps.readString8. cbn [negb BitStream.when]. sim_same. Qed.

Lemma sim_readString32 :
  sim Rs (BitStreamOps.readString32 true) (BitStreamOps.readString32 true) eq.
Proof.
  unfold BitStreamOps.readString32. cbn [negb BitStream.when].
  apply sim_same_then; [|intros; sim_same].
  apply sim_for_. intros. apply sim_same_then; [apply sim_readString8|].
  intros. apply sim_ret. reflexivity.
Qed.

Lemma sim_readString32Array (k : Z) :
  sim Rs (BitStreamOps.readString32Array k) (BitStreamOps.readString32Array k) eq.
Proof.
  unfold BitStreamOps.readString32Array.
  apply sim_for_. intros. apply sim_same_then; [apply sim_readString32|].
  intros. apply sim_ret. reflexivity.
Qed.

Lemma sim_readFloat32 :
  sim Rs (BitStreamOps.readFloat32 true) (BitStreamOps.readFloat32 true) eq.
Proof. unfold BitStreamOps.readFloat32. cbn [negb BitStream.when]. sim_same. Qed.

Lemma sim_decodeCorner (width i : Z) :
  sim Rs (TerrainUtil.decodeCorner width i) (TerrainUtil.decodeCorner width i) eq.
Proof.
  unfold TerrainUtil.decodeCorner, BitStreamOps.readUInt8. cbv zeta.
  apply sim_same_then; [apply sim_readUInt16|]. intros.
  apply sim_same_then; [apply sim_readUInt16|]. intros.
  sim_same.
Qed.

Lemma sim_decode_after_tag (id1 id2 : list Z) :
  sim Rs (decode_after_tag id1) (decode_after_tag id2)
    (fun d1 d2 => TerrainUtil.fileId (TerrainUtil.header d1) = id1 /\
                  d2 = with_fileId id2 d1).
Proof.
  unfold decode_after_tag.
  apply sim_same_then; [apply sim_readUInt32|]. intros.
  apply sim_same_then; [apply sim_readString8|]. intros.
  apply sim_same_then; [apply sim_readUInt32|]. intros.
  apply sim_same_then; [apply sim_readUInt32|]. intros.
  apply sim_same_then; [apply sim_readString32Array|]. intros.
  apply sim_same_then; [apply sim_readUInt32|]. intros.
  apply sim_same_then; [apply sim_readString32Array|]. intros.
  apply sim_same_then; [apply sim_readUInt32|]. intros.
  apply sim_same_then; [apply sim_readUInt32|]. intros.
  apply sim_same_then; [apply sim_readFloat32|]. intros.
  apply sim_same_then; [apply sim_readFloat32|]. intros.
  cbv zeta.
  apply sim_same_then.
  - apply sim_for_. intros. apply sim_same_then; [apply sim_decodeCorner|].
    intros. apply sim_ret. reflexivity.
  - intros. apply sim_ret. split; reflexivity.
Qed.

Lemma sim_decodeW3e_body :
  sim Rs TerrainUtil.decodeW3e_body TerrainUtil.decodeW3e_body eq.
Proof.
  change TerrainUtil.decodeW3e_body
    with (BitStream.bind (BitStreamOps.readString32 true) decode_after_tag).
  apply sim_same_then; [apply sim_readString32|]. intros id s1 s2 Hs.
  destruct (sim_decode_after_tag id id s1 s2 Hs)
    as (d1 & d2 & t1 & t2 & E1 & E2 & [Hid ->] & Ht).
  exists d1, d1, t1, t2. repeat split; try assumption.
  rewrite E2. do 2 f_equal. rewrite <- Hid. destruct d1 as [[] ?]. reflexivity.
Qed.

End Simulation.

Lemma sim_byte_agree (n : nat) :
  sim (agree n) (BitStreamOps.readUBits 8 true) (BitStreamOps.readUBits 8 true) eq.
Proof.
  intros s1 s2 (H1 & H2 & Hp & Hn & Hl & Hk).
  unfold BitStreamOps.readUBits. rewrite H1, H2, <- Hp.
  destruct (readUBits_loop_agree n _ _ 8 Hl Hk (BitStream.bitPosition s1) 0 Hn)
    as [E Hm].
  rewrite <- E.
  destruct (BitStreamOps.readUBits_loop 8 (BitStream.buffer s1)
              (BitStream.bitPosition s1) 0) as [v p].
  eexists _, _, _, _. split; [reflexivity|]. split; [reflexivity|].
  split; [reflexivity|]. simpl in Hm.
  repeat split; cbn [BitStream.buffer BitStream.bitPosition BitStream.isWriting];
    try assumption; lia.
Qed.

(** A byte read on a byte boundary: the byte under the cursor, or [0] with
    the cursor left alone when there is none. *)
Lemma readUBits_8_aligned (buf : list byte) (k : nat) :
  BitStreamOps.readUBits 8 true (BitStream.mk buf (8 * Z.of_nat k) false)
  = match buf !! k with
    | Some b => Return (byte_to_Z b, BitStream.mk buf (8 * Z.of_nat (S k)) false)
    | None => Return (0, BitStream.mk buf (8 * Z.of_nat k) false)
    end.
Proof.
  unfold BitStreamOps.readUBits.
  cbn [BitStream.isWriting BitStream.buffer BitStream.bitPosition].
  destruct (buf !! k) as [b|] eqn:E.
  - replace (8 * Z.of_nat k) with (8 * Z.of_nat k + 0) by lia.
    rewrite (readUBits_loop_in_byte 8 buf k b 0 0 E) by lia.
    rewrite read_in_byte_8. do 3 f_equal. lia.
  - apply lookup_ge_None in E.
    rewrite (readUBits_loop_short buf 8 0) by lia. reflexivity.
Qed.

Lemma padded_intro (buf : list byte) (pad k1 k2 : nat) :
  (k1 = k2 /\ (k1 <= length buf)%nat) \/ (k1 = length buf /\ (k1 <= k2)%nat) ->
  padded (BitStream.mk buf (8 * Z.of_nat k1) false)
         (BitStream.mk (buf ++ replicate pad x00) (8 * Z.of_nat k2) false).
Proof.
  intros H. split; [reflexivity|]. split; [reflexivity|].
  exists k1, k2, pad. split; [reflexivity|]. split; [reflexivity|].
  split; [reflexivity|]. exact H.
Qed.

Lemma sim_byte_padded :
  sim padded (BitStreamOps.readUBits 8 true) (BitStreamOps.readUBits 8 true) eq.
Proof.
  intros [buf1 pos1 w1] [buf2 pos2 w2] (H1 & H2 & k1 & k2 & pad & Hb & Hp1 & Hp2 & Hk).
  cbn [BitStream.isWriting BitStream.buffer BitStream.bitPosition] in *.
  subst w1 w2 pos1 pos2 buf2. rewrite !readUBits_8_aligned.
  destruct Hk as [[<- Hle]|[-> Hle]].
  - destruct (buf1 !! k1) as [b|] eqn:E1.
    + pose proof (lookup_lt_Some _ _ _ E1) as Hlt.
      rewrite (lookup_app_l buf1) by exact Hlt. rewrite E1.
      eexists _, _, _, _. split; [reflexivity|]. split; [reflexivity|].
      split; [reflexivity|]. apply padded_intro. left. split; [reflexivity|lia].
    + apply lookup_ge_None in E1.
      assert (k1 = length buf1) by lia. subst k1.
      rewrite lookup_app_r by lia. rewrite Nat.sub_diag.
      destruct pad as [|pad]; cbn [replicate lookup list_lookup].
      * eexists _, _, _, _. split; [reflexivity|]. split; [reflexivity|].
        split; [reflexivity|]. apply (padded_intro buf1 0). left. split; lia.
      * eexists _, _, _, _. split; [reflexivity|]. split; [reflexivity|].
        split; [reflexivity|]. apply (padded_intro buf1 (S pad)). right. split; lia.
  - rewrite (lookup_ge_None_2 buf1) by lia.
    destruct ((buf1 ++ replicate pad x00) !! k2) as [b|] eqn:E2.
    + rewrite lookup_app_r in E2 by lia.
      apply lookup_replicate in E2 as [-> _].
      eexists _, _, _, _. split; [reflexivity|]. split; [reflexivity|].
      split; [reflexivity|]. apply padded_intro. right. split; lia.
    + eexists _, _, _, _. split; [reflexivity|]. split; [reflexivity|].
      split; [reflexivity|]. apply padded_intro. right. split; lia.
Qed.

(** A truncated buffer decodes to what the same buffer followed by zero
    bytes decodes to. *)
Lemma decodeW3e_zero_padding (buffer : list byte) (pad : nat) :
  TerrainUtil.decodeW3e buffer = TerrainUtil.decodeW3e (buffer ++ replicate pad x00).
Proof.
  assert (Hs : padded (BitStream.new (Some buffer))
                      (BitStream.new (Some (buffer ++ replicate pad x00)))).
  { apply (padded_intro buffer pad 0 0). left. split; lia. }
  destruct (sim_decodeW3e_body padded sim_byte_padded _ _ Hs)
    as (d1 & d2 & t1 & t2 & E1 & E2 & <- & _).
  unfold TerrainUtil.decodeW3e, TerrainUtil.run. rewrite E1, E2. reflexivity.
Qed.

Lemma str32_of_bytes_codes (b0 b1 b2 b3 : byte) :
  str32_of_bytes b0 b1 b2 b3 = [byte_to_Z b0; byte_to_Z b1; byte_to_Z b2; byte_to_Z b3].
Proof.
  unfold str32_of_bytes. rewrite !fromCharCode_byte by apply byte_to_Z_range.
  reflexivity.
Qed.

Lemma decodeW3e_body_after_tag :
  TerrainUtil.decodeW3e_body
  = BitStream.bind (BitStreamOps.readString32 true) decode_after_tag.
Proof. reflexivity. Qed.

Lemma agree_after_tag (t0 t1 t2 t3 u0 u1 u2 u3 : byte) (rest : list byte) :
  agree 4 (BitStream.mk (t0 :: t1 :: t2 :: t3 :: rest) 32 false)
          (BitStream.mk (u0 :: u1 :: u2 :: u3 :: rest) 32 false).
Proof.
  repeat split; cbn [BitStream.buffer BitStream.bitPosition BitStream.isWriting];
    try lia.
  intros k Hk. do 4 (destruct k as [|k]; [lia|]). reflexivity.
Qed.

Lemma read_tag (t0 t1 t2 t3 : byte) (rest : list byte) :
  BitStreamOps.readString32 true (BitStream.new (Some (t0 :: t1 :: t2 :: t3 :: rest)))
  = Return ([byte_to_Z t0; byte_to_Z t1; byte_to_Z t2; byte_to_Z t3],
            BitStream.mk (t0 :: t1 :: t2 :: t3 :: rest) 32 false).
Proof.
  pose proof (reads_readString32 t0 t1 t2 t3 [] rest) as H.
  rewrite str32_of_bytes_codes in H. exact H.
Qed.

(** * The claims *)

(** C1. Round trip: for every document whose count fields are consistent
    with its sequences and whose field values lie in their declared ranges
    ([wf_doc]), [encodeW3e] returns a buffer and [decodeW3e] of that buffer
    returns the very same document, field for field, the two palette
    counts included. *)
Theorem C1_round_trip (d : TerrainUtil.W3E) :
  wf_doc d ->
  exists buf, TerrainUtil.encodeW3e d = Return buf /\
              TerrainUtil.decodeW3e buf = Return d.
Proof.
  intros Hd. destruct (decode_encode d) as (buf & He & Hdec).
  - apply Hd.
  - exists buf. split; [exact He|]. rewrite Hdec, (recode_id d Hd). reflexivity.
Qed.

Lemma C1_round_trip_witness :
  wf_doc scenario /\
  exists buf, TerrainUtil.encodeW3e scenario = Return buf /\
              TerrainUtil.decodeW3e buf = Return scenario.
Proof.
  split; [exact scenario_wf | apply (C1_round_trip scenario scenario_wf)].
Defined.

(** C2 (as stated) fails: a read at the end of the buffer returns [0], and
    [decodeW3e] of the scenario buffer cut off inside its first corner
    record (50 of its 59 bytes) returns a document whose missing fields are
    zero: [layerHeight] of the first corner is [0] instead of [2], and the
    second corner is all-zero bytes. *)
Lemma C2_counterexample :
  BitStreamOps.readUBits 8 true (BitStream.new (Some []))
  = Return (0, BitStream.new (Some [])) /\
  length truncated_scenario = 50%nat /\
  ~ fails_with (TerrainUtil.decodeW3e truncated_scenario) UnexpectedEndOfInput /\
  exists d,
    TerrainUtil.decodeW3e truncated_scenario = Return d /\
    length (TerrainUtil.corners d) = 2%nat /\
    TerrainUtil.layerHeight <$> TerrainUtil.corners d !! 0%nat = Some 0 /\
    TerrainUtil.groundTexture <$> TerrainUtil.corners d !! 1%nat = Some 0.
Proof.
  split; [reflexivity|]. split; [vm_compute; reflexivity|].
  destruct (TerrainUtil.decodeW3e truncated_scenario) as [d| |] eqn:E;
    vm_compute in E; try discriminate E.
  injection E as <-. split.
  - intros (e & He & _). discriminate He.
  - eexists. split; [reflexivity|]. repeat split.
Qed.

(** C2 (amended). On a read-bound stream a read that would pass the end of
    the buffer does not fail: it returns the value assembled from the bits
    that remain before the end ([0] when the cursor is already there, the
    cursor then staying put).  Consequently [decodeW3e] never raises an
    end-of-input error, and a buffer cut short is decoded exactly as the
    same buffer followed by any number of zero bytes is: the two calls
    have the same outcome. *)
Theorem C2_reads_past_end (s : BitStream.t) (bits : nat) :
  BitStream.isWriting s = false ->
  0 <= BitStream.bitPosition s ->
  8 * Z.of_nat (length (BitStream.buffer s)) - BitStream.bitPosition s <= Z.of_nat bits ->
  BitStreamOps.readUBits bits true s
  = BitStreamOps.readUBits
      (Z.to_nat (8 * Z.of_nat (length (BitStream.buffer s)) - BitStream.bitPosition s))
      true s /\
  (exists v s', BitStreamOps.readUBits bits true s = Return (v, s')) /\
  (8 * Z.of_nat (length (BitStream.buffer s)) <= BitStream.bitPosition s ->
   BitStreamOps.readUBits bits true s = Return (0, s)) /\
  ~ fails_with (TerrainUtil.decodeW3e (BitStream.buffer s)) UnexpectedEndOfInput /\
  forall pad : nat,
    TerrainUtil.decodeW3e (BitStream.buffer s ++ replicate pad x00)
    = TerrainUtil.decodeW3e (BitStream.buffer s).
Proof.
  intros Hs Hp Hb. split; [|split; [|split; [|split]]].
  - unfold BitStreamOps.readUBits. rewrite Hs.
    rewrite (readUBits_loop_short _ bits
               (Z.to_nat (8 * Z.of_nat (length (BitStream.buffer s))
                          - BitStream.bitPosition s))) by lia.
    reflexivity.
  - destruct (read_ok_readUBits bits true s Hs) as (v & s' & E & _).
    exists v, s'. exact E.
  - intros He. unfold BitStreamOps.readUBits. rewrite Hs.
    rewrite (readUBits_loop_short _ bits 0) by lia.
    cbn [BitStreamOps.readUBits_loop]. destruct s as [buf pos w].
    cbn [BitStream.isWriting BitStream.buffer BitStream.bitPosition] in *.
    subst w. reflexivity.
  - intros (e & _ & Hk). destruct e; discriminate Hk.
  - intros pad. symmetry. apply decodeW3e_zero_padding.
Qed.

Lemma C2_reads_past_end_witness :
  BitStream.isWriting (BitStream.new (Some [x2a])) = false /\
  0 <= BitStream.bitPosition (BitStream.new (Some [x2a])) /\
  8 * Z.of_nat (length (BitStream.buffer (BitStream.new (Some [x2a]))))
  - BitStream.bitPosition (BitStream.new (Some [x2a])) <= Z.of_nat 16 /\
  BitStreamOps.readUBits 16 true (BitStream.new (Some [x2a]))
  = BitStreamOps.readUBits
      (Z.to_nat (8 * Z.of_nat (length (BitStream.buffer (BitStream.new (Some [x2a]))))
                 - BitStream.bitPosition (BitStream.new (Some [x2a]))))
      true (BitStream.new (Some [x2a])) /\
  (exists v s', BitStreamOps.readUBits 16 true (BitStream.new (Some [x2a])) = Return (v, s')) /\
  (8 * Z.of_nat (length (BitStream.buffer (BitStream.new (Some [x2a]))))
   <= BitStream.bitPosition (BitStream.new (Some [x2a])) ->
   BitStreamOps.readUBits 16 true (BitStream.new (Some [x2a]))
   = Return (0, BitStream.new (Some [x2a]))) /\
  ~ fails_with (TerrainUtil.decodeW3e (BitStream.buffer (BitStream.new (Some [x2a]))))
      UnexpectedEndOfInput /\
  forall pad : nat,
    TerrainUtil.decodeW3e (BitStream.buffer (BitStream.new (Some [x2a]))
                           ++ replicate pad x00)
    = TerrainUtil.decodeW3e (BitStream.buffer (BitStream.new (Some [x2a]))).
Proof.
  assert (H1 : BitStream.isWriting (BitStream.new (Some [x2a])) = false) by reflexivity.
  assert (H2 : 0 <= BitStream.bitPosition (BitStream.new (Some [x2a]))) by (cbn; lia).
  assert (H3 : 8 * Z.of_nat (length (BitStream.buffer (BitStream.new (Some [x2a]))))
               - BitStream.bitPosition (BitStream.new (Some [x2a])) <= Z.of_nat 16)
    by (cbn; lia).
  split; [exact H1|]. split; [exact H2|]. split; [exact H3|].
  apply (C2_reads_past_end (BitStream.new (Some [x2a])) 16 H1 H2 H3).
Defined.

(** C3. The claim that every packed field is masked to its width fails on
    the code for [ramp] (and likewise [water] and [blight]), which are
    shifted into place without a mask: a corner with [ramp = 2] and
    [water = 0] is stored with the [water] bit set and the [ramp] bit
    clear, and decodes to [ramp = 0], [water = 1]. *)
Theorem C3_ramp_overflows_into_water :
  TerrainUtil.water wide_ramp_corner = 0 /\
  exists buf d' c',
    TerrainUtil.encodeW3e (single wide_ramp_corner) = Return buf /\
    TerrainUtil.decodeW3e buf = Return d' /\
    TerrainUtil.corners d' !! 0%nat = Some c' /\
    byte4_of wide_ramp_corner = 32 /\
    TerrainUtil.ramp c' = 0 /\ TerrainUtil.water c' = 1.
Proof.
  split; [reflexivity|].
  destruct (decode_encode_corner (single wide_ramp_corner) 0 wide_ramp_corner
              (single_layout _) eq_refl) as (buf & d' & He & Hd & Hc).
  exists buf, d', (recode_corner 1 0 wide_ramp_corner).
  repeat split; try assumption; vm_compute; reflexivity.
Qed.

(** C4 (as stated) fails: the height [0.125 - 2^-56] lies strictly nearer
    to [0] than to [0.25], yet it is reproduced as [0.25], because the
    double-precision sum [h * 4 + 8192] is already rounded up to the tie
    [8192.5] before [Math.round] sees it. *)
Lemma C4_counterexample :
  exists buf d' c',
    TerrainUtil.encodeW3e (single near_tie_corner) = Return buf /\
    TerrainUtil.decodeW3e buf = Return d' /\
    TerrainUtil.corners d' !! 0%nat = Some c' /\
    TerrainUtil.groundHeight near_tie_corner = near_tie /\
    TerrainUtil.groundHeight c' = 0.25%float /\
    (Qabs (Qval near_tie - Qval 0) < Qabs (Qval near_tie - Qval 0.25))%Q.
Proof.
  destruct (decode_encode_corner (single near_tie_corner) 0 near_tie_corner
              (single_layout _) eq_refl) as (buf & d' & He & Hd & Hc).
  exists buf, d', (recode_corner 1 0 near_tie_corner).
  repeat split; try assumption; vm_compute; reflexivity.
Qed.

(** C4 (amended). Every height that is a multiple of 0.25 of the raw range
    ([(raw - 8192) / 4] with [raw] below [2^16] for [groundHeight], below
    [2^14] for [waterHeight]) is reproduced exactly; every value [h]
    whatsoever is reproduced as [(raw - 8192) / 4] for
    [raw = round(h * 4 + 8192)] reduced modulo [2^16] (respectively
    [2^14]), the sum being the double-precision one: always a multiple of
    0.25 of the raw range. *)
Theorem C4_heights (d : TerrainUtil.W3E) (i : nat) (c : TerrainUtil.Corner) :
  layout_ok d -> TerrainUtil.corners d !! i = Some c ->
  exists buf d' c',
    TerrainUtil.encodeW3e d = Return buf /\
    TerrainUtil.decodeW3e buf = Return d' /\
    TerrainUtil.corners d' !! i = Some c' /\
    TerrainUtil.groundHeight c'
    = ((JS.of_int (JS.Math_round (TerrainUtil.groundHeight c * 4 + 8192) mod 65536)
        - 8192) / 4)%float /\
    TerrainUtil.waterHeight c'
    = ((JS.of_int (JS.Math_round (TerrainUtil.waterHeight c * 4 + 8192) mod 16384)
        - 8192) / 4)%float /\
    quarter_height 65536 (TerrainUtil.groundHeight c') /\
    quarter_height 16384 (TerrainUtil.waterHeight c') /\
    (quarter_height 65536 (TerrainUtil.groundHeight c) ->
     TerrainUtil.groundHeight c' = TerrainUtil.groundHeight c) /\
    (quarter_height 16384 (TerrainUtil.waterHeight c) ->
     TerrainUtil.waterHeight c' = TerrainUtil.waterHeight c).
Proof.
  intros Hl Hc.
  destruct (decode_encode_corner d i c Hl Hc) as (buf & d' & He & Hd & Hc').
  exists buf, d', (recode_corner (TerrainUtil.width (TerrainUtil.header d)) (Z.of_nat i) c).
  split; [exact He|]. split; [exact Hd|]. split; [exact Hc'|].
  split; [apply recode_groundHeight|]. split; [apply recode_waterHeight|].
  split; [|split; [|split]].
  - rewrite recode_groundHeight. eexists. split; [|reflexivity].
    apply Z.mod_pos_bound. lia.
  - rewrite recode_waterHeight. eexists. split; [|reflexivity].
    apply Z.mod_pos_bound. lia.
  - intros Hq. rewrite recode_groundHeight.
    destruct (quarter_height_rounds 65536 _ ltac:(lia) Hq) as (raw & Hr & Hh & ->).
    rewrite Z.mod_small by lia. symmetry. exact Hh.
  - intros Hq. rewrite recode_waterHeight.
    destruct (quarter_height_rounds 16384 _ ltac:(lia) Hq) as (raw & Hr & Hh & ->).
    rewrite Z.mod_small by lia. symmetry. exact Hh.
Qed.

Lemma C4_heights_witness :
  layout_ok scenario /\
  TerrainUtil.corners scenario !! 0%nat = Some (scenario_corner 0) /\
  exists buf d' c',
    TerrainUtil.encodeW3e scenario = Return buf /\
    TerrainUtil.decodeW3e buf = Return d' /\
    TerrainUtil.corners d' !! 0%nat = Some c' /\
    TerrainUtil.groundHeight c'
    = ((JS.of_int (JS.Math_round (TerrainUtil.groundHeight (scenario_corner 0) * 4 + 8192)
                   mod 65536) - 8192) / 4)%float /\
    TerrainUtil.waterHeight c'
    = ((JS.of_int (JS.Math_round (TerrainUtil.waterHeight (scenario_corner 0) * 4 + 8192)
                   mod 16384) - 8192) / 4)%float /\
    quarter_height 65536 (TerrainUtil.groundHeight c') /\
    quarter_height 16384 (TerrainUtil.waterHeight c') /\
    (quarter_height 65536 (TerrainUtil.groundHeight (scenario_corner 0)) ->
     TerrainUtil.groundHeight c' = TerrainUtil.groundHeight (scenario_corner 0)) /\
    (quarter_height 16384 (TerrainUtil.waterHeight (scenario_corner 0)) ->
     TerrainUtil.waterHeight c' = TerrainUtil.waterHeight (scenario_corner 0)).
Proof.
  assert (Hl : layout_ok scenario) by (repeat split; cbn; lia).
  split; [exact Hl|]. split; [reflexivity|].
  apply (C4_heights scenario 0 (scenario_corner 0) Hl eq_refl).
Defined.

(** C5. Bit-field isolation: in a document whose counts describe it, a
    corner with one field at its maximum representable value and all the
    other fields at 0 comes back from [encodeW3e] then [decodeW3e] with
    that field at its maximum and all the others at 0.  (The record the
    code writes is seven bytes long.) *)
Theorem C5_isolation (f : CornerField) (d : TerrainUtil.W3E) (i : nat)
    (c : TerrainUtil.Corner) :
  layout_ok d -> TerrainUtil.corners d !! i = Some c ->
  same_fields c (isolated f) ->
  exists buf d' c',
    TerrainUtil.encodeW3e d = Return buf /\
    TerrainUtil.decodeW3e buf = Return d' /\
    TerrainUtil.corners d' !! i = Some c' /\
    same_fields c' (isolated f).
Proof.
  intros Hl Hc Hs.
  destruct (decode_encode_corner d i c Hl Hc) as (buf & d' & He & Hd & Hc').
  exists buf, d', (recode_corner (TerrainUtil.width (TerrainUtil.header d)) (Z.of_nat i) c).
  repeat split; try assumption; clear He Hd Hc' Hc Hl;
    generalize (TerrainUtil.width (TerrainUtil.header d)) (Z.of_nat i); intros w k;
    destruct c as [idx row col gh wh me ra bl wa bd gt gv cv ct lh];
    destruct Hs as (? & ? & ? & ? & ? & ? & ? & ? & ? & ? & ? & ?);
    corner_fields; subst;
    destruct f; vm_compute; reflexivity.
Qed.

Lemma C5_isolation_witness :
  layout_ok (single (isolated Ramp)) /\
  TerrainUtil.corners (single (isolated Ramp)) !! 0%nat = Some (isolated Ramp) /\
  same_fields (isolated Ramp) (isolated Ramp) /\
  exists buf d' c',
    TerrainUtil.encodeW3e (single (isolated Ramp)) = Return buf /\
    TerrainUtil.decodeW3e buf = Return d' /\
    TerrainUtil.corners d' !! 0%nat = Some c' /\
    same_fields c' (isolated Ramp).
Proof.
  assert (Hl : layout_ok (single (isolated Ramp))) by (repeat split; cbn; lia).
  assert (Hs : same_fields (isolated Ramp) (isolated Ramp)) by (repeat split).
  split; [exact Hl|]. split; [reflexivity|]. split; [exact Hs|].
  apply (C5_isolation Ramp (single (isolated Ramp)) 0 (isolated Ramp) Hl eq_refl Hs).
Defined.

(** C6. In a document whose counts describe it, a corner with [mapEdge] in
    0..3 and a [waterHeight] of the 14-bit raw range (raw 0..16383) comes
    back with the same [mapEdge] and the same [waterHeight]: neither half
    of the shared 16-bit word disturbs the other. *)
Theorem C6_mapEdge_full_water (d : TerrainUtil.W3E) (i : nat) (c : TerrainUtil.Corner) :
  layout_ok d -> TerrainUtil.corners d !! i = Some c ->
  0 <= TerrainUtil.mapEdge c <= 3 ->
  quarter_height 16384 (TerrainUtil.waterHeight c) ->
  exists buf d' c',
    TerrainUtil.encodeW3e d = Return buf /\
    TerrainUtil.decodeW3e buf = Return d' /\
    TerrainUtil.corners d' !! i = Some c' /\
    TerrainUtil.mapEdge c' = TerrainUtil.mapEdge c /\
    TerrainUtil.waterHeight c' = TerrainUtil.waterHeight c.
Proof.
  intros Hl Hc Hm Hq.
  destruct (decode_encode_corner d i c Hl Hc) as (buf & d' & He & Hd & Hc').
  exists buf, d', (recode_corner (TerrainUtil.width (TerrainUtil.header d)) (Z.of_nat i) c).
  repeat split; try assumption.
  - apply recode_mapEdge, Hm.
  - rewrite recode_waterHeight.
    destruct (quarter_height_rounds 16384 _ ltac:(lia) Hq) as (raw & Hr & Hh & ->).
    rewrite Z.mod_small by lia. symmetry. exact Hh.
Qed.

Lemma C6_mapEdge_full_water_witness :
  layout_ok (single full_word_corner) /\
  TerrainUtil.corners (single full_word_corner) !! 0%nat = Some full_word_corner /\
  0 <= TerrainUtil.mapEdge full_word_corner <= 3 /\
  quarter_height 16384 (TerrainUtil.waterHeight full_word_corner) /\
  exists buf d' c',
    TerrainUtil.encodeW3e (single full_word_corner) = Return buf /\
    TerrainUtil.decodeW3e buf = Return d' /\
    TerrainUtil.corners d' !! 0%nat = Some c' /\
    TerrainUtil.mapEdge c' = TerrainUtil.mapEdge full_word_corner /\
    TerrainUtil.waterHeight c' = TerrainUtil.waterHeight full_word_corner.
Proof.
  assert (Hl : layout_ok (single full_word_corner)) by (repeat split; cbn; lia).
  assert (Hm : 0 <= TerrainUtil.mapEdge full_word_corner <= 3) by (cbn; lia).
  assert (Hq : quarter_height 16384 (TerrainUtil.waterHeight full_word_corner)).
  { exists 16383. split; [lia|]. vm_compute. reflexivity. }
  split; [exact Hl|]. split; [reflexivity|]. split; [exact Hm|]. split; [exact Hq|].
  apply (C6_mapEdge_full_water (single full_word_corner) 0 full_word_corner
           Hl eq_refl Hm Hq).
Defined.

(** C7 (as stated) fails on the length: the buffer [encodeW3e] returns for
    the scenario does not have 45 bytes. *)
Lemma C7_counterexample :
  ~ (exists buf, TerrainUtil.encodeW3e scenario = Return buf /\ length buf = 45%nat).
Proof.
  intros (buf & He & Hlen). rewrite encodeW3e_serialize in He.
  injection He as <-. vm_compute in Hlen. discriminate Hlen.
Qed.

(** C7 (amended). For the 2 x 1 scenario of the specification [encodeW3e]
    returns a buffer of exactly 59 bytes (45 bytes of header and two corner
    records of 7 bytes), and [decodeW3e] of that buffer returns the
    scenario itself, so [groundTexture = 3] at both corner indices. *)
Theorem C7_scenario :
  exists buf d',
    TerrainUtil.encodeW3e scenario = Return buf /\
    length buf = 59%nat /\
    length (header_bytes scenario_header) = 45%nat /\
    TerrainUtil.decodeW3e buf = Return d' /\
    d' = scenario /\
    (forall i : nat, (i < 2)%nat ->
       TerrainUtil.groundTexture <$> TerrainUtil.corners d' !! i = Some 3).
Proof.
  exists (serialize scenario), scenario.
  split; [apply encodeW3e_serialize|].
  split; [vm_compute; reflexivity|].
  split; [vm_compute; reflexivity|].
  split.
  - rewrite decodeW3e_serialize by apply scenario_wf.
    rewrite (recode_id _ scenario_wf). reflexivity.
  - split; [reflexivity|].
    intros i Hi. destruct i as [|[|i]]; [reflexivity | reflexivity | lia].
Qed.

(** C8 (as stated) fails for the array operations on zero elements:
    [readString32Array(0)] called on a write-bound stream returns (the empty
    array) instead of failing, and so does [writeString32Array([])] on a
    read-bound stream. *)
Lemma C8_counterexample :
  BitStream.isWriting (BitStream.new None) = true /\
  exec (Read (ReadString32Array 0)) (BitStream.new None)
  = Return (tt, BitStream.new None) /\
  BitStream.isWriting (BitStream.new (Some [])) = false /\
  exec (Write (WriteString32Array [])) (BitStream.new (Some []))
  = Return (tt, BitStream.new (Some [])).
Proof. repeat split. Qed.

(** C8 (amended). The mode flag is set by the constructor and no operation
    that returns changes it; every operation of the other mode that touches
    the stream (every scalar read or write, buffer growth, [getBuffer], and
    the array operations on at least one element) fails with a mode
    violation. *)
Theorem C8_mode_enforced (op : Op) (s : BitStream.t) :
  BitStream.isWriting s <> for_writing op ->
  touches_stream op ->
  fails_with (exec op s) ModeViolation /\
  preserves_mode (exec op) /\
  (forall b, BitStream.isWriting (BitStream.new (Some b)) = false) /\
  BitStream.isWriting (BitStream.new None) = true.
Proof.
  intros Hm Ht. split; [|split; [apply preserves_exec | split; reflexivity]].
  destruct op as [r|w]; cbn [for_writing] in Hm.
  - assert (Hw : BitStream.isWriting s = true)
      by (destruct (BitStream.isWriting s); congruence).
    exists CannotReadInWriteMode. split; [|reflexivity].
    destruct r; cbn [exec touches_stream] in *;
      unfold ignore, BitStreamOps.readUInt8, BitStreamOps.readInt8,
        BitStreamOps.readInt16, BitStreamOps.readUInt16, BitStreamOps.readUInt32,
        BitStreamOps.readFloat32, BitStreamOps.readString32,
        BitStreamOps.readString8, BitStreamOps.readString32Array;
      cbn [BitStreamOps.for_]; unfold BitStreamOps.readString32,
        BitStreamOps.readString8; cbn [BitStreamOps.for_]; unfold BitStream.bind;
      try (rewrite (readUBits_wrong_mode _ _ _ Hw); reflexivity).
    destruct (Z.to_nat length) as [|n] eqn:E; [lia|].
    cbn [BitStreamOps.for_]. unfold BitStreamOps.readString32, BitStream.bind.
    cbn [BitStreamOps.for_]. unfold BitStreamOps.readString8, BitStream.bind.
    rewrite (readUBits_wrong_mode _ _ _ Hw). reflexivity.
  - assert (Hw : BitStream.isWriting s = false)
      by (destruct (BitStream.isWriting s); congruence).
    destruct w; cbn [exec touches_stream] in *;
      unfold ignore, BitStreamOps.writeUInt8, BitStreamOps.writeInt8,
        BitStreamOps.writeInt16, BitStreamOps.writeUInt16, BitStreamOps.writeUInt32,
        BitStreamOps.writeFloat32, BitStreamOps.writeString32,
        BitStreamOps.writeString8, BitStreamOps.writeString32Array;
      cbn [BitStreamOps.for_]; unfold BitStreamOps.writeString8, BitStream.bind;
      try (exists CannotWriteInReadMode; split; [|reflexivity];
           first [ rewrite (writeUBits_wrong_mode _ _ _ Hw)
                 | rewrite (ensureCapacity_wrong_mode _ _ Hw) ]; reflexivity).
    + destruct arr as [|a arr]; [congruence|].
      exists CannotWriteInReadMode. split; [|reflexivity].
      cbn [BitStreamOps.for_of]. unfold BitStreamOps.writeString32, BitStream.bind.
      cbn [BitStreamOps.for_]. unfold BitStreamOps.writeString8, BitStream.bind.
      rewrite (writeUBits_wrong_mode _ _ _ Hw). reflexivity.
    + exists CannotGetBufferInReadMode. split; [|reflexivity].
      rewrite (getBuffer_wrong_mode _ Hw). reflexivity.
Qed.

Lemma C8_mode_enforced_witness :
  BitStream.isWriting (BitStream.new None) <> for_writing (Read (ReadUInt32 true)) /\
  touches_stream (Read (ReadUInt32 true)) /\
  fails_with (exec (Read (ReadUInt32 true)) (BitStream.new None)) ModeViolation /\
  preserves_mode (exec (Read (ReadUInt32 true))) /\
  (forall b, BitStream.isWriting (BitStream.new (Some b)) = false) /\
  BitStream.isWriting (BitStream.new None) = true.
Proof.
  assert (Hm : BitStream.isWriting (BitStream.new None)
               <> for_writing (Read (ReadUInt32 true))) by (cbn; discriminate).
  split; [exact Hm|]. split; [exact I|].
  apply (C8_mode_enforced (Read (ReadUInt32 true)) (BitStream.new None) Hm I).
Defined.

(** C9. [decodeW3e] does not look at the value of the tag: for every buffer
    that holds at least the four tag bytes it returns a document whose
    [fileId] is those four bytes verbatim, and replacing the tag by any
    other four bytes changes nothing in the result but [fileId]. *)
Theorem C9_fileId_not_validated (t0 t1 t2 t3 u0 u1 u2 u3 : byte) (rest : list byte) :
  exists d,
    TerrainUtil.decodeW3e (t0 :: t1 :: t2 :: t3 :: rest) = Return d /\
    TerrainUtil.fileId (TerrainUtil.header d)
    = [byte_to_Z t0; byte_to_Z t1; byte_to_Z t2; byte_to_Z t3] /\
    TerrainUtil.decodeW3e (u0 :: u1 :: u2 :: u3 :: rest)
    = Return (with_fileId [byte_to_Z u0; byte_to_Z u1; byte_to_Z u2; byte_to_Z u3] d).
Proof.
  destruct (sim_decode_after_tag (agree 4) (sim_byte_agree 4)
              [byte_to_Z t0; byte_to_Z t1; byte_to_Z t2; byte_to_Z t3]
              [byte_to_Z u0; byte_to_Z u1; byte_to_Z u2; byte_to_Z u3]
              _ _ (agree_after_tag t0 t1 t2 t3 u0 u1 u2 u3 rest))
    as (d1 & d2 & s1 & s2 & E1 & E2 & [Hid ->] & _).
  exists d1.
  unfold TerrainUtil.decodeW3e, TerrainUtil.run.
  rewrite decodeW3e_body_after_tag. unfold BitStream.bind.
  rewrite !read_tag, E1, E2. auto.
Qed.

(** C10. Whatever the buffer holds, [decodeW3e] returns a document with
    [corners.length = width * height] whose corner at every position [i]
    has [index = i], [rowid = floor(i / width)], [colid = i mod width] and
    every unpacked bit field within its declared range. *)
Theorem C10_structural_invariant (buffer : list byte) :
  exists d, TerrainUtil.decodeW3e buffer = Return d /\ structural_invariant d.
Proof. apply decodeW3e_total. Qed.


(** * Beyond the claims: the bit stream, the codec and the editor *)

(** ** One bit at a time *)

Lemma testbit_b2z (b : bool) (i : Z) :
  Z.testbit (Z.b2z b) i = b && (i =? 0).
Proof.
  destruct b; cbn [Z.b2z andb].
  - destruct (Z.eqb_spec i 0) as [->|Hi]; [reflexivity|].
    destruct i; try reflexivity; congruence.
  - apply Z.bits_0.
Qed.

(** [(value << 1) | bit]: the bits of [value] move up by one and [bit]
    enters at the bottom. *)
Lemma shift_in_testbit (value : Z) (bit : bool) (i : Z) :
  0 <= i < 32 ->
  Z.testbit ((value << 1) .| Z.b2z bit) i
  = if i =? 0 then bit else Z.testbit value (i - 1).
Proof.
  intros Hi. unfold JS.or, JS.shl. change (Z.land 1 31) with 1.
  rewrite Z.lor_spec, !ToInt32_testbit by lia.
  rewrite Z.shiftl_spec by lia. rewrite testbit_b2z.
  destruct (Z.eqb_spec i 0) as [->|Hne].
  - cbn. rewrite andb_true_r. reflexivity.
  - rewrite andb_false_r, orb_false_r. apply ToInt32_testbit. lia.
Qed.

Lemma rem_8_nonneg (pos : Z) : 0 <= pos -> JS.rem pos 8 = pos mod 8.
Proof. intros H. unfold JS.rem. apply Z.rem_mod_nonneg; lia. Qed.

(** The bit the loop of [readUBits] extracts at the cursor. *)
Lemma read_bit (buf : list byte) (pos : Z) :
  0 <= pos ->
  (get_byte buf (JS.floor_div pos 8) >> (7 - JS.rem pos 8)) .& 1
  = Z.b2z (bit_at buf pos).
Proof.
  intros Hp. rewrite rem_8_nonneg by exact Hp.
  pose proof (Z.mod_pos_bound pos 8 ltac:(lia)).
  rewrite bit_extract by lia. reflexivity.
Qed.

Lemma readUBits_loop_bits (n : nat) (buf : list byte) :
  forall pos value,
    0 <= pos -> pos + Z.of_nat n <= 8 * Z.of_nat (length buf) ->
    snd (BitStreamOps.readUBits_loop n buf pos value) = pos + Z.of_nat n /\
    forall i, 0 <= i < 32 ->
      Z.testbit (fst (BitStreamOps.readUBits_loop n buf pos value)) i
      = if i <? Z.of_nat n then bit_at buf (pos + Z.of_nat n - 1 - i)
        else Z.testbit value (i - Z.of_nat n).
Proof.
  induction n as [|n IH]; intros pos value Hp Hn.
  - cbn [BitStreamOps.readUBits_loop fst snd]. split; [lia|].
    intros i Hi. destruct (Z.ltb_spec i (Z.of_nat 0)); [lia|].
    f_equal. lia.
  - cbn [BitStreamOps.readUBits_loop].
    destruct (Z.leb_spec (Z.of_nat (length buf)) (JS.floor_div pos 8)) as [Hge|Hlt].
    { unfold JS.floor_div in Hge. Z.div_mod_to_equations. lia. }
    rewrite read_bit by exact Hp.
    destruct (IH (pos + 1) ((value << 1) .| Z.b2z (bit_at buf pos)) ltac:(lia) ltac:(lia))
      as [Hs Hb].
    split; [rewrite Hs; lia|].
    intros i Hi. rewrite (Hb i Hi).
    destruct (Z.ltb_spec i (Z.of_nat n)), (Z.ltb_spec i (Z.of_nat (S n))); try lia.
    + f_equal. lia.
    + rewrite shift_in_testbit by lia.
      destruct (Z.eqb_spec (i - Z.of_nat n) 0); [|lia]. f_equal. lia.
    + rewrite shift_in_testbit by lia.
      destruct (Z.eqb_spec (i - Z.of_nat n) 0); [lia|]. f_equal. lia.
Qed.

Lemma bits_bound (v : Z) (n : Z) :
  0 <= n -> 0 <= v -> (forall i, n <= i -> Z.testbit v i = false) -> v < 2 ^ n.
Proof.
  intros Hn Hv Hb.
  assert (E : v = v mod 2 ^ n).
  { apply Z.bits_inj'. intros i Hi. destruct (Z_lt_le_dec i n).
    - rewrite Z.mod_pow2_bits_low by lia. reflexivity.
    - rewrite Z.mod_pow2_bits_high by lia. apply Hb. lia. }
  rewrite E. apply Z.mod_pos_bound. apply Z.pow_pos_nonneg; lia.
Qed.

Lemma ushr_0_testbit (z i : Z) :
  0 <= i -> Z.testbit (z >>> 0) i = if i <? 32 then Z.testbit z i else false.
Proof.
  intros Hi. rewrite ushr_0. change 4294967296 with (2 ^ 32).
  destruct (Z.ltb_spec i 32).
  - apply Z.mod_pow2_bits_low. lia.
  - apply Z.mod_pow2_bits_high. lia.
Qed.

(** The value of [readUBits] when the bits are there. *)
Lemma readUBits_value (s : BitStream.t) (n : nat) (co : bool) :
  BitStream.isWriting s = false ->
  0 <= BitStream.bitPosition s ->
  BitStream.bitPosition s + Z.of_nat n <= 8 * Z.of_nat (length (BitStream.buffer s)) ->
  (n <= 32)%nat ->
  exists v,
    BitStreamOps.readUBits n co s
    = Return (v, BitStream.mk (BitStream.buffer s)
                   (if co then BitStream.bitPosition s + Z.of_nat n
                    else BitStream.bitPosition s) false) /\
    0 <= v < 2 ^ Z.of_nat n /\
    forall i, 0 <= i < Z.of_nat n ->
      Z.testbit v i
      = bit_at (BitStream.buffer s) (BitStream.bitPosition s + Z.of_nat n - 1 - i).
Proof.
  intros Hw Hp Hn H32. destruct s as [buf pos w].
  cbn [BitStream.isWriting BitStream.buffer BitStream.bitPosition] in *. subst w.
  unfold BitStreamOps.readUBits.
  cbn [BitStream.isWriting BitStream.buffer BitStream.bitPosition].
  destruct (readUBits_loop_bits n buf pos 0 Hp Hn) as [Hs Hb].
  destruct (BitStreamOps.readUBits_loop n buf pos 0) as [value pos'].
  cbn [fst snd] in *. subst pos'.
  exists (value >>> 0). split; [|split].
  - destruct co; do 3 f_equal. lia.
  - pose proof (ushr_0_range value) as Hr. split; [lia|].
    apply bits_bound; [lia | lia |].
    intros i Hi. rewrite ushr_0_testbit by lia.
    destruct (Z.ltb_spec i 32); [|reflexivity].
    rewrite Hb by lia. destruct (Z.ltb_spec i (Z.of_nat n)); [lia|].
    apply Z.bits_0.
  - intros i Hi. rewrite ushr_0_testbit by lia.
    destruct (Z.ltb_spec i 32); [|lia].
    rewrite Hb by lia. destruct (Z.ltb_spec i (Z.of_nat n)); [reflexivity|lia].
Qed.

(** Where the loop of [readUBits] stops when fewer bits remain. *)
Lemma readUBits_loop_stop (buf : list byte) (n : nat) (pos v : Z) :
  0 <= pos ->
  8 * Z.of_nat (length buf) - pos <= Z.of_nat n ->
  snd (BitStreamOps.readUBits_loop n buf pos v) = Z.max pos (8 * Z.of_nat (length buf)).
Proof.
  intros Hp Hn.
  rewrite (readUBits_loop_short buf n (Z.to_nat (8 * Z.of_nat (length buf) - pos)))
    by lia.
  destruct (Z_le_gt_dec pos (8 * Z.of_nat (length buf))).
  - destruct (readUBits_loop_bits (Z.to_nat (8 * Z.of_nat (length buf) - pos)) buf pos v
                Hp ltac:(lia)) as [-> _]. lia.
  - replace (Z.to_nat (8 * Z.of_nat (length buf) - pos)) with 0%nat by lia.
    cbn. lia.
Qed.

(** ** One bit written *)

Lemma testbit_1 (i : Z) : Z.testbit 1 i = (i =? 0).
Proof. apply (testbit_b2z true). Qed.

(** [(cur & ~(1 << k)) | (bit << k)] is [cur] with bit [k] replaced. *)
Lemma set_bit_testbit (cur : Z) (bit : bool) (k j : Z) :
  0 <= k < 32 -> 0 <= j < 32 ->
  Z.testbit ((cur .& .~ (1 << k)) .| (Z.b2z bit << k)) j
  = if j =? k then bit else Z.testbit cur j.
Proof.
  intros Hk Hj.
  assert (Hs : forall a, -2147483648 <= a < 2147483648 ->
             Z.testbit (a << k) j = Z.testbit a (j - k)).
  { intros a Ha. unfold JS.shl. rewrite land_31_small by lia.
    rewrite ToInt32_testbit by lia. rewrite Z.shiftl_spec by lia.
    rewrite (ToInt32_small a Ha). reflexivity. }
  unfold JS.or, JS.and, JS.not.
  rewrite Z.lor_spec, !ToInt32_testbit by lia.
  rewrite Z.land_spec, !ToInt32_testbit by lia.
  rewrite Z.lnot_spec by lia. rewrite ToInt32_testbit by lia.
  rewrite !Hs by (try (destruct bit; cbn); lia).
  rewrite testbit_1, testbit_b2z.
  destruct (Z.eqb_spec j k) as [->|Hne].
  - rewrite Z.sub_diag. cbn. rewrite andb_false_r, andb_true_r. reflexivity.
  - destruct (Z.eqb_spec (j - k) 0); [lia|].
    cbn. rewrite andb_true_r, andb_false_r, orb_false_r. reflexivity.
Qed.

Lemma get_byte_set_byte (buf : list byte) (i : nat) (x : Z) (j : Z) :
  (i < length buf)%nat ->
  get_byte (set_byte buf (Z.of_nat i) x) j
  = if j =? Z.of_nat i then Z.land x 255 else get_byte buf j.
Proof.
  intros Hi. unfold set_byte, get_byte.
  destruct (Z.ltb_spec (Z.of_nat i) 0); [lia|]. rewrite Nat2Z.id.
  destruct (Z.ltb_spec j 0).
  - destruct (Z.eqb_spec j (Z.of_nat i)); [lia|reflexivity].
  - destruct (Z.eqb_spec j (Z.of_nat i)) as [->|Hne].
    + rewrite Nat2Z.id, list_lookup_insert_eq by exact Hi.
      apply byte_to_Z_ToUint8.
    + rewrite list_lookup_insert_ne by lia. reflexivity.
Qed.

Lemma length_set_byte (buf : list byte) (i x : Z) :
  length (set_byte buf i x) = length buf.
Proof.
  unfold set_byte. destruct (i <? 0); [reflexivity|]. apply length_insert.
Qed.

(** One iteration of the loop of [writeUBits] replaces the bit under the
    cursor and no other. *)
Lemma write_bit (buf : list byte) (pos : Z) (bit : bool) (q : Z) :
  0 <= pos < 8 * Z.of_nat (length buf) ->
  bit_at (set_byte buf (JS.floor_div pos 8)
            ((get_byte buf (JS.floor_div pos 8) .& .~ (1 << (7 - JS.rem pos 8)))
             .| (Z.b2z bit << (7 - JS.rem pos 8)))) q
  = if q =? pos then bit else bit_at buf q.
Proof.
  intros Hp. rewrite rem_8_nonneg by lia. unfold JS.floor_div, bit_at.
  pose proof (Z.mod_pos_bound pos 8 ltac:(lia)) as Hm.
  pose proof (Z.mod_pos_bound q 8 ltac:(lia)) as Hq.
  assert (Hi : (Z.to_nat (pos / 8) < length buf)%nat)
    by (Z.div_mod_to_equations; lia).
  rewrite <- (Z2Nat.id (pos / 8)) at 1 by (Z.div_mod_to_equations; lia).
  rewrite get_byte_set_byte by exact Hi.
  rewrite Z2Nat.id by (Z.div_mod_to_equations; lia).
  destruct (Z.eqb_spec (q / 8) (pos / 8)) as [E|Hne].
  - rewrite Z.land_spec. change 255 with (Z.ones 8).
    rewrite Z.ones_spec_low by lia. rewrite andb_true_r.
    rewrite set_bit_testbit by lia. rewrite E.
    destruct (Z.eqb_spec (7 - q mod 8) (7 - pos mod 8)), (Z.eqb_spec q pos);
      try reflexivity; exfalso; Z.div_mod_to_equations; lia.
  - destruct (Z.eqb_spec q pos) as [->|_]; [congruence | reflexivity].
Qed.

(** [(value >> i) & 1] for any shift count: the count is taken modulo 32. *)
Lemma bit_extract_any (v i : Z) :
  0 <= i -> (v >> i) .& 1 = Z.b2z (Z.testbit v (i mod 32)).
Proof.
  intros Hi.
  assert (E : v >> i = v >> (i mod 32)).
  { unfold JS.sar. f_equal. change 31 with (Z.ones 5).
    rewrite !Z.land_ones by lia. change (2 ^ 5) with 32.
    rewrite Z.mod_mod by lia. reflexivity. }
  rewrite E. apply bit_extract. apply Z.mod_pos_bound. lia.
Qed.

Lemma writeUBits_loop_bits (n : nat) (value : Z) :
  forall (buf : list byte) (pos : Z),
    0 <= pos -> pos + Z.of_nat n <= 8 * Z.of_nat (length buf) ->
    snd (BitStreamOps.writeUBits_loop n value buf pos) = pos + Z.of_nat n /\
    length (fst (BitStreamOps.writeUBits_loop n value buf pos)) = length buf /\
    forall q,
      bit_at (fst (BitStreamOps.writeUBits_loop n value buf pos)) q
      = if (pos <=? q) && (q <? pos + Z.of_nat n)
        then Z.testbit value ((pos + Z.of_nat n - 1 - q) mod 32)
        else bit_at buf q.
Proof.
  induction n as [|n IH]; intros buf pos Hp Hn.
  - cbn [BitStreamOps.writeUBits_loop fst snd]. split; [lia|]. split; [reflexivity|].
    intros q. destruct (Z.leb_spec pos q), (Z.ltb_spec q (pos + Z.of_nat 0));
      try reflexivity; lia.
  - cbn [BitStreamOps.writeUBits_loop].
    rewrite bit_extract_any by lia.
    set (buf' := set_byte buf _ _).
    assert (Hl : length buf' = length buf) by apply length_set_byte.
    destruct (IH buf' (pos + 1) ltac:(lia) ltac:(rewrite Hl; lia)) as (Hs & Hlen & Hb).
    split; [rewrite Hs; lia|]. split; [rewrite Hlen; exact Hl|].
    intros q. rewrite Hb. unfold buf'. rewrite write_bit by lia.
    destruct (Z.leb_spec (pos + 1) q), (Z.ltb_spec q (pos + 1 + Z.of_nat n)),
             (Z.leb_spec pos q), (Z.ltb_spec q (pos + Z.of_nat (S n)));
      cbn [andb]; try lia;
      destruct (Z.eqb_spec q pos); try lia; try reflexivity;
      subst; do 2 f_equal; lia.
Qed.


(** ** Growing the buffer *)

Lemma double_until_pow (fuel : nat) :
  forall newLength requiredBytes r,
    BitStreamOps.double_until fuel newLength requiredBytes = Some r ->
    exists j : nat,
      r = newLength * 2 ^ Z.of_nat j /\ requiredBytes <= r /\
      (j = 0%nat \/ newLength * 2 ^ (Z.of_nat j - 1) < requiredBytes).
Proof.
  induction fuel as [|fuel IH]; intros nl req r H.
  - cbn in H. destruct (Z.ltb_spec nl req); [discriminate H|].
    injection H as <-. exists 0%nat. change (Z.of_nat 0) with 0. rewrite Z.pow_0_r.
    split; [lia|]. split; [lia|]. left. reflexivity.
  - cbn [BitStreamOps.double_until] in H. destruct (Z.ltb_spec nl req).
    + destruct (IH _ _ _ H) as (j & -> & Hr & Hj). exists (S j).
      rewrite Nat2Z.inj_succ, Z.pow_succ_r by lia.
      split; [lia|]. split; [lia|]. right.
      replace (Z.succ (Z.of_nat j) - 1) with (Z.of_nat j) by lia.
      destruct j as [|j]; [change (Z.of_nat 0) with 0; rewrite Z.pow_0_r; lia|].
      destruct Hj as [Hj|Hj]; [discriminate Hj|].
      replace (Z.of_nat (S j)) with (Z.succ (Z.of_nat (S j) - 1)) at 1 by lia.
      rewrite Z.pow_succ_r by lia. lia.
    + injection H as <-. exists 0%nat. change (Z.of_nat 0) with 0. rewrite Z.pow_0_r.
      split; [lia|]. split; [lia|]. left. reflexivity.
Qed.

Lemma ceil_div_8_bound (a : Z) : a <= 8 * JS.ceil_div a 8 < a + 8.
Proof. unfold JS.ceil_div. Z.div_mod_to_equations. lia. Qed.

Lemma ensureCapacity_pow (s : BitStream.t) (bitsToWrite : Z) :
  BitStream.isWriting s = true ->
  (0 < length (BitStream.buffer s))%nat ->
  let len := Z.of_nat (length (BitStream.buffer s)) in
  let required := JS.ceil_div (BitStream.bitPosition s + bitsToWrite) 8 in
  exists k : nat,
    BitStreamOps._ensureCapacity bitsToWrite s
    = Return (tt, BitStream.mk
                    (BitStream.buffer s
                     ++ replicate (Z.to_nat (len * 2 ^ Z.of_nat k - len)) x00)
                    (BitStream.bitPosition s) true) /\
    required <= len * 2 ^ Z.of_nat k /\
    (k = 0%nat \/ len * 2 ^ (Z.of_nat k - 1) < required).
Proof.
  intros Hw Hlen len required. destruct s as [buf pos w].
  cbn [BitStream.isWriting BitStream.buffer BitStream.bitPosition] in *. subst w.
  unfold BitStreamOps._ensureCapacity.
  cbn [BitStream.isWriting BitStream.buffer BitStream.bitPosition negb].
  fold len. fold required.
  destruct (Z.ltb_spec len required) as [Hlt|Hge].
  - destruct (double_until_some (Z.to_nat required) (len * 2) required
                ltac:(lia) ltac:(lia)) as (r & E & _ & _).
    rewrite E. destruct (double_until_pow _ _ _ _ E) as (j & -> & Hr & Hj).
    exists (S j). rewrite Nat2Z.inj_succ, Z.pow_succ_r by lia.
    replace (len * (2 * 2 ^ Z.of_nat j)) with (len * 2 * 2 ^ Z.of_nat j) by lia.
    split; [reflexivity|]. split; [exact Hr|]. right.
    replace (Z.succ (Z.of_nat j) - 1) with (Z.of_nat j) by lia.
    destruct j as [|j]; [change (Z.of_nat 0) with 0; rewrite Z.pow_0_r; lia|].
    destruct Hj as [Hj|Hj]; [discriminate Hj|].
    replace (Z.of_nat (S j)) with (Z.succ (Z.of_nat (S j) - 1)) at 1 by lia.
    rewrite Z.pow_succ_r by lia. lia.
  - exists 0%nat. cbn [Z.of_nat]. rewrite Z.pow_0_r, Z.mul_1_r, Z.sub_diag.
    cbn [Z.to_nat replicate]. rewrite app_nil_r.
    split; [reflexivity|]. split; [lia|]. left. reflexivity.
Qed.

Lemma bit_at_app_zeros (buf : list byte) (n : nat) (q : Z) :
  bit_at (buf ++ replicate n x00) q = bit_at buf q.
Proof.
  unfold bit_at. f_equal. unfold get_byte.
  destruct (Z.ltb_spec (q / 8) 0); [reflexivity|].
  destruct (buf !! Z.to_nat (q / 8)) as [b|] eqn:E.
  - rewrite (lookup_app_l_Some _ _ _ _ E). reflexivity.
  - apply lookup_ge_None in E. rewrite lookup_app_r by lia.
    destruct (replicate n x00 !! (Z.to_nat (q / 8) - length buf)%nat) as [b|] eqn:E2;
      [|reflexivity].
    apply lookup_replicate in E2 as [-> _]. reflexivity.
Qed.

(** ** [writeUBits] at any bit position *)

Lemma writeUBits_general (s : BitStream.t) (value : Z) (bits : nat) :
  writable s ->
  exists s',
    BitStreamOps.writeUBits value bits s = Return (tt, s') /\
    writable s' /\
    BitStream.bitPosition s' = BitStream.bitPosition s + Z.of_nat bits /\
    (length (BitStream.buffer s) <= length (BitStream.buffer s'))%nat /\
    forall q,
      bit_at (BitStream.buffer s') q
      = if (BitStream.bitPosition s <=? q)
           && (q <? BitStream.bitPosition s + Z.of_nat bits)
        then Z.testbit value ((BitStream.bitPosition s + Z.of_nat bits - 1 - q) mod 32)
        else bit_at (BitStream.buffer s) q.
Proof.
  intros (Hw & Hlen & Hp).
  destruct (ensureCapacity_pow s (Z.of_nat bits) Hw Hlen) as (k & E & Hr & _).
  cbv zeta in *.
  unfold BitStreamOps.writeUBits, BitStream.bind. rewrite E.
  cbn [BitStream.isWriting BitStream.buffer BitStream.bitPosition].
  set (buf1 := BitStream.buffer s ++ replicate _ x00) in *.
  assert (Hl1 : (length (BitStream.buffer s) <= length buf1)%nat).
  { unfold buf1. rewrite length_app. lia. }
  assert (Hcap : BitStream.bitPosition s + Z.of_nat bits <= 8 * Z.of_nat (length buf1)).
  { pose proof (ceil_div_8_bound (BitStream.bitPosition s + Z.of_nat bits)) as Hc.
    assert (Z.of_nat (length (BitStream.buffer s)) * 2 ^ Z.of_nat k
            <= Z.of_nat (length buf1)).
    { unfold buf1. rewrite length_app, length_replicate. lia. }
    lia. }
  destruct (writeUBits_loop_bits bits value buf1 (BitStream.bitPosition s)
              ltac:(lia) Hcap) as (Hs & Hl & Hb).
  destruct (BitStreamOps.writeUBits_loop bits value buf1 (BitStream.bitPosition s))
    as [buf2 pos2].
  cbn [fst snd] in *. subst pos2.
  eexists. split; [reflexivity|].
  cbn [BitStream.isWriting BitStream.buffer BitStream.bitPosition].
  split; [|split; [reflexivity|split; [lia|]]].
  - repeat split; cbn [BitStream.isWriting BitStream.buffer BitStream.bitPosition]; lia.
  - intros q. rewrite Hb. unfold buf1. rewrite bit_at_app_zeros. reflexivity.
Qed.

Lemma writable_new : writable (BitStream.new None).
Proof.
  split; [reflexivity|]. unfold BitStream.new, new_Uint8Array.
  cbn [BitStream.buffer BitStream.bitPosition]. rewrite length_replicate.
  split; [|split]; lia.
Qed.

Lemma getBuffer_writable (s : BitStream.t) :
  writable s ->
  exists out, BitStreamOps.getBuffer s = Return (out, s) /\
    Z.of_nat (length out) = JS.ceil_div (BitStream.bitPosition s) 8 /\
    forall q, 0 <= q < 8 * Z.of_nat (length out) ->
      bit_at out q = bit_at (BitStream.buffer s) q.
Proof.
  intros (Hw & Hl & Hp). unfold BitStreamOps.getBuffer. rewrite Hw. cbn [negb].
  eexists. split; [reflexivity|].
  pose proof (ceil_div_8_bound (BitStream.bitPosition s)) as Hc.
  assert (Hlen : Z.of_nat (length (take (Z.to_nat (JS.ceil_div (BitStream.bitPosition s) 8))
                                     (BitStream.buffer s)))
                 = JS.ceil_div (BitStream.bitPosition s) 8).
  { rewrite length_take. lia. }
  split; [exact Hlen|].
  intros q Hq. unfold bit_at. f_equal. unfold get_byte.
  destruct (Z.ltb_spec (q / 8) 0); [reflexivity|].
  rewrite lookup_take_lt; [reflexivity|].
  rewrite Hlen in Hq. Z.div_mod_to_equations. lia.
Qed.


(** ** Growing the buffer when memory is bounded *)

Lemma limited_ensureCapacity_pow (limit : Z) (s : BitStream.t) (bitsToWrite : Z) :
  BitStream.isWriting s = true ->
  (0 < length (BitStream.buffer s))%nat ->
  exists k : nat,
    JS.ceil_div (BitStream.bitPosition s + bitsToWrite) 8
    <= Z.of_nat (length (BitStream.buffer s)) * 2 ^ Z.of_nat k /\
    (k = 0%nat \/
     Z.of_nat (length (BitStream.buffer s)) * 2 ^ (Z.of_nat k - 1)
     < JS.ceil_div (BitStream.bitPosition s + bitsToWrite) 8) /\
    LimitedOps._ensureCapacity limit bitsToWrite s
    = if (k =? 0)%nat
         || (Z.of_nat (length (BitStream.buffer s)) * 2 ^ Z.of_nat k <=? limit)
      then Limited.Returns
             (tt, BitStream.mk
                    (BitStream.buffer s
                     ++ replicate
                          (Z.to_nat (Z.of_nat (length (BitStream.buffer s))
                                     * 2 ^ Z.of_nat k
                                     - Z.of_nat (length (BitStream.buffer s))))
                          x00)
                    (BitStream.bitPosition s) true)
      else Limited.Refused.
Proof.
  intros Hw Hlen. destruct s as [buf pos w].
  cbn [BitStream.isWriting BitStream.buffer BitStream.bitPosition] in *. subst w.
  unfold LimitedOps._ensureCapacity.
  cbn [BitStream.isWriting BitStream.buffer BitStream.bitPosition negb].
  set (len := Z.of_nat (length buf)).
  set (required := JS.ceil_div (pos + bitsToWrite) 8).
  assert (Hl : 0 < len) by (unfold len; lia).
  destruct (Z.ltb_spec len required) as [Hlt|Hge].
  - destruct (double_until_some (Z.to_nat required) (len * 2) required
                ltac:(lia) ltac:(lia)) as (r & E & _ & _).
    rewrite E. destruct (double_until_pow _ _ _ _ E) as (j & -> & Hr & Hj).
    exists (S j). rewrite Nat2Z.inj_succ, Z.pow_succ_r by lia.
    replace (len * (2 * 2 ^ Z.of_nat j)) with (len * 2 * 2 ^ Z.of_nat j) by lia.
    split; [exact Hr|]. split.
    + right. replace (Z.succ (Z.of_nat j) - 1) with (Z.of_nat j) by lia.
      destruct j as [|j]; [change (Z.of_nat 0) with 0; rewrite Z.pow_0_r; lia|].
      destruct Hj as [Hj|Hj]; [discriminate Hj|].
      replace (Z.of_nat (S j)) with (Z.succ (Z.of_nat (S j) - 1)) at 1 by lia.
      rewrite Z.pow_succ_r by lia. lia.
    + cbn [Nat.eqb orb]. unfold LimitedOps.granted.
      assert (Hp : 0 < 2 ^ Z.of_nat j) by (apply Z.pow_pos_nonneg; lia).
      destruct (Z.leb_spec 0 (len * 2 * 2 ^ Z.of_nat j)); [|nia].
      cbn [andb]. reflexivity.
  - exists 0%nat. cbn [Z.of_nat Nat.eqb orb]. rewrite Z.pow_0_r, Z.mul_1_r, Z.sub_diag.
    cbn [Z.to_nat replicate]. rewrite app_nil_r.
    split; [lia|]. split; [left; reflexivity | reflexivity].
Qed.

(** ** Writes when memory is bounded *)

Lemma capacity_bound_mono (D D' : Z) : D <= D' -> capacity_bound D <= capacity_bound D'.
Proof.
  intros H. unfold capacity_bound, JS.ceil_div.
  assert (- (- D / 8) <= - (- D' / 8)).
  { assert (- D' / 8 <= - D / 8) by (apply Z.div_le_mono; lia). lia. }
  lia.
Qed.

Lemma tracks_ret (D : Z) : tracks D (fun _ => Limited.ret tt) 0 0.
Proof.
  intros s Hs Hl Hd. exists s. split; [exact Hs|]. split; [lia|]. split; [lia|].
  intros limit Hlim. destruct (Z.leb_spec (Z.of_nat (length (BitStream.buffer s))) limit);
    [reflexivity | lia].
Qed.

Lemma tracks_bind (D : Z) (m1 m2 : Z -> Limited.M unit) (k1 k2 r1 r2 : Z) :
  tracks D m1 k1 r1 -> tracks D m2 k2 r2 ->
  tracks D (fun limit => Limited.bind (m1 limit) (fun _ => m2 limit))
         (k1 + k2) (Z.max r1 (k1 + r2)).
Proof.
  intros H1 H2 s Hs Hl Hd.
  destruct (H1 s Hs Hl ltac:(lia)) as (s1 & Hs1 & Hp1 & Hl1 & E1).
  destruct (H2 s1 Hs1 ltac:(lia) ltac:(lia)) as (s2 & Hs2 & Hp2 & Hl2 & E2).
  exists s2. split; [exact Hs2|]. split; [lia|]. split; [lia|].
  intros limit Hlim. unfold Limited.bind. rewrite (E1 limit Hlim).
  destruct (Z.leb_spec (Z.of_nat (length (BitStream.buffer s1))) limit) as [Ha|Ha].
  - apply (E2 limit Ha).
  - destruct (Z.leb_spec (Z.of_nat (length (BitStream.buffer s2))) limit);
      [lia | reflexivity].
Qed.

Lemma tracks_eq (D : Z) (m m' : Z -> Limited.M unit) (k k' r r' : Z) :
  tracks D m k r -> (forall limit s, m' limit s = m limit s) -> k = k' -> r <= r' ->
  tracks D m' k' r'.
Proof.
  intros H Hm <- Hr s Hs Hl Hd.
  destruct (H s Hs Hl ltac:(lia)) as (s' & Hs' & Hp & Hl' & E).
  exists s'. split; [exact Hs'|]. split; [exact Hp|]. split; [exact Hl'|].
  intros limit Hlim. rewrite Hm. apply (E limit Hlim).
Qed.

Lemma tracks_ensureCapacity (D n : Z) :
  tracks D (fun limit => LimitedOps._ensureCapacity limit n) 0 n.
Proof.
  intros s Hs Hl Hd. pose proof Hs as (Hw & Hlen & Hp).
  destruct (limited_ensureCapacity_pow 0 s n Hw Hlen) as (k & Hreq & Hk & _).
  set (len := Z.of_nat (length (BitStream.buffer s))) in *.
  set (required := JS.ceil_div (BitStream.bitPosition s + n) 8) in *.
  assert (Hp2 : 0 < 2 ^ Z.of_nat k) by (apply Z.pow_pos_nonneg; lia).
  exists (BitStream.mk
            (BitStream.buffer s ++ replicate (Z.to_nat (len * 2 ^ Z.of_nat k - len)) x00)
            (BitStream.bitPosition s) true).
  cbn [BitStream.isWriting BitStream.buffer BitStream.bitPosition].
  rewrite length_app, length_replicate.
  assert (Hge : len <= len * 2 ^ Z.of_nat k) by nia.
  assert (Hnew : Z.of_nat (length (BitStream.buffer s)
                           + Z.to_nat (len * 2 ^ Z.of_nat k - len))
                 = len * 2 ^ Z.of_nat k) by (unfold len in *; lia).
  rewrite Hnew.
  assert (Hcap : len * 2 ^ Z.of_nat k <= capacity_bound D).
  { destruct k as [|k'].
    - change (Z.of_nat 0) with 0. rewrite Z.pow_0_r. lia.
    - destruct Hk as [Hk|Hk]; [discriminate Hk|].
      rewrite Nat2Z.inj_succ in *.
      replace (Z.succ (Z.of_nat k') - 1) with (Z.of_nat k') in Hk by lia.
      rewrite Z.pow_succ_r by lia.
      assert (required <= JS.ceil_div D 8).
      { unfold required, JS.ceil_div.
        assert (- D / 8 <= - (BitStream.bitPosition s + n) / 8)
          by (apply Z.div_le_mono; lia).
        lia. }
      unfold capacity_bound. lia. }
  split.
  - repeat split; cbn [BitStream.isWriting BitStream.buffer BitStream.bitPosition];
      rewrite ?length_app; lia.
  - split; [lia|]. split; [lia|].
    intros limit Hlim.
    destruct (limited_ensureCapacity_pow limit s n Hw Hlen) as (k' & Hreq' & Hk' & E).
    fold len in Hreq', Hk', E. fold required in Hreq', Hk'.
    assert (k' = k).
    { assert (Hmono : forall a b : nat, (a < b)%nat ->
                        len * 2 ^ Z.of_nat a <= len * 2 ^ (Z.of_nat b - 1)).
      { intros a b Hab. apply Z.mul_le_mono_nonneg_l; [lia|].
        apply Z.pow_le_mono_r; lia. }
      destruct (Nat.lt_trichotomy k' k) as [Hlt|[Heq|Hgt]]; [|exact Heq|].
      - destruct Hk as [->|Hk]; [lia|]. pose proof (Hmono k' k Hlt). lia.
      - destruct Hk' as [->|Hk']; [lia|]. pose proof (Hmono k k' Hgt). lia. }
    subst k'. rewrite E.
    destruct (Nat.eqb_spec k 0) as [->|Hk0]; cbn [orb].
    + change (Z.of_nat 0) with 0. rewrite Z.pow_0_r, Z.mul_1_r.
      destruct (Z.leb_spec len limit); [reflexivity | lia].
    + reflexivity.
Qed.

Lemma tracks_writeUBits (D value : Z) (bits : nat) :
  tracks D (fun limit => LimitedOps.writeUBits limit value bits)
         (Z.of_nat bits) (Z.of_nat bits).
Proof.
  intros s Hs Hl Hd.
  destruct (tracks_ensureCapacity D (Z.of_nat bits) s Hs Hl Hd)
    as (s1 & Hs1 & Hp1 & Hl1 & E1).
  destruct Hs1 as (Hw1 & Hlen1 & Hpos1).
  assert (Hreq : BitStream.bitPosition s1 + Z.of_nat bits
                 <= 8 * Z.of_nat (length (BitStream.buffer s1))).
  { destruct (limited_ensureCapacity_pow 0 s (Z.of_nat bits) (proj1 Hs) (proj1 (proj2 Hs)))
      as (k & Hr & _ & _).
    pose proof (ceil_div_8_bound (BitStream.bitPosition s + Z.of_nat bits)) as Hc.
    destruct (Z_lt_le_dec (Z.of_nat (length (BitStream.buffer s)))
                (JS.ceil_div (BitStream.bitPosition s + Z.of_nat bits) 8)) as [Hlt|Hge];
      [|lia].
    (* the buffer has grown: its new length is the one the growth computes *)
    pose proof (E1 (Z.of_nat (length (BitStream.buffer s1))) ltac:(lia)) as Eg.
    rewrite Z.leb_refl in Eg.
    unfold LimitedOps._ensureCapacity in Eg. rewrite (proj1 Hs) in Eg.
    cbn [negb] in Eg.
    destruct (Z.ltb_spec (Z.of_nat (length (BitStream.buffer s)))
                (JS.ceil_div (BitStream.bitPosition s + Z.of_nat bits) 8)); [|lia].
    destruct (BitStreamOps.double_until _ _ _) as [r|] eqn:Er; [|discriminate Eg].
    destruct (double_until_pow _ _ _ _ Er) as (j & -> & Hr' & _).
    destruct (LimitedOps.granted _ _); [|discriminate Eg].
    injection Eg as <-.
    cbn [BitStream.buffer BitStream.bitPosition].
    rewrite length_app. unfold new_Uint8Array. rewrite length_replicate.
    assert (0 < 2 ^ Z.of_nat j) by (apply Z.pow_pos_nonneg; lia).
    nia. }
  destruct (writeUBits_loop_bits bits value (BitStream.buffer s1)
              (BitStream.bitPosition s1) ltac:(lia) Hreq) as (Hsn & Hln & _).
  destruct (BitStreamOps.writeUBits_loop bits value (BitStream.buffer s1)
              (BitStream.bitPosition s1)) as [buf2 pos2] eqn:El.
  cbn [fst snd] in Hsn, Hln. subst pos2.
  exists (BitStream.mk buf2 (BitStream.bitPosition s1 + Z.of_nat bits) true).
  cbn [BitStream.isWriting BitStream.buffer BitStream.bitPosition].
  rewrite Hln.
  split; [repeat split; cbn [BitStream.isWriting BitStream.buffer BitStream.bitPosition];
          rewrite ?Hln; lia|].
  split; [lia|]. split; [lia|].
  intros limit Hlim. unfold LimitedOps.writeUBits, Limited.bind.
  rewrite (E1 limit Hlim).
  destruct (Z.leb_spec (Z.of_nat (length (BitStream.buffer s1))) limit); [|reflexivity].
  rewrite El, Hw1. reflexivity.
Qed.

Lemma tracks_writeUBits_8 (D value : Z) :
  tracks D (fun limit => LimitedOps.writeUBits limit value 8) 8 8.
Proof.
  apply (tracks_eq D (fun limit => LimitedOps.writeUBits limit value 8) _
           (Z.of_nat 8) 8 (Z.of_nat 8) 8);
    [apply tracks_writeUBits | reflexivity | reflexivity | cbn; lia].
Qed.

Lemma tracks_writeUInt16 (D value : Z) :
  tracks D (fun limit => LimitedOps.writeUInt16 limit value) 16 16.
Proof.
  apply (tracks_eq D _ _ (8 + 8) 16 (Z.max 8 (8 + 8)) 16
           (tracks_bind D _ _ 8 8 8 8
              (tracks_writeUBits_8 D (value .& 255))
              (tracks_writeUBits_8 D ((value >> 8) .& 255))));
    [reflexivity | reflexivity | lia].
Qed.

Lemma tracks_writeUInt32 (D value : Z) :
  tracks D (fun limit => LimitedOps.writeUInt32 limit value) 32 32.
Proof.
  apply (tracks_eq D _ _ (8 + (8 + (8 + 8))) 32
           (Z.max 8 (8 + Z.max 8 (8 + Z.max 8 (8 + 8)))) 32
           (tracks_bind D _ _ 8 _ 8 _
              (tracks_writeUBits_8 D (value .& 255))
              (tracks_bind D _ _ 8 _ 8 _
                 (tracks_writeUBits_8 D ((value >> 8) .& 255))
                 (tracks_bind D _ _ 8 8 8 8
                    (tracks_writeUBits_8 D ((value >> 16) .& 255))
                    (tracks_writeUBits_8 D ((value >> 24) .& 255))))));
    [reflexivity | reflexivity | lia].
Qed.

(** A loop of [n] calls, each [k] bits wide. *)
Lemma tracks_for_ (D k : Z) (body : Z -> Z -> unit -> Limited.M unit) (n : nat) :
  0 <= k ->
  (forall i, tracks D (fun limit => body limit i tt) k k) ->
  forall i,
    tracks D (fun limit => LimitedOps.for_ n i (body limit) tt)
           (k * Z.of_nat n) (k * Z.of_nat n).
Proof.
  intros Hk Hb. induction n as [|n IH]; intros i.
  - apply (tracks_eq D _ _ 0 _ 0 _ (tracks_ret D)); [reflexivity | lia | lia].
  - apply (tracks_eq D _ _ (k + k * Z.of_nat n) _
             (Z.max k (k + k * Z.of_nat n)) _
             (tracks_bind D _ _ k _ k _ (Hb i) (IH (i + 1)))).
    + intros limit s. cbn [LimitedOps.for_]. unfold Limited.bind.
      destruct (body limit i tt s) as [[[] s']| | |]; reflexivity.
    + lia.
    + nia.
Qed.

Lemma tracks_for_of {A : Type} (D k : Z) (body : Z -> A -> Limited.M unit) (l : list A) :
  0 <= k ->
  (forall a, tracks D (fun limit => body limit a) k k) ->
  tracks D (fun limit => LimitedOps.for_of l (body limit))
         (k * Z.of_nat (length l)) (k * Z.of_nat (length l)).
Proof.
  intros Hk Hb. induction l as [|a l IH].
  - apply (tracks_eq D _ _ 0 _ 0 _ (tracks_ret D)); [reflexivity | cbn; lia | cbn; lia].
  - apply (tracks_eq D _ _ (k + k * Z.of_nat (length l)) _
             (Z.max k (k + k * Z.of_nat (length l))) _
             (tracks_bind D _ _ k _ k _ (Hb a) IH)).
    + reflexivity.
    + cbn [length]. lia.
    + cbn [length]. nia.
Qed.

Lemma tracks_writeString8 (D : Z) (str : list Z) :
  tracks D (fun limit => LimitedOps.writeString8 limit str) 8 8.
Proof. apply tracks_writeUBits_8. Qed.

Lemma tracks_writeString32 (D : Z) (str : list Z) :
  tracks D (fun limit => LimitedOps.writeString32 limit str) 32 32.
Proof.
  apply (tracks_eq D _ _ (8 * Z.of_nat 4) 32 (8 * Z.of_nat 4) 32
           (tracks_for_ D 8
              (fun limit i _ =>
                 LimitedOps.writeString8 limit (JS.char_or_nul str (Z.to_nat i)))
              4 ltac:(lia)
              (fun i => tracks_writeString8 D (JS.char_or_nul str (Z.to_nat i))) 0));
    [reflexivity | reflexivity | cbn; lia].
Qed.

Lemma tracks_writeString32Array (D : Z) (arr : list (list Z)) :
  tracks D (fun limit => LimitedOps.writeString32Array limit arr)
         (32 * Z.of_nat (length arr)) (32 * Z.of_nat (length arr)).
Proof.
  apply (tracks_for_of D 32 (fun limit str => LimitedOps.writeString32 limit str) arr);
    [lia | apply tracks_writeString32].
Qed.

Lemma tracks_writeFloat32 (D : Z) (value : float) :
  tracks D (fun limit => LimitedOps.writeFloat32 limit value) 32 32.
Proof.
  intros s Hs Hl Hd.
  destruct (tracks_for_ D 8
              (fun limit i _ =>
                 LimitedOps.writeUBits limit (get_byte (DataView.setFloat32 value) i) 8)
              4 ltac:(lia)
              (fun i => tracks_writeUBits_8 D (get_byte (DataView.setFloat32 value) i))
              0 s Hs Hl ltac:(cbn; lia)) as (s' & Hs' & Hp & Hl' & E).
  exists s'. split; [exact Hs'|]. split; [cbn in Hp; lia|]. split; [exact Hl'|].
  intros limit Hlim. unfold LimitedOps.writeFloat32, LimitedOps.granted.
  destruct (Z.leb_spec 4 limit); [|lia]. cbn [Z.leb andb].
  change (0 <=? 4) with true. cbn [andb]. apply (E limit Hlim).
Qed.

Lemma tracks_getBuffer (D : Z) :
  tracks D (fun limit => Limited.bind (LimitedOps.getBuffer limit)
                           (fun _ => Limited.ret tt)) 0 0.
Proof.
  intros s Hs Hl Hd. exists s. split; [exact Hs|]. split; [lia|]. split; [lia|].
  intros limit Hlim. destruct Hs as (Hw & Hlen & Hp).
  unfold Limited.bind, LimitedOps.getBuffer, LimitedOps.granted. rewrite Hw.
  cbn [negb].
  pose proof (length_take_le (BitStream.buffer s)
                (Z.to_nat (JS.ceil_div (BitStream.bitPosition s) 8))) as Ht.
  destruct (Z.leb_spec 0 (Z.of_nat (length (take (Z.to_nat (JS.ceil_div
              (BitStream.bitPosition s) 8)) (BitStream.buffer s))))); [|lia].
  destruct (Z.leb_spec (Z.of_nat (length (take (Z.to_nat (JS.ceil_div
              (BitStream.bitPosition s) 8)) (BitStream.buffer s)))) limit);
    [|rewrite length_take in *; lia].
  cbn [andb]. unfold Limited.ret.
  destruct (Z.leb_spec (Z.of_nat (length (BitStream.buffer s))) limit);
    [reflexivity | lia].
Qed.

Lemma bits_written_nonneg (op : WriteOp) : 0 <= bits_written op.
Proof. destruct op; cbn; lia. Qed.

Lemma tracks_exec (D : Z) (op : WriteOp) :
  tracks D (fun limit => exec_limited limit op) (bits_written op) (request op).
Proof.
  destruct op; cbn [exec_limited bits_written request].
  - apply tracks_ensureCapacity.
  - apply tracks_writeUBits.
  - apply tracks_writeUBits_8.
  - apply tracks_writeUBits_8.
  - apply tracks_writeUInt16.
  - apply tracks_writeUInt16.
  - apply tracks_writeUInt32.
  - apply tracks_writeFloat32.
  - apply tracks_writeString8.
  - apply tracks_writeString32.
  - apply tracks_writeString32Array.
  - apply tracks_getBuffer.
Qed.

Lemma peak_demand_ge (ops : list WriteOp) : forall pos, pos <= peak_demand ops pos.
Proof.
  induction ops as [|op ops IH]; intros pos; cbn [peak_demand]; [lia|].
  pose proof (IH (pos + bits_written op)). pose proof (bits_written_nonneg op). lia.
Qed.

(** A sequence of operations, started anywhere. *)
Lemma tracks_ops (D : Z) (ops : list WriteOp) :
  forall s,
    writable s ->
    1024 <= Z.of_nat (length (BitStream.buffer s)) <= capacity_bound D ->
    peak_demand ops (BitStream.bitPosition s) <= D ->
    exists s',
      writable s' /\
      BitStream.bitPosition s' = BitStream.bitPosition s + total_bits ops /\
      Z.of_nat (length (BitStream.buffer s))
      <= Z.of_nat (length (BitStream.buffer s')) <= capacity_bound D /\
      forall limit,
        Z.of_nat (length (BitStream.buffer s)) <= limit ->
        LimitedOps.for_of ops (exec_limited limit) s
        = if Z.of_nat (length (BitStream.buffer s')) <=? limit
          then Limited.Returns (tt, s')
          else Limited.Refused.
Proof.
  induction ops as [|op ops IH]; intros s Hs Hl Hd.
  - exists s. split; [exact Hs|]. cbn [total_bits fold_right].
    split; [lia|]. split; [lia|]. intros limit Hlim.
    destruct (Z.leb_spec (Z.of_nat (length (BitStream.buffer s))) limit);
      [reflexivity | lia].
  - cbn [peak_demand] in Hd.
    destruct (tracks_exec D op s Hs Hl ltac:(lia)) as (s1 & Hs1 & Hp1 & Hl1 & E1).
    destruct (IH s1 Hs1 ltac:(lia) ltac:(rewrite Hp1; lia))
      as (s2 & Hs2 & Hp2 & Hl2 & E2).
    exists s2. split; [exact Hs2|].
    cbn [total_bits fold_right]. fold (total_bits ops).
    split; [lia|]. split; [lia|].
    intros limit Hlim. cbn [LimitedOps.for_of]. unfold Limited.bind.
    rewrite (E1 limit Hlim).
    destruct (Z.leb_spec (Z.of_nat (length (BitStream.buffer s1))) limit) as [Ha|Ha].
    + apply (E2 limit Ha).
    + destruct (Z.leb_spec (Z.of_nat (length (BitStream.buffer s2))) limit);
        [lia | reflexivity].
Qed.

(** [new BitStream()._ensureCapacity(2 ** 43)] asks for [2 ** 40] bytes,
    which an engine whose typed arrays end at [2 ** 32] bytes refuses. *)
Example ensureCapacity_refused :
  LimitedOps._ensureCapacity 4294967296 8796093022208 (BitStream.new None)
  = Limited.Refused.
Proof.
  destruct (limited_ensureCapacity_pow 4294967296 (BitStream.new None) 8796093022208
              eq_refl (proj1 (proj2 writable_new))) as (k & Hr & _ & E).
  change (Z.of_nat (length (BitStream.buffer (BitStream.new None)))) with 1024 in *.
  change (BitStream.bitPosition (BitStream.new None)) with 0 in *.
  change (JS.ceil_div (0 + 8796093022208) 8) with 1099511627776 in Hr.
  rewrite E.
  destruct (Nat.eqb_spec k 0) as [->|_].
  - change (1024 * 2 ^ Z.of_nat 0) with 1024 in Hr. lia.
  - destruct (Z.leb_spec (1024 * 2 ^ Z.of_nat k) 4294967296); [lia | reflexivity].
Qed.


(** ** Peeking *)

Lemma readUBits_peek (s : BitStream.t) (n : nat) :
  BitStream.isWriting s = false ->
  0 <= BitStream.bitPosition s ->
  BitStream.bitPosition s + Z.of_nat n <= 8 * Z.of_nat (length (BitStream.buffer s)) ->
  exists v,
    BitStreamOps.readUBits n true s
    = Return (v, BitStream.mk (BitStream.buffer s)
                   (BitStream.bitPosition s + Z.of_nat n) false) /\
    BitStreamOps.readUBits n false s = Return (v, s).
Proof.
  intros Hw Hp Hn. destruct s as [buf pos w].
  cbn [BitStream.isWriting BitStream.buffer BitStream.bitPosition] in *. subst w.
  unfold BitStreamOps.readUBits.
  cbn [BitStream.isWriting BitStream.buffer BitStream.bitPosition].
  destruct (readUBits_loop_bits n buf pos 0 Hp Hn) as [Hs _].
  destruct (BitStreamOps.readUBits_loop n buf pos 0) as [value pos'].
  cbn [snd] in Hs. subst pos'. exists (value >>> 0).
  split; [reflexivity|]. do 3 f_equal. lia.
Qed.

Lemma peeks_readUBits (n : nat) :
  peeks (BitStreamOps.readUBits n) (Z.of_nat n).
Proof. intros s Hw Hp Hn. apply readUBits_peek; assumption. Qed.

Lemma peeks_readUBits_8 : peeks (BitStreamOps.readUBits 8) 8.
Proof. intros s Hw Hp Hn. apply (readUBits_peek s 8); assumption. Qed.

(** A byte consumed, for the accessors that read with
    [changeOffset = true] and rewind afterwards. *)
Lemma take_byte (buf : list byte) (pos : Z) :
  0 <= pos -> pos + 8 <= 8 * Z.of_nat (length buf) ->
  exists v, BitStreamOps.readUBits 8 true (BitStream.mk buf pos false)
            = Return (v, BitStream.mk buf (pos + 8) false).
Proof.
  intros Hp Hn.
  destruct (readUBits_peek (BitStream.mk buf pos false) 8 eq_refl Hp Hn) as (v & E & _).
  exists v. exact E.
Qed.

Ltac take_bytes buf pos :=
  repeat match goal with
  | |- context [BitStreamOps.readUBits 8 true (BitStream.mk buf ?p false)] =>
      let v := fresh "v" in let E := fresh "E" in
      destruct (take_byte buf p ltac:(lia) ltac:(lia)) as [v E]; rewrite E;
      cbv beta iota
  end.

Ltac peek_start :=
  let buf := fresh "buf" in let pos := fresh "pos" in let w := fresh "w" in
  intros [buf pos w] Hw Hp Hn;
  cbn [BitStream.isWriting BitStream.buffer BitStream.bitPosition] in *; subst w.

Lemma peeks_readInt8 : peeks BitStreamOps.readInt8 8.
Proof.
  peek_start. unfold BitStreamOps.readInt8, BitStream.bind, BitStream.ret.
  destruct (peeks_readUBits_8 (BitStream.mk buf pos false) eq_refl Hp Hn) as (v & E1 & E2).
  cbn [BitStream.buffer BitStream.bitPosition] in *.
  rewrite E1, E2. eexists. split; reflexivity.
Qed.

Lemma rewind_back (buf : list byte) (pos w : Z) :
  BitStream.rewind w (BitStream.mk buf (pos + w) false)
  = Return (tt, BitStream.mk buf pos false).
Proof. unfold BitStream.rewind. cbn. do 3 f_equal. lia. Qed.

Lemma peeks_readUInt16 : peeks BitStreamOps.readUInt16 16.
Proof.
  peek_start. unfold BitStreamOps.readUInt16, BitStream.bind.
  take_bytes buf pos.
  replace (pos + 8 + 8) with (pos + 16) by lia.
  cbn [negb BitStream.when]. rewrite rewind_back.
  eexists. split; reflexivity.
Qed.

Lemma peeks_readInt16 : peeks BitStreamOps.readInt16 16.
Proof.
  intros s Hw Hp Hn. destruct (peeks_readUInt16 s Hw Hp Hn) as (v & E1 & E2).
  unfold BitStreamOps.readInt16, BitStream.bind. rewrite E1, E2.
  eexists. split; reflexivity.
Qed.

Lemma peeks_readUInt32 : peeks BitStreamOps.readUInt32 32.
Proof.
  peek_start. unfold BitStreamOps.readUInt32, BitStream.bind.
  take_bytes buf pos.
  replace (pos + 8 + 8 + 8 + 8) with (pos + 32) by lia.
  cbn [negb BitStream.when]. rewrite rewind_back.
  eexists. split; reflexivity.
Qed.

Lemma peeks_readFloat32 : peeks BitStreamOps.readFloat32 32.
Proof.
  peek_start. unfold BitStreamOps.readFloat32. cbn [BitStreamOps.for_].
  unfold BitStream.bind, BitStream.ret.
  take_bytes buf pos.
  replace (pos + 8 + 8 + 8 + 8) with (pos + 32) by lia.
  cbn [negb BitStream.when BitStream.ret]. rewrite rewind_back.
  eexists. split; reflexivity.
Qed.

Lemma peeks_readString8 : peeks BitStreamOps.readString8 8.
Proof.
  peek_start. unfold BitStreamOps.readString8, BitStream.bind.
  take_bytes buf pos.
  cbn [negb BitStream.when]. rewrite rewind_back.
  eexists. split; reflexivity.
Qed.

Lemma peeks_readString32 : peeks BitStreamOps.readString32 32.
Proof.
  peek_start. unfold BitStreamOps.readString32. cbn [BitStreamOps.for_].
  unfold BitStreamOps.readString8, BitStream.bind, BitStream.ret.
  cbn [negb BitStream.when]. unfold BitStream.ret.
  take_bytes buf pos.
  replace (pos + 8 + 8 + 8 + 8) with (pos + 32) by lia.
  cbn [negb BitStream.when BitStream.ret]. rewrite rewind_back.
  eexists. split; reflexivity.
Qed.

(** * Further properties of the bit stream *)

(** X1. [readUBits] reads most significant bit first, at any alignment:
    on a read-bound stream with at least [bits] bits left ([bits <= 32]),
    [readUBits(bits)] returns the number below [2^bits] whose bit [i] is
    the bit of the buffer at position [cursor + bits - 1 - i], and moves
    the cursor forward by [bits]. *)
Theorem readUBits_msb_first (s : BitStream.t) (bits : nat) :
  BitStream.isWriting s = false ->
  0 <= BitStream.bitPosition s ->
  BitStream.bitPosition s + Z.of_nat bits <= 8 * Z.of_nat (length (BitStream.buffer s)) ->
  (bits <= 32)%nat ->
  exists v,
    BitStreamOps.readUBits bits true s
    = Return (v, BitStream.mk (BitStream.buffer s)
                   (BitStream.bitPosition s + Z.of_nat bits) false) /\
    0 <= v < 2 ^ Z.of_nat bits /\
    forall i, 0 <= i < Z.of_nat bits ->
      Z.testbit v i
      = bit_at (BitStream.buffer s) (BitStream.bitPosition s + Z.of_nat bits - 1 - i).
Proof. intros Hw Hp Hn H32. apply (readUBits_value s bits true Hw Hp Hn H32). Qed.

Lemma readUBits_msb_first_witness :
  BitStream.isWriting sample_reader = false /\
  0 <= BitStream.bitPosition sample_reader /\
  BitStream.bitPosition sample_reader + Z.of_nat 7
  <= 8 * Z.of_nat (length (BitStream.buffer sample_reader)) /\
  (7 <= 32)%nat /\
  exists v,
    BitStreamOps.readUBits 7 true sample_reader
    = Return (v, BitStream.mk (BitStream.buffer sample_reader)
                   (BitStream.bitPosition sample_reader + Z.of_nat 7) false) /\
    0 <= v < 2 ^ Z.of_nat 7 /\
    forall i, 0 <= i < Z.of_nat 7 ->
      Z.testbit v i
      = bit_at (BitStream.buffer sample_reader)
          (BitStream.bitPosition sample_reader + Z.of_nat 7 - 1 - i).
Proof.
  assert (H1 : BitStream.isWriting sample_reader = false) by reflexivity.
  assert (H2 : 0 <= BitStream.bitPosition sample_reader) by (cbn; lia).
  assert (H3 : BitStream.bitPosition sample_reader + Z.of_nat 7
               <= 8 * Z.of_nat (length (BitStream.buffer sample_reader))) by (cbn; lia).
  assert (H4 : (7 <= 32)%nat) by lia.
  split; [exact H1|]. split; [exact H2|]. split; [exact H3|]. split; [exact H4|].
  apply (readUBits_msb_first sample_reader 7 H1 H2 H3 H4).
Defined.

(** X2. Peeking: when the bits it needs remain in the buffer, every
    accessor called with [changeOffset = false] returns what the same
    call with [changeOffset = true] returns and leaves the stream exactly
    as it was. *)
Theorem peek_leaves_stream :
  (forall bits : nat, peeks (BitStreamOps.readUBits bits) (Z.of_nat bits)) /\
  peeks BitStreamOps.readUInt8 8 /\
  peeks BitStreamOps.readInt8 8 /\
  peeks BitStreamOps.readUInt16 16 /\
  peeks BitStreamOps.readInt16 16 /\
  peeks BitStreamOps.readUInt32 32 /\
  peeks BitStreamOps.readFloat32 32 /\
  peeks BitStreamOps.readString8 8 /\
  peeks BitStreamOps.readString32 32.
Proof.
  split; [exact peeks_readUBits|]. split; [exact peeks_readUBits_8|].
  split; [exact peeks_readInt8|]. split; [exact peeks_readUInt16|].
  split; [exact peeks_readInt16|]. split; [exact peeks_readUInt32|].
  split; [exact peeks_readFloat32|]. split; [exact peeks_readString8|].
  exact peeks_readString32.
Qed.

(** X3. A peek that runs into the end of the buffer does not restore the
    cursor: with fewer than [bits] bits left, [readUBits(bits, false)]
    stops at the end of the buffer and then subtracts the full [bits], so
    the cursor ends at [8 * length - bits], strictly before the position it
    started from. *)
Theorem peek_past_end_moves_back (s : BitStream.t) (bits : nat) :
  BitStream.isWriting s = false ->
  0 <= BitStream.bitPosition s <= 8 * Z.of_nat (length (BitStream.buffer s)) ->
  8 * Z.of_nat (length (BitStream.buffer s)) - BitStream.bitPosition s < Z.of_nat bits ->
  exists v s',
    BitStreamOps.readUBits bits false s = Return (v, s') /\
    BitStream.buffer s' = BitStream.buffer s /\
    BitStream.bitPosition s'
    = 8 * Z.of_nat (length (BitStream.buffer s)) - Z.of_nat bits /\
    BitStream.bitPosition s' < BitStream.bitPosition s.
Proof.
  intros Hw Hp Hn. unfold BitStreamOps.readUBits. rewrite Hw.
  pose proof (readUBits_loop_stop (BitStream.buffer s) bits (BitStream.bitPosition s) 0
                ltac:(lia) ltac:(lia)) as Hs.
  destruct (BitStreamOps.readUBits_loop bits (BitStream.buffer s)
              (BitStream.bitPosition s) 0) as [value pos'].
  cbn [snd] in Hs. subst pos'.
  eexists _, _. split; [reflexivity|].
  cbn [BitStream.buffer BitStream.bitPosition]. split; [reflexivity|].
  split; lia.
Qed.

Lemma peek_past_end_moves_back_witness :
  BitStream.isWriting sample_reader_at_8 = false /\
  0 <= BitStream.bitPosition sample_reader_at_8
    <= 8 * Z.of_nat (length (BitStream.buffer sample_reader_at_8)) /\
  8 * Z.of_nat (length (BitStream.buffer sample_reader_at_8))
  - BitStream.bitPosition sample_reader_at_8 < Z.of_nat 16 /\
  exists v s',
    BitStreamOps.readUBits 16 false sample_reader_at_8 = Return (v, s') /\
    BitStream.buffer s' = BitStream.buffer sample_reader_at_8 /\
    BitStream.bitPosition s'
    = 8 * Z.of_nat (length (BitStream.buffer sample_reader_at_8)) - Z.of_nat 16 /\
    BitStream.bitPosition s' < BitStream.bitPosition sample_reader_at_8.
Proof.
  assert (H1 : BitStream.isWriting sample_reader_at_8 = false) by reflexivity.
  assert (H2 : 0 <= BitStream.bitPosition sample_reader_at_8
               <= 8 * Z.of_nat (length (BitStream.buffer sample_reader_at_8))) by (cbn; lia).
  assert (H3 : 8 * Z.of_nat (length (BitStream.buffer sample_reader_at_8))
               - BitStream.bitPosition sample_reader_at_8
               < Z.of_nat 16) by (cbn; lia).
  split; [exact H1|]. split; [exact H2|]. split; [exact H3|].
  apply (peek_past_end_moves_back sample_reader_at_8 16 H1 H2 H3).
Defined.



(** X5. Bit-level round trip at any alignment: after
    [writeUBits(value, bits)] ([bits <= 32]) at cursor position [p], the
    buffer [getBuffer] exports, read with [readUBits(bits)] from position
    [p], gives [value mod 2^bits]. *)
Theorem writeUBits_readUBits (s : BitStream.t) (value : Z) (bits : nat) :
  writable s -> (bits <= 32)%nat ->
  exists s' out,
    BitStreamOps.writeUBits value bits s = Return (tt, s') /\
    BitStreamOps.getBuffer s' = Return (out, s') /\
    BitStreamOps.readUBits bits true (BitStream.mk out (BitStream.bitPosition s) false)
    = Return (value mod 2 ^ Z.of_nat bits,
              BitStream.mk out (BitStream.bitPosition s + Z.of_nat bits) false).
Proof.
  intros Hs H32.
  destruct (writeUBits_general s value bits Hs) as (s' & E & Hs' & Hp' & _ & Hb).
  destruct (getBuffer_writable s' Hs') as (out & Eg & Hlen & Hout).
  exists s', out. split; [exact E|]. split; [exact Eg|].
  destruct Hs as (_ & _ & Hp).
  pose proof (ceil_div_8_bound (BitStream.bitPosition s')) as Hc.
  assert (Hfit : BitStream.bitPosition s + Z.of_nat bits <= 8 * Z.of_nat (length out))
    by lia.
  destruct (readUBits_value (BitStream.mk out (BitStream.bitPosition s) false) bits true
              eq_refl (proj1 Hp) Hfit H32) as (v & Er & Hv & Hbits).
  cbn [BitStream.buffer BitStream.bitPosition] in *.
  rewrite Er. do 2 f_equal.
  apply Z.bits_inj'. intros i Hi.
  destruct (Z_lt_le_dec i (Z.of_nat bits)).
  - rewrite Z.mod_pow2_bits_low by lia.
    rewrite Hbits, Hout, Hb by lia.
    destruct (Z.leb_spec (BitStream.bitPosition s)
                (BitStream.bitPosition s + Z.of_nat bits - 1 - i)); [|lia].
    destruct (Z.ltb_spec (BitStream.bitPosition s + Z.of_nat bits - 1 - i)
                (BitStream.bitPosition s + Z.of_nat bits)); [|lia].
    cbn [andb]. f_equal.
    rewrite Z.mod_small; lia.
  - rewrite Z.mod_pow2_bits_high by lia.
    rewrite <- (Z.mod_small v (2 ^ Z.of_nat bits)) by lia.
    apply Z.mod_pow2_bits_high. lia.
Qed.

Lemma writeUBits_readUBits_witness :
  writable sample_writer /\ (11 <= 32)%nat /\
  exists s' out,
    BitStreamOps.writeUBits 1234 11 sample_writer = Return (tt, s') /\
    BitStreamOps.getBuffer s' = Return (out, s') /\
    BitStreamOps.readUBits 11 true (BitStream.mk out (BitStream.bitPosition sample_writer) false)
    = Return (1234 mod 2 ^ Z.of_nat 11,
              BitStream.mk out (BitStream.bitPosition sample_writer + Z.of_nat 11) false).
Proof.
  assert (H : writable sample_writer) by (repeat split; cbn; lia).
  assert (H32 : (11 <= 32)%nat) by lia.
  split; [exact H|]. split; [exact H32|].
  apply (writeUBits_readUBits sample_writer 1234 11 H H32).
Defined.

(** X6. Growth of the buffer, and its refusal: on a write-bound stream
    with a non-empty buffer of [len] bytes, [_ensureCapacity(bitsToWrite)]
    asks for a buffer of [len * 2^k] bytes, [k] being the least number of
    doublings that makes room for [ceil((cursor + bitsToWrite) / 8)] bytes.
    With [k = 0] the room is there and nothing changes; otherwise, on an
    engine that grants typed arrays of up to [limit] bytes, the call keeps
    the cursor and the bytes already there and appends zero bytes up to
    that length when [len * 2^k <= limit], and is refused the allocation
    (a [RangeError]) when it is longer. *)
Theorem ensureCapacity_doubles (limit : Z) (s : BitStream.t) (bitsToWrite : Z) :
  BitStream.isWriting s = true ->
  (0 < length (BitStream.buffer s))%nat ->
  exists k : nat,
    JS.ceil_div (BitStream.bitPosition s + bitsToWrite) 8
    <= Z.of_nat (length (BitStream.buffer s)) * 2 ^ Z.of_nat k /\
    (k = 0%nat \/
     Z.of_nat (length (BitStream.buffer s)) * 2 ^ (Z.of_nat k - 1)
     < JS.ceil_div (BitStream.bitPosition s + bitsToWrite) 8) /\
    LimitedOps._ensureCapacity limit bitsToWrite s
    = if (k =? 0)%nat
         || (Z.of_nat (length (BitStream.buffer s)) * 2 ^ Z.of_nat k <=? limit)
      then Limited.Returns
             (tt, BitStream.mk
                    (BitStream.buffer s
                     ++ replicate
                          (Z.to_nat (Z.of_nat (length (BitStream.buffer s))
                                     * 2 ^ Z.of_nat k
                                     - Z.of_nat (length (BitStream.buffer s))))
                          x00)
                    (BitStream.bitPosition s) true)
      else Limited.Refused.
Proof.
  intros Hw Hlen. apply (limited_ensureCapacity_pow limit s bitsToWrite Hw Hlen).
Qed.

Lemma ensureCapacity_doubles_witness :
  BitStream.isWriting sample_full_writer = true /\
  (0 < length (BitStream.buffer sample_full_writer))%nat /\
  exists k : nat,
    JS.ceil_div (BitStream.bitPosition sample_full_writer + 40) 8
    <= Z.of_nat (length (BitStream.buffer sample_full_writer)) * 2 ^ Z.of_nat k /\
    (k = 0%nat \/
     Z.of_nat (length (BitStream.buffer sample_full_writer)) * 2 ^ (Z.of_nat k - 1)
     < JS.ceil_div (BitStream.bitPosition sample_full_writer + 40) 8) /\
    LimitedOps._ensureCapacity sample_limit 40 sample_full_writer
    = if (k =? 0)%nat
         || (Z.of_nat (length (BitStream.buffer sample_full_writer)) * 2 ^ Z.of_nat k
             <=? sample_limit)
      then Limited.Returns
             (tt, BitStream.mk
                    (BitStream.buffer sample_full_writer
                     ++ replicate
                          (Z.to_nat (Z.of_nat (length (BitStream.buffer sample_full_writer))
                                     * 2 ^ Z.of_nat k
                                     - Z.of_nat (length (BitStream.buffer sample_full_writer))))
                          x00)
                    (BitStream.bitPosition sample_full_writer) true)
      else Limited.Refused.
Proof.
  assert (H1 : BitStream.isWriting sample_full_writer = true) by reflexivity.
  assert (H2 : (0 < length (BitStream.buffer sample_full_writer))%nat) by (cbn; lia).
  split; [exact H1|]. split; [exact H2|].
  apply (ensureCapacity_doubles sample_limit sample_full_writer 40 H1 H2).
Defined.

(** X7. Writes fail only by a refused allocation.  For every sequence of
    write operations (any of the write methods, [_ensureCapacity] and
    [getBuffer], with any arguments) there is one buffer length that
    decides: run on [new BitStream()] and followed by [getBuffer], the
    sequence returns on every engine that grants a typed array of that
    length, leaving the stream write-bound with its cursor at the sum of
    the widths of the operations and exporting exactly
    [ceil(total bits / 8)] bytes, and it is refused an allocation (a
    [RangeError]) on every other engine.  That length is the length of the
    buffer the stream ends with: at least the 1024 bytes of the
    constructor, and less than twice the bytes that hold the largest bit
    position any operation asks room for. *)
Theorem writes_fail_only_by_allocation (ops : list WriteOp) :
  exists (s' : BitStream.t) (out : list byte),
    BitStream.isWriting s' = true /\
    BitStream.bitPosition s' = total_bits ops /\
    Z.of_nat (length out) = JS.ceil_div (total_bits ops) 8 /\
    1024 <= Z.of_nat (length (BitStream.buffer s'))
         <= Z.max 1024 (2 * JS.ceil_div (peak_demand ops 0) 8 - 1) /\
    forall limit : Z,
      write_all limit ops
      = if Z.of_nat (length (BitStream.buffer s')) <=? limit
        then Limited.Returns (out, s')
        else Limited.Refused.
Proof.
  assert (Hl0 : Z.of_nat (length (BitStream.buffer (BitStream.new None))) = 1024)
    by reflexivity.
  destruct (tracks_ops (peak_demand ops 0) ops (BitStream.new None) writable_new
              ltac:(rewrite Hl0; unfold capacity_bound; lia)
              ltac:(cbn [BitStream.new BitStream.bitPosition]; lia))
    as (s' & Hs' & Hp & Hl & E).
  change (BitStream.bitPosition (BitStream.new None)) with 0 in Hp.
  rewrite Z.add_0_l in Hp. rewrite Hl0 in Hl, E.
  destruct Hs' as (Hw & Hlen & Hpos).
  exists s', (take (Z.to_nat (JS.ceil_div (BitStream.bitPosition s') 8))
                (BitStream.buffer s')).
  split; [exact Hw|]. split; [exact Hp|].
  pose proof (ceil_div_8_bound (BitStream.bitPosition s')) as Hc.
  assert (Hout : Z.of_nat (length (take (Z.to_nat (JS.ceil_div (BitStream.bitPosition s') 8))
                                     (BitStream.buffer s')))
                 = JS.ceil_div (BitStream.bitPosition s') 8)
    by (rewrite length_take; lia).
  split; [rewrite Hout, Hp; reflexivity|].
  split; [unfold capacity_bound in Hl; lia|].
  intros limit. unfold write_all, LimitedOps.new, LimitedOps.granted.
  change (0 <=? 1024) with true. cbn [andb].
  destruct (Z.leb_spec 1024 limit) as [H1024|H1024].
  - change (BitStream.mk (new_Uint8Array 1024) 0 true) with (BitStream.new None).
    unfold Limited.bind. rewrite (E limit H1024).
    destruct (Z.leb_spec (Z.of_nat (length (BitStream.buffer s'))) limit) as [Ha|Ha];
      [|reflexivity].
    unfold LimitedOps.getBuffer, LimitedOps.granted. rewrite Hw. cbn [negb].
    rewrite Hout.
    destruct (Z.leb_spec 0 (JS.ceil_div (BitStream.bitPosition s') 8)); [|lia].
    destruct (Z.leb_spec (JS.ceil_div (BitStream.bitPosition s') 8) limit); [|lia].
    reflexivity.
  - destruct (Z.leb_spec (Z.of_nat (length (BitStream.buffer s'))) limit);
      [lia | reflexivity].
Qed.


(** ** Fields of any width, one after the other *)

(** A number below [2^n] with the low [n] bits of [v] is [v mod 2^n]. *)
Lemma low_bits_mod (v' v n : Z) :
  0 <= n -> 0 <= v' < 2 ^ n ->
  (forall i, 0 <= i < n -> Z.testbit v' i = Z.testbit v i) ->
  v' = v mod 2 ^ n.
Proof.
  intros Hn Hv Hb. apply Z.bits_inj'. intros i Hi.
  destruct (Z_lt_le_dec i n).
  - rewrite Z.mod_pow2_bits_low by lia. apply Hb. lia.
  - rewrite Z.mod_pow2_bits_high by lia.
    rewrite <- (Z.mod_small v' (2 ^ n)) by lia.
    apply Z.mod_pow2_bits_high. lia.
Qed.

Lemma fields_round_trip_from (fields : list (Z * nat)) :
  Forall (fun f => (snd f <= 32)%nat) fields ->
  forall s, writable s ->
    exists s',
      write_fields fields s = Return (tt, s') /\
      writable s' /\
      BitStream.bitPosition s' = BitStream.bitPosition s + fields_width fields /\
      (forall q, q < BitStream.bitPosition s ->
         bit_at (BitStream.buffer s') q = bit_at (BitStream.buffer s) q) /\
      forall B : list byte,
        BitStream.bitPosition s' <= 8 * Z.of_nat (length B) ->
        (forall q, BitStream.bitPosition s <= q < BitStream.bitPosition s' ->
           bit_at B q = bit_at (BitStream.buffer s') q) ->
        read_fields (List.map snd fields) (BitStream.mk B (BitStream.bitPosition s) false)
        = Return (List.map (fun f => fst f mod 2 ^ Z.of_nat (snd f)) fields,
                  BitStream.mk B (BitStream.bitPosition s') false).
Proof.
  induction 1 as [|[v n] fields Hn _ IH]; intros s Hs.
  - exists s. split; [reflexivity|]. split; [exact Hs|].
    cbn [fields_width fold_right]. split; [lia|]. split; [reflexivity|].
    intros B _ _. reflexivity.
  - cbn [snd] in Hn. unfold write_fields. cbn [BitStreamOps.for_of fst snd].
    destruct (writeUBits_general s v n Hs) as (s1 & E1 & Hs1 & Hp1 & _ & Hb1).
    destruct (IH s1 Hs1) as (s2 & E2 & Hs2 & Hp2 & Hkeep & Hread).
    unfold BitStream.bind at 1. rewrite E1.
    fold (write_fields fields). rewrite E2.
    exists s2. split; [reflexivity|]. split; [exact Hs2|].
    pose proof (proj1 (proj2 (proj2 Hs))) as Hpos.
    assert (Hw : 0 <= fields_width fields).
    { clear. induction fields as [|f l IHl]; cbn [fields_width fold_right]; [lia|].
      fold (fields_width l). lia. }
    cbn [fields_width fold_right snd]. fold (fields_width fields).
    split; [lia|]. split.
    + intros q Hq. rewrite Hkeep by lia. rewrite Hb1.
      destruct (Z.leb_spec (BitStream.bitPosition s) q); [lia|]. reflexivity.
    + intros B HB Hagree. cbn [List.map read_fields fst snd].
      destruct (readUBits_value (BitStream.mk B (BitStream.bitPosition s) false) n true
                  eq_refl Hpos ltac:(cbn [BitStream.buffer BitStream.bitPosition]; lia) Hn)
        as (v' & Er & Hv' & Hbits).
      cbn [BitStream.buffer BitStream.bitPosition] in *.
      unfold BitStream.bind at 1. rewrite Er.
      rewrite <- Hp1.
      unfold BitStream.bind at 1.
      rewrite (Hread B HB) by (intros q Hq; apply Hagree; lia).
      unfold BitStream.ret. do 3 f_equal.
      apply low_bits_mod; [lia | exact Hv' |].
      intros i Hi. rewrite Hbits by lia.
      rewrite Hagree by lia. rewrite Hkeep by lia. rewrite Hb1.
      destruct (Z.leb_spec (BitStream.bitPosition s)
                  (BitStream.bitPosition s + Z.of_nat n - 1 - i)); [|lia].
      destruct (Z.ltb_spec (BitStream.bitPosition s + Z.of_nat n - 1 - i)
                  (BitStream.bitPosition s + Z.of_nat n)); [|lia].
      cbn [andb]. f_equal. rewrite Z.mod_small; lia.
Qed.

(** * Further properties of the bit stream: composition *)

(** X8. Fields of any widths, packed back to back: after any sequence
    of [writeUBits(value, bits)] calls on a fresh stream (each
    [bits <= 32]), the buffer [getBuffer] exports has
    [ceil(total bits / 8)] bytes, and reading it with [readUBits] calls of
    the same widths in the same order returns each [value mod 2^bits]:
    no field disturbs another, whatever the alignment. *)
Theorem fields_round_trip (fields : list (Z * nat)) :
  Forall (fun f => (snd f <= 32)%nat) fields ->
  exists buf,
    written (write_fields fields) = Return buf /\
    Z.of_nat (length buf) = JS.ceil_div (fields_width fields) 8 /\
    read_back (read_fields (List.map snd fields)) buf
    = Return (List.map (fun f => fst f mod 2 ^ Z.of_nat (snd f)) fields).
Proof.
  intros Hf.
  destruct (fields_round_trip_from fields Hf _ writable_new)
    as (s' & E & Hs' & Hp & _ & Hread).
  destruct (getBuffer_writable s' Hs') as (out & Eg & Hlen & Hout).
  change (BitStream.bitPosition (BitStream.new None)) with 0 in *.
  rewrite Z.add_0_l in Hp.
  exists out. split; [|split].
  - unfold written, TerrainUtil.run, BitStream.bind. rewrite E, Eg. reflexivity.
  - rewrite Hlen, Hp. reflexivity.
  - pose proof (ceil_div_8_bound (BitStream.bitPosition s')) as Hc.
    unfold read_back, TerrainUtil.run, BitStream.new.
    rewrite (Hread out) by (try (intros q Hq; apply Hout); lia).
    reflexivity.
Qed.

Lemma fields_round_trip_witness :
  Forall (fun f => (snd f <= 32)%nat) sample_fields /\
  exists buf,
    written (write_fields sample_fields) = Return buf /\
    Z.of_nat (length buf)
    = JS.ceil_div (fields_width sample_fields) 8 /\
    read_back (read_fields (List.map snd sample_fields)) buf
    = Return (List.map (fun f => fst f mod 2 ^ Z.of_nat (snd f))
                sample_fields).
Proof.
  assert (H : Forall (fun f => (snd f <= 32)%nat)
                sample_fields).
  { unfold sample_fields. repeat (apply Forall_cons_2; [cbn; lia|]). apply Forall_nil_2. }
  split; [exact H|].
  apply (fields_round_trip sample_fields H).
Defined.


(** ** Writing on a fresh stream, reading the exported buffer *)

Lemma written_appends (m : BitStream.M unit) (bs : list byte) :
  appends m bs -> written m = Return bs.
Proof.
  intros H. unfold written, TerrainUtil.run.
  destruct (produces_bind m (fun _ => BitStreamOps.getBuffer) bs [] H
              produces_getBuffer _ _ wstate_new) as (s' & E).
  rewrite E. rewrite app_nil_r. reflexivity.
Qed.

Lemma read_back_reads {A : Type} (m : BitStream.M A) (bs : list byte) (a : A) :
  reads m bs a -> read_back m bs = Return a.
Proof. apply run_reads. Qed.

(** [(u << 24) >> 24] and [(u << 16) >> 16]: sign extension. *)
Lemma sign_extend (u k : Z) :
  0 < k < 32 -> 0 <= u < 2 ^ k ->
  (u << (32 - k)) >> (32 - k) = (u + 2 ^ (k - 1)) mod 2 ^ k - 2 ^ (k - 1).
Proof.
  intros Hk Hu.
  assert (Hp : 2 ^ k * 2 ^ (32 - k) = 4294967296).
  { rewrite <- Z.pow_add_r by lia. replace (k + (32 - k)) with 32 by lia. reflexivity. }
  assert (Hh : 2 * 2 ^ (k - 1) = 2 ^ k).
  { rewrite <- Z.pow_succ_r by lia. f_equal. lia. }
  pose proof (Z.pow_pos_nonneg 2 (32 - k) ltac:(lia) ltac:(lia)) as Hq.
  pose proof (Z.pow_pos_nonneg 2 (k - 1) ltac:(lia) ltac:(lia)) as Hq'.
  assert (Hk32 : 2 ^ k <= 2 ^ 31) by (apply Z.pow_le_mono_r; lia).
  change (2 ^ 31) with 2147483648 in Hk32.
  rewrite sar_div by lia. rewrite shl_mul by lia.
  destruct (ToInt32_cases (u * 2 ^ (32 - k))) as [Hr [c Hc]].
  rewrite (ToInt32_small _ Hr). rewrite Hc.
  replace (u * 2 ^ (32 - k) + c * 4294967296)
    with ((u + c * 2 ^ k) * 2 ^ (32 - k)) in * by nia.
  rewrite Z.div_mul by lia.
  assert (Hrange : - 2 ^ (k - 1) <= u + c * 2 ^ k < 2 ^ (k - 1)) by nia.
  symmetry.
  replace (u + 2 ^ (k - 1)) with ((u + c * 2 ^ k + 2 ^ (k - 1)) + (- c) * 2 ^ k) by lia.
  rewrite Z.mod_add by lia. rewrite Z.mod_small by lia. lia.
Qed.

Lemma sign_extend_8 (u : Z) :
  0 <= u < 256 -> (u << 24) >> 24 = (u + 128) mod 256 - 128.
Proof. intros Hu. apply (sign_extend u 8); [lia | exact Hu]. Qed.

Lemma sign_extend_16 (u : Z) :
  0 <= u < 65536 -> (u << 16) >> 16 = (u + 32768) mod 65536 - 32768.
Proof. intros Hu. apply (sign_extend u 16); [lia | exact Hu]. Qed.

Lemma reads_readInt8 (b : byte) :
  reads (BitStreamOps.readInt8 true) [b]
        ((byte_to_Z b + 128) mod 256 - 128).
Proof.
  unfold BitStreamOps.readInt8.
  rewrite <- (sign_extend_8 _ (byte_to_Z_range b)).
  apply (reads_then_ret _ (fun u => (u << 24) >> 24)), reads_readUBits_8.
Qed.

Lemma u16_of_bytes_range (b0 b1 : byte) : 0 <= u16_of_bytes b0 b1 < 65536.
Proof.
  unfold u16_of_bytes. pose proof (byte_to_Z_range b0). pose proof (byte_to_Z_range b1).
  rewrite u16_combine by lia. lia.
Qed.

Lemma reads_readInt16 (b0 b1 : byte) :
  reads (BitStreamOps.readInt16 true) [b0; b1]
        ((u16_of_bytes b0 b1 + 32768) mod 65536 - 32768).
Proof.
  unfold BitStreamOps.readInt16.
  rewrite <- (sign_extend_16 _ (u16_of_bytes_range b0 b1)).
  apply (reads_then_ret _ (fun u => (u << 16) >> 16)), reads_readUInt16.
Qed.

(** A character through its 8-bit slot. *)
Lemma char_slot_mod (c : Z) :
  JS.fromCharCode (byte_to_Z (ToUint8 c)) = [c mod 256].
Proof.
  rewrite byte_to_Z_ToUint8, land_255_mod.
  apply fromCharCode_byte. apply Z.mod_pos_bound. lia.
Qed.

Lemma str8_rt_spec (s : list Z) :
  str8_rt s = match s with
              | [] => [0]
              | c :: _ => [c mod 256]
              end.
Proof. unfold str8_rt. rewrite char_slot_mod. destruct s; reflexivity. Qed.

Lemma str32_rt_spec (s : list Z) :
  str32_rt s
  = List.map (fun c => c mod 256) (take 4 s) ++ replicate (4 - length s) 0.
Proof.
  unfold str32_rt, str32_of_bytes. rewrite !char_slot_mod.
  destruct s as [|c0 [|c1 [|c2 [|c3 s]]]]; reflexivity.
Qed.

Lemma length_str32_bytes (s : list Z) : length (str32_bytes s) = 4%nat.
Proof. reflexivity. Qed.

Lemma reads_readString32Array (l : list (list Z)) :
  reads (BitStreamOps.readString32Array (Z.of_nat (length l)))
        (List.concat (List.map str32_bytes l)) (List.map str32_rt l).
Proof.
  unfold BitStreamOps.readString32Array. rewrite Nat2Z.id.
  apply (reads_str32_array l 0 []).
Qed.

(** * Further properties: the typed accessors *)

(** X9. Numbers through the stream: a value written on a fresh stream
    with [writeUInt8], [writeUInt16] or [writeUInt32] occupies 1, 2 or 4
    bytes of the exported buffer and is read back, by the matching read,
    reduced modulo [2^8], [2^16] or [2^32] -- so a value of the accessor's
    range comes back unchanged and any other integer wraps around; a
    number written with [writeFloat32] occupies 4 bytes and comes back as
    its nearest binary32 value. *)
Theorem numbers_round_trip (v : Z) (x : float) :
  (exists buf, written (BitStreamOps.writeUInt8 v) = Return buf /\
               length buf = 1%nat /\
               read_back (BitStreamOps.readUInt8 true) buf = Return (v mod 256)) /\
  (exists buf, written (BitStreamOps.writeUInt16 v) = Return buf /\
               length buf = 2%nat /\
               read_back (BitStreamOps.readUInt16 true) buf = Return (v mod 65536)) /\
  (exists buf, written (BitStreamOps.writeUInt32 v) = Return buf /\
               length buf = 4%nat /\
               read_back (BitStreamOps.readUInt32 true) buf
               = Return (v mod 4294967296)) /\
  (exists buf, written (BitStreamOps.writeFloat32 x) = Return buf /\
               length buf = 4%nat /\
               read_back (BitStreamOps.readFloat32 true) buf
               = Return (DataView.fround x)).
Proof.
  split; [|split; [|split]].
  - exists [ToUint8 v]. split; [apply written_appends, appends_writeUInt8|].
    split; [reflexivity|].
    rewrite (read_back_reads _ _ _ (reads_readUInt8 _)).
    rewrite byte_to_Z_ToUint8, land_255_mod. reflexivity.
  - exists (u16_bytes v). split; [apply written_appends, appends_writeUInt16|].
    split; [reflexivity|].
    rewrite (read_back_reads _ _ _ (reads_u16 v)), u16_rt_mod. reflexivity.
  - exists (u32_bytes v). split; [apply written_appends, appends_writeUInt32|].
    split; [reflexivity|].
    rewrite (read_back_reads _ _ _ (reads_u32 v)), u32_rt_mod. reflexivity.
  - exists (f32_bytes x). split; [apply written_appends, appends_writeFloat32|].
    split; [reflexivity|].
    apply read_back_reads, reads_f32.
Qed.

(** X10. The signed accessors: what [writeInt8] / [writeInt16] put into
    the stream, [readInt8] / [readInt16] read back as the two's-complement
    value of its low 8 / 16 bits: [v] itself for [-128 <= v < 128]
    (respectively [-32768 <= v < 32768]), wrapped into that range
    otherwise. *)
Theorem signed_round_trip (v : Z) :
  (exists buf, written (BitStreamOps.writeInt8 v) = Return buf /\
               length buf = 1%nat /\
               read_back (BitStreamOps.readInt8 true) buf
               = Return ((v + 128) mod 256 - 128)) /\
  (exists buf, written (BitStreamOps.writeInt16 v) = Return buf /\
               length buf = 2%nat /\
               read_back (BitStreamOps.readInt16 true) buf
               = Return ((v + 32768) mod 65536 - 32768)).
Proof.
  split.
  - exists [ToUint8 v]. split; [apply written_appends, appends_writeUInt8|].
    split; [reflexivity|].
    rewrite (read_back_reads _ _ _ (reads_readInt8 _)).
    rewrite byte_to_Z_ToUint8, land_255_mod. do 2 f_equal.
    rewrite Zplus_mod_idemp_l. reflexivity.
  - exists (u16_bytes v). split; [apply written_appends, appends_writeUInt16|].
    split; [reflexivity|].
    unfold u16_bytes.
    rewrite (read_back_reads _ _ _ (reads_readInt16 _ _)).
    fold (u16_rt v). rewrite u16_rt_mod. do 2 f_equal.
    rewrite Zplus_mod_idemp_l. reflexivity.
Qed.

(** X11. Strings through the stream: [writeString32] always writes four
    bytes; [readString32] returns the first four code units of the string,
    each reduced modulo 256, followed by NUL characters when the string is
    shorter than four.  [writeString8] writes the first code unit modulo
    256 (NUL for the empty string), and an array of strings comes back
    element by element in the same way. *)
Theorem strings_round_trip (s : list Z) (arr : list (list Z)) :
  (exists buf, written (BitStreamOps.writeString32 s) = Return buf /\
               length buf = 4%nat /\
               read_back (BitStreamOps.readString32 true) buf
               = Return (List.map (fun c => c mod 256) (take 4 s)
                         ++ replicate (4 - length s) 0)) /\
  (exists buf, written (BitStreamOps.writeString8 s) = Return buf /\
               length buf = 1%nat /\
               read_back (BitStreamOps.readString8 true) buf
               = Return (match s with
                         | [] => [0]
                         | c :: _ => [c mod 256]
                         end)) /\
  (exists buf, written (BitStreamOps.writeString32Array arr) = Return buf /\
               length buf = (4 * length arr)%nat /\
               read_back (BitStreamOps.readString32Array (Z.of_nat (length arr))) buf
               = Return (List.map (fun s => List.map (fun c => c mod 256) (take 4 s)
                                            ++ replicate (4 - length s) 0) arr)).
Proof.
  split; [|split].
  - exists (str32_bytes s). split; [apply written_appends, appends_writeString32|].
    split; [reflexivity|].
    rewrite (read_back_reads _ _ _ (reads_str32 s)), str32_rt_spec. reflexivity.
  - exists (str8_bytes s). split; [apply written_appends, appends_writeString8|].
    split; [reflexivity|].
    rewrite (read_back_reads _ _ _ (reads_str8 s)), str8_rt_spec. reflexivity.
  - exists (List.concat (List.map str32_bytes arr)).
    split; [apply written_appends, appends_writeString32Array|]. split.
    + induction arr as [|a arr IH]; [reflexivity|].
      cbn [List.map List.concat]. rewrite length_app, IH, length_str32_bytes.
      cbn [length]. lia.
    + rewrite (read_back_reads _ _ _ (reads_readString32Array arr)).
      f_equal. apply List.map_ext. intros a. apply str32_rt_spec.
Qed.


(** ** The size of the layout *)

Lemma length_concat_map {A : Type} (f : A -> list byte) (k : nat) (l : list A) :
  (forall a, length (f a) = k) ->
  length (List.concat (List.map f l)) = (k * length l)%nat.
Proof.
  intros Hf. induction l as [|a l IH]; [cbn; lia|].
  cbn [List.map List.concat length]. rewrite length_app, Hf, IH. lia.
Qed.

Lemma length_serialize (d : TerrainUtil.W3E) :
  length (serialize d)
  = (37 + 4 * length (TerrainUtil.tilePalette (TerrainUtil.header d))
     + 4 * length (TerrainUtil.cliffTilePalette (TerrainUtil.header d))
     + 7 * length (TerrainUtil.corners d))%nat.
Proof.
  unfold serialize, header_bytes. rewrite !length_app.
  rewrite !(length_concat_map str32_bytes 4) by reflexivity.
  rewrite (length_concat_map corner_bytes 7) by reflexivity.
  cbn [length u32_bytes str32_bytes str8_bytes f32_bytes]. lia.
Qed.

(** ** The value of every read is in the range of its width *)

Lemma and_1_b2z (x : Z) : x .& 1 = Z.b2z (Z.testbit (JS.ToInt32 x) 0).
Proof.
  unfold JS.and. change (JS.ToInt32 1) with 1.
  change 1 with (Z.ones 1) at 1. rewrite Z.land_ones by lia.
  change (2 ^ 1) with 2. symmetry. apply Z.bit0_mod.
Qed.

Lemma readUBits_loop_high (n : nat) (buf : list byte) :
  forall pos value k,
    0 <= k ->
    (forall i, k <= i < 32 -> Z.testbit value i = false) ->
    forall i, k + Z.of_nat n <= i < 32 ->
      Z.testbit (fst (BitStreamOps.readUBits_loop n buf pos value)) i = false.
Proof.
  induction n as [|n IH]; intros pos value k Hk Hv i Hi.
  - cbn. apply Hv. lia.
  - cbn [BitStreamOps.readUBits_loop].
    destruct (Z.of_nat (length buf) <=? JS.floor_div pos 8).
    + cbn. apply Hv. lia.
    + rewrite and_1_b2z. apply (IH _ _ (k + 1)); [lia | | lia].
      intros j Hj. rewrite shift_in_testbit by lia.
      destruct (Z.eqb_spec j 0); [lia|]. apply Hv. lia.
Qed.

Lemma read_ok_readUBits_range (bits : nat) (co : bool) :
  (bits <= 32)%nat ->
  read_ok (BitStreamOps.readUBits bits co) (fun v => 0 <= v < 2 ^ Z.of_nat bits).
Proof.
  intros H32 s Hs. unfold BitStreamOps.readUBits. rewrite Hs.
  pose proof (readUBits_loop_high bits (BitStream.buffer s) (BitStream.bitPosition s) 0 0
                ltac:(lia) ltac:(intros; apply Z.bits_0)) as Hb.
  destruct (BitStreamOps.readUBits_loop bits (BitStream.buffer s)
              (BitStream.bitPosition s) 0) as [v p].
  cbn [fst] in Hb.
  eexists _, _. split; [reflexivity|]. split; [reflexivity|].
  pose proof (ushr_0_range v). split; [lia|].
  apply bits_bound; [lia | lia |].
  intros i Hi. rewrite ushr_0_testbit by lia.
  destruct (Z.ltb_spec i 32); [|reflexivity]. apply Hb. lia.
Qed.

Lemma read_ok_byte :
  read_ok (BitStreamOps.readUBits 8 true) (fun v => 0 <= v < 256).
Proof. apply (read_ok_readUBits_range 8 true). lia. Qed.

Lemma read_ok_u8 :
  read_ok (BitStreamOps.readUInt8 true) (fun v => 0 <= v < 256).
Proof. apply read_ok_byte. Qed.

Lemma read_ok_u16 :
  read_ok (BitStreamOps.readUInt16 true) (fun v => 0 <= v < 65536).
Proof.
  unfold BitStreamOps.readUInt16.
  read_step (fun v : Z => 0 <= v < 256); [apply read_ok_byte|].
  read_step (fun v : Z => 0 <= v < 256); [apply read_ok_byte|].
  read_step (fun _ : unit => True); [apply read_ok_when|].
  apply read_ok_ret. rewrite u16_combine by lia. lia.
Qed.

Lemma tag_1_fromCharCode (c : Z) : 0 <= c < 256 -> tag 1 (JS.fromCharCode c).
Proof.
  intros Hc. rewrite fromCharCode_byte by exact Hc.
  split; [reflexivity|]. apply Forall_cons_2; [exact Hc | apply Forall_nil_2].
Qed.

Lemma read_ok_str8 :
  read_ok (BitStreamOps.readString8 true) (tag 1).
Proof.
  unfold BitStreamOps.readString8.
  read_step (fun v : Z => 0 <= v < 256); [apply read_ok_byte|].
  read_step (fun _ : unit => True); [apply read_ok_when|].
  apply read_ok_ret. apply tag_1_fromCharCode. assumption.
Qed.

Lemma tag_app (n m : nat) (s t : list Z) : tag n s -> tag m t -> tag (n + m) (s ++ t).
Proof.
  intros [Hs Fs] [Ht Ft]. split.
  - rewrite length_app. lia.
  - apply Forall_app. split; assumption.
Qed.

Lemma read_ok_str32 :
  read_ok (BitStreamOps.readString32 true) (tag 4).
Proof.
  unfold BitStreamOps.readString32. cbn [BitStreamOps.for_].
  assert (Hstep : forall (n : nat) (acc : list Z), tag n acc ->
            read_ok (BitStream.bind (BitStreamOps.readString8 true)
                       (fun c => BitStream.ret (acc ++ c))) (tag (n + 1))).
  { intros n acc Hacc. read_step (tag 1); [apply read_ok_str8|].
    apply read_ok_ret. apply tag_app; assumption. }
  assert (H0 : tag 0 []) by (split; [reflexivity | apply Forall_nil_2]).
  read_step (tag 4).
  - read_step (tag 1); [apply (Hstep 0%nat), H0|].
    read_step (tag 2); [apply (Hstep 1%nat); assumption|].
    read_step (tag 3); [apply (Hstep 2%nat); assumption|].
    read_step (tag 4); [apply (Hstep 3%nat); assumption|].
    apply read_ok_ret. assumption.
  - read_step (fun _ : unit => True); [apply read_ok_when|].
    apply read_ok_ret. assumption.
Qed.

Lemma read_ok_str32_array (n : Z) :
  read_ok (BitStreamOps.readString32Array n)
          (fun l => length l = Z.to_nat n /\ Forall (tag 4) l).
Proof.
  unfold BitStreamOps.readString32Array.
  pose proof (read_ok_for_
                (fun (_ : Z) arr => BitStream.bind (BitStreamOps.readString32 true)
                                      (fun s => BitStream.ret (arr ++ [s])))
                (fun k l => length l = k /\ Forall (tag 4) l) 0) as H.
  assert (Hstep : forall (k : nat) acc, length acc = k /\ Forall (tag 4) acc ->
            read_ok (BitStream.bind (BitStreamOps.readString32 true)
                       (fun s => BitStream.ret (acc ++ [s])))
                    (fun l => length l = S k /\ Forall (tag 4) l)).
  { intros k acc [Hl Hf]. read_step (tag 4); [apply read_ok_str32|].
    apply read_ok_ret. split.
    - rewrite length_app. cbn. lia.
    - apply Forall_app. split; [exact Hf|].
      apply Forall_cons_2; [assumption | apply Forall_nil_2]. }
  specialize (H Hstep (Z.to_nat n) 0%nat [] (conj eq_refl (Forall_nil_2 _))).
  rewrite Nat.add_0_r in H. exact H.
Qed.

Lemma read_ok_corner (width i : Z) :
  read_ok (TerrainUtil.decodeCorner width i)
    (fun c => TerrainUtil.index c = i /\
              TerrainUtil.rowid c = JS.floor_div i width /\
              TerrainUtil.colid c = JS.rem i width /\
              quarter_height 65536 (TerrainUtil.groundHeight c) /\
              quarter_height 16384 (TerrainUtil.waterHeight c) /\
              in_ranges c).
Proof.
  unfold TerrainUtil.decodeCorner. cbv zeta.
  read_step (fun v : Z => 0 <= v < 65536); [apply read_ok_u16|].
  read_step (fun _ : Z => True); [apply read_ok_readUInt16|].
  read_step (fun _ : Z => True); [apply read_ok_readUInt8|].
  read_step (fun _ : Z => True); [apply read_ok_readUInt8|].
  read_step (fun _ : Z => True); [apply read_ok_readUInt8|].
  apply read_ok_ret.
  split; [reflexivity|]. split; [reflexivity|]. split; [reflexivity|].
  cbn [TerrainUtil.groundHeight TerrainUtil.waterHeight].
  split; [|split].
  - eexists. split; [eassumption | reflexivity].
  - eexists. split; [|reflexivity].
    match goal with |- 0 <= ?w .& 16383 < _ =>
      pose proof (and_bounds w 16383 ltac:(lia)) end. lia.
  - apply (unpack_corner_in_ranges width i).
Qed.

Lemma read_ok_wf_corner_loop (width : Z) (n : nat) :
  read_ok (BitStreamOps.for_ n 0
             (fun i corners => BitStream.bind (TerrainUtil.decodeCorner width i)
                                 (fun c => BitStream.ret (corners ++ [c]))) [])
          (wf_corners_so_far width n).
Proof.
  assert (Hstep : forall (k : nat) acc, wf_corners_so_far width k acc ->
    read_ok ((fun i corners => BitStream.bind (TerrainUtil.decodeCorner width i)
                                 (fun c => BitStream.ret (corners ++ [c])))
               (0 + Z.of_nat k) acc)
            (wf_corners_so_far width (S k))).
  { intros k acc [Hlen Hacc]. rewrite Z.add_0_l. cbv beta.
    eapply read_ok_bind; [apply read_ok_corner|].
    cbv beta. intros c Hc. apply read_ok_ret. split.
    - rewrite length_app. simpl. lia.
    - intros j c' Hj. apply lookup_app_Some in Hj as [Hj|[Hge Hj]].
      + apply Hacc, Hj.
      + rewrite Hlen in *. destruct (j - k)%nat as [|?] eqn:E; [|discriminate Hj].
        injection Hj as <-. replace j with k by lia. exact Hc. }
  assert (Hinit : wf_corners_so_far width 0 []).
  { split; [reflexivity|]. intros j c Hj. discriminate Hj. }
  pose proof (read_ok_for_ _ _ 0 Hstep n 0%nat [] Hinit) as H.
  rewrite Nat.add_0_r in H. exact H.
Qed.

Lemma read_ok_decodeW3e_body : read_ok TerrainUtil.decodeW3e_body wf_but_xy.
Proof.
  unfold TerrainUtil.decodeW3e_body.
  read_step (tag 4); [apply read_ok_str32|].
  read_step (fun v : Z => 0 <= v < 4294967296); [apply read_ok_readUInt32|].
  read_step (tag 1); [apply read_ok_str8|].
  read_step (fun v : Z => 0 <= v < 4294967296); [apply read_ok_readUInt32|].
  read_step (fun v : Z => 0 <= v < 4294967296); [apply read_ok_readUInt32|].
  eapply read_ok_bind; [apply read_ok_str32_array|]. cbv beta. intros tp [Htl Htf].
  read_step (fun v : Z => 0 <= v < 4294967296); [apply read_ok_readUInt32|].
  eapply read_ok_bind; [apply read_ok_str32_array|]. cbv beta. intros cp [Hcl Hcf].
  read_step (fun v : Z => 0 <= v < 4294967296); [apply read_ok_readUInt32|].
  read_step (fun v : Z => 0 <= v < 4294967296); [apply read_ok_readUInt32|].
  read_step (fun _ : float => True); [apply read_ok_readFloat32|].
  read_step (fun _ : float => True); [apply read_ok_readFloat32|].
  cbv zeta.
  eapply read_ok_bind; [apply read_ok_wf_corner_loop|].
  cbv beta. intros cs [Hlen Hcs]. apply read_ok_ret.
  unfold wf_but_xy, layout_ok.
  cbn [TerrainUtil.header TerrainUtil.corners TerrainUtil.fileId TerrainUtil.version
       TerrainUtil.baseTileset TerrainUtil.hasCustomTileset TerrainUtil.tilePaletteCount
       TerrainUtil.tilePalette TerrainUtil.cliffTilePaletteCount
       TerrainUtil.cliffTilePalette TerrainUtil.width TerrainUtil.height].
  match goal with
  | Hw : 0 <= ?w < 4294967296, Hh : 0 <= ?h < 4294967296
    |- (_ /\ _ /\ _ /\ _ /\ _ /\ _ /\ ?w * ?h = _) /\ _ =>
      assert (Hn : w * h = Z.of_nat (length cs)) by (rewrite Hlen; nia)
  end.
  split; [|split].
  - rewrite Htl, Hcl. repeat split; try lia; exact Hn.
  - do 5 (split; [assumption|]). assumption.
  - intros j c Hj. destruct (Hcs j c Hj) as (Hi & Hr & Hc & Hg & Hwt & Hrg).
    pose proof (lookup_lt_Some _ _ _ Hj) as Hlt.
    split; [|split; [exact Hg | split; [exact Hwt | exact Hrg]]].
    split; [exact Hi|]. split; [exact Hr|].
    rewrite Hc. unfold JS.rem. apply Z.rem_mod_nonneg; [lia | nia].
Qed.

Lemma decodeW3e_wf_but_xy (buffer : list byte) :
  exists d, TerrainUtil.decodeW3e buffer = Return d /\ wf_but_xy d.
Proof.
  destruct (read_ok_decodeW3e_body (BitStream.new (Some buffer)) eq_refl)
    as (d & s' & E & _ & Hd).
  exists d. split; [|exact Hd].
  unfold TerrainUtil.decodeW3e, TerrainUtil.run. rewrite E. reflexivity.
Qed.

(** A document well formed up to [x] and [y] comes back with nothing but
    [x] and [y] rounded. *)
Lemma recode_but_xy (d : TerrainUtil.W3E) :
  wf_but_xy d ->
  recode d = with_xy (DataView.fround (TerrainUtil.x (TerrainUtil.header d)))
                     (DataView.fround (TerrainUtil.y (TerrainUtil.header d))) d.
Proof.
  intros (Hl & (Hid & Hv & Hb & Hcu & Htp & Hcp) & Hc).
  unfold recode, with_xy. cbv zeta. f_equal.
  - destruct Hl as (Ht & Ht' & Hcc & Hc' & Hw & Hh & _).
    unfold recode_header.
    rewrite str32_rt_id, str8_rt_id, !map_str32_rt_id by assumption.
    rewrite !u32_rt_id by lia. reflexivity.
  - destruct Hl as (_ & _ & _ & _ & Hw & Hhh & Hn).
    rewrite u32_rt_id by lia.
    apply recode_corners_id; [lia | | ].
    + intros Hne. destruct (TerrainUtil.corners d); [congruence|].
      simpl length in Hn. nia.
    + intros j c Hj. rewrite Z.add_0_l. apply Hc, Hj.
Qed.

Lemma layout_ok_with_xy (x y : float) (d : TerrainUtil.W3E) :
  layout_ok d -> layout_ok (with_xy x y d).
Proof. intros H. exact H. Qed.

(** * Further properties of the codec *)

(** X12. [encodeW3e] returns for every document, whatever its fields
    hold, and the buffer it returns has
    [37 + 4 * tilePalette.length + 4 * cliffTilePalette.length
        + 7 * corners.length] bytes: the lengths of the arrays decide, not
    the count fields of the header. *)
Theorem encodeW3e_length (d : TerrainUtil.W3E) :
  exists buf,
    TerrainUtil.encodeW3e d = Return buf /\
    length buf
    = (37 + 4 * length (TerrainUtil.tilePalette (TerrainUtil.header d))
       + 4 * length (TerrainUtil.cliffTilePalette (TerrainUtil.header d))
       + 7 * length (TerrainUtil.corners d))%nat.
Proof.
  exists (serialize d). split; [apply encodeW3e_serialize | apply length_serialize].
Qed.

(** X13. What [decodeW3e] returns is always storable: for every buffer
    the document has its two palette counts equal to the lengths of its
    palettes, [width * height] corners, a [fileId] and palette entries of
    exactly four single-byte characters, a [baseTileset] of one, and at
    every corner heights that are multiples of 0.25 of the raw range
    ([groundHeight = (raw - 8192) / 4] with [raw < 2^16], [waterHeight]
    with [raw < 2^14]). *)
Theorem decodeW3e_well_formed (buffer : list byte) :
  exists d, TerrainUtil.decodeW3e buffer = Return d /\ wf_but_xy d.
Proof. apply decodeW3e_wf_but_xy. Qed.

(** X14. Load, save, load: for every buffer, the document [decodeW3e]
    returns is encoded by [encodeW3e] into a buffer that decodes to the
    same document again, field for field, [x] and [y] passing once more
    through binary32 rounding. *)
Theorem decode_encode_decode (buffer : list byte) :
  exists d buf',
    TerrainUtil.decodeW3e buffer = Return d /\
    TerrainUtil.encodeW3e d = Return buf' /\
    TerrainUtil.decodeW3e buf'
    = Return (with_xy (DataView.fround (TerrainUtil.x (TerrainUtil.header d)))
                      (DataView.fround (TerrainUtil.y (TerrainUtil.header d))) d).
Proof.
  destruct (decodeW3e_wf_but_xy buffer) as (d & E & Hd).
  destruct (decode_encode d (proj1 Hd)) as (buf' & He & Hdec).
  exists d, buf'. split; [exact E|]. split; [exact He|].
  rewrite Hdec, (recode_but_xy d Hd). reflexivity.
Qed.


(** ** The empty terrain *)

Lemma generateEmptyW3e_loop_spec (n : nat) (width : Z) :
  forall (i : Z) (corners : list TerrainUtil.Corner),
    TerrainUtil.generateEmptyW3e_loop n i width corners
    = corners ++ List.map (empty_corner width) (seqZ i (Z.of_nat n)).
Proof.
  induction n as [|n IH]; intros i corners.
  - cbn. rewrite seqZ_nil by lia. cbn. rewrite app_nil_r. reflexivity.
  - cbn [TerrainUtil.generateEmptyW3e_loop]. rewrite IH.
    rewrite (seqZ_cons i (Z.of_nat (S n))) by lia.
    replace (Z.pred (Z.of_nat (S n))) with (Z.of_nat n) by lia.
    replace (Z.succ i) with (i + 1) by lia.
    cbn [List.map]. rewrite <- app_assoc. reflexivity.
Qed.

Lemma generateEmptyW3e_corners (width height : Z) (tileset : option (list Z)) :
  TerrainUtil.corners (TerrainUtil.generateEmptyW3e width height tileset)
  = List.map (empty_corner width) (seqZ 0 (width * height)).
Proof.
  cbn [TerrainUtil.generateEmptyW3e TerrainUtil.corners].
  rewrite generateEmptyW3e_loop_spec. cbn [app].
  destruct (Z_le_gt_dec 0 (width * height)).
  - rewrite Z2Nat.id by lia. reflexivity.
  - rewrite !seqZ_nil by lia. reflexivity.
Qed.

Lemma lookup_List_map {A B : Type} (f : A -> B) (l : list A) (i : nat) :
  List.map f l !! i = f <$> l !! i.
Proof.
  revert i. induction l as [|a l IH]; intros [|i]; try reflexivity. apply IH.
Qed.

Lemma origin_check :
  forall_range 12 0 (fun k =>
    PrimFloat.Leibniz.eqb (DataView.fround (- JS.of_int k * 128)%float)
                          (- JS.of_int k * 128)%float) = true.
Proof. vm_compute. reflexivity. Qed.

(** The origin [generateEmptyW3e] computes is a binary32 value. *)
Lemma origin_is_float32 (n : Z) :
  0 <= n < 8192 -> is_float32 (- JS.of_int (JS.floor_div n 2) * 128)%float.
Proof.
  intros Hn. unfold is_float32. apply FloatAxioms.Leibniz.eqb_spec.
  apply (forall_range_spec 12 _ 0 origin_check).
  change (2 ^ Z.of_nat 12) with 4096. unfold JS.floor_div.
  Z.div_mod_to_equations. lia.
Qed.

Lemma empty_corner_wf (width i : Z) :
  0 <= i -> 0 < width -> wf_corner width i (empty_corner width i).
Proof.
  intros Hi Hw. split; [|split; [|split]].
  - split; [reflexivity|]. split; [reflexivity|].
    cbn. unfold JS.rem. apply Z.rem_mod_nonneg; lia.
  - exists 8192. split; [lia|]. vm_compute. reflexivity.
  - exists 8192. split; [lia|]. vm_compute. reflexivity.
  - repeat split; cbn; lia.
Qed.

Lemma tag_str_W3ER : tag 4 (JS.str "W3ER").
Proof. split; [reflexivity|]. repeat (apply Forall_cons_2; [cbn; lia|]). apply Forall_nil_2. Qed.

Lemma tag_str_Oaby : tag 4 (JS.str "Oaby").
Proof. split; [reflexivity|]. repeat (apply Forall_cons_2; [cbn; lia|]). apply Forall_nil_2. Qed.

Lemma tag_str_Oclm : tag 4 (JS.str "Oclm").
Proof. split; [reflexivity|]. repeat (apply Forall_cons_2; [cbn; lia|]). apply Forall_nil_2. Qed.

Lemma tag_str_O : tag 1 (JS.str "O").
Proof. split; [reflexivity|]. repeat (apply Forall_cons_2; [cbn; lia|]). apply Forall_nil_2. Qed.

Lemma generateEmptyW3e_wf (width height : Z) (tileset : option (list Z)) :
  0 <= width < 8192 -> 0 <= height < 8192 ->
  match tileset with
  | Some t => tag 1 t
  | None => True
  end ->
  wf_doc (TerrainUtil.generateEmptyW3e width height tileset).
Proof.
  intros Hw Hh Ht. split; [|split].
  - unfold layout_ok. rewrite generateEmptyW3e_corners.
    rewrite length_map, length_seqZ.
    cbn [TerrainUtil.generateEmptyW3e TerrainUtil.header TerrainUtil.tilePaletteCount
         TerrainUtil.tilePalette TerrainUtil.cliffTilePaletteCount
         TerrainUtil.cliffTilePalette TerrainUtil.width TerrainUtil.height length].
    repeat split; first [lia | nia].
  - cbn [TerrainUtil.generateEmptyW3e TerrainUtil.header].
    unfold wf_header.
    cbn [TerrainUtil.fileId TerrainUtil.version TerrainUtil.baseTileset
         TerrainUtil.hasCustomTileset TerrainUtil.tilePalette
         TerrainUtil.cliffTilePalette TerrainUtil.x TerrainUtil.y].
    split; [exact tag_str_W3ER|]. split; [lia|].
    split; [destruct tileset; [exact Ht | exact tag_str_O]|].
    split; [lia|].
    split; [apply Forall_cons_2; [exact tag_str_Oaby | apply Forall_nil_2]|].
    split; [apply Forall_cons_2; [exact tag_str_Oclm | apply Forall_nil_2]|].
    split; apply origin_is_float32; assumption.
  - intros i c Hc. rewrite generateEmptyW3e_corners in Hc.
    rewrite lookup_List_map in Hc.
    destruct (seqZ 0 (width * height) !! i) as [j|] eqn:Hj; [|discriminate Hc].
    injection Hc as <-.
    apply lookup_seqZ in Hj as [-> Hlt].
    cbn [TerrainUtil.generateEmptyW3e TerrainUtil.header TerrainUtil.width].
    rewrite Z.add_0_l. apply empty_corner_wf; [lia | nia].
Qed.

(** X15. The empty terrain survives the codec: for grid dimensions
    below 8192 and a one-character single-byte tileset (or none, which
    means ['O']), the document [generateEmptyW3e] builds has
    [width * height] corners, is encoded by [encodeW3e] into
    [45 + 7 * width * height] bytes, and [decodeW3e] of those bytes returns
    that very document. *)
Theorem generateEmptyW3e_round_trip (width height : Z) (tileset : option (list Z)) :
  0 <= width < 8192 -> 0 <= height < 8192 ->
  match tileset with
  | Some t => tag 1 t
  | None => True
  end ->
  Z.of_nat (length (TerrainUtil.corners (TerrainUtil.generateEmptyW3e width height tileset)))
  = width * height /\
  exists buf,
    TerrainUtil.encodeW3e (TerrainUtil.generateEmptyW3e width height tileset) = Return buf /\
    Z.of_nat (length buf) = 45 + 7 * (width * height) /\
    TerrainUtil.decodeW3e buf
    = Return (TerrainUtil.generateEmptyW3e width height tileset).
Proof.
  intros Hw Hh Ht.
  pose proof (generateEmptyW3e_wf width height tileset Hw Hh Ht) as Hwf.
  assert (Hlen : Z.of_nat (length (TerrainUtil.corners
                   (TerrainUtil.generateEmptyW3e width height tileset)))
                 = width * height).
  { rewrite generateEmptyW3e_corners, length_map, length_seqZ. nia. }
  split; [exact Hlen|].
  exists (serialize (TerrainUtil.generateEmptyW3e width height tileset)).
  split; [apply encodeW3e_serialize|]. split.
  - rewrite length_serialize.
    cbn [TerrainUtil.generateEmptyW3e TerrainUtil.header TerrainUtil.tilePalette
         TerrainUtil.cliffTilePalette length] in *. lia.
  - rewrite decodeW3e_serialize by apply Hwf.
    rewrite (recode_id _ Hwf). reflexivity.
Qed.

Lemma generateEmptyW3e_round_trip_witness :
  0 <= 2 < 8192 /\ 0 <= 1 < 8192 /\ True /\
  Z.of_nat (length (TerrainUtil.corners (TerrainUtil.generateEmptyW3e 2 1 None))) = 2 * 1 /\
  exists buf,
    TerrainUtil.encodeW3e (TerrainUtil.generateEmptyW3e 2 1 None) = Return buf /\
    Z.of_nat (length buf) = 45 + 7 * (2 * 1) /\
    TerrainUtil.decodeW3e buf = Return (TerrainUtil.generateEmptyW3e 2 1 None).
Proof.
  assert (H1 : 0 <= 2 < 8192) by lia.
  assert (H2 : 0 <= 1 < 8192) by lia.
  split; [exact H1|]. split; [exact H2|]. split; [exact I|].
  apply (generateEmptyW3e_round_trip 2 1 None H1 H2 I).
Defined.


(** ** From bytes to fields and back *)

Lemma u16_bytes_of_bytes (b0 b1 : byte) : u16_bytes (u16_of_bytes b0 b1) = [b0; b1].
Proof.
  pose proof (byte_to_Z_range b0) as H0. pose proof (byte_to_Z_range b1) as H1.
  unfold u16_bytes, u16_of_bytes. rewrite u16_combine by lia.
  rewrite !and_255. rewrite sar_div by lia. rewrite ToInt32_small by lia.
  change (2 ^ 8) with 256.
  replace ((byte_to_Z b0 + 256 * byte_to_Z b1) mod 256) with (byte_to_Z b0)
    by (Z.div_mod_to_equations; lia).
  replace ((byte_to_Z b0 + 256 * byte_to_Z b1) / 256 mod 256) with (byte_to_Z b1)
    by (Z.div_mod_to_equations; lia).
  rewrite !ToUint8_byte_to_Z. reflexivity.
Qed.

Lemma water_word_sum (r m : Z) :
  0 <= r < 16384 -> 0 <= m <= 3 -> water_word r m = r + 16384 * m.
Proof.
  intros Hr Hm. unfold water_word.
  change 16383 with (Z.ones 14). rewrite and_mask by lia.
  change (2 ^ 14) with 16384. rewrite Z.mod_small by lia.
  rewrite shl_mul by lia. change (2 ^ 14) with 16384.
  rewrite ToInt32_small by lia.
  rewrite (or_disjoint r (m * 16384) 14);
    [lia | lia | change (2 ^ 14) with 16384; lia | exists m; reflexivity | lia].
Qed.

(** The 16-bit word shared by [waterHeight] and [mapEdge], taken apart and
    put together again. *)
Lemma water_word_unpack (w : Z) :
  0 <= w < 65536 -> (w .& 16383) .| (((w .& 49152) >>> 14) << 14) = w.
Proof.
  intros Hw.
  assert (Hr : 0 <= w mod 16384 < 16384) by (apply Z.mod_pos_bound; lia).
  assert (Hm : 0 <= w / 16384 <= 3) by (Z.div_mod_to_equations; lia).
  assert (E : w = water_word (w mod 16384) (w / 16384)).
  { rewrite water_word_sum by assumption. Z.div_mod_to_equations. lia. }
  destruct (water_word_spec _ _ Hr Hm) as (_ & W2 & W3). cbv zeta in W2, W3.
  rewrite <- E in W2, W3. rewrite W2, W3.
  rewrite shl_mul by lia. change (2 ^ 14) with 16384.
  rewrite ToInt32_small by lia.
  rewrite (or_disjoint (w mod 16384) (w / 16384 * 16384) 14);
    [ | lia | change (2 ^ 14) with 16384; lia | exists (w / 16384); reflexivity | lia].
  Z.div_mod_to_equations. lia.
Qed.

Lemma byte4_unpack_check :
  forall_range 8 0 (fun b =>
    ((b .& 15) .& 15) .| (((b .& 16) >> 4) << 4) .| (((b .& 32) >> 5) << 5)
    .| (((b .& 64) >> 6) << 6) .| (((b .& 128) >> 7) << 7) =? b) = true.
Proof. vm_compute. reflexivity. Qed.

Lemma byte5_unpack_check :
  forall_range 8 0 (fun b =>
    ((b .& 31) .& 31) .| (((b .& 224) >> 5) << 5) =? b) = true.
Proof. vm_compute. reflexivity. Qed.

Lemma byte6_unpack_check :
  forall_range 8 0 (fun b =>
    ((b .& 15) .& 15) .| (((b .& 240) >> 4) << 4) =? b) = true.
Proof. vm_compute. reflexivity. Qed.

(** The three packed bytes of a corner record, taken apart and put
    together again. *)
Lemma byte4_unpack (b : byte) :
  ((byte_to_Z b .& 15) .& 15) .| (((byte_to_Z b .& 16) >> 4) << 4)
  .| (((byte_to_Z b .& 32) >> 5) << 5) .| (((byte_to_Z b .& 64) >> 6) << 6)
  .| (((byte_to_Z b .& 128) >> 7) << 7) = byte_to_Z b.
Proof.
  pose proof (byte_to_Z_range b). apply Z.eqb_eq.
  apply (forall_range_spec 8 _ 0 byte4_unpack_check).
  change (2 ^ Z.of_nat 8) with 256. lia.
Qed.

Lemma byte5_unpack (b : byte) :
  ((byte_to_Z b .& 31) .& 31) .| (((byte_to_Z b .& 224) >> 5) << 5) = byte_to_Z b.
Proof.
  pose proof (byte_to_Z_range b). apply Z.eqb_eq.
  apply (forall_range_spec 8 _ 0 byte5_unpack_check).
  change (2 ^ Z.of_nat 8) with 256. lia.
Qed.

Lemma byte6_unpack (b : byte) :
  ((byte_to_Z b .& 15) .& 15) .| (((byte_to_Z b .& 240) >> 4) << 4) = byte_to_Z b.
Proof.
  pose proof (byte_to_Z_range b). apply Z.eqb_eq.
  apply (forall_range_spec 8 _ 0 byte6_unpack_check).
  change (2 ^ Z.of_nat 8) with 256. lia.
Qed.

(** Masking twice is masking once. *)
Lemma and_idem_mask (v k : Z) :
  0 <= k < 32 -> (v .& Z.ones k) .& Z.ones k = v .& Z.ones k.
Proof.
  intros Hk. rewrite !and_mask by lia. apply Z.mod_mod.
  apply Z.pow_nonzero; lia.
Qed.

Lemma and_idem_16383 (v : Z) : (v .& 16383) .& 16383 = v .& 16383.
Proof. apply (and_idem_mask v 14). lia. Qed.

(** Unpacking a corner record and packing it again gives its seven
    bytes. *)
Lemma corner_bytes_of_bytes (width i : Z) (bs : list byte) :
  length bs = 7%nat -> corner_bytes (corner_of_bytes width i bs) = bs.
Proof.
  intros Hl.
  destruct bs as [|b0 [|b1 [|b2 [|b3 [|b4 [|b5 [|b6 [|? ?]]]]]]]]; try discriminate Hl.
  pose proof (u16_of_bytes_range b0 b1) as Hg.
  pose proof (u16_of_bytes_range b2 b3) as Hw.
  pose proof (and_bounds (u16_of_bytes b2 b3) 16383 ltac:(lia)) as Hlo.
  unfold corner_of_bytes, corner_bytes, wHeightRaw_of, byte4_of, byte5_of, byte6_of,
    unpack_corner.
  cbn [TerrainUtil.groundHeight TerrainUtil.waterHeight TerrainUtil.mapEdge
       TerrainUtil.ramp TerrainUtil.blight TerrainUtil.water TerrainUtil.boundary
       TerrainUtil.groundTexture TerrainUtil.groundVariation TerrainUtil.cliffVariation
       TerrainUtil.cliffTexture TerrainUtil.layerHeight].
  rewrite !Math_round_height by lia.
  rewrite and_idem_16383, (water_word_unpack _ Hw).
  rewrite byte4_unpack, byte5_unpack, byte6_unpack.
  rewrite !u16_bytes_of_bytes, !ToUint8_byte_to_Z. reflexivity.
Qed.


Lemma str32_bytes_of_bytes (t : list byte) :
  length t = 4%nat -> str32_bytes (List.map byte_to_Z t) = t.
Proof.
  intros Hl. destruct t as [|b0 [|b1 [|b2 [|b3 [|? ?]]]]]; try discriminate Hl.
  unfold str32_bytes, JS.char_or_nul.
  cbn [List.map lookup list_lookup JS.charCodeAt0_or_0].
  rewrite !ToUint8_byte_to_Z. reflexivity.
Qed.

Lemma tag_of_bytes (n : nat) (t : list byte) :
  length t = n -> tag n (List.map byte_to_Z t).
Proof.
  intros Hl. split; [rewrite length_map; exact Hl|].
  clear Hl. induction t as [|b t IH]; [apply Forall_nil_2|].
  apply Forall_cons_2; [apply byte_to_Z_range | exact IH].
Qed.

Lemma palette_bytes_of_bytes (l : list (list byte)) :
  Forall (fun t => length t = 4%nat) l ->
  List.concat (List.map str32_bytes (List.map (List.map byte_to_Z) l)) = List.concat l.
Proof.
  induction 1 as [|t l Ht _ IH]; [reflexivity|].
  cbn [List.map List.concat]. rewrite IH, str32_bytes_of_bytes by exact Ht. reflexivity.
Qed.

Lemma palette_tags_of_bytes (l : list (list byte)) :
  Forall (fun t => length t = 4%nat) l ->
  Forall (tag 4) (List.map (List.map byte_to_Z) l).
Proof.
  induction 1 as [|t l Ht _ IH]; [apply Forall_nil_2|].
  cbn [List.map]. apply Forall_cons_2; [apply tag_of_bytes, Ht | exact IH].
Qed.

Lemma corners_bytes_of_bytes (width : Z) (cs : list (list byte)) :
  Forall (fun c => length c = 7%nat) cs ->
  forall i, List.concat (List.map corner_bytes (corners_of_bytes width i cs))
            = List.concat cs.
Proof.
  induction 1 as [|c cs Hc _ IH]; intros i; [reflexivity|].
  cbn [corners_of_bytes List.map List.concat].
  rewrite IH, corner_bytes_of_bytes by exact Hc. reflexivity.
Qed.

Lemma length_corners_of_bytes (width : Z) (cs : list (list byte)) :
  forall i, length (corners_of_bytes width i cs) = length cs.
Proof.
  induction cs as [|c cs IH]; intros i; [reflexivity|].
  cbn [corners_of_bytes length]. rewrite IH. reflexivity.
Qed.

Lemma lookup_corners_of_bytes (width : Z) (cs : list (list byte)) :
  forall (i : Z) (j : nat) (c : TerrainUtil.Corner),
    corners_of_bytes width i cs !! j = Some c ->
    exists bs, cs !! j = Some bs /\ c = corner_of_bytes width (i + Z.of_nat j) bs.
Proof.
  induction cs as [|c0 cs IH]; intros i j c Hj; [discriminate Hj|].
  destruct j as [|j].
  - injection Hj as <-. exists c0. split; [reflexivity|]. rewrite Z.add_0_r. reflexivity.
  - cbn [corners_of_bytes] in Hj. change ((?x :: ?l) !! S j) with (l !! j) in Hj.
    destruct (IH (i + 1) j c Hj) as (bs & Hbs & ->).
    exists bs. split; [exact Hbs|]. f_equal. lia.
Qed.

Lemma corner_of_bytes_wf (width i : Z) (bs : list byte) :
  0 <= i -> 0 < width -> length bs = 7%nat ->
  wf_corner width i (corner_of_bytes width i bs).
Proof.
  intros Hi Hw Hl.
  destruct bs as [|b0 [|b1 [|b2 [|b3 [|b4 [|b5 [|b6 [|? ?]]]]]]]]; try discriminate Hl.
  cbn [corner_of_bytes]. split; [|split; [|split]].
  - split; [reflexivity|]. split; [reflexivity|].
    cbn. unfold JS.rem. apply Z.rem_mod_nonneg; lia.
  - exists (u16_of_bytes b0 b1). split; [apply u16_of_bytes_range | reflexivity].
  - eexists. split; [|reflexivity].
    pose proof (and_bounds (u16_of_bytes b2 b3) 16383 ltac:(lia)). lia.
  - apply unpack_corner_in_ranges.
Qed.

Lemma serialize_parts_doc (p : FileParts) :
  laid_out p -> canonical_float32 (part_x p) -> canonical_float32 (part_y p) ->
  serialize (parts_doc p) = file_bytes p.
Proof.
  intros (Hid & Hv & Hcu & Htp & Htn & Hcp & Hcn & Hw & Hh & Hn & Hcs) Hx Hy.
  unfold serialize, header_bytes, parts_doc, file_bytes.
  cbn [TerrainUtil.header TerrainUtil.corners TerrainUtil.fileId TerrainUtil.version
       TerrainUtil.baseTileset TerrainUtil.hasCustomTileset TerrainUtil.tilePaletteCount
       TerrainUtil.tilePalette TerrainUtil.cliffTilePaletteCount
       TerrainUtil.cliffTilePalette TerrainUtil.width TerrainUtil.height
       TerrainUtil.x TerrainUtil.y].
  rewrite str32_bytes_of_bytes by exact Hid.
  rewrite !palette_bytes_of_bytes by assumption.
  rewrite corners_bytes_of_bytes by exact Hcs.
  rewrite !f32_bytes_setFloat32. rewrite Hx, Hy.
  unfold str8_bytes. cbn [JS.charCodeAt0_or_0]. rewrite ToUint8_byte_to_Z.
  rewrite <- !app_assoc. reflexivity.
Qed.

Lemma parts_doc_wf (p : FileParts) :
  laid_out p -> canonical_float32 (part_x p) -> canonical_float32 (part_y p) ->
  wf_doc (parts_doc p).
Proof.
  intros (Hid & Hv & Hcu & Htp & Htn & Hcp & Hcn & Hw & Hh & Hn & Hcs) Hx Hy.
  split; [|split].
  - unfold layout_ok, parts_doc.
    cbn [TerrainUtil.header TerrainUtil.corners TerrainUtil.tilePaletteCount
         TerrainUtil.tilePalette TerrainUtil.cliffTilePaletteCount
         TerrainUtil.cliffTilePalette TerrainUtil.width TerrainUtil.height].
    rewrite !length_map, length_corners_of_bytes.
    repeat split; first [lia | exact Hn].
  - unfold wf_header, parts_doc.
    cbn [TerrainUtil.header TerrainUtil.fileId TerrainUtil.version TerrainUtil.baseTileset
         TerrainUtil.hasCustomTileset TerrainUtil.tilePalette
         TerrainUtil.cliffTilePalette TerrainUtil.x TerrainUtil.y].
    split; [apply tag_of_bytes, Hid|]. split; [exact Hv|].
    split; [apply (tag_of_bytes 1 [part_baseTileset p]); reflexivity|].
    split; [exact Hcu|].
    split; [apply palette_tags_of_bytes, Htp|].
    split; [apply palette_tags_of_bytes, Hcp|].
    unfold is_float32, DataView.fround. rewrite Hx, Hy. split; reflexivity.
  - intros i c Hc. cbn [parts_doc TerrainUtil.corners TerrainUtil.header
                        TerrainUtil.width] in *.
    destruct (lookup_corners_of_bytes _ _ _ _ _ Hc) as (bs & Hbs & ->).
    rewrite Z.add_0_l.
    pose proof (lookup_lt_Some _ _ _ Hbs) as Hlt.
    apply corner_of_bytes_wf; [lia | nia |].
    rewrite Forall_forall in Hcs. apply Hcs.
    apply (list_elem_of_lookup_2 _ _ _ Hbs).
Qed.

(** X16. Loading a file and saving it again reproduces the file, byte
    for byte: for every buffer laid out as the format prescribes (a
    4-byte tag, the palette entries and the [width * height] corner
    records that its count fields announce, nothing after them) whose two
    coordinates are not non-canonical NaN patterns, [decodeW3e] returns a
    document and [encodeW3e] of that document returns the very same
    bytes. *)
Theorem reencode_identity (p : FileParts) :
  laid_out p -> canonical_float32 (part_x p) -> canonical_float32 (part_y p) ->
  exists d,
    TerrainUtil.decodeW3e (file_bytes p) = Return d /\
    TerrainUtil.encodeW3e d = Return (file_bytes p).
Proof.
  intros Hp Hx Hy.
  pose proof (parts_doc_wf p Hp Hx Hy) as Hwf.
  pose proof (serialize_parts_doc p Hp Hx Hy) as Hs.
  exists (parts_doc p). split.
  - rewrite <- Hs. rewrite decodeW3e_serialize by apply Hwf.
    rewrite (recode_id _ Hwf). reflexivity.
  - rewrite encodeW3e_serialize. rewrite Hs. reflexivity.
Qed.

Lemma scenario_parts_laid_out : laid_out scenario_parts.
Proof.
  unfold laid_out, scenario_parts.
  cbn [part_fileId part_version part_hasCustomTileset part_tilePalette
       part_cliffTilePalette part_width part_height part_corners length].
  repeat split; try lia;
    repeat (apply Forall_cons_2; [reflexivity|]); apply Forall_nil_2.
Qed.

Lemma reencode_identity_witness :
  laid_out scenario_parts /\
  canonical_float32 (part_x scenario_parts) /\
  canonical_float32 (part_y scenario_parts) /\
  exists d,
    TerrainUtil.decodeW3e (file_bytes scenario_parts) = Return d /\
    TerrainUtil.encodeW3e d = Return (file_bytes scenario_parts).
Proof.
  assert (Hx : canonical_float32 (part_x scenario_parts)) by (vm_compute; reflexivity).
  assert (Hy : canonical_float32 (part_y scenario_parts)) by (vm_compute; reflexivity).
  split; [exact scenario_parts_laid_out|]. split; [exact Hx|]. split; [exact Hy|].
  apply (reencode_identity scenario_parts scenario_parts_laid_out Hx Hy).
Defined.


(** ** Colour strings *)

Lemma or_comm (a b : Z) : a .| b = b .| a.
Proof. unfold JS.or. apply Z.lor_comm. Qed.

(** [(p0 << 16) | (p1 << 8) | p2] for three bytes. *)
Lemma rgb_combine (p0 p1 p2 : Z) :
  0 <= p0 < 256 -> 0 <= p1 < 256 -> 0 <= p2 < 256 ->
  (p0 << 16) .| (p1 << 8) .| p2 = 65536 * p0 + 256 * p1 + p2.
Proof.
  intros H0 H1 H2.
  rewrite (shl_mul p0 16), (shl_mul p1 8) by lia.
  change (2 ^ 16) with 65536. change (2 ^ 8) with 256.
  rewrite !ToInt32_small by lia.
  rewrite (or_comm (p0 * 65536)).
  rewrite (or_disjoint (p1 * 256) (p0 * 65536) 16);
    [ | lia | change (2 ^ 16) with 65536; lia | exists p0; reflexivity | lia].
  rewrite or_comm.
  rewrite (or_disjoint p2 (p1 * 256 + p0 * 65536) 8);
    [lia | lia | change (2 ^ 8) with 256; lia | | lia].
  exists (p1 + p0 * 256). change (2 ^ 8) with 256. lia.
Qed.

Lemma hex_digit_check :
  forall_range 4 0 (fun d =>
    App.is_hex_digit (App.hex_digit d) && (App.hex_value (App.hex_digit d) =? d)) = true.
Proof. vm_compute. reflexivity. Qed.

Lemma hex_digit_spec (d : Z) :
  0 <= d < 16 ->
  App.is_hex_digit (App.hex_digit d) = true /\ App.hex_value (App.hex_digit d) = d.
Proof.
  intros Hd.
  pose proof (forall_range_spec 4 _ 0 hex_digit_check d
                ltac:(change (2 ^ Z.of_nat 4) with 16; lia)) as H.
  cbv beta in H. apply andb_prop in H as [H1 H2].
  split; [exact H1 | apply Z.eqb_eq, H2].
Qed.

(** The six digits of a number below [16^6], most significant first. *)
Lemma pad6_digits (n : Z) :
  0 <= n < 16777216 ->
  App.slice_last 6 (JS.str "000000" ++ App.toString16 n)
  = List.map App.hex_digit
      [n / 16 / 16 / 16 / 16 / 16 mod 16; n / 16 / 16 / 16 / 16 mod 16;
       n / 16 / 16 / 16 mod 16; n / 16 / 16 mod 16; n / 16 mod 16; n mod 16].
Proof.
  intros Hn. unfold App.toString16.
  destruct (Z.ltb_spec n 0); [lia|].
  cbn [App.toString16_loop].
  assert (Q1 : 0 <= n / 16) by (apply Z.div_pos; lia).
  assert (Q2 : 0 <= n / 16 / 16) by (apply Z.div_pos; lia).
  assert (Q3 : 0 <= n / 16 / 16 / 16) by (apply Z.div_pos; lia).
  assert (Q4 : 0 <= n / 16 / 16 / 16 / 16) by (apply Z.div_pos; lia).
  destruct (Z.ltb_spec n 16) as [H1|H1].
  { rewrite (Z.div_small n 16) by lia. reflexivity. }
  destruct (Z.ltb_spec (n / 16) 16) as [H2|H2].
  { rewrite (Z.div_small (n / 16) 16) by lia. reflexivity. }
  destruct (Z.ltb_spec (n / 16 / 16) 16) as [H3|H3].
  { rewrite (Z.div_small (n / 16 / 16) 16) by lia. reflexivity. }
  destruct (Z.ltb_spec (n / 16 / 16 / 16) 16) as [H4|H4].
  { rewrite (Z.div_small (n / 16 / 16 / 16) 16) by lia. reflexivity. }
  destruct (Z.ltb_spec (n / 16 / 16 / 16 / 16) 16) as [H5|H5].
  { rewrite (Z.div_small (n / 16 / 16 / 16 / 16) 16) by lia. reflexivity. }
  destruct (Z.ltb_spec (n / 16 / 16 / 16 / 16 / 16) 16) as [H6|H6].
  { reflexivity. }
  exfalso. Z.div_mod_to_equations. lia.
Qed.

Lemma pixelHex_digits (p0 p1 p2 : Z) :
  0 <= p0 < 256 -> 0 <= p1 < 256 -> 0 <= p2 < 256 ->
  App.pixelHex p0 p1 p2
  = 35 :: List.map App.hex_digit
            [p0 / 16; p0 mod 16; p1 / 16; p1 mod 16; p2 / 16; p2 mod 16].
Proof.
  intros H0 H1 H2. unfold App.pixelHex.
  rewrite rgb_combine by assumption.
  rewrite pad6_digits by lia.
  change (JS.str "#") with [35]. cbn [app]. f_equal.
  set (n := 65536 * p0 + 256 * p1 + p2).
  assert (E5 : n / 16 / 16 / 16 / 16 / 16 mod 16 = p0 / 16)
    by (unfold n; Z.div_mod_to_equations; lia).
  assert (E4 : n / 16 / 16 / 16 / 16 mod 16 = p0 mod 16)
    by (unfold n; Z.div_mod_to_equations; lia).
  assert (E3 : n / 16 / 16 / 16 mod 16 = p1 / 16)
    by (unfold n; Z.div_mod_to_equations; lia).
  assert (E2 : n / 16 / 16 mod 16 = p1 mod 16)
    by (unfold n; Z.div_mod_to_equations; lia).
  assert (E1 : n / 16 mod 16 = p2 / 16)
    by (unfold n; Z.div_mod_to_equations; lia).
  assert (E0 : n mod 16 = p2 mod 16)
    by (unfold n; Z.div_mod_to_equations; lia).
  rewrite E5, E4, E3, E2, E1, E0. reflexivity.
Qed.

(** * Further properties of the editor *)

(** X17. A picked colour is classified as picked: the string
    [handleImageCanvasClick] builds from the three bytes of a pixel is
    [#] followed by six lower-case hexadecimal digits, and [hexToRgb]
    parses it back into those three bytes. *)
Theorem hexToRgb_pixelHex (p0 p1 p2 : Z) :
  0 <= p0 < 256 -> 0 <= p1 < 256 -> 0 <= p2 < 256 ->
  length (App.pixelHex p0 p1 p2) = 7%nat /\
  App.hexToRgb (App.pixelHex p0 p1 p2) = {| App.r := p0; App.g := p1; App.b := p2 |}.
Proof.
  intros H0 H1 H2. rewrite pixelHex_digits by assumption.
  split; [reflexivity|].
  assert (D : forall p, 0 <= p < 256 -> 0 <= p / 16 < 16 /\ 0 <= p mod 16 < 16).
  { intros p Hp. Z.div_mod_to_equations. lia. }
  destruct (D p0 H0) as [A0 B0]. destruct (D p1 H1) as [A1 B1].
  destruct (D p2 H2) as [A2 B2].
  destruct (hex_digit_spec _ A0) as [Ha0 Va0]. destruct (hex_digit_spec _ B0) as [Hb0 Vb0].
  destruct (hex_digit_spec _ A1) as [Ha1 Va1]. destruct (hex_digit_spec _ B1) as [Hb1 Vb1].
  destruct (hex_digit_spec _ A2) as [Ha2 Va2]. destruct (hex_digit_spec _ B2) as [Hb2 Vb2].
  unfold App.hexToRgb. cbn [List.map forallb].
  rewrite Ha0, Hb0, Ha1, Hb1, Ha2, Hb2. cbn [andb].
  unfold App.parseInt16. rewrite Va0, Vb0, Va1, Vb1, Va2, Vb2.
  f_equal; Z.div_mod_to_equations; lia.
Qed.

Lemma hexToRgb_pixelHex_witness :
  0 <= 139 < 256 /\ 0 <= 69 < 256 /\ 0 <= 19 < 256 /\
  length (App.pixelHex 139 69 19) = 7%nat /\
  App.hexToRgb (App.pixelHex 139 69 19) = {| App.r := 139; App.g := 69; App.b := 19 |}.
Proof.
  assert (H0 : 0 <= 139 < 256) by lia.
  assert (H1 : 0 <= 69 < 256) by lia.
  assert (H2 : 0 <= 19 < 256) by lia.
  split; [exact H0|]. split; [exact H1|]. split; [exact H2|].
  apply (hexToRgb_pixelHex 139 69 19 H0 H1 H2).
Defined.

(** ** Colours out of any text *)

Lemma hex_value_range (c : Z) :
  App.is_hex_digit c = true -> 0 <= App.hex_value c <= 15.
Proof.
  unfold App.is_hex_digit, App.hex_value. intros H.
  repeat match goal with
         | |- context [?a <=? ?b] => destruct (Z.leb_spec a b)
         | H : context [?a <=? ?b] |- _ => destruct (Z.leb_spec a b)
         end; cbn in H; try discriminate; lia.
Qed.

Lemma parseInt16_range (c1 c2 : Z) :
  App.is_hex_digit c1 = true -> App.is_hex_digit c2 = true ->
  0 <= App.parseInt16 c1 c2 <= 255.
Proof.
  intros H1 H2. unfold App.parseInt16.
  pose proof (hex_value_range c1 H1). pose proof (hex_value_range c2 H2). lia.
Qed.


(** ** The nearest colour *)

Lemma nearest_loop_step (m : App.ColorMapping) (c : App.RGB)
    (ms : list (App.ColorMapping * App.RGB)) (r g b : Z) (minDistance : option Z)
    (bestSlot : Z) :
  App.nearest_loop ((m, c) :: ms) r g b minDistance bestSlot
  = if App.below (sq_dist r g b c) minDistance
    then App.nearest_loop ms r g b (Some (sq_dist r g b c)) (App.slotIndex m)
    else App.nearest_loop ms r g b minDistance bestSlot.
Proof. reflexivity. Qed.

(** With a finite [minDistance = d]: either nothing is strictly nearer
    than [d] and [bestSlot] stays, or the result is the slot of the first
    mapping at the least distance, which is below [d]. *)
Lemma nearest_loop_some (r g b : Z) (ms : list (App.ColorMapping * App.RGB)) :
  forall (d bestSlot : Z),
    (App.nearest_loop ms r g b (Some d) bestSlot = bestSlot /\
     Forall (fun x => d <= sq_dist r g b (snd x)) ms) \/
    (exists pre m c post,
       ms = pre ++ (m, c) :: post /\
       App.nearest_loop ms r g b (Some d) bestSlot = App.slotIndex m /\
       sq_dist r g b c < d /\
       Forall (fun x => sq_dist r g b c < sq_dist r g b (snd x)) pre /\
       Forall (fun x => sq_dist r g b c <= sq_dist r g b (snd x)) post).
Proof.
  induction ms as [|[m0 c0] ms IH]; intros d bestSlot.
  - left. split; [reflexivity | apply Forall_nil_2].
  - rewrite nearest_loop_step. cbn [App.below].
    destruct (Z.ltb_spec (sq_dist r g b c0) d) as [Hlt|Hge].
    + right. destruct (IH (sq_dist r g b c0) (App.slotIndex m0))
        as [[E F]|(pre & m & c & post & -> & E & Hd & Hpre & Hpost)].
      * exists [], m0, c0, ms. split; [reflexivity|]. split; [exact E|].
        split; [exact Hlt|]. split; [apply Forall_nil_2 | exact F].
      * exists ((m0, c0) :: pre), m, c, post. split; [reflexivity|].
        split; [exact E|]. split; [lia|].
        split; [apply Forall_cons_2; [exact Hd | exact Hpre] | exact Hpost].
    + destruct (IH d bestSlot)
        as [[E F]|(pre & m & c & post & -> & E & Hd & Hpre & Hpost)].
      * left. split; [exact E|]. apply Forall_cons_2; [exact Hge | exact F].
      * right. exists ((m0, c0) :: pre), m, c, post. split; [reflexivity|].
        split; [exact E|]. split; [exact Hd|].
        split; [apply Forall_cons_2; [cbn [snd]; lia | exact Hpre] | exact Hpost].
Qed.

(** X19. The classifier picks the first nearest colour: when at least
    one mapping is active, the loop of [applyImageToTerrain] leaves in
    [bestSlot] the slot of a mapping whose squared RGB distance to the
    pixel is strictly smaller than that of every mapping before it in the
    list and not larger than that of any mapping after it; the texture the
    corner had plays no part. *)
Theorem nearest_is_first_minimum (ms : list (App.ColorMapping * App.RGB)) (r g b cur : Z) :
  ms <> [] ->
  exists pre m c post,
    ms = pre ++ (m, c) :: post /\
    App.nearest_loop ms r g b None cur = App.slotIndex m /\
    Forall (fun x => sq_dist r g b c < sq_dist r g b (snd x)) pre /\
    Forall (fun x => sq_dist r g b c <= sq_dist r g b (snd x)) post.
Proof.
  intros Hne. destruct ms as [|[m0 c0] ms]; [congruence|].
  rewrite nearest_loop_step. cbn [App.below].
  destruct (nearest_loop_some r g b ms (sq_dist r g b c0) (App.slotIndex m0))
    as [[E F]|(pre & m & c & post & -> & E & Hd & Hpre & Hpost)].
  - exists [], m0, c0, ms. split; [reflexivity|]. split; [exact E|].
    split; [apply Forall_nil_2 | exact F].
  - exists ((m0, c0) :: pre), m, c, post. split; [reflexivity|]. split; [exact E|].
    split; [apply Forall_cons_2; [exact Hd | exact Hpre] | exact Hpost].
Qed.

Lemma nearest_is_first_minimum_witness :
  App.activeMappings sample_mappings <> [] /\
  exists pre m c post,
    App.activeMappings sample_mappings = pre ++ (m, c) :: post /\
    App.nearest_loop (App.activeMappings sample_mappings) 130 70 20 None 3
    = App.slotIndex m /\
    Forall (fun x => sq_dist 130 70 20 c < sq_dist 130 70 20 (snd x)) pre /\
    Forall (fun x => sq_dist 130 70 20 c <= sq_dist 130 70 20 (snd x)) post.
Proof.
  assert (H : App.activeMappings sample_mappings <> []) by (vm_compute; discriminate).
  split; [exact H|].
  apply (nearest_is_first_minimum (App.activeMappings sample_mappings) 130 70 20 3 H).
Defined.


(** ** Cells of the grid *)

Lemma cell_index (width row col : Z) :
  0 <= row -> 0 <= col < width ->
  (row * width + col) / width = row /\ (row * width + col) mod width = col.
Proof.
  intros Hr Hc. split.
  - symmetry. apply (Z.div_unique _ _ _ col); lia.
  - symmetry. apply (Z.mod_unique _ _ row col); lia.
Qed.

Lemma cell_in_grid (width height row col : Z) :
  0 <= row < height -> 0 <= col < width ->
  0 <= row * width + col < width * height.
Proof. intros Hr Hc. nia. Qed.

(** ** Classification of the whole grid *)

Section Classification.

Variable activeMappings : list (App.ColorMapping * App.RGB).
Variable imgData : list Z.
Variables width height : Z.
Variable orig : list TerrainUtil.Corner.

Local Abbreviation F := (classify_cell activeMappings imgData width height).

Lemma applyCell_step (row col : Z) (cur : list TerrainUtil.Corner) :
  0 <= row -> 0 <= col < width ->
  row * width + col < Z.of_nat (length orig) ->
  classified_up_to F orig (Z.to_nat (row * width + col)) cur ->
  exists cur',
    App.applyCell activeMappings imgData width height row col cur = Some cur' /\
    classified_up_to F orig (Z.to_nat (row * width + col + 1)) cur'.
Proof.
  intros Hr Hc Hlt [Hlen Hcur].
  assert (Hidx : 0 <= row * width + col) by nia.
  set (k := Z.to_nat (row * width + col)) in *.
  assert (Hk : (k < length orig)%nat) by lia.
  destruct (lookup_lt_is_Some_2 orig k Hk) as [c Hc0].
  assert (Hck : cur !! k = Some c).
  { rewrite Hcur. rewrite Nat.ltb_irrefl. exact Hc0. }
  unfold App.applyCell, App.at_index at 1.
  destruct (Z.ltb_spec (row * width + col) 0); [lia|].
  fold k. rewrite Hck.
  eexists. split; [reflexivity|]. split.
  - rewrite length_insert. exact Hlen.
  - intros j. replace (Z.to_nat (row * width + col + 1)) with (S k) by lia.
    destruct (Nat.eq_dec j k) as [->|Hne].
    + rewrite list_lookup_insert_eq by lia.
      destruct (Nat.ltb_spec k (S k)); [|lia].
      rewrite Hc0. cbn [fmap option_fmap option_map]. f_equal.
      unfold F, classify_cell. unfold k. rewrite Z2Nat.id by lia.
      destruct (cell_index width row col Hr Hc) as [-> ->]. reflexivity.
    + rewrite list_lookup_insert_ne by lia. rewrite Hcur.
      destruct (Nat.ltb_spec j k), (Nat.ltb_spec j (S k)); try lia; reflexivity.
Qed.

Lemma applyRow_inv (row : Z) (n : nat) :
  forall (col : Z) (cur : list TerrainUtil.Corner),
    0 <= row -> 0 <= col -> col + Z.of_nat n <= width ->
    row * width + col + Z.of_nat n <= Z.of_nat (length orig) ->
    classified_up_to F orig (Z.to_nat (row * width + col)) cur ->
    exists cur',
      App.applyRow n col activeMappings imgData width height row cur = Some cur' /\
      classified_up_to F orig (Z.to_nat (row * width + col + Z.of_nat n)) cur'.
Proof.
  induction n as [|n IH]; intros col cur Hr Hc Hn Hlen Hinv.
  - exists cur. split; [reflexivity|]. rewrite Z.add_0_r. exact Hinv.
  - cbn [App.applyRow].
    destruct (applyCell_step row col cur Hr ltac:(lia) ltac:(lia) Hinv)
      as (cur1 & E1 & Hinv1).
    rewrite E1.
    replace (row * width + col + 1) with (row * width + (col + 1)) in Hinv1 by lia.
    destruct (IH (col + 1) cur1 Hr ltac:(lia) ltac:(lia) ltac:(lia) Hinv1)
      as (cur2 & E2 & Hinv2).
    exists cur2. split; [exact E2|].
    replace (row * width + col + Z.of_nat (S n))
      with (row * width + (col + 1) + Z.of_nat n) by lia.
    exact Hinv2.
Qed.

Lemma applyRows_inv (n : nat) :
  forall (row : Z) (cur : list TerrainUtil.Corner),
    0 <= width -> 0 <= row ->
    (row + Z.of_nat n) * width <= Z.of_nat (length orig) ->
    classified_up_to F orig (Z.to_nat (row * width)) cur ->
    exists cur',
      App.applyRows n row activeMappings imgData width height cur = Some cur' /\
      classified_up_to F orig (Z.to_nat ((row + Z.of_nat n) * width)) cur'.
Proof.
  induction n as [|n IH]; intros row cur Hw Hr Hlen Hinv.
  - exists cur. split; [reflexivity|]. rewrite Z.add_0_r. exact Hinv.
  - cbn [App.applyRows].
    replace (row * width) with (row * width + 0) in Hinv by lia.
    destruct (applyRow_inv row (Z.to_nat width) 0 cur Hr ltac:(lia) ltac:(lia)
                ltac:(nia) Hinv) as (cur1 & E1 & Hinv1).
    rewrite E1.
    replace (row * width + 0 + Z.of_nat (Z.to_nat width)) with ((row + 1) * width)
      in Hinv1 by lia.
    destruct (IH (row + 1) cur1 Hw ltac:(lia) ltac:(nia) Hinv1) as (cur2 & E2 & Hinv2).
    exists cur2. split; [exact E2|].
    replace (row + Z.of_nat (S n)) with (row + 1 + Z.of_nat n) by lia.
    exact Hinv2.
Qed.

End Classification.

Lemma activeMappings_nonempty (mappings : list App.ColorMapping) :
  Exists (fun m => App.active m = true) mappings ->
  (length (App.activeMappings mappings) =? 0)%nat = false.
Proof.
  intros H. unfold App.activeMappings. rewrite length_map.
  apply Nat.eqb_neq. induction H as [m l Hm|m l _ IH].
  - cbn [List.filter]. rewrite Hm. cbn. lia.
  - cbn [List.filter]. destruct (App.active m); cbn [length]; lia.
Qed.

(** What the double loop leaves, cell by cell. *)
Lemma applyImage_result (terrain : TerrainUtil.W3E)
    (mappings : list App.ColorMapping) (imgData : list Z) :
  grid_ok terrain ->
  Exists (fun m => App.active m = true) mappings ->
  exists terrain',
    App.applyImageToTerrain terrain mappings imgData = Some terrain' /\
    TerrainUtil.header terrain' = TerrainUtil.header terrain /\
    length (TerrainUtil.corners terrain') = length (TerrainUtil.corners terrain) /\
    forall row col,
      0 <= row < TerrainUtil.height (TerrainUtil.header terrain) ->
      0 <= col < TerrainUtil.width (TerrainUtil.header terrain) ->
      exists corner,
        TerrainUtil.corners terrain
          !! Z.to_nat (row * TerrainUtil.width (TerrainUtil.header terrain) + col)
        = Some corner /\
        TerrainUtil.corners terrain'
          !! Z.to_nat (row * TerrainUtil.width (TerrainUtil.header terrain) + col)
        = Some (App.with_groundTexture corner
                  (cell_slot (App.activeMappings mappings) imgData
                     (TerrainUtil.width (TerrainUtil.header terrain))
                     (TerrainUtil.height (TerrainUtil.header terrain))
                     row col corner)).
Proof.
  intros (Hw & Hh & Hn) Hact.
  set (width := TerrainUtil.width (TerrainUtil.header terrain)) in *.
  set (height := TerrainUtil.height (TerrainUtil.header terrain)) in *.
  unfold App.applyImageToTerrain. cbv zeta.
  rewrite (activeMappings_nonempty _ Hact).
  fold width. fold height.
  assert (Hinit : classified_up_to
                    (classify_cell (App.activeMappings mappings) imgData width height)
                    (TerrainUtil.corners terrain) (Z.to_nat (0 * width))
                    (TerrainUtil.corners terrain)).
  { split; [reflexivity|]. intros j. rewrite Z.mul_0_l. reflexivity. }
  destruct (applyRows_inv (App.activeMappings mappings) imgData width height
              (TerrainUtil.corners terrain) (Z.to_nat height) 0
              (TerrainUtil.corners terrain) Hw ltac:(lia) ltac:(lia) Hinit)
    as (cur & E & Hlen & Hcur).
  rewrite E. eexists. split; [reflexivity|].
  cbn [TerrainUtil.header TerrainUtil.corners].
  split; [reflexivity|]. split; [exact Hlen|].
  intros row col Hr Hc.
  pose proof (cell_in_grid width height row col Hr Hc) as Hidx.
  assert (Hk : (Z.to_nat (row * width + col) < length (TerrainUtil.corners terrain))%nat)
    by lia.
  destruct (lookup_lt_is_Some_2 _ _ Hk) as [c Hc0].
  exists c. split; [exact Hc0|].
  rewrite Hcur.
  destruct (Nat.ltb_spec (Z.to_nat (row * width + col))
              (Z.to_nat ((0 + Z.of_nat (Z.to_nat height)) * width))); [|lia].
  rewrite Hc0. cbn [fmap option_fmap option_map]. f_equal.
  unfold classify_cell. rewrite Z2Nat.id by lia.
  destruct (cell_index width row col ltac:(lia) Hc) as [-> ->]. reflexivity.
Qed.

(** * Further properties of the editor: the grid *)




(** ** Painting *)

Lemma with_groundTexture_same (c : TerrainUtil.Corner) :
  App.with_groundTexture c (TerrainUtil.groundTexture c) = c.
Proof. destruct c. reflexivity. Qed.

Lemma with_groundTexture_twice (c : TerrainUtil.Corner) (t u : Z) :
  App.with_groundTexture (App.with_groundTexture c t) u = App.with_groundTexture c u.
Proof. reflexivity. Qed.

Lemma groundTexture_with (c : TerrainUtil.Corner) (t : Z) :
  TerrainUtil.groundTexture (App.with_groundTexture c t) = t.
Proof. reflexivity. Qed.

(** Two cells of the grid with the same index are the same cell. *)
Lemma cell_index_inj (width tr tc tr' tc' : Z) :
  0 <= tr -> 0 <= tc < width -> 0 <= tr' -> 0 <= tc' < width ->
  Z.to_nat (tr * width + tc) = Z.to_nat (tr' * width + tc') ->
  tr = tr' /\ tc = tc'.
Proof.
  intros Hr Hc Hr' Hc' E.
  assert (E' : tr * width + tc = tr' * width + tc') by nia.
  destruct (cell_index width tr tc Hr Hc) as [D M].
  destruct (cell_index width tr' tc' Hr' Hc') as [D' M'].
  rewrite E' in D, M. split; congruence.
Qed.

Section Painting.

Variable terrain : TerrainUtil.W3E.
Variable selectedTexture : Z.
Variables col row : Z.

Local Abbreviation width := (TerrainUtil.width (TerrainUtil.header terrain)).
Local Abbreviation height := (TerrainUtil.height (TerrainUtil.header terrain)).

Hypothesis Hgrid : grid_ok terrain.

(** Visiting one more cell. *)
Lemma paintCell_step (visited : Z -> Z -> bool) (dx dy : Z)
    (st : list TerrainUtil.Corner * bool) :
  painted_so_far terrain selectedTexture visited st ->
  exists st',
    App.paintCell terrain selectedTexture col row dx dy st = Some st' /\
    painted_so_far terrain selectedTexture
      (fun tc tr => visited tc tr || ((tc =? col + dx) && (tr =? row + dy))) st'.
Proof.
  destruct Hgrid as (Hw & Hh & Hn).
  destruct st as [cur modified]. intros (Hlen & Hmod & Hcur).
  cbn [fst snd] in *. unfold App.paintCell.
  destruct ((0 <=? col + dx) && (col + dx <? width)
            && (0 <=? row + dy) && (row + dy <? height)) eqn:Hin.
  - apply andb_prop in Hin as [Hin H4]. apply andb_prop in Hin as [Hin H3].
    apply andb_prop in Hin as [H1 H2].
    apply Z.leb_le in H1, H3. apply Z.ltb_lt in H2, H4.
    pose proof (cell_in_grid width height (row + dy) (col + dx) ltac:(lia) ltac:(lia))
      as Hidx.
    unfold App.at_index.
    destruct (Z.ltb_spec ((row + dy) * width + (col + dx)) 0); [lia|].
    set (k := Z.to_nat ((row + dy) * width + (col + dx))) in *.
    assert (Hk : (k < length (TerrainUtil.corners terrain))%nat) by lia.
    destruct (lookup_lt_is_Some_2 _ _ Hk) as [c Hc0].
    pose proof (Hcur (row + dy) (col + dx) ltac:(lia) ltac:(lia)) as Hck.
    fold k in Hck. rewrite Hc0 in Hck. cbn [fmap option_fmap option_map] in Hck.
    rewrite Hck.
    set (c' := if visited (col + dx) (row + dy)
               then App.with_groundTexture c selectedTexture else c) in *.
    destruct (Z.eqb_spec (TerrainUtil.groundTexture c') selectedTexture) as [Eq|Hne];
      cbn [negb].
    + (* the cell already carries the texture *)
      eexists. split; [reflexivity|]. unfold painted_so_far. cbn [fst snd].
      split; [exact Hlen|]. split; [exact Hmod|].
      intros tr tc Htr Htc. rewrite (Hcur tr tc Htr Htc).
      destruct (Z.eqb_spec tc (col + dx)) as [->|]; [|rewrite ?andb_false_l, orb_false_r; reflexivity].
      destruct (Z.eqb_spec tr (row + dy)) as [->|]; [|rewrite ?andb_false_r, orb_false_r; reflexivity].
      cbn [andb]. rewrite orb_true_r. fold k. rewrite Hc0.
      cbn [fmap option_fmap option_map]. f_equal. fold c'.
      unfold c' in *. destruct (visited (col + dx) (row + dy)); [reflexivity|].
      rewrite <- Eq. symmetry. apply with_groundTexture_same.
    + eexists. split; [reflexivity|]. unfold painted_so_far. cbn [fst snd].
      split; [rewrite length_insert; exact Hlen|]. split; [discriminate|].
      intros tr tc Htr Htc.
      destruct (Nat.eq_dec (Z.to_nat (tr * width + tc)) k) as [E|Hnk].
      * destruct (cell_index_inj width tr tc (row + dy) (col + dx)
                    ltac:(lia) Htc ltac:(lia) ltac:(lia) E) as [-> ->].
        fold k. rewrite list_lookup_insert_eq by lia. rewrite Hc0.
        cbn [fmap option_fmap option_map]. f_equal.
        rewrite !Z.eqb_refl. cbn [andb]. rewrite orb_true_r.
        unfold c'. destruct (visited (col + dx) (row + dy)); reflexivity.
      * rewrite list_lookup_insert_ne by congruence.
        rewrite (Hcur tr tc Htr Htc).
        destruct (Z.eqb_spec tc (col + dx)) as [->|];
          [|rewrite ?andb_false_l, orb_false_r; reflexivity].
        destruct (Z.eqb_spec tr (row + dy)) as [->|];
          [|rewrite ?andb_false_r, orb_false_r; reflexivity].
        exfalso. apply Hnk. reflexivity.
  - (* outside the grid *)
    exists (cur, modified). split; [reflexivity|]. unfold painted_so_far. cbn [fst snd].
    split; [exact Hlen|]. split; [exact Hmod|].
    intros tr tc Htr Htc. rewrite (Hcur tr tc Htr Htc).
    destruct (Z.eqb_spec tc (col + dx)) as [->|];
      [|rewrite ?andb_false_l, orb_false_r; reflexivity].
    destruct (Z.eqb_spec tr (row + dy)) as [->|];
      [|rewrite ?andb_false_r, orb_false_r; reflexivity].
    exfalso.
    destruct (Z.leb_spec 0 (col + dx)), (Z.ltb_spec (col + dx) width),
             (Z.leb_spec 0 (row + dy)), (Z.ltb_spec (row + dy) height);
      cbn in Hin; try discriminate Hin; lia.
Qed.

Lemma painted_so_far_ext (v1 v2 : Z -> Z -> bool) (st : list TerrainUtil.Corner * bool) :
  (forall tc tr, v1 tc tr = v2 tc tr) ->
  painted_so_far terrain selectedTexture v1 st ->
  painted_so_far terrain selectedTexture v2 st.
Proof.
  intros Hv (Hlen & Hmod & Hcur). split; [exact Hlen|]. split; [exact Hmod|].
  intros tr tc Htr Htc. rewrite (Hcur tr tc Htr Htc), Hv. reflexivity.
Qed.

Variable halfBrush : Z.

Lemma brushed_next_cell (a bx tc tr : Z) :
  0 <= bx <= 2 * halfBrush ->
  brushed halfBrush col row a bx tc tr
  || ((tc =? col + (- halfBrush + bx)) && (tr =? row + (- halfBrush + a)))
  = brushed halfBrush col row a (bx + 1) tc tr.
Proof.
  intros Hb. unfold brushed.
  destruct (Z.leb_spec (col - halfBrush) tc), (Z.leb_spec tc (col + halfBrush)),
           (Z.leb_spec (row - halfBrush) tr), (Z.ltb_spec tr (row - halfBrush + a)),
           (Z.eqb_spec tr (row - halfBrush + a)), (Z.ltb_spec tc (col - halfBrush + bx)),
           (Z.eqb_spec tc (col + (- halfBrush + bx))),
           (Z.eqb_spec tr (row + (- halfBrush + a))),
           (Z.ltb_spec tc (col - halfBrush + (bx + 1)));
    cbn; try reflexivity; lia.
Qed.

Lemma brushed_next_row (a tc tr : Z) :
  0 <= halfBrush -> 0 <= a ->
  brushed halfBrush col row a (2 * halfBrush + 1) tc tr
  = brushed halfBrush col row (a + 1) 0 tc tr.
Proof.
  intros Hb Ha. unfold brushed.
  destruct (Z.leb_spec (col - halfBrush) tc), (Z.leb_spec tc (col + halfBrush)),
           (Z.leb_spec (row - halfBrush) tr), (Z.ltb_spec tr (row - halfBrush + a)),
           (Z.eqb_spec tr (row - halfBrush + a)),
           (Z.ltb_spec tc (col - halfBrush + (2 * halfBrush + 1))),
           (Z.ltb_spec tr (row - halfBrush + (a + 1))),
           (Z.eqb_spec tr (row - halfBrush + (a + 1))),
           (Z.ltb_spec tc (col - halfBrush + 0));
    cbn; try reflexivity; lia.
Qed.

Lemma paintRow_inv (a : Z) (n : nat) :
  forall (bx : Z) (st : list TerrainUtil.Corner * bool),
    0 <= bx -> bx + Z.of_nat n <= 2 * halfBrush + 1 ->
    painted_so_far terrain selectedTexture (brushed halfBrush col row a bx) st ->
    exists st',
      App.paintRow n (- halfBrush + bx) terrain selectedTexture col row
        (- halfBrush + a) st = Some st' /\
      painted_so_far terrain selectedTexture
        (brushed halfBrush col row a (bx + Z.of_nat n)) st'.
Proof.
  induction n as [|n IH]; intros bx st Hb Hn Hinv.
  - exists st. split; [reflexivity|]. rewrite Z.add_0_r. exact Hinv.
  - cbn [App.paintRow].
    destruct (paintCell_step _ (- halfBrush + bx) (- halfBrush + a) st Hinv)
      as (st1 & E1 & Hinv1).
    rewrite E1.
    apply (painted_so_far_ext _ (brushed halfBrush col row a (bx + 1))) in Hinv1;
      [|intros tc tr; apply brushed_next_cell; lia].
    replace (- halfBrush + bx + 1) with (- halfBrush + (bx + 1)) by lia.
    destruct (IH (bx + 1) st1 ltac:(lia) ltac:(lia) Hinv1) as (st2 & E2 & Hinv2).
    exists st2. split; [exact E2|].
    replace (bx + Z.of_nat (S n)) with (bx + 1 + Z.of_nat n) by lia. exact Hinv2.
Qed.

Lemma paintRows_inv (n : nat) :
  forall (a : Z) (st : list TerrainUtil.Corner * bool),
    0 <= halfBrush -> 0 <= a ->
    painted_so_far terrain selectedTexture (brushed halfBrush col row a 0) st ->
    exists st',
      App.paintRows n (- halfBrush + a) terrain selectedTexture col row halfBrush st
      = Some st' /\
      painted_so_far terrain selectedTexture
        (brushed halfBrush col row (a + Z.of_nat n) 0) st'.
Proof.
  induction n as [|n IH]; intros a st Hh Ha Hinv.
  - exists st. split; [reflexivity|]. rewrite Z.add_0_r. exact Hinv.
  - cbn [App.paintRows].
    destruct (paintRow_inv a (Z.to_nat (2 * halfBrush + 1)) 0 st ltac:(lia) ltac:(lia) Hinv)
      as (st1 & E1 & Hinv1).
    rewrite Z.add_0_r in E1. rewrite E1.
    apply (painted_so_far_ext _ (brushed halfBrush col row (a + 1) 0)) in Hinv1.
    2:{ intros tc tr. rewrite Z.add_0_l, Z2Nat.id by lia. apply brushed_next_row; assumption. }
    replace (- halfBrush + a + 1) with (- halfBrush + (a + 1)) by lia.
    destruct (IH (a + 1) st1 Hh ltac:(lia) Hinv1) as (st2 & E2 & Hinv2).
    exists st2. split; [exact E2|].
    replace (a + Z.of_nat (S n)) with (a + 1 + Z.of_nat n) by lia. exact Hinv2.
Qed.

End Painting.


Lemma fmap_id_lookup {A : Type} (x : option A) : (fun a => a) <$> x = x.
Proof. destruct x; reflexivity. Qed.

Lemma brushed_start (halfBrush col row tc tr : Z) :
  brushed halfBrush col row 0 0 tc tr = false.
Proof.
  unfold brushed.
  destruct (Z.leb_spec (col - halfBrush) tc), (Z.leb_spec tc (col + halfBrush)),
           (Z.leb_spec (row - halfBrush) tr), (Z.ltb_spec tr (row - halfBrush + 0)),
           (Z.eqb_spec tr (row - halfBrush + 0)), (Z.ltb_spec tc (col - halfBrush + 0));
    cbn; try reflexivity; lia.
Qed.

Lemma brushed_end (halfBrush col row tc tr : Z) :
  0 <= halfBrush ->
  brushed halfBrush col row (0 + Z.of_nat (Z.to_nat (2 * halfBrush + 1))) 0 tc tr
  = in_brush halfBrush col row tc tr.
Proof.
  intros Hh. rewrite Z2Nat.id by lia. unfold brushed, in_brush.
  destruct (Z.leb_spec (col - halfBrush) tc), (Z.leb_spec tc (col + halfBrush)),
           (Z.leb_spec (row - halfBrush) tr),
           (Z.ltb_spec tr (row - halfBrush + (0 + (2 * halfBrush + 1)))),
           (Z.eqb_spec tr (row - halfBrush + (0 + (2 * halfBrush + 1)))),
           (Z.ltb_spec tc (col - halfBrush + 0)), (Z.leb_spec tr (row + halfBrush));
    cbn; try reflexivity; lia.
Qed.

Lemma in_brush_negative (halfBrush col row tc tr : Z) :
  halfBrush < 0 -> in_brush halfBrush col row tc tr = false.
Proof.
  intros Hh. unfold in_brush.
  destruct (Z.leb_spec (col - halfBrush) tc), (Z.leb_spec tc (col + halfBrush));
    cbn; try reflexivity; lia.
Qed.

(** What the brush loops leave, for a pointer inside the grid. *)
Lemma paint_result (terrain : TerrainUtil.W3E) (selectedTexture brushSize col row : Z) :
  grid_ok terrain ->
  0 <= col < TerrainUtil.width (TerrainUtil.header terrain) ->
  0 <= row < TerrainUtil.height (TerrainUtil.header terrain) ->
  exists terrain',
    App.handleTerrainPaint terrain selectedTexture brushSize col row = Some terrain' /\
    TerrainUtil.header terrain' = TerrainUtil.header terrain /\
    exists modified,
      painted_so_far terrain selectedTexture
        (in_brush (JS.floor_div brushSize 2) col row)
        (TerrainUtil.corners terrain', modified).
Proof.
  intros Hgrid Hc Hr. unfold App.handleTerrainPaint.
  destruct (Z.leb_spec 0 col); [|lia].
  destruct (Z.ltb_spec col (TerrainUtil.width (TerrainUtil.header terrain))); [|lia].
  destruct (Z.leb_spec 0 row); [|lia].
  destruct (Z.ltb_spec row (TerrainUtil.height (TerrainUtil.header terrain))); [|lia].
  cbn [andb]. cbv zeta.
  set (hb := JS.floor_div brushSize 2).
  assert (Hinit : painted_so_far terrain selectedTexture (brushed hb col row 0 0)
                    (TerrainUtil.corners terrain, false)).
  { split; [reflexivity|]. split; [reflexivity|].
    intros tr tc Htr Htc. cbn [fst]. rewrite brushed_start.
    symmetry. apply fmap_id_lookup. }
  destruct (Z_lt_le_dec hb 0) as [Hneg|Hpos].
  - replace (Z.to_nat (2 * hb + 1)) with 0%nat by lia.
    cbn [App.paintRows]. exists terrain. split; [reflexivity|]. split; [reflexivity|].
    exists false.
    apply (painted_so_far_ext _ _ (brushed hb col row 0 0)); [|exact Hinit].
    intros tc tr. rewrite brushed_start, in_brush_negative by exact Hneg. reflexivity.
  - destruct (paintRows_inv terrain selectedTexture col row Hgrid hb
                (Z.to_nat (2 * hb + 1)) 0 _ Hpos ltac:(lia) Hinit)
      as ([cur modified] & E & Hinv).
    rewrite Z.add_0_r in E. rewrite E.
    apply (painted_so_far_ext _ _ _ (in_brush hb col row)) in Hinv;
      [|intros tc tr; apply brushed_end, Hpos].
    destruct Hinv as (Hlen & Hmod & Hcur). cbn [fst snd] in *.
    destruct modified.
    + eexists. split; [reflexivity|]. split; [reflexivity|].
      exists true. cbn [TerrainUtil.corners].
      split; [exact Hlen|]. split; [discriminate | exact Hcur].
    + exists terrain. split; [reflexivity|]. split; [reflexivity|].
      exists false. pose proof (Hmod eq_refl) as Ec. subst cur.
      split; [exact Hlen|]. split; [intros _; reflexivity | exact Hcur].
Qed.

(** The same, cell by cell. *)
Lemma paint_cells (terrain : TerrainUtil.W3E)
    (selectedTexture brushSize col row : Z) :
  grid_ok terrain ->
  0 <= col < TerrainUtil.width (TerrainUtil.header terrain) ->
  0 <= row < TerrainUtil.height (TerrainUtil.header terrain) ->
  exists terrain',
    App.handleTerrainPaint terrain selectedTexture brushSize col row = Some terrain' /\
    TerrainUtil.header terrain' = TerrainUtil.header terrain /\
    length (TerrainUtil.corners terrain') = length (TerrainUtil.corners terrain) /\
    forall tr tc,
      0 <= tr < TerrainUtil.height (TerrainUtil.header terrain) ->
      0 <= tc < TerrainUtil.width (TerrainUtil.header terrain) ->
      exists corner,
        TerrainUtil.corners terrain
          !! Z.to_nat (tr * TerrainUtil.width (TerrainUtil.header terrain) + tc)
        = Some corner /\
        TerrainUtil.corners terrain'
          !! Z.to_nat (tr * TerrainUtil.width (TerrainUtil.header terrain) + tc)
        = Some (if in_brush (JS.floor_div brushSize 2) col row tc tr
                then App.with_groundTexture corner selectedTexture
                else corner).
Proof.
  intros Hgrid Hc Hr.
  destruct (paint_result terrain selectedTexture brushSize col row Hgrid Hc Hr)
    as (t' & E & Hh & modified & Hlen & _ & Hcur).
  cbn [fst snd] in *.
  exists t'. split; [exact E|]. split; [exact Hh|]. split; [exact Hlen|].
  intros tr tc Htr Htc.
  destruct Hgrid as (Hw & Hhh & Hn).
  pose proof (cell_in_grid _ _ tr tc Htr Htc) as Hidx.
  assert (Hk : (Z.to_nat (tr * TerrainUtil.width (TerrainUtil.header terrain) + tc)
                < length (TerrainUtil.corners terrain))%nat) by lia.
  destruct (lookup_lt_is_Some_2 _ _ Hk) as [c Hc0].
  exists c. split; [exact Hc0|].
  rewrite (Hcur tr tc Htr Htc), Hc0. reflexivity.
Qed.

(** X21. The footprint of the brush: with the pointer over the cell
    [(col, row)] of a grid of [width * height] corners,
    [handleTerrainPaint] returns a terrain with the same header and as
    many corners, in which a corner carries [selectedTexture] (all its
    other fields unchanged) exactly when its cell lies within
    [floor(brushSize / 2)] columns and rows of [(col, row)]; every other
    corner is what it was. *)
Theorem handleTerrainPaint_footprint (terrain : TerrainUtil.W3E)
    (selectedTexture brushSize col row : Z) :
  grid_ok terrain ->
  0 <= col < TerrainUtil.width (TerrainUtil.header terrain) ->
  0 <= row < TerrainUtil.height (TerrainUtil.header terrain) ->
  exists terrain',
    App.handleTerrainPaint terrain selectedTexture brushSize col row = Some terrain' /\
    TerrainUtil.header terrain' = TerrainUtil.header terrain /\
    length (TerrainUtil.corners terrain') = length (TerrainUtil.corners terrain) /\
    forall tr tc,
      0 <= tr < TerrainUtil.height (TerrainUtil.header terrain) ->
      0 <= tc < TerrainUtil.width (TerrainUtil.header terrain) ->
      exists corner,
        TerrainUtil.corners terrain
          !! Z.to_nat (tr * TerrainUtil.width (TerrainUtil.header terrain) + tc)
        = Some corner /\
        TerrainUtil.corners terrain'
          !! Z.to_nat (tr * TerrainUtil.width (TerrainUtil.header terrain) + tc)
        = Some (if in_brush (JS.floor_div brushSize 2) col row tc tr
                then App.with_groundTexture corner selectedTexture
                else corner).
Proof. apply paint_cells. Qed.

Lemma handleTerrainPaint_footprint_witness :
  grid_ok scenario /\
  0 <= 1 < TerrainUtil.width (TerrainUtil.header scenario) /\
  0 <= 0 < TerrainUtil.height (TerrainUtil.header scenario) /\
  exists terrain',
    App.handleTerrainPaint scenario 9 1 1 0 = Some terrain' /\
    TerrainUtil.header terrain' = TerrainUtil.header scenario /\
    length (TerrainUtil.corners terrain') = length (TerrainUtil.corners scenario) /\
    forall tr tc,
      0 <= tr < TerrainUtil.height (TerrainUtil.header scenario) ->
      0 <= tc < TerrainUtil.width (TerrainUtil.header scenario) ->
      exists corner,
        TerrainUtil.corners scenario
          !! Z.to_nat (tr * TerrainUtil.width (TerrainUtil.header scenario) + tc)
        = Some corner /\
        TerrainUtil.corners terrain'
          !! Z.to_nat (tr * TerrainUtil.width (TerrainUtil.header scenario) + tc)
        = Some (if in_brush (JS.floor_div 1 2) 1 0 tc tr
                then App.with_groundTexture corner 9
                else corner).
Proof.
  assert (H1 : grid_ok scenario) by (unfold grid_ok; cbn; lia).
  assert (H2 : 0 <= 1 < TerrainUtil.width (TerrainUtil.header scenario)) by (cbn; lia).
  assert (H3 : 0 <= 0 < TerrainUtil.height (TerrainUtil.header scenario)) by (cbn; lia).
  split; [exact H1|]. split; [exact H2|]. split; [exact H3|].
  apply (handleTerrainPaint_footprint scenario 9 1 1 0 H1 H2 H3).
Defined.


(** ** Edited terrains are still well formed *)

Lemma wf_corner_with_groundTexture (width i : Z) (c : TerrainUtil.Corner) (t : Z) :
  wf_corner width i c -> 0 <= t <= 15 ->
  wf_corner width i (App.with_groundTexture c t).
Proof.
  intros (Hp & Hg & Hw & Hr) Ht. split; [exact Hp|]. split; [exact Hg|].
  split; [exact Hw|].
  destruct Hr as (H1 & H2 & H3 & H4 & H5 & H6 & H7 & H8 & H9 & H10).
  repeat split; cbn; lia.
Qed.

Lemma grid_ok_wf (d : TerrainUtil.W3E) : wf_doc d -> grid_ok d.
Proof.
  intros ((_ & _ & _ & _ & Hw & Hh & Hn) & _).
  split; [lia|]. split; [lia | exact Hn].
Qed.

(** A terrain whose corners are those of a well-formed one with other
    texture slots of the 4-bit range is well formed. *)
Lemma wf_doc_retextured (d d' : TerrainUtil.W3E) :
  wf_doc d ->
  TerrainUtil.header d' = TerrainUtil.header d ->
  length (TerrainUtil.corners d') = length (TerrainUtil.corners d) ->
  (forall (i : nat) c c',
     TerrainUtil.corners d !! i = Some c -> TerrainUtil.corners d' !! i = Some c' ->
     exists t, 0 <= t <= 15 /\ c' = App.with_groundTexture c t) ->
  wf_doc d'.
Proof.
  intros (Hl & Hh & Hc) Eh El Hcs. split; [|split].
  - unfold layout_ok in *. rewrite Eh, El. exact Hl.
  - rewrite Eh. exact Hh.
  - intros i c' Hi. rewrite Eh.
    assert (Hlt : (i < length (TerrainUtil.corners d))%nat).
    { rewrite <- El. apply (lookup_lt_Some _ _ _ Hi). }
    destruct (lookup_lt_is_Some_2 _ _ Hlt) as [c Hc0].
    destruct (Hcs i c c' Hc0 Hi) as (t & Ht & ->).
    apply wf_corner_with_groundTexture; [apply Hc, Hc0 | exact Ht].
Qed.

(** Every index below [width * height] is the index of a cell. *)
Lemma index_is_cell (width height : Z) (i : nat) :
  0 <= width -> 0 <= height -> Z.of_nat i < width * height ->
  0 <= Z.of_nat i / width < height /\ 0 <= Z.of_nat i mod width < width /\
  Z.to_nat (Z.of_nat i / width * width + Z.of_nat i mod width) = i.
Proof.
  intros Hw Hh Hi. assert (0 < width) by nia.
  pose proof (Z.mod_pos_bound (Z.of_nat i) width ltac:(lia)) as Hm.
  pose proof (Z.div_mod (Z.of_nat i) width ltac:(lia)) as Hd.
  assert (0 <= Z.of_nat i / width) by (apply Z.div_pos; lia).
  split; [split; [lia|]|split; [exact Hm|]].
  - apply Z.div_lt_upper_bound; lia.
  - rewrite Z.mul_comm. rewrite <- Hd. apply Nat2Z.id.
Qed.

Lemma nearest_loop_in (P : Z -> Prop) (ms : list (App.ColorMapping * App.RGB))
    (r g b : Z) :
  Forall (fun x => P (App.slotIndex (fst x))) ms ->
  forall minDistance bestSlot,
    P bestSlot -> P (App.nearest_loop ms r g b minDistance bestSlot).
Proof.
  induction 1 as [|[m c] ms Hm _ IH]; intros md best Hb; [exact Hb|].
  cbn [App.nearest_loop].
  destruct (App.below _ md); apply IH; [exact Hm | exact Hb].
Qed.

Lemma activeMappings_slots (P : Z -> Prop) (mappings : list App.ColorMapping) :
  Forall (fun m => P (App.slotIndex m)) mappings ->
  Forall (fun x => P (App.slotIndex (fst x))) (App.activeMappings mappings).
Proof.
  unfold App.activeMappings. induction 1 as [|m l Hm _ IH]; [apply Forall_nil_2|].
  cbn [List.filter]. destruct (App.active m); [|exact IH].
  cbn [List.map]. apply Forall_cons_2; [exact Hm | exact IH].
Qed.

Lemma cell_slot_range (mappings : list App.ColorMapping) (imgData : list Z)
    (width height row col : Z) (c : TerrainUtil.Corner) :
  Forall (fun m => 0 <= App.slotIndex m <= 15) mappings ->
  0 <= TerrainUtil.groundTexture c <= 15 ->
  0 <= cell_slot (App.activeMappings mappings) imgData width height row col c <= 15.
Proof.
  intros Hm Hc. unfold cell_slot. cbv zeta.
  destruct (App.at_index imgData _) as [r|]; [|exact Hc].
  destruct (App.at_index imgData _) as [g|]; [|exact Hc].
  destruct (App.at_index imgData _) as [b|]; [|exact Hc].
  apply (nearest_loop_in (fun t => 0 <= t <= 15)); [|exact Hc].
  apply (activeMappings_slots (fun t => 0 <= t <= 15)), Hm.
Qed.

Lemma round_trip_wf (d : TerrainUtil.W3E) :
  wf_doc d ->
  exists buf, TerrainUtil.encodeW3e d = Return buf /\ TerrainUtil.decodeW3e buf = Return d.
Proof.
  intros Hd. destruct (decode_encode d (proj1 Hd)) as (buf & He & Hdec).
  exists buf. split; [exact He|]. rewrite Hdec, (recode_id d Hd). reflexivity.
Qed.

Lemma in_range_of_wf (d : TerrainUtil.W3E) (i : nat) (c : TerrainUtil.Corner) :
  wf_doc d -> TerrainUtil.corners d !! i = Some c ->
  0 <= TerrainUtil.groundTexture c <= 15.
Proof.
  intros (_ & _ & Hc) Hi. destruct (Hc i c Hi) as (_ & _ & _ & Hr). apply Hr.
Qed.

(** The index [i] of an array of [width * height] corners, as a cell. *)
Lemma index_cell_of_wf (d : TerrainUtil.W3E) (i : nat) (c : TerrainUtil.Corner) :
  grid_ok d -> TerrainUtil.corners d !! i = Some c ->
  0 <= Z.of_nat i / TerrainUtil.width (TerrainUtil.header d)
    < TerrainUtil.height (TerrainUtil.header d) /\
  0 <= Z.of_nat i mod TerrainUtil.width (TerrainUtil.header d)
    < TerrainUtil.width (TerrainUtil.header d) /\
  Z.to_nat (Z.of_nat i / TerrainUtil.width (TerrainUtil.header d)
            * TerrainUtil.width (TerrainUtil.header d)
            + Z.of_nat i mod TerrainUtil.width (TerrainUtil.header d)) = i.
Proof.
  intros (Hw & Hh & Hn) Hi. pose proof (lookup_lt_Some _ _ _ Hi).
  apply index_is_cell; lia.
Qed.


(** X22. Painting over: a second stroke at the same place and with the
    same brush leaves no trace of the first. Painting with [first] and
    then with [second] gives the terrain that painting with [second]
    alone gives; in particular a stroke repeated changes nothing. *)
Theorem paint_over (terrain : TerrainUtil.W3E) (first second brushSize col row : Z) :
  grid_ok terrain ->
  0 <= col < TerrainUtil.width (TerrainUtil.header terrain) ->
  0 <= row < TerrainUtil.height (TerrainUtil.header terrain) ->
  exists terrain1 terrain2,
    App.handleTerrainPaint terrain first brushSize col row = Some terrain1 /\
    App.handleTerrainPaint terrain1 second brushSize col row = Some terrain2 /\
    App.handleTerrainPaint terrain second brushSize col row = Some terrain2.
Proof.
  intros Hgrid Hc Hr.
  destruct (paint_cells terrain first brushSize col row Hgrid Hc Hr)
    as (t1 & E1 & Hh1 & Hl1 & C1).
  destruct (paint_cells terrain second brushSize col row Hgrid Hc Hr)
    as (t & E & Hh & Hl & C).
  assert (Hgrid1 : grid_ok t1).
  { unfold grid_ok in *. rewrite Hh1, Hl1. exact Hgrid. }
  assert (Hc1 : 0 <= col < TerrainUtil.width (TerrainUtil.header t1))
    by (rewrite Hh1; exact Hc).
  assert (Hr1 : 0 <= row < TerrainUtil.height (TerrainUtil.header t1))
    by (rewrite Hh1; exact Hr).
  destruct (paint_cells t1 second brushSize col row Hgrid1 Hc1 Hr1)
    as (t2 & E2 & Hh2 & Hl2 & C2).
  exists t1, t2. split; [exact E1|]. split; [exact E2|].
  rewrite E. f_equal.
  destruct t as [h cs], t2 as [h2 cs2].
  cbn [TerrainUtil.header TerrainUtil.corners] in *.
  rewrite Hh1 in *. subst h h2. f_equal.
  apply list_eq. intros i.
  destruct (TerrainUtil.corners terrain !! i) as [c|] eqn:Hi.
  - destruct (index_cell_of_wf terrain i c Hgrid Hi) as (Htr & Htc & Ei).
    destruct (C1 _ _ Htr Htc) as (c0 & A0 & A1).
    destruct (C _ _ Htr Htc) as (c0' & B0 & B1).
    destruct (C2 _ _ Htr Htc) as (c1 & D0 & D1).
    rewrite Ei in *. rewrite Hi in A0, B0.
    injection A0 as <-. injection B0 as <-.
    rewrite A1 in D0. injection D0 as <-.
    rewrite B1, D1. f_equal.
    destruct (in_brush _ col row _ _); reflexivity.
  - apply lookup_ge_None in Hi.
    rewrite (proj2 (lookup_ge_None cs i)) by lia.
    rewrite (proj2 (lookup_ge_None cs2 i)) by lia.
    reflexivity.
Qed.

Lemma paint_over_witness :
  grid_ok scenario /\
  0 <= 1 < TerrainUtil.width (TerrainUtil.header scenario) /\
  0 <= 0 < TerrainUtil.height (TerrainUtil.header scenario) /\
  exists terrain1 terrain2,
    App.handleTerrainPaint scenario 9 1 1 0 = Some terrain1 /\
    App.handleTerrainPaint terrain1 4 1 1 0 = Some terrain2 /\
    App.handleTerrainPaint scenario 4 1 1 0 = Some terrain2.
Proof.
  assert (H1 : grid_ok scenario) by (unfold grid_ok; cbn; lia).
  assert (H2 : 0 <= 1 < TerrainUtil.width (TerrainUtil.header scenario)) by (cbn; lia).
  assert (H3 : 0 <= 0 < TerrainUtil.height (TerrainUtil.header scenario)) by (cbn; lia).
  split; [exact H1|]. split; [exact H2|]. split; [exact H3|].
  apply (paint_over scenario 9 4 1 1 0 H1 H2 H3).
Defined.


(** X23. What is painted is what is saved: painting a well-formed
    terrain with a texture slot of the 4-bit range gives a terrain that
    [encodeW3e] then [decodeW3e] reproduces exactly. *)
Theorem paint_then_export (terrain : TerrainUtil.W3E)
    (selectedTexture brushSize col row : Z) :
  wf_doc terrain ->
  0 <= selectedTexture <= 15 ->
  0 <= col < TerrainUtil.width (TerrainUtil.header terrain) ->
  0 <= row < TerrainUtil.height (TerrainUtil.header terrain) ->
  exists terrain' buf,
    App.handleTerrainPaint terrain selectedTexture brushSize col row = Some terrain' /\
    TerrainUtil.encodeW3e terrain' = Return buf /\
    TerrainUtil.decodeW3e buf = Return terrain'.
Proof.
  intros Hwf Hsel Hc Hr.
  pose proof (grid_ok_wf _ Hwf) as Hgrid.
  destruct (paint_cells terrain selectedTexture brushSize col row Hgrid Hc Hr)
    as (t' & E & Hh & Hlen & Hcells).
  assert (Hwf' : wf_doc t').
  { apply (wf_doc_retextured terrain t' Hwf Hh Hlen).
    intros i c c' Hi Hi'.
    destruct (index_cell_of_wf terrain i c Hgrid Hi) as (Htr & Htc & Ei).
    destruct (Hcells _ _ Htr Htc) as (c0 & H0 & H1).
    rewrite Ei in H0, H1. rewrite Hi in H0. injection H0 as <-.
    rewrite Hi' in H1. injection H1 as ->.
    destruct (in_brush _ col row _ _).
    - exists selectedTexture. split; [exact Hsel | reflexivity].
    - exists (TerrainUtil.groundTexture c).
      split; [apply (in_range_of_wf terrain i c Hwf Hi)|].
      symmetry. apply with_groundTexture_same. }
  destruct (round_trip_wf t' Hwf') as (buf & He & Hd).
  exists t', buf. split; [exact E|]. split; [exact He | exact Hd].
Qed.

Lemma paint_then_export_witness :
  wf_doc scenario /\
  0 <= 9 <= 15 /\
  0 <= 1 < TerrainUtil.width (TerrainUtil.header scenario) /\
  0 <= 0 < TerrainUtil.height (TerrainUtil.header scenario) /\
  exists terrain' buf,
    App.handleTerrainPaint scenario 9 3 1 0 = Some terrain' /\
    TerrainUtil.encodeW3e terrain' = Return buf /\
    TerrainUtil.decodeW3e buf = Return terrain'.
Proof.
  assert (H2 : 0 <= 9 <= 15) by lia.
  assert (H3 : 0 <= 1 < TerrainUtil.width (TerrainUtil.header scenario)) by (cbn; lia).
  assert (H4 : 0 <= 0 < TerrainUtil.height (TerrainUtil.header scenario)) by (cbn; lia).
  split; [exact scenario_wf|]. split; [exact H2|]. split; [exact H3|]. split; [exact H4|].
  apply (paint_then_export scenario 9 3 1 0 scenario_wf H2 H3 H4).
Defined.


